(* ===== verification/_CoqProject ===== *)
-Q . S2P
Prelude.v
GoLib.v
Effects.v
Types.v
Samples.v
KubeTypes.v
Kube.v
KubeLib.v
Footprint.v
Status.v
Executor.v
ExecutorFacts.v
Shell.v
Manager.v
RiakEnv.v
Membership.v
Grants.v
BucketTypes.v
Rollout.v
RolloutFacts.v
RolloutSystem.v
Tls.v
Trust.v
TrustFacts.v
Monitoring.v
BucketController.v
BucketFacts.v
UserController.v
StatefulSet.v
StatefulSetFacts.v
ClusterController.v
Footprints.v
UserFacts.v
ClusterFacts.v
Metrics.v
Conflicts.v
Wiring.v
Queue.v
QueueFacts.v
Heap.v
DeepCopy.v
DeepCopyFacts.v
Convergence.v
Provisioning.v
Shared.v
System.v
Deletion.v
Fleet.v
Upgrade.v
Soak.v
SoakFacts.v
Verify.v
VerifyFacts.v
VerifyRing.v
VerifyPrint.v
VerifyAll.v
Harness.v
HarnessFacts.v
