(* ===== verification/Prelude.v ===== *)
(** * OpenRiak operator: a verification development

    The operator is a Kubernetes controller, written in Go, that runs Riak clusters. A
    user applies three custom resources, RiakCluster, RiakBucket and RiakUser
    ([src/api/v1]); a controller for each ([src/internal/controller]) reads it, compares
    it with what exists and moves the world one step closer: it writes StatefulSets,
    Services, Secrets and certificates through the Kubernetes API, and runs [riak-admin]
    inside the pods through [kubectl exec] ([src/internal/riak]). Every call may fail, the
    next reconcile starts from scratch, and nothing but the API objects and Riak itself
    keeps state between reconciles.

    ** How the code is modelled

    A Go function that makes no call is a Rocq function. A function that calls the API
    server, [kubectl] or the clock is a program of the free monad [prog] ([Effects.v]):
    [Ret] or a call and a continuation over its reply. The calls are the type [api]
    ([Kube.v]): one constructor per client method ([AGet], [AList], [ACreate], [AUpdate],
    [AStatusUpdate], [APatch], [ADelete], [ACreateOrUpdate]), [ARun] for [exec.Command] and
    [ANow] for [time.Now]. A status or object that the Go code mutates in place is passed
    on explicitly: a write returns the stored object, which is what client-go decodes into
    the argument. Errors are [res] (a value or an error) or [option error].

    A property of a program is a weakest precondition [wp E p Q s] against an environment
    [E]: what calls are [allowed] in a state, and how a call may answer and change the
    state ([step]). Nothing is assumed of a reply unless the environment says so.
    [trace_env] answers anything and keeps the history; the other environments model the
    part of the world the component acts on. [wp_exec] relates [wp] to executions: on
    every run of the program each call is allowed and the result satisfies [Q]. [run]
    executes a program against a concrete server, which is how the witnesses evaluate the
    controllers on concrete objects. A program is a finite tree, so every modelled
    function returns for every sequence of replies: loops over lists ([for_each],
    fixpoints over pods, lines or certificates) are structural, and the PEM loop has the
    length of its input as fuel, which [pem_consumes] makes enough. Only the loops of the test
    harness that wait or draw have fuel of their own; [stages_end] says how much is enough.

    ** The files

    - [Prelude.v]: tactics, the hint database, 32-bit integers, lists.
    - [GoLib.v]: the functions of Go's [strings], [strconv], [sort] and [fmt] that the code
      uses, with their laws. Strings are byte strings; case mapping is ASCII.
    - [Effects.v], [Kube.v], [KubeTypes.v]: programs, environments, calls, objects.
    - [KubeLib.v]: a class for the apimachinery and controller-runtime helpers (conditions,
      finalizers, owner references), their documented laws, and an implementation.
    - [Footprint.v], [Footprints.v]: which calls a component may make, and lifting that to
      an environment.
    - [Types.v]: [src/api/v1]. [Samples.v]: concrete objects for runs.
    - [Status.v]: [internal/controller/status.go].
    - [Executor.v], [ExecutorFacts.v]: [internal/riak/executor.go], its parsers and their
      inverses; [Shell.v]: from what a process prints to what they read. [RiakEnv.v]:
      environments that answer riak-admin.
    - [Manager.v]: [internal/riak/manager.go]; [Membership.v], [Grants.v] and
      [BucketTypes.v] are its three services, each against a model of Riak's side.
    - [Rollout.v], [RolloutFacts.v], [RolloutSystem.v]: [internal/controller/rollout.go],
      one step of it, and the operator and the StatefulSet controller as a transition
      system.
    - [Tls.v], [Trust.v], [TrustFacts.v]: [tls.go] and [trust.go], over an interface to the
      x509 library. [Monitoring.v]: [monitoring.go]. [Metrics.v]: [metrics.go].
    - [BucketController.v], [UserController.v] with [BucketFacts.v], [UserFacts.v]:
      [riakbucket_controller.go], [riakuser_controller.go].
    - [StatefulSet.v], [StatefulSetFacts.v]: the builders of [riakcluster_controller.go];
      [ClusterController.v], [ClusterFacts.v]: the rest of it.
    - [Conflicts.v]: reconciles of the three controllers interleaved on one cluster.
    - [Wiring.v]: [SetupWithManager] of the three controllers and [cmd/main.go]. [Queue.v]: the
      work queue of a controller, its cache and the API server as a transition system;
      [QueueFacts.v]: the three controllers run by it.
    - [Heap.v]: memory, with pointers, slices and maps; [DeepCopy.v]:
      [api/v1/zz_generated.deepcopy.go] over it, [DeepCopyFacts.v]: its correctness. It is
      what allows the other files to treat objects as values.
    - [Convergence.v]: the whole of [Reconcile] for a cluster against a world that answers;
      [Provisioning.v]: likewise for a bucket or a user of a cluster, Ready or not.
    - [Shared.v]: any number of buckets and users over one Riak; [System.v]: the three
      controllers and their queues over it.
      [Deletion.v]: a user that is being deleted, with the clock and a Riak that may fail.
      [Fleet.v]: [Reconcile] for a cluster together with its StatefulSet, [Upgrade.v]: it and
      the StatefulSet controller as a transition system.
    - [Soak.v], [SoakFacts.v]: [test/scale/soak_policy.go], the scaler of the soak test.
      [Verify.v], [VerifyFacts.v], [VerifyRing.v], [VerifyPrint.v], [VerifyAll.v]:
      [test/scale/verify.go], the harness that reads Riak back, and what Riak prints for it;
      [Harness.v], [HarnessFacts.v]: its stages that edit the specs, wait for the operator and
      delete users.

    Definitions keep the names of the Go functions. A method that exists on both the
    executor and the manager has the suffix [_ex] in [Executor.v]; a piece of a long Go
    function has a name of its own in lower case.

    ** What is shown

    - Rolling restarts. One step never lowers the partition by more than one, and only
      when the pods already restarted are Ready, on the new revision and the ring is
      settled ([rollout_step_safe]). Against a StatefulSet controller that does what the
      partition lets it, in any order and at any time: at most one node is between revisions
      ([upgrade_one_at_a_time]), and a changed spec reaches every node, also when it is changed
      in the middle of a rollout, where calls succeed and no transfers are pending
      ([upgrade_completes]); but one that is changed back can leave
      nodes on the abandoned revision for good ([revert_leaves_nodes]). The same of the nodes
      alone, going up and down one by one: [rollout_one_at_a_time], [rollout_can_finish],
      [rollout_progress]. Re-applying the spec restarts nothing ([stsPartition_holds],
      [statefulset_stable]); waiting is reported ([markBlocked_stall]).
    - Membership. Nodes are joined only when alone, to the seed, and committed after a
      plan ([membership_safe]); two passes form the ring ([membership_converges]); staged
      joins of an interrupted pass are left ([membership_staged_left]).
    - Convergence. With an API server that answers and a Riak that carries out its commands,
      every pass runs to its end and, once the pods are Ready, the second leaves the cluster
      Ready with a ring of exactly its nodes ([cluster_converges]); a node that the spec no
      longer asks for stays in the ring and keeps the cluster from Ready for ever, unless it is
      scaled down to one node, when nothing shows it ([removed_node_blocks]). On a Ready cluster
      one pass serves a bucket or a user, whatever Riak held; on any other it puts them off and
      comes back ([ReconcileBucket_site], [ReconcileUser_site]). It leaves all other buckets and
      users as they are ([bucket_lift], [user_lift]). Of the three controllers together, driven
      by their own queues over any number of buckets and users: what is not served is in a queue
      ([q_inv]), and once the pods are Ready, two passes of the cluster and one of every queue
      serve everything ([system_converges], which says what grants it takes). Buckets that share
      a bucket type must agree on it for that: others undo each other
      ([shared_type_overwritten]).
    - Riak's side. Grants that the print-grants table shows without ambiguity ([state_ok])
      converge to exactly the spec and never exceed it on the way
      ([GrantUserPermissions_refines]); a bucket type ends up active with the properties
      asked for ([CreateBucketType_active], [effective_properties_reported]). Both hold with
      commands that fail at any point, and succeed with commands that do not.
    - What is reported. Ready is claimed of a cluster, bucket or user, by its phase and its
      condition together, only when it is so ([cluster_ready_sound], [bucket_ready_sound],
      [user_reconcile_sound]); a repeated outcome writes nothing ([outcomes_recorded_once]); the
      metrics count exactly and are as described ([metrics_exact], [metrics_distinct]). The
      security flag, which two controllers write, survives every interleaving of them
      ([security_flag_kept]).
    - Order and objects. A reconcile of a cluster touches its objects in dependency order
      ([cluster_reconcile_order]); the storage mode cannot change ([storage_mode_kept]);
      the pod template and the Services fit together ([statefulset_well_formed],
      [services_reach_pods]); exactly the selected monitor exists
      ([reconcileScrapeObject_exact]).
    - Trust. The merged bundle holds each certificate once ([mergeCABundle_correct]), the
      trust Secret is only written with it ([reconcileTrustBundle_safe]), and an external
      certificate is accepted only when it verifies ([external_certificate_sound]).
    - Text. The parsers read back what Riak prints ([member_status_roundtrip],
      [print_grants_roundtrip], [transfers_idle_iff], [podOrdinal_roundtrip],
      [riak_config_roundtrip]); trimming the output of a command changes nothing they read, and
      a failed process is an error with what it wrote to stderr ([command_reply_read]).
    - The loop around [Reconcile]. However edits, events, requeues, errors and restarts
      interleave, a controller that sleeps has left its object as the current spec wants
      ([no_lost_wakeup]); only a user can be left Failed, by a cache older than the controller's
      own writes ([stale_ready_stays_failed]). A deep copy of an object of the cache is equal to
      it and shares no memory with it ([deep_copy_separate]). The manager starts with all three
      controllers or not at all ([main_starts_complete]), and its servers are restricted as the
      flags say ([servers_restricted]).
    - The test harness. Its report does not depend on the order of its goroutines and is empty
      exactly when every node holds what the specs ask: the grants that the operator
      establishes, the properties that it sends, an evenly spread ring ([verify_all_exact],
      [told_exact], [expectedBucketProps_sent]). The stages that change the cluster end, by a
      poll after their timeouts, and edit only what they may, to what the operator accepts
      ([stages_end]); the soak scaler stays within its limits and acts finitely often
      ([soak_scaler_bounded]), and decides the cases of its own tests as they say
      ([TestDecide]).
    - Deletion. A user that is deleted is gone within fourteen passes, whatever Riak does,
      and leaves nothing behind in a Riak that obeys ([user_deletion_ends]); one never recorded
      as created is released without asking Riak ([unrecorded_user_left]).

    ** Assumptions

    What is outside the repository is a parameter: [KubeLib] with [KubeLibLaws], [GoX509] with
    [GoX509Laws], [GoJson] with [GoJsonLaws], [ControllerRuntime] with [ControllerRuntimeLaws],
    [GoLibTypes] with [GoLibTypesLaws], [Quantity] with [QuantityLaws], [GoFloat] with
    [GoFloatLaws], each with an instance that satisfies its laws. [Queue.v] has a parameter for
    whether the cache holds the controller's own writes whenever it answers, which
    controller-runtime does not promise: without it, reads may be older than what the controller
    has stored. The models of Riak and of the StatefulSet controller are the environments of the
    theorems; each states in its file which commands it knows and what they do.

    ** Not modelled

    The parsing of flags, the registries of metrics and of API types (library calls with no
    logic here), logging, contexts and timeouts, RBAC markers, the wording of errors produced by
    libraries, the embedded example, and the parts of the scale test that set up a live cluster
    and report on it. In [System.v] a pass is one step, so that controllers interleave between
    passes, and there is one cluster; an object that is deleted goes in one step. It is
    [Conflicts.v] and [Queue.v] that interleave within a pass, and [Deletion.v] that follows a
    deletion. In [Upgrade.v], too, a pass is one step, between the steps of the StatefulSet
    controller. Most theorems are about one reconcile, with any replies, so that what other
    clients do meanwhile shows as replies; [Conflicts.v] interleaves reconciles on the versions
    of one RiakCluster, which is never deleted there. Go's map iteration order is a parameter
    where the result could depend on it ([config_env]) and otherwise fixed to one order
    ([ConfigureNode], [emitGroups]). *)
From stdpp Require Export prelude base list gmap strings pretty sorting.
From stdpp Require Import options.
From Stdlib Require Export Ascii.
From Stdlib Require String.
#[export] Set Warnings "-clear-no-such-hyp".
#[export] Set Default Goal Selector "1".

(** ** Generic tactics *)

(** Case analysis on the innermost [match] or [if] of the goal. *)
Ltac case_goal :=
  match goal with
  | |- context [match ?x with _ => _ end] => destruct x eqn:?
  end.

Ltac bool_simpl :=
  rewrite ?andb_true_iff, ?andb_false_iff, ?orb_true_iff, ?orb_false_iff,
    ?negb_true_iff, ?negb_false_iff in *.

(** ** Hint database of the development *)
Create HintDb operator.

(** ** Machine integers

    [int32] and [int64] values are kept as [Z]; [wrap32] is the two's complement
    wrap-around that Go applies to every 32-bit arithmetic result and conversion. *)
Definition int32_min : Z := - 2 ^ 31.
Definition int32_max : Z := 2 ^ 31 - 1.
Definition wrap32 (z : Z) : Z := (z + 2 ^ 31) `mod` 2 ^ 32 - 2 ^ 31.
Definition in_int32 (z : Z) : Prop := (int32_min ≤ z ≤ int32_max)%Z.

#[global] Instance in_int32_dec z : Decision (in_int32 z).
Proof. unfold in_int32. apply _. Defined.

Lemma wrap32_id z : in_int32 z → wrap32 z = z.
Proof.
  unfold in_int32, int32_min, int32_max, wrap32. intros H.
  rewrite Z.mod_small; lia.
Qed.
Lemma wrap32_range z : in_int32 (wrap32 z).
Proof.
  unfold in_int32, int32_min, int32_max, wrap32.
  pose proof (Z.mod_pos_bound (z + 2 ^ 31) (2 ^ 32)). lia.
Qed.

(** ** Lists *)
Section lists.
Context {A B : Type}.

Lemma foldl_snoc {C} (f : C → A → C) c l x :
  foldl f c (l ++ [x]) = f (foldl f c l) x.
Proof. by rewrite foldl_app. Qed.

Lemma existsb_elem_of (f : A → bool) l :
  existsb f l = true ↔ ∃ x, x ∈ l ∧ f x = true.
Proof.
  rewrite existsb_exists. by setoid_rewrite list_elem_of_In.
Qed.

Lemma forallb_elem_of (f : A → bool) l :
  forallb f l = true ↔ ∀ x, x ∈ l → f x = true.
Proof.
  rewrite forallb_forall. by setoid_rewrite list_elem_of_In.
Qed.
End lists.
