(* ===== verification/GoLib.v ===== *)
(** * The part of Go's standard library the operator uses

    Packages [strings], [strconv], [sort] and the verbs of [fmt.Sprintf] the source
    relies on, as executable functions on [string] (a Go string is a sequence of bytes).
    White space is ASCII white space: the two Latin-1 and the other Unicode spaces that
    [strings.Fields] and [strings.TrimSpace] also recognise are not modelled. *)
From S2P Require Import Prelude.

(** ** String algebra *)
Module Str.
Lemma app_nil_l s : "" +:+ s = s.
Proof. reflexivity. Qed.
Lemma app_cons a s t : String a s +:+ t = String a (s +:+ t).
Proof. reflexivity. Qed.
Lemma app_nil_r s : s +:+ "" = s.
Proof. induction s as [|a s IH]; [done|]. by rewrite app_cons, IH. Qed.
Lemma app_assoc s t u : (s +:+ t) +:+ u = s +:+ (t +:+ u).
Proof. induction s as [|a s IH]; [done|]. by rewrite !app_cons, IH. Qed.
Lemma app_length s t : String.length (s +:+ t) = String.length s + String.length t.
Proof. induction s as [|a s IH]; [done|]. rewrite app_cons. simpl. by rewrite IH. Qed.
Lemma app_eq_nil s t : s +:+ t = "" → s = "" ∧ t = "".
Proof. destruct s; [done|]. by rewrite app_cons. Qed.

(** Every byte of [s] satisfies [f]. *)
Fixpoint all (f : ascii → bool) (s : string) : bool :=
  match s with
  | EmptyString => true
  | String a s' => f a && all f s'
  end.
Lemma all_app f s t : all f (s +:+ t) = all f s && all f t.
Proof.
  induction s as [|a s IH]; [done|]. rewrite app_cons. simpl.
  by rewrite IH, andb_assoc.
Qed.
Lemma all_impl (f g : ascii → bool) s :
  (∀ a, f a = true → g a = true) → all f s = true → all g s = true.
Proof.
  intros Hfg. induction s as [|a s IH]; simpl; [done|].
  rewrite !andb_true_iff. naive_solver.
Qed.

Fixpoint map (f : ascii → ascii) (s : string) : string :=
  match s with
  | EmptyString => EmptyString
  | String a s' => String (f a) (map f s')
  end.
Lemma map_app f s t : map f (s +:+ t) = map f s +:+ map f t.
Proof. induction s as [|a s IH]; [done|]. rewrite !app_cons. simpl. by rewrite IH. Qed.
End Str.

(** Normal form of a concatenation: right-nested, literals spelled out. *)
Create Rewrite HintDb str.
#[export] Hint Rewrite Str.app_assoc Str.app_cons Str.app_nil_l Str.app_nil_r : str.
Ltac str_norm := autorewrite with str in *.

Definition nl : ascii := "010"%char.
Definition dquote : string := String (ascii_of_nat 34) "".
Definition sep_of (c : ascii) : string := String c "".
Abbreviation is_space := Ascii.is_space.

(** ** Package strings *)

(** [strings.HasPrefix], [strings.HasSuffix], [strings.Contains] *)
Definition HasPrefix (s p : string) : bool := String.prefix p s.
Fixpoint HasSuffix (s p : string) : bool :=
  String.eqb s p ||
  match s with
  | EmptyString => false
  | String _ s' => HasSuffix s' p
  end.
Fixpoint Contains (s sub : string) : bool :=
  HasPrefix s sub ||
  match s with
  | EmptyString => false
  | String _ s' => Contains s' sub
  end.

(** [strings.Index], as the text from the first occurrence of [sub] on, and the text before it. *)
Fixpoint from_index (s sub : string) : option string :=
  if HasPrefix s sub then Some s
  else match s with "" => None | String _ s' => from_index s' sub end.
Fixpoint before_index (s sub : string) : option string :=
  if HasPrefix s sub then Some ""
  else match s with "" => None | String a s' => String a <$> before_index s' sub end.
(** [s[n:]] *)
Definition drop_bytes (n : nat) (s : string) : string := String.substring n (String.length s - n) s.

(** [strings.Split] with a one-byte separator (the only kind the source uses). *)
Fixpoint split_by (f : ascii → bool) (s : string) : list string :=
  match s with
  | EmptyString => [""]
  | String a s' =>
      if f a then "" :: split_by f s'
      else match split_by f s' with
           | h :: t => String a h :: t
           | [] => [String a ""]
           end
  end.
Definition is_byte (c : ascii) (a : ascii) : bool := Ascii.eqb a c.
Definition Split (s : string) (c : ascii) : list string := split_by (is_byte c) s.

(** [strings.Fields]: the maximal runs of non-space bytes. *)
Definition Fields (s : string) : list string :=
  filter (λ w, w ≠ "") (split_by is_space s).

Fixpoint Join (l : list string) (sep : string) : string :=
  match l with
  | [] => ""
  | [x] => x
  | x :: l' => x +:+ sep +:+ Join l' sep
  end.

Fixpoint trim_left (f : ascii → bool) (s : string) : string :=
  match s with
  | EmptyString => ""
  | String a s' => if f a then trim_left f s' else s
  end.
Fixpoint trim_right (f : ascii → bool) (s : string) : string :=
  match s with
  | EmptyString => ""
  | String a s' =>
      match trim_right f s' with
      | EmptyString => if f a then "" else String a ""
      | r => String a r
      end
  end.
(** [strings.TrimSpace] and [strings.Trim] with a one-byte cutset. *)
Definition trim (f : ascii → bool) (s : string) : string := trim_right f (trim_left f s).
Definition TrimSpace (s : string) : string := trim is_space s.
Definition TrimByte (s : string) (c : ascii) : string := trim (is_byte c) s.

Definition lower_byte (a : ascii) : ascii :=
  let n := nat_of_ascii a in
  if (65 <=? n) && (n <=? 90) then ascii_of_nat (n + 32) else a.
Definition upper_byte (a : ascii) : ascii :=
  let n := nat_of_ascii a in
  if (97 <=? n) && (n <=? 122) then ascii_of_nat (n - 32) else a.
Definition ToLower (s : string) : string := Str.map lower_byte s.
Definition ToUpper (s : string) : string := Str.map upper_byte s.

(** [strings.ReplaceAll] of a single byte. *)
Fixpoint ReplaceByte (s : string) (c : ascii) (by_ : string) : string :=
  match s with
  | EmptyString => ""
  | String a s' =>
      (if is_byte c a then by_ else String a "") +:+ ReplaceByte s' c by_
  end.

(** [strings.LastIndex] followed by the slice after it: the bytes after the last
    occurrence of [c], [None] when there is none. *)
Fixpoint after_last (s : string) (c : ascii) : option string :=
  match s with
  | EmptyString => None
  | String a s' =>
      match after_last s' c with
      | Some r => Some r
      | None => if is_byte c a then Some s' else None
      end
  end.

(** The prefix of at most [n] bytes ([s[:n]] for [n <= len(s)]). *)
Fixpoint take_bytes (n : nat) (s : string) : string :=
  match n, s with
  | S n', String a s' => String a (take_bytes n' s')
  | _, _ => ""
  end.

(** ** Package strconv *)
Definition Itoa (z : Z) : string := pretty z.

Definition digit_of (a : ascii) : option N := N.of_nat <$> Ascii.is_nat a.
Fixpoint parse_digits (acc : N) (s : string) : option N :=
  match s with
  | EmptyString => Some acc
  | String a s' => d ← digit_of a; parse_digits (10 * acc + d) s'
  end.
Definition parse_unsigned (s : string) : option N :=
  match s with EmptyString => None | _ => parse_digits 0 s end.
(** [strconv.ParseInt(s, 10, 32)]: [None] on a syntax or a range error. *)
Definition ParseInt32 (s : string) : option Z :=
  z ← match s with
      | String "-" s' => Z.opp <$> (Z.of_N <$> parse_unsigned s')
      | String "+" s' => Z.of_N <$> parse_unsigned s'
      | _ => Z.of_N <$> parse_unsigned s
      end;
  if bool_decide (in_int32 z) then Some z else None.

(** ** fmt verbs *)
(** [%q]: a double-quoted string with Go escapes. *)
Definition hex_digit (n : nat) : ascii :=
  ascii_of_nat (if n <? 10 then 48 + n else 87 + n).
Definition quote_byte (a : ascii) : string :=
  let n := nat_of_ascii a in
  match n with
  | 7 => "\a" | 8 => "\b" | 9 => "\t" | 10 => "\n" | 11 => "\v" | 12 => "\f" | 13 => "\r"
  | 34 => "\" +:+ dquote
  | 92 => "\\"
  | _ => if (32 <=? n) && (n <? 127) then String a ""
         else "\x" +:+ String (hex_digit (n / 16)) (String (hex_digit (n mod 16)) "")
  end.
Fixpoint quote_bytes (s : string) : string :=
  match s with
  | EmptyString => ""
  | String a s' => quote_byte a +:+ quote_bytes s'
  end.
Definition Quote (s : string) : string := dquote +:+ quote_bytes s +:+ dquote.
Definition fmt_bool (b : bool) : string := if b then "true" else "false".

(** ** Package sort *)
(** [sort.Strings], and [sort.Slice] by a string key. [sort.Slice] is not stable, so
    its result is determined only when the keys are distinct, which every caller
    guarantees (object names of one kind and namespace). *)
Definition key_le {A} (key : A → string) (x y : A) : Prop := String.le (key x) (key y).
#[global] Instance key_le_dec {A} (key : A → string) : RelDecision (key_le key).
Proof. intros x y. unfold key_le. apply _. Defined.
#[global] Instance key_le_total {A} (key : A → string) : Total (key_le key).
Proof. intros x y. unfold key_le. apply (total String.le). Qed.
#[global] Instance key_le_trans {A} (key : A → string) : Transitive (key_le key).
Proof. intros x y z. unfold key_le. apply transitivity. Qed.
Definition SortBy {A} (key : A → string) (l : list A) : list A := merge_sort (key_le key) l.
Definition SortStrings (l : list string) : list string := SortBy id l.

(** ** Properties of the string functions *)

Lemma HasPrefix_spec s p : HasPrefix s p = true ↔ ∃ t, s = p +:+ t.
Proof.
  unfold HasPrefix. revert s. induction p as [|a p IH]; intros s.
  { split; [intros _; by exists s|by destruct s]. }
  destruct s as [|b s]; simpl.
  { split; [done|]. by intros [t Ht]. }
  destruct (ascii_dec a b) as [->|Hab].
  - rewrite IH. setoid_rewrite Str.app_cons. naive_solver.
  - split; [done|]. intros [t Ht]. rewrite Str.app_cons in Ht. naive_solver.
Qed.

Lemma HasSuffix_spec s p : HasSuffix s p = true ↔ ∃ t, s = t +:+ p.
Proof.
  induction s as [|a s IH]; cbn [HasSuffix]; rewrite orb_true_iff, String.eqb_eq.
  - split.
    + intros [<-|?]; [by exists ""|done].
    + intros [t Ht]. symmetry in Ht. apply Str.app_eq_nil in Ht as [-> ->]. by left.
  - rewrite IH. split.
    + intros [<-|[t ->]]; [by exists ""|]. by exists (String a t).
    + intros [[|b t] Ht]; [left; exact Ht|]. rewrite Str.app_cons in Ht.
      simplify_eq. right. eauto.
Qed.

Lemma Contains_spec s sub : Contains s sub = true ↔ ∃ l r, s = l +:+ sub +:+ r.
Proof.
  induction s as [|a s IH]; cbn [Contains]; rewrite orb_true_iff, HasPrefix_spec.
  - split.
    + intros [[t Ht]|?]; [|done]. by exists "", t.
    + intros (l & r & Ht). symmetry in Ht. apply Str.app_eq_nil in Ht as [-> Ht].
      left. by exists r.
  - rewrite IH. split.
    + intros [[t Ht]|(l & r & ->)]; [by exists "", t|].
      by exists (String a l), r.
    + intros (l & r & Ht). destruct l as [|b l].
      * left. by exists r.
      * rewrite Str.app_cons in Ht. simplify_eq. right. eauto.
Qed.

Lemma Contains_app_l s t sub : Contains s sub = true → Contains (s +:+ t) sub = true.
Proof.
  rewrite !Contains_spec. intros (l & r & ->). exists l, (r +:+ t).
  by rewrite !Str.app_assoc.
Qed.
Lemma Contains_app_r s t sub : Contains t sub = true → Contains (s +:+ t) sub = true.
Proof.
  rewrite !Contains_spec. intros (l & r & ->). exists (s +:+ l), r.
  by rewrite !Str.app_assoc.
Qed.
Lemma Contains_refl s : Contains s s = true.
Proof. apply Contains_spec. exists "", "". by rewrite Str.app_nil_r. Qed.

(** *** Split and Join *)
Section split.
Context (f : ascii → bool).

Lemma split_by_not_nil s : split_by f s ≠ [].
Proof. destruct s; simpl; repeat case_goal; done. Qed.

(** The algebra of splitting: a separator byte concatenates the pieces. *)
Lemma split_by_sep s c t :
  f c = true → split_by f (s +:+ String c t) = split_by f s ++ split_by f t.
Proof.
  intros Hc. induction s as [|a s IH].
  - rewrite Str.app_nil_l. simpl. by rewrite Hc.
  - rewrite Str.app_cons. simpl. rewrite IH.
    destruct (f a); [done|].
    destruct (split_by f s) eqn:Hs; [by apply split_by_not_nil in Hs|done].
Qed.

Lemma split_by_nosep s : Str.all (λ a, negb (f a)) s = true → split_by f s = [s].
Proof.
  induction s as [|a s IH]; simpl; [done|].
  rewrite andb_true_iff, negb_true_iff. intros [-> Hs]. by rewrite IH.
Qed.

Lemma split_by_pieces s w : w ∈ split_by f s → Str.all (λ a, negb (f a)) w = true.
Proof.
  revert w. induction s as [|a s IH]; simpl; intros w.
  { by rewrite list_elem_of_singleton; intros ->. }
  destruct (f a) eqn:Ha.
  { rewrite elem_of_cons. intros [->|?]; auto. }
  destruct (split_by f s) as [|h t] eqn:Hs; [by apply split_by_not_nil in Hs|].
  rewrite elem_of_cons. intros [->|?].
  - simpl. rewrite Ha. simpl. apply IH. by left.
  - apply IH. by right.
Qed.
End split.

Definition no_byte (c : ascii) (s : string) : bool := Str.all (λ a, negb (is_byte c a)) s.

Lemma is_byte_refl c : is_byte c c = true.
Proof. apply Ascii.eqb_refl. Qed.

Lemma Join_cons x y l sep : Join (x :: y :: l) sep = x +:+ sep +:+ Join (y :: l) sep.
Proof. done. Qed.

Lemma Split_Join l c :
  l ≠ [] → Forall (λ s, no_byte c s = true) l → Split (Join l (sep_of c)) c = l.
Proof.
  unfold Split. intros Hl Hf. induction Hf as [|x l Hx Hf IH]; [done|].
  destruct l as [|y l]; [by apply split_by_nosep|].
  rewrite Join_cons.
  change (sep_of c +:+ Join (y :: l) (sep_of c)) with (String c (Join (y :: l) (sep_of c))).
  rewrite split_by_sep, (split_by_nosep _ x), IH by auto using is_byte_refl. done.
Qed.

Lemma Join_Split s c : Join (Split s c) (sep_of c) = s.
Proof.
  unfold Split. induction s as [|a s IH]; simpl; [done|].
  destruct (split_by (is_byte c) s) as [|h t] eqn:Hs; [by apply split_by_not_nil in Hs|].
  destruct (is_byte c a) eqn:Ha.
  - rewrite Join_cons, IH. apply Ascii.eqb_eq in Ha as ->. done.
  - destruct t as [|y t]; [by simpl in *; subst|].
    rewrite Join_cons, Str.app_cons, <-Join_cons. by rewrite IH.
Qed.

(** *** Index *)
Lemma HasPrefix_line c x y sub :
  no_byte c sub = true → HasPrefix (x +:+ String c y) sub = HasPrefix x sub.
Proof.
  unfold HasPrefix. revert x. induction sub as [|a sub IH]; intros x Hs; [by destruct x, y|].
  unfold no_byte in Hs. cbn in Hs. apply andb_true_iff in Hs as [Ha Hs]. apply negb_true_iff in Ha.
  destruct x as [|b x]; [rewrite Str.app_nil_l|rewrite Str.app_cons]; cbn.
  - destruct (ascii_dec a c) as [->|]; [by rewrite is_byte_refl in Ha|done].
  - destruct (ascii_dec a b); [by apply IH|done].
Qed.
(** Lines without [sub] are passed over. *)
Lemma from_index_line c x y sub :
  no_byte c sub = true → Contains x sub = false → from_index (x +:+ String c y) sub = from_index y sub.
Proof.
  intros Hs. induction x as [|a x IH]; cbn [Contains]; intros [Hp Hc]%orb_false_iff.
  - rewrite Str.app_nil_l. cbn [from_index]. rewrite <-(Str.app_nil_l (String c y)), HasPrefix_line, Hp by done. done.
  - rewrite Str.app_cons. cbn [from_index]. rewrite <-Str.app_cons, HasPrefix_line, Hp by done. by apply IH.
Qed.
Lemma before_index_line c x y sub :
  no_byte c sub = true → Contains x sub = false →
  before_index (x +:+ String c y) sub = (λ r, x +:+ String c r) <$> before_index y sub.
Proof.
  intros Hs. induction x as [|a x IH]; cbn [Contains]; intros [Hp Hc]%orb_false_iff.
  - rewrite Str.app_nil_l. cbn [before_index]. rewrite <-(Str.app_nil_l (String c y)), HasPrefix_line, Hp by done. done.
  - rewrite Str.app_cons. cbn [before_index]. rewrite <-Str.app_cons, HasPrefix_line, Hp by done.
    rewrite IH by done. by destruct (before_index y sub).
Qed.
Lemma from_index_here s sub : HasPrefix s sub = true → from_index s sub = Some s.
Proof. intros H. destruct s; cbn [from_index]; by rewrite H. Qed.
Lemma before_index_here s sub : HasPrefix s sub = true → before_index s sub = Some "".
Proof. intros H. destruct s; cbn [before_index]; by rewrite H. Qed.
Lemma HasPrefix_Join l rest c sub : HasPrefix l sub = true → HasPrefix (Join (l :: rest) (sep_of c)) sub = true.
Proof.
  intros [t ->]%HasPrefix_spec. destruct rest as [|x rest]; apply HasPrefix_spec; [by eexists|].
  rewrite Join_cons, Str.app_assoc. by eexists.
Qed.
(** The first line with the prefix, among lines that do not contain it. *)
Lemma from_index_Join pre l rest c sub :
  no_byte c sub = true → Forall (λ x, Contains x sub = false) pre → HasPrefix l sub = true →
  from_index (Join (pre ++ l :: rest) (sep_of c)) sub = Some (Join (l :: rest) (sep_of c)).
Proof.
  intros Hs Hpre Hl. induction Hpre as [|x pre Hx Hpre IH]; [by apply from_index_here, HasPrefix_Join|].
  assert (∃ y ys, pre ++ l :: rest = y :: ys) as (y & ys & He) by (destruct pre; by eexists _, _).
  cbn [app]. rewrite He in *. rewrite Join_cons.
  change (sep_of c +:+ Join (y :: ys) (sep_of c)) with (String c (Join (y :: ys) (sep_of c))).
  by rewrite from_index_line.
Qed.
Lemma before_index_Join pre l rest c sub :
  no_byte c sub = true → Forall (λ x, Contains x sub = false) pre → HasPrefix l sub = true →
  before_index (Join (pre ++ l :: rest) (sep_of c)) sub = Some (Join (pre ++ [""]) (sep_of c)).
Proof.
  intros Hs Hpre Hl. induction Hpre as [|x pre Hx Hpre IH]; [by apply before_index_here, HasPrefix_Join|].
  assert (∃ y ys, pre ++ l :: rest = y :: ys) as (y & ys & He) by (destruct pre; by eexists _, _).
  assert (∃ z zs, pre ++ [""] = z :: zs) as (z & zs & He') by (destruct pre; by eexists _, _).
  cbn [app]. rewrite He, He' in *. rewrite !Join_cons.
  change (sep_of c +:+ Join (y :: ys) (sep_of c)) with (String c (Join (y :: ys) (sep_of c))).
  by rewrite before_index_line, IH.
Qed.

(** *** Fields *)
Definition is_word (s : string) : bool :=
  negb (String.eqb s "") && Str.all (λ a, negb (is_space a)) s.

Lemma is_word_spec s :
  is_word s = true ↔ s ≠ "" ∧ Str.all (λ a, negb (is_space a)) s = true.
Proof. unfold is_word. by rewrite andb_true_iff, negb_true_iff, String.eqb_neq. Qed.

Lemma Fields_sep s c t :
  is_space c = true → Fields (s +:+ String c t) = Fields s ++ Fields t.
Proof. intros Hc. unfold Fields. by rewrite split_by_sep, filter_app. Qed.

Lemma Fields_word s : is_word s = true → Fields s = [s].
Proof.
  rewrite is_word_spec. intros [Hne Hs]. unfold Fields.
  rewrite split_by_nosep by done. by rewrite filter_cons_True.
Qed.

Lemma Fields_words s w : w ∈ Fields s → is_word w = true.
Proof.
  unfold Fields. rewrite list_elem_of_filter, is_word_spec.
  intros [Hne Hw]. eauto using split_by_pieces.
Qed.

Lemma Fields_nil : Fields "" = [].
Proof. done. Qed.

Lemma Fields_Join l : Forall (λ s, is_word s = true) l → Fields (Join l " ") = l.
Proof.
  intros Hf. induction Hf as [|x l Hx Hf IH]; [done|].
  destruct l as [|y l]; [by apply Fields_word|].
  rewrite Join_cons. change (" " +:+ Join (y :: l) " ") with (String " " (Join (y :: l) " ")).
  rewrite Fields_sep by done. by rewrite IH, Fields_word.
Qed.

(** Blank strings are exactly those without fields. *)
Lemma Fields_blank s : Fields s = [] ↔ Str.all is_space s = true.
Proof.
  induction s as [|a s IH]; [done|]. simpl. rewrite andb_true_iff, <-IH.
  unfold Fields. simpl. destruct (is_space a) eqn:Ha.
  { rewrite filter_cons_False by naive_solver. naive_solver. }
  destruct (split_by is_space s) eqn:Hs; [by apply split_by_not_nil in Hs|].
  rewrite filter_cons_True by done. naive_solver.
Qed.

(** *** Trimming *)
Section trim.
Context (f : ascii → bool).

Lemma trim_left_all s t : Str.all f s = true → trim_left f (s +:+ t) = trim_left f t.
Proof.
  induction s as [|a s IH]; [done|]. rewrite Str.app_cons. simpl.
  rewrite andb_true_iff. intros [-> ?]. auto.
Qed.
Lemma trim_right_all s t : Str.all f t = true → trim_right f (s +:+ t) = trim_right f s.
Proof.
  intros Ht. induction s as [|a s IH].
  - rewrite Str.app_nil_l. induction t as [|b t IHt]; [done|]. simpl in *.
    apply andb_true_iff in Ht as [Hb Ht]. by rewrite IHt, Hb by done.
  - rewrite Str.app_cons. simpl. by rewrite IH.
Qed.
Lemma trim_left_none s : Str.all (λ a, negb (f a)) s = true → trim_left f s = s.
Proof. destruct s as [|a s]; [done|]. simpl. by destruct (f a). Qed.
Lemma trim_right_none s : Str.all (λ a, negb (f a)) s = true → trim_right f s = s.
Proof.
  induction s as [|a s IH]; [done|]. simpl. rewrite andb_true_iff, negb_true_iff.
  intros [Ha Hs]. rewrite IH by done. rewrite Ha. by destruct s.
Qed.
(** Padding of cut bytes around a core without any disappears. *)
Lemma trim_pad l s r :
  Str.all f l = true → Str.all f r = true → Str.all (λ a, negb (f a)) s = true →
  trim f (l +:+ s +:+ r) = s.
Proof.
  intros Hl Hr Hs. unfold trim. rewrite trim_left_all by done.
  destruct s as [|a s].
  - rewrite Str.app_nil_l, <-(Str.app_nil_r r), trim_left_all by done. done.
  - rewrite Str.app_cons. simpl in *. apply andb_true_iff in Hs as [Ha Hs].
    apply negb_true_iff in Ha. rewrite Ha. simpl.
    rewrite trim_right_all, trim_right_none by done. rewrite Ha. by destruct s.
Qed.
Lemma trim_none s : Str.all (λ a, negb (f a)) s = true → trim f s = s.
Proof. intros Hs. unfold trim. by rewrite trim_left_none, trim_right_none. Qed.
End trim.

Lemma trim_right_app_none f s t :
  t ≠ "" → Str.all (λ a, negb (f a)) t = true → trim_right f (s +:+ t) = s +:+ t.
Proof.
  intros Hne Ht. induction s as [|a s IH]; [by apply trim_right_none|].
  rewrite Str.app_cons. simpl. rewrite IH.
  destruct (s +:+ t) eqn:Hst; [|done]. by apply Str.app_eq_nil in Hst as [_ ?].
Qed.
(** A frame of cut bytes around a core that starts and ends with other bytes. *)
Lemma trim_frame f c a s t :
  f c = true → f a = false → t ≠ "" → Str.all (λ a, negb (f a)) t = true →
  trim f (String c (String a (s +:+ t +:+ String c ""))) = String a (s +:+ t).
Proof.
  intros Hc Ha Hne Ht. unfold trim. cbn [trim_left]. rewrite Hc, Ha.
  rewrite <-Str.app_assoc, <-Str.app_cons, trim_right_all by (simpl; by rewrite Hc).
  rewrite <-Str.app_cons. by apply trim_right_app_none.
Qed.

Lemma TrimSpace_word s : is_word s = true → TrimSpace s = s.
Proof. rewrite is_word_spec. intros [_ Hs]. by apply trim_none. Qed.

(** Trimming white space does not change the words of a line. *)
Lemma Fields_trim_left s : Fields (trim_left is_space s) = Fields s.
Proof.
  induction s as [|a s IH]; [done|]. simpl.
  destruct (is_space a) eqn:Ha; [|done]. rewrite IH.
  change (String a s) with ("" +:+ String a s). by rewrite Fields_sep.
Qed.
Lemma trim_right_split f s : ∃ r, s = trim_right f s +:+ r ∧ Str.all f r = true.
Proof.
  induction s as [|a s (r & Heq & Hr)]; [by exists ""|]. simpl.
  destruct (trim_right f s) eqn:Ht.
  - rewrite Str.app_nil_l in Heq. destruct (f a) eqn:Ha.
    + exists (String a s). subst. simpl. by rewrite Ha, Hr.
    + exists r. by subst.
  - exists r. split; [|done]. rewrite Heq at 1. done.
Qed.
Lemma Fields_TrimSpace s : Fields (TrimSpace s) = Fields s.
Proof.
  rewrite <-(Fields_trim_left s). unfold TrimSpace, trim.
  generalize (trim_left is_space s) as t. intros t.
  destruct (trim_right_split is_space t) as ([|c r] & Heq & Hr).
  { rewrite Heq at 2. by rewrite Str.app_nil_r. }
  rewrite Heq at 2. simpl in Hr. apply andb_true_iff in Hr as [Hc Hr].
  rewrite Fields_sep by done. apply Fields_blank in Hr. by rewrite Hr, app_nil_r.
Qed.

(** *** The bytes after the last separator *)
Lemma after_last_none s c : no_byte c s = true → after_last s c = None.
Proof.
  unfold no_byte. induction s as [|a s IH]; [done|]. simpl.
  rewrite andb_true_iff, negb_true_iff. intros [Ha Hs]. by rewrite IH, Ha.
Qed.
Lemma after_last_app s c t : no_byte c t = true → after_last (s +:+ String c t) c = Some t.
Proof.
  intros Ht. induction s as [|a s IH].
  - rewrite Str.app_nil_l. simpl. by rewrite after_last_none, is_byte_refl.
  - rewrite Str.app_cons. simpl. by rewrite IH.
Qed.
Lemma after_last_Some s c t :
  after_last s c = Some t → no_byte c t = true ∧ ∃ p, s = p +:+ String c t.
Proof.
  revert t. induction s as [|a s IH]; [done|]. simpl. intros t.
  destruct (after_last s c) as [r|] eqn:Hs.
  - intros [= <-]. destruct (IH r eq_refl) as [Hr [p ->]].
    split; [done|]. by exists (String a p).
  - destruct (is_byte c a) eqn:Ha; [|done]. intros [= <-].
    apply Ascii.eqb_eq in Ha as ->. split; [|by exists ""].
    clear IH. unfold no_byte. induction s as [|b s IH]; [done|]. simpl in *.
    destruct (after_last s c); [done|]. destruct (is_byte c b); [done|]. auto.
Qed.

(** *** Decimal numbers *)
Definition is_digit (a : ascii) : bool :=
  match Ascii.is_nat a with Some _ => true | None => false end.

Lemma digit_of_pretty d : (d < 10)%N → digit_of (pretty_N_char d) = Some d.
Proof.
  intros Hd. assert (∃ n : nat, n < 10 ∧ d = N.of_nat n) as (n & Hn & ->).
  { exists (N.to_nat d). lia. }
  do 10 (destruct n as [|n]; [done|]). lia.
Qed.
Lemma pretty_char_digit d : (d < 10)%N → is_digit (pretty_N_char d) = true.
Proof.
  intros Hd. pose proof (digit_of_pretty d Hd) as H. unfold digit_of, is_digit in *.
  by destruct (Ascii.is_nat (pretty_N_char d)).
Qed.

Lemma parse_digits_app acc s t :
  parse_digits acc (s +:+ t) = parse_digits acc s ≫= λ n, parse_digits n t.
Proof.
  revert acc. induction s as [|a s IH]; intros acc; [done|].
  rewrite Str.app_cons. simpl. destruct (digit_of a); simpl; auto.
Qed.

(** Appending a printed number shifts the accumulator by its number of digits. *)
Lemma pretty_go_spec x s :
  ∃ t, pretty_N_go x s = t +:+ s ∧ Str.all is_digit t = true ∧
       (x ≠ 0%N → t ≠ "") ∧ parse_digits 0 t = Some x.
Proof.
  revert s. induction (N.lt_wf_0 x) as [x _ IH]; intros s.
  destruct (decide (x = 0%N)) as [->|Hx].
  { exists "". by rewrite pretty_N_go_0. }
  rewrite pretty_N_go_step by lia.
  pose proof (N.mod_lt x 10 ltac:(done)) as Hmod.
  destruct (IH (x `div` 10)%N (N.div_lt x 10 ltac:(lia) ltac:(done))
              (String (pretty_N_char (x `mod` 10)) s)) as (t & -> & Hd & _ & Hp).
  exists (t +:+ String (pretty_N_char (x `mod` 10)) "").
  rewrite Str.app_assoc, Str.all_app, Hd. simpl.
  rewrite pretty_char_digit, parse_digits_app, Hp by done. simpl.
  rewrite digit_of_pretty by done. simpl.
  split_and!; [done|done| |].
  - intros _ Ht. by apply Str.app_eq_nil in Ht as [_ ?].
  - f_equal. pose proof (N.div_mod x 10 ltac:(done)). lia.
Qed.
Lemma pretty_N_spec (x : N) :
  Str.all is_digit (pretty x) = true ∧ parse_unsigned (pretty x) = Some x.
Proof.
  unfold pretty, pretty_N. case_decide as Hx; [by subst|].
  destruct (pretty_go_spec x "") as (t & -> & Hd & Hne & Hp).
  rewrite Str.app_nil_r. split; [done|]. unfold parse_unsigned.
  destruct t; [by destruct Hne|done].
Qed.

Lemma Itoa_digits z : (0 ≤ z)%Z → Str.all is_digit (Itoa z) = true.
Proof.
  intros Hz. unfold Itoa. destruct z as [|p|p]; [done| |lia].
  apply (pretty_N_spec (N.pos p)).
Qed.
Lemma Itoa_not_nil z : Itoa z ≠ "".
Proof.
  unfold Itoa. destruct z as [|p|p]; [done| |done].
  change (pretty (Z.pos p)) with (pretty (N.pos p)).
  intros H. pose proof (pretty_N_spec (N.pos p)) as [_ Hp]. by rewrite H in Hp.
Qed.

Lemma digit_not_sign a : is_digit a = true → a ≠ "-"%char ∧ a ≠ "+"%char.
Proof. intros H. split; intros ->; done. Qed.
Lemma digit_not_space a : is_digit a = true → is_space a = false.
Proof. destruct a as [[] [] [] [] [] [] [] []]; done. Qed.
Lemma digits_no_space t : Str.all is_digit t = true → Str.all (λ a, negb (is_space a)) t = true.
Proof.
  induction t as [|a t IH]; [done|]. cbn. intros [Ha Ht]%andb_true_iff. by rewrite (IH Ht), digit_not_space.
Qed.
Lemma digits_no_byte c s : is_digit c = false → Str.all is_digit s = true → no_byte c s = true.
Proof.
  intros Hc. apply Str.all_impl. intros a Ha. apply negb_true_iff.
  unfold is_byte. apply Ascii.eqb_neq. intros ->. congruence.
Qed.

Definition parse_signed (s : string) : option Z :=
  match s with
  | String "-" s' => Z.opp <$> (Z.of_N <$> parse_unsigned s')
  | String "+" s' => Z.of_N <$> parse_unsigned s'
  | _ => Z.of_N <$> parse_unsigned s
  end.
Lemma ParseInt32_unfold s :
  ParseInt32 s = parse_signed s ≫= λ z, if bool_decide (in_int32 z) then Some z else None.
Proof. done. Qed.
Lemma parse_signed_digits s :
  Str.all is_digit s = true → parse_signed s = Z.of_N <$> parse_unsigned s.
Proof.
  destruct s as [|a s]; [done|]. simpl. rewrite andb_true_iff. intros [Ha _].
  apply digit_not_sign in Ha as [H1 H2].
  destruct a as [[] [] [] [] [] [] [] []]; try done; naive_solver.
Qed.

(** [ParseInt] inverts [Itoa] on every 32-bit number. *)
Lemma ParseInt32_Itoa z : in_int32 z → ParseInt32 (Itoa z) = Some z.
Proof.
  intros Hz. rewrite ParseInt32_unfold.
  assert (parse_signed (Itoa z) = Some z) as ->.
  { unfold Itoa. destruct z as [|p|p]; [done| |].
    - pose proof (pretty_N_spec (N.pos p)) as [Hd Hp].
      change (pretty (Z.pos p)) with (pretty (N.pos p)).
      by rewrite parse_signed_digits, Hp.
    - pose proof (pretty_N_spec (N.pos p)) as [_ Hp].
      change (pretty (Z.neg p)) with (String "-" (pretty (N.pos p))).
      simpl. by rewrite Hp. }
  simpl. by rewrite bool_decide_eq_true_2.
Qed.
Lemma ParseInt32_range s z : ParseInt32 s = Some z → in_int32 z.
Proof.
  rewrite ParseInt32_unfold. destruct (parse_signed s); simpl; [|done].
  case_bool_decide; naive_solver.
Qed.

(** *** Sorting *)
Section sort.
Context {A : Type} (key : A → string).
Lemma SortBy_Permutation l : SortBy key l ≡ₚ l.
Proof. apply merge_sort_Permutation. Qed.
Lemma SortBy_StronglySorted l : StronglySorted (key_le key) (SortBy key l).
Proof. apply StronglySorted_merge_sort; apply _. Qed.
Lemma SortBy_elem_of l x : x ∈ SortBy key l ↔ x ∈ l.
Proof. by rewrite SortBy_Permutation. Qed.
Lemma SortBy_length l : length (SortBy key l) = length l.
Proof. by rewrite SortBy_Permutation. Qed.

(** With distinct keys the sorted list does not depend on the input order. *)
Lemma SortBy_unique l1 l2 :
  NoDup (key <$> l1) → l1 ≡ₚ l2 → SortBy key l1 = SortBy key l2.
Proof.
  intros Hnd Hp.
  assert (SortBy key l1 ≡ₚ SortBy key l2) as Hp'
    by by rewrite !SortBy_Permutation.
  assert (NoDup (key <$> SortBy key l1)) as Hnd' by by rewrite SortBy_Permutation.
  pose proof (SortBy_StronglySorted l1) as H1.
  pose proof (SortBy_StronglySorted l2) as H2.
  revert Hp' Hnd' H1 H2. generalize (SortBy key l1) (SortBy key l2).
  clear. intros l1. induction l1 as [|x l1 IH]; intros l2 Hp Hnd H1 H2.
  { by apply Permutation_nil_l in Hp as ->. }
  destruct l2 as [|y l2]; [by apply Permutation_nil_r in Hp|].
  apply StronglySorted_inv in H1 as [H1 Hx]. apply StronglySorted_inv in H2 as [H2 Hy].
  assert (x = y) as ->.
  { destruct (proj1 (elem_of_cons l2 x y)) as [->|Hxl2]; [rewrite <-Hp; by left|done|].
    assert (y ∈ x :: l1) as [->|Hyl1]%elem_of_cons by (rewrite Hp; by left); [done|].
    rewrite Forall_forall in Hx, Hy.
    assert (key x = key y) as Heq.
    { apply (anti_symm String.le); [by apply Hx|by apply Hy]. }
    apply NoDup_cons in Hnd as [Hnin _]. destruct Hnin.
    rewrite Heq. by apply list_elem_of_fmap_2. }
  apply Permutation_cons_inv in Hp. f_equal.
  rewrite fmap_cons, NoDup_cons in Hnd. apply IH; naive_solver.
Qed.
End sort.
