(* ===== verification/Effects.v ===== *)
(** * Effects: Go errors and programs that talk to their environment

    The operator's code is sequential Go that calls the Kubernetes API and [kubectl].
    Those servers are not part of the repository, so a piece of the operator is a
    [prog]: a tree of calls, each with a continuation for every reply the environment
    may give. Nothing is assumed about the replies by the definitions. Two readings of
    a [prog] are used by the theorems:

    - [wp E p Q s]: whatever the environment [E] answers from its state [s], every call
      the program makes is allowed and the program ends in a result satisfying [Q];
    - [run h p w]: the result against one executable environment [h] (witnesses).

    [wp_run] and [wp_exec] connect them: a [wp] fact holds of every trace the
    environment can produce. Programs are finite trees, so every [prog] terminates. *)
From S2P Require Import Prelude GoLib.

(** ** Errors *)

(** What the code asks of an API error: [apierrors.IsNotFound], [meta.IsNoMatchError]. *)
Inductive errkind := ENotFound | ENoMatch | EOther.
#[global] Instance errkind_eq_dec : EqDecision errkind.
Proof. solve_decision. Defined.

Record error := Error { err_kind : errkind; err_msg : string }.
#[global] Instance error_eq_dec : EqDecision error.
Proof. solve_decision. Defined.

(** [fmt.Errorf] without, and with [%w]: wrapping keeps the kind ([errors.As]). *)
Definition Errorf (msg : string) : error := Error EOther msg.
Definition Wrapf (pre : string) (e : error) (post : string) : error :=
  Error (err_kind e) (pre +:+ err_msg e +:+ post).
Definition IsNotFound (e : error) : bool := bool_decide (err_kind e = ENotFound).
Definition IsNoMatchError (e : error) : bool := bool_decide (err_kind e = ENoMatch).
(** [client.IgnoreNotFound] on an [error] that may be nil. *)
Definition IgnoreNotFound (e : option error) : option error :=
  match e with
  | Some e' => if IsNotFound e' then None else Some e'
  | None => None
  end.

(** The pair [(value, error)] of which exactly one is meaningful. *)
Inductive res (A : Type) := Ok (a : A) | Err (e : error).
Arguments Ok {A} a.
Arguments Err {A} e.
#[global] Instance res_ret : MRet res := λ A a, Ok a.
#[global] Instance res_bind : MBind res := λ A B f r,
  match r with Ok a => f a | Err e => Err e end.
#[global] Instance res_fmap : FMap res := λ A B f r,
  match r with Ok a => Ok (f a) | Err e => Err e end.
Definition res_err {A} (r : res A) : option error :=
  match r with Ok _ => None | Err e => Some e end.
Definition is_ok {A} (r : res A) : bool :=
  match r with Ok _ => true | Err _ => false end.

(** ** Programs *)
Section prog.
Context {action : Type} {reply : action → Type}.

Inductive prog (A : Type) : Type :=
| Ret (a : A)
| Act (a : action) (k : reply a → prog A).
Arguments Ret {A} a.
Arguments Act {A} a k.

Fixpoint bind {A B} (f : A → prog B) (p : prog A) : prog B :=
  match p with
  | Ret a => f a
  | Act a k => Act a (λ r, bind f (k r))
  end.
#[global] Instance prog_ret : MRet prog := λ A a, Ret a.
#[global] Instance prog_bind : MBind prog := λ A B f p, bind f p.
#[global] Instance prog_fmap : FMap prog := λ A B f p, bind (λ a, Ret (f a)) p.
Definition call (a : action) : prog (reply a) := Act a (λ r, Ret r).

(** *** Environments and the program logic *)
Record Env (S : Type) := mkEnv {
  allowed : S → action → Prop;
  step : S → ∀ a, reply a → S → Prop
}.
Arguments allowed {S} e _ _.
Arguments step {S} e _ _ _ _.

Section wp.
Context {S : Type} (E : Env S).

Fixpoint wp {A} (p : prog A) (Q : A → S → Prop) (s : S) : Prop :=
  match p with
  | Ret a => Q a s
  | Act a k => allowed E s a ∧ ∀ r s', step E s a r s' → wp (k r) Q s'
  end.

Lemma wp_ret {A} (a : A) Q s : Q a s → wp (mret a) Q s.
Proof. done. Qed.

Lemma wp_call {A} (a : action) (k : reply a → prog A) Q s :
  allowed E s a → (∀ r s', step E s a r s' → wp (k r) Q s') → wp (call a ≫= k) Q s.
Proof. done. Qed.

Lemma wp_mono {A} (p : prog A) (Q1 Q2 : A → S → Prop) s :
  wp p Q1 s → (∀ a s', Q1 a s' → Q2 a s') → wp p Q2 s.
Proof.
  intros Hp HQ. revert s Hp. induction p as [a|a k IH]; simpl; [auto|].
  intros s [Ha Hk]. split; [done|]. intros r s' Hs. eauto.
Qed.

Lemma wp_bind {A B} (p : prog A) (f : A → prog B) Q s :
  wp (p ≫= f) Q s ↔ wp p (λ a s', wp (f a) Q s') s.
Proof.
  unfold mbind, prog_bind. revert s. induction p as [a|a k IH]; intros s; simpl; [done|].
  split; intros [Ha Hk]; (split; [done|]); intros r s' Hs; apply IH; auto.
Qed.

Lemma wp_bind_2 {A B} (p : prog A) (f : A → prog B) Q1 Q s :
  wp p Q1 s → (∀ a s', Q1 a s' → wp (f a) Q s') → wp (p ≫= f) Q s.
Proof. intros. apply wp_bind. by eapply wp_mono. Qed.

Lemma wp_fmap {A B} (p : prog A) (f : A → B) Q s :
  wp p (λ a, Q (f a)) s → wp (f <$> p) Q s.
Proof. intros H. by apply (wp_bind p (λ a, Ret (f a))). Qed.

(** *** Traces *)
Inductive exec {A} : prog A → S → list {a : action & reply a} → A → S → Prop :=
| exec_ret a s : exec (Ret a) s [] a s
| exec_act a k r s s' tr b s'' :
    step E s a r s' → exec (k r) s' tr b s'' →
    exec (Act a k) s (existT a r :: tr) b s''.

(** [calls_ok s tr]: starting from [s], each call of the trace was allowed in the
    state it was made in. *)
Inductive calls_ok : S → list {a : action & reply a} → Prop :=
| calls_nil s : calls_ok s []
| calls_cons a r s s' tr :
    allowed E s a → step E s a r s' → calls_ok s' tr →
    calls_ok s (existT a r :: tr).

Lemma wp_exec {A} (p : prog A) Q s tr b s' :
  wp p Q s → exec p s tr b s' → calls_ok s tr ∧ Q b s'.
Proof.
  intros Hp Hex. induction Hex as [a s|a k r s s' tr b s'' Hst Hex IH].
  { split; [constructor|done]. }
  destruct Hp as [Ha Hk]. destruct (IH (Hk _ _ Hst)) as [Hc HQ].
  split; [|done]. by econstructor.
Qed.

(** Where every permitted call has a reply, a program runs to its end. *)
Lemma wp_runs {A} (p : prog A) Q s :
  (∀ s a, allowed E s a → ∃ r s', step E s a r s') → wp p Q s → ∃ tr a s', exec p s tr a s' ∧ Q a s'.
Proof.
  intros Htot. revert s. induction p as [a|a k IH]; intros s.
  { intros HQ. exists [], a, s. split; [constructor|done]. }
  intros [Ha Hk]. destruct (Htot s a Ha) as (r & s1 & Hst).
  destruct (IH r s1 (Hk r s1 Hst)) as (tr & b & s2 & Hex & HQ).
  exists (existT a r :: tr), b, s2. split; [by econstructor|done].
Qed.
End wp.

(** A [wp] fact against a small environment holds in a larger one that projects to it;
    [I] is what the larger steps preserve besides. *)
Lemma wp_map {S1 S2 A} (E1 : Env S1) (E2 : Env S2) (f : S2 → S1) (I : S2 → Prop) (p : prog A) Q s :
  (∀ s a, I s → allowed E1 (f s) a → allowed E2 s a) →
  (∀ s a r s', I s → allowed E1 (f s) a → step E2 s a r s' → step E1 (f s) a r (f s') ∧ I s') →
  I s → wp E1 p Q (f s) → wp E2 p (λ a s', Q a (f s') ∧ I s') s.
Proof.
  intros Ha Hs. revert s. induction p as [a|a k IH]; intros s HI; [done|].
  intros [Hal Hk]. split; [by apply Ha|]. intros r s' Hst.
  destruct (Hs s a r s' HI Hal Hst) as [H1 HI']. apply IH; [done|]. by apply Hk.
Qed.

(** *** Execution against a concrete environment *)
Section run.
Context {W : Type} (h : ∀ a : action, W → reply a * W).

Fixpoint run {A} (p : prog A) (w : W) : A * W :=
  match p with
  | Ret a => (a, w)
  | Act a k => let (r, w') := h a w in run (k r) w'
  end.

Lemma run_bind {A B} (p : prog A) (f : A → prog B) w :
  run (p ≫= f) w = let (a, w') := run p w in run (f a) w'.
Proof.
  unfold mbind, prog_bind. revert w. induction p as [a|a k IH]; intros w; simpl; [done|].
  destruct (h a w) as [r w']. apply IH.
Qed.

(** A concrete environment that only makes the moves [E] permits inherits every
    [wp] fact. *)
Lemma wp_run {S A} (E : Env S) (abs : W → S) (p : prog A) Q w :
  (∀ a w r w', h a w = (r, w') → step E (abs w) a r (abs w')) →
  wp E p Q (abs w) → Q (run p w).1 (abs (run p w).2).
Proof.
  intros Hh. revert w. induction p as [a|a k IH]; intros w; simpl; [done|].
  intros [_ Hk]. destruct (h a w) as [r w'] eqn:Hr. apply IH. eauto.
Qed.

(** It also witnesses that the permitted moves suffice to run the program. *)
Lemma run_exec {S A} (E : Env S) (abs : W → S) (p : prog A) Q w :
  (∀ a w, allowed E (abs w) a → step E (abs w) a (h a w).1 (abs (h a w).2)) →
  wp E p Q (abs w) → ∃ tr, exec E p (abs w) tr (run p w).1 (abs (run p w).2).
Proof.
  intros Hh. revert w. induction p as [a|a k IH]; intros w; simpl.
  { intros _. eexists. constructor. }
  intros [Ha Hk]. specialize (Hh a w Ha). destruct (h a w) as [r w'] eqn:Hr; simpl in *.
  destruct (IH r w' (Hk _ _ Hh)) as [tr Htr]. eexists. by econstructor.
Qed.
End run.

(** *** Loops: [for _, x := range l] with an accumulator and an early return *)
Fixpoint for_each {A B C} (l : list A) (acc : B) (body : A → B → prog (C + B)) : prog (C + B) :=
  match l with
  | [] => mret (inr acc)
  | x :: l' =>
      body x acc ≫= λ o,
      match o with
      | inl c => mret (inl c)
      | inr acc' => for_each l' acc' body
      end
  end.

(** The loop rule: an invariant indexed by the elements already visited. *)
Lemma wp_for_each {S A B C} (E : Env S) (l : list A) (acc : B)
    (body : A → B → prog (C + B)) (Inv : list A → B → S → Prop) (Qe : C → S → Prop) s :
  Inv [] acc s →
  (∀ done x rest acc s, l = done ++ x :: rest → Inv done acc s →
     wp E (body x acc) (λ o s', match o with
                                | inl c => Qe c s'
                                | inr acc' => Inv (done ++ [x]) acc' s'
                                end) s) →
  wp E (for_each l acc body) (λ o s', match o with
                                      | inl c => Qe c s'
                                      | inr acc' => Inv l acc' s'
                                      end) s.
Proof.
  intros H0 Hstep.
  assert (∀ done rest acc s, l = done ++ rest → Inv done acc s →
    wp E (for_each rest acc body) (λ o s', match o with
      | inl c => Qe c s' | inr acc' => Inv l acc' s' end) s) as Hgen; [|by apply (Hgen [])].
  clear H0 s acc. intros done rest. revert done.
  induction rest as [|x rest IH]; intros done acc s Hl Hi; cbn [for_each].
  { apply wp_ret. rewrite app_nil_r in Hl. by subst. }
  eapply wp_bind_2; [by eapply Hstep|].
  intros [c|acc'] s' Ho; [by apply wp_ret|].
  apply (IH (done ++ [x])); [|done]. by rewrite <-app_assoc.
Qed.
End prog.
Arguments prog {action} reply A.
Arguments Ret {action reply A} a.
Arguments Act {action reply A} a k.
Arguments Env {action} reply S.
Arguments mkEnv {action reply S} _ _.
Arguments allowed {action reply S} e _ _.
Arguments step {action reply S} e _ _ _ _.
Arguments run {action reply W} h {A} p w.

#[global] Arguments wp {action reply S} E {A} p Q s : simpl never.
