(* ===== verification/Types.v ===== *)
(** * Data: the custom resources and the Kubernetes objects the operator handles

    The records of [api/v1] in full, and of the Kubernetes API types the fields the
    operator reads or writes. An [int32]/[int64] field is a [Z], a time a [Z] (nanoseconds),
    a pointer an [option], a [[]byte] a [string], a [resource.Quantity] its canonical text.
    A Go map is a [gmap]; an [unstructured] document is a [json] tree whose metadata is
    kept beside it. *)
From S2P Require Import Prelude GoLib.

Abbreviation time := Z.
Definition second : Z := 1000000000.
Definition minute : Z := 60 * second.

(** ** Object metadata and conditions (apimachinery) *)
Record OwnerReference := mkOwnerReference {
  or_Kind : string; or_Name : string; or_UID : string; or_Controller : bool }.

Record ObjectMeta := mkObjectMeta {
  om_Name : string;
  om_Namespace : string;
  om_UID : string;
  om_Generation : Z;
  om_DeletionTimestamp : option time;
  om_Finalizers : list string;
  om_Labels : gmap string string;
  om_OwnerReferences : list OwnerReference }.

Definition new_meta (name ns : string) : ObjectMeta :=
  mkObjectMeta name ns "" 0 None [] ∅ [].
Definition with_finalizers (m : ObjectMeta) (fs : list string) : ObjectMeta :=
  mkObjectMeta (om_Name m) (om_Namespace m) (om_UID m) (om_Generation m)
    (om_DeletionTimestamp m) fs (om_Labels m) (om_OwnerReferences m).
Definition with_labels (m : ObjectMeta) (ls : gmap string string) : ObjectMeta :=
  mkObjectMeta (om_Name m) (om_Namespace m) (om_UID m) (om_Generation m)
    (om_DeletionTimestamp m) (om_Finalizers m) ls (om_OwnerReferences m).

Record Condition := mkCondition {
  cd_Type : string;
  cd_Status : string;
  cd_ObservedGeneration : Z;
  cd_LastTransitionTime : time;
  cd_Reason : string;
  cd_Message : string }.
#[global] Instance Condition_eq_dec : EqDecision Condition.
Proof. solve_decision. Defined.
Definition ConditionTrue : string := "True".
Definition ConditionFalse : string := "False".

(** ** RiakCluster *)
Record RolloutConfig := mkRolloutConfig {
  ro_WaitForTransfers : option bool;
  ro_Paused : bool;
  ro_StallTimeout : option Z }.

Record PodDisruptionBudgetConfig := mkPodDisruptionBudgetConfig {
  pdbc_Enabled : option bool }.

Definition PodAntiAffinityRequired : string := "Required".
Definition PodAntiAffinityPreferred : string := "Preferred".
Definition PodAntiAffinityNone : string := "None".

(** [corev1.ConfigMapKeySelector] and [corev1.SecretKeySelector] *)
Record KeySelector := mkKeySelector { ks_Name : string; ks_Key : string }.

Record MetricsConfigSource := mkMetricsConfigSource { mcs_ConfigMapKeyRef : KeySelector }.

Record MonitoringConfig := mkMonitoringConfig {
  mon_Enabled : bool;
  mon_ExporterImage : string;
  mon_MetricsConfig : option MetricsConfigSource;
  mon_ScrapeKind : string }.

Definition ScrapeKindPodMonitor : string := "PodMonitor".
Definition ScrapeKindServiceMonitor : string := "ServiceMonitor".
Definition ScrapeKindNone : string := "None".

Record TrustedCASource := mkTrustedCASource {
  tca_SecretRef : option KeySelector;
  tca_ConfigMapRef : option KeySelector }.

Record CertManagerConfig := mkCertManagerConfig {
  cm_IssuerName : string;
  cm_IssuerKind : string }.

Record TLSConfig := mkTLSConfig {
  tls_Enabled : bool;
  tls_CertManager : option CertManagerConfig;
  tls_AdditionalClientCAs : list TrustedCASource }.

Record ResourceRequirements := mkResourceRequirements {
  rr_Requests : gmap string string;
  rr_Limits : gmap string string }.

(** [corev1.PodSecurityContext]: the profile the operator fills in, and the rest,
    which it only copies. *)
Record PodSecurityContext := mkPodSecurityContext {
  psc_SeccompProfile : option string;
  psc_RunAsUser : option Z;
  psc_RunAsGroup : option Z;
  psc_FSGroup : option Z }.

Record RiakClusterSpec := mkRiakClusterSpec {
  cs_Size : Z;
  cs_Image : string;
  cs_ImagePullPolicy : string;
  cs_Resources : option ResourceRequirements;
  cs_StorageClassName : string;
  cs_StorageSize : option string;
  cs_EphemeralStorage : bool;
  cs_RiakConfig : gmap string string;
  cs_TLS : option TLSConfig;
  cs_Monitoring : option MonitoringConfig;
  cs_ServicePort : Z;
  cs_NodeSelector : gmap string string;
  cs_PodAntiAffinity : string;
  cs_PodSecurityContext : option PodSecurityContext;
  cs_ReadOnlyRootFilesystem : bool;
  cs_Rollout : option RolloutConfig;
  cs_TerminationGracePeriodSeconds : option Z;
  cs_PodDisruptionBudget : option PodDisruptionBudgetConfig }.

Record TLSStatus := mkTLSStatus {
  ts_Enabled : bool;
  ts_CertManagerReady : bool;
  ts_CertManagerError : string;
  ts_InterNodeReady : bool;
  ts_ClientReady : bool;
  ts_TrustedClientCAs : Z;
  ts_TrustBundleError : string }.
Definition no_TLSStatus : TLSStatus := mkTLSStatus false false "" false false 0 "".

Record MonitoringStatus := mkMonitoringStatus {
  ms_Enabled : bool;
  ms_ExporterReady : bool;
  ms_ScrapeKind : string;
  ms_ScrapeObjectReady : bool;
  ms_ServiceMonitorReady : bool;
  ms_ExporterError : string }.
Definition no_MonitoringStatus : MonitoringStatus := mkMonitoringStatus false false "" false false "".

Record RiakBucketRef := mkRiakBucketRef { br_Name : string; br_Ready : bool }.
Record RiakUserRef := mkRiakUserRef { ur_Name : string; ur_Ready : bool }.

Record NodeCondition := mkNodeCondition {
  nc_Name : string;
  nc_Ready : bool;
  nc_Health : string;
  nc_Phase : string;
  nc_PodName : string;
  nc_StorageReady : bool;
  nc_StorageClassName : string;
  nc_StorageSize : string;
  nc_Conditions : list Condition }.

Record RiakNodeMember := mkRiakNodeMember {
  nm_Name : string;
  nm_Pod : string;
  nm_Ready : bool;
  nm_Health : string;
  nm_Phase : string;
  nm_StorageReady : bool;
  nm_Conditions : list Condition }.

(** [ClusterPhase] is a Go string type; its zero value is the empty string. *)
Definition PhaseCreating : string := "Creating".
Definition PhaseReady : string := "Ready".
Definition PhaseUpdating : string := "Updating".
Definition PhaseFailed : string := "Failed".

Definition NodeHealthy : string := "Healthy".
Definition NodeUnhealthy : string := "Unhealthy".
Definition NodeHealthUnknown : string := "Unknown".

Record RiakClusterStatus := mkRiakClusterStatus {
  cst_Phase : string;
  cst_ReadyNodes : Z;
  cst_TotalNodes : Z;
  cst_Conditions : list Condition;
  cst_LastUpdateTime : option time;
  cst_Members : list RiakNodeMember;
  cst_SecurityEnabled : bool;
  cst_StorageClassName : string;
  cst_StorageSize : string;
  cst_EphemeralStorage : bool;
  cst_TLSStatus : TLSStatus;
  cst_MonitoringStatus : MonitoringStatus;
  cst_Buckets : list RiakBucketRef;
  cst_Users : list RiakUserRef;
  cst_NodeConditions : list NodeCondition }.
Definition no_RiakClusterStatus : RiakClusterStatus :=
  mkRiakClusterStatus "" 0 0 [] None [] false "" "" false no_TLSStatus no_MonitoringStatus [] [] [].

Record RiakCluster := mkRiakCluster {
  cl_Meta : ObjectMeta; cl_Spec : RiakClusterSpec; cl_Status : RiakClusterStatus }.
Abbreviation cl_Name c := (om_Name (cl_Meta c)).
Abbreviation cl_Namespace c := (om_Namespace (cl_Meta c)).
Abbreviation cl_Generation c := (om_Generation (cl_Meta c)).
Abbreviation cl_Size c := (cs_Size (cl_Spec c)).

(** Assignments to fields of [cluster.Status] and to [cluster.ObjectMeta]. *)
Definition cst_set_Phase (s : RiakClusterStatus) (v : string) : RiakClusterStatus :=
  mkRiakClusterStatus v (cst_ReadyNodes s) (cst_TotalNodes s) (cst_Conditions s)
    (cst_LastUpdateTime s) (cst_Members s) (cst_SecurityEnabled s) (cst_StorageClassName s)
    (cst_StorageSize s) (cst_EphemeralStorage s) (cst_TLSStatus s) (cst_MonitoringStatus s)
    (cst_Buckets s) (cst_Users s) (cst_NodeConditions s).
Definition cst_set_Conditions (s : RiakClusterStatus) (v : list Condition) : RiakClusterStatus :=
  mkRiakClusterStatus (cst_Phase s) (cst_ReadyNodes s) (cst_TotalNodes s) v
    (cst_LastUpdateTime s) (cst_Members s) (cst_SecurityEnabled s) (cst_StorageClassName s)
    (cst_StorageSize s) (cst_EphemeralStorage s) (cst_TLSStatus s) (cst_MonitoringStatus s)
    (cst_Buckets s) (cst_Users s) (cst_NodeConditions s).
Definition cst_set_SecurityEnabled (s : RiakClusterStatus) (v : bool) : RiakClusterStatus :=
  mkRiakClusterStatus (cst_Phase s) (cst_ReadyNodes s) (cst_TotalNodes s) (cst_Conditions s)
    (cst_LastUpdateTime s) (cst_Members s) v (cst_StorageClassName s)
    (cst_StorageSize s) (cst_EphemeralStorage s) (cst_TLSStatus s) (cst_MonitoringStatus s)
    (cst_Buckets s) (cst_Users s) (cst_NodeConditions s).
Definition cl_with_status (c : RiakCluster) (s : RiakClusterStatus) : RiakCluster :=
  mkRiakCluster (cl_Meta c) (cl_Spec c) s.
Definition cl_with_meta (c : RiakCluster) (m : ObjectMeta) : RiakCluster :=
  mkRiakCluster m (cl_Spec c) (cl_Status c).
Definition cl_set_Phase (c : RiakCluster) (v : string) : RiakCluster :=
  cl_with_status c (cst_set_Phase (cl_Status c) v).
Definition cl_set_Conditions (c : RiakCluster) (v : list Condition) : RiakCluster :=
  cl_with_status c (cst_set_Conditions (cl_Status c) v).

(** ** RiakBucket *)
Record RiakBucketSpec := mkRiakBucketSpec {
  bs_ClusterName : string;
  bs_BucketName : string;
  bs_BucketType : string;
  bs_ReplicationFactor : Z;
  bs_AllowMulti : bool;
  bs_NVal : Z;
  bs_Properties : gmap string string }.

Record BucketNodeRef := mkBucketNodeRef {
  bn_Name : string; bn_Pod : string; bn_Ready : bool; bn_Health : string }.

Record RiakBucketStatus := mkRiakBucketStatus {
  bst_Phase : string;
  bst_Created : bool;
  bst_LastUpdateTime : option time;
  bst_Error : string;
  bst_BucketName : string;
  bst_BucketType : string;
  bst_ReplicationFactor : Z;
  bst_NVal : Z;
  bst_Properties : gmap string string;
  bst_Nodes : list BucketNodeRef;
  bst_Conditions : list Condition }.
Definition no_RiakBucketStatus : RiakBucketStatus :=
  mkRiakBucketStatus "" false None "" "" "" 0 0 ∅ [] [].

Definition BucketPhaseCreating : string := "Creating".
Definition BucketPhaseReady : string := "Ready".
Definition BucketPhaseFailed : string := "Failed".

Record RiakBucket := mkRiakBucket {
  bk_Meta : ObjectMeta; bk_Spec : RiakBucketSpec; bk_Status : RiakBucketStatus }.
Definition bk_with_meta (b : RiakBucket) (m : ObjectMeta) : RiakBucket :=
  mkRiakBucket m (bk_Spec b) (bk_Status b).
Definition bk_with_status (b : RiakBucket) (s : RiakBucketStatus) : RiakBucket :=
  mkRiakBucket (bk_Meta b) (bk_Spec b) s.

(** ** RiakUser *)
Record CertIssuerRef := mkCertIssuerRef { ir_Name : string; ir_Kind : string }.

Record UserCertificateRef := mkUserCertificateRef {
  ucr_IssuerRef : option CertIssuerRef;
  ucr_SecretName : string;
  ucr_ExternalSecretName : string }.

Record Grant := mkGrant {
  g_Resource : string; g_BucketName : string; g_Permission : string }.
#[global] Instance Grant_eq_dec : EqDecision Grant.
Proof. solve_decision. Defined.

Record RiakUserSpec := mkRiakUserSpec {
  us_ClusterName : string;
  us_Username : string;
  us_Grants : list Grant;
  us_CertificateRef : option UserCertificateRef }.

Record RiakUserStatus := mkRiakUserStatus {
  ust_Phase : string;
  ust_Created : bool;
  ust_LastUpdateTime : option time;
  ust_Error : string;
  ust_Username : string;
  ust_CertificateReady : bool;
  ust_CertificateError : string;
  ust_ClusterName : string;
  ust_Grants : list Grant;
  ust_Conditions : list Condition }.
Definition no_RiakUserStatus : RiakUserStatus :=
  mkRiakUserStatus "" false None "" "" false "" "" [] [].

Definition UserPhaseCreating : string := "Creating".
Definition UserPhaseReady : string := "Ready".
Definition UserPhaseFailed : string := "Failed".

Record RiakUser := mkRiakUser {
  us_Meta : ObjectMeta; us_Spec : RiakUserSpec; us_Status : RiakUserStatus }.
Definition us_with_meta (u : RiakUser) (m : ObjectMeta) : RiakUser :=
  mkRiakUser m (us_Spec u) (us_Status u).
Definition us_with_status (u : RiakUser) (s : RiakUserStatus) : RiakUser :=
  mkRiakUser (us_Meta u) (us_Spec u) s.
