(* ===== verification/Samples.v ===== *)
(** * Concrete objects for evaluating the model

    A small cluster, as a user would apply it, and one with three known members. *)
From S2P Require Import Prelude GoLib Effects Types.

Definition sample_spec : RiakClusterSpec :=
  mkRiakClusterSpec 3 "riak:3.2" "IfNotPresent" None "" None false ∅ None None 8087 ∅ "" None
    false None None None.
Definition sample_cluster : RiakCluster :=
  mkRiakCluster (new_meta "c" "db") sample_spec no_RiakClusterStatus.
Definition sample_pods : list string := ["c-0"; "c-1"; "c-2"].
Definition sample_member (pod : string) : RiakNodeMember :=
  mkRiakNodeMember pod pod true NodeHealthy "Running" true [].
Definition sample_status (pods : list string) : RiakClusterStatus :=
  mkRiakClusterStatus "" 0 0 [] None (sample_member <$> pods) false "" "" false no_TLSStatus
    no_MonitoringStatus [] [] [].
Definition sample_tls : TLSConfig :=
  mkTLSConfig true (Some (mkCertManagerConfig "ca" "Issuer")) [mkTrustedCASource (Some (mkKeySelector "corp" "ca.pem")) None].
Definition with_tls (c : RiakCluster) (tls : TLSConfig) : RiakCluster :=
  let s := cl_Spec c in
  mkRiakCluster (cl_Meta c)
    (mkRiakClusterSpec (cs_Size s) (cs_Image s) (cs_ImagePullPolicy s) (cs_Resources s)
       (cs_StorageClassName s) (cs_StorageSize s) (cs_EphemeralStorage s) (cs_RiakConfig s) (Some tls)
       (cs_Monitoring s) (cs_ServicePort s) (cs_NodeSelector s) (cs_PodAntiAffinity s)
       (cs_PodSecurityContext s) (cs_ReadOnlyRootFilesystem s) (cs_Rollout s)
       (cs_TerminationGracePeriodSeconds s) (cs_PodDisruptionBudget s)) (cl_Status c).
Definition tls_cluster : RiakCluster := with_tls sample_cluster sample_tls.
Definition sample_user : RiakUser :=
  mkRiakUser (new_meta "alice" "db")
    (mkRiakUserSpec "c" "alice" [] (Some (mkUserCertificateRef None "" "alice-cert"))) no_RiakUserStatus.
Definition ready_cluster : RiakCluster :=
  cl_with_status sample_cluster (cst_set_Phase (sample_status sample_pods) PhaseReady).
Definition sample_bucket : RiakBucket :=
  mkRiakBucket (new_meta "b" "db") (mkRiakBucketSpec "c" "orders" "t" 0 true 3 {["backend" := "bitcask"]})
    no_RiakBucketStatus.
