(* ===== verification/KubeTypes.v ===== *)
(** * Kubernetes objects

    The fields of the core, apps and policy API types that the operator reads or
    writes. *)
From S2P Require Import Prelude GoLib Types.

(** ** Pods *)
Record PodCondition := mkPodCondition { pc_Type : string; pc_Status : string }.
Definition PodReady : string := "Ready".
Definition PodRunning : string := "Running".
Definition PodUnknown : string := "Unknown".

(** [ContainerState]: the reasons of the waiting and terminated states, when set. *)
Record ContainerStatus := mkContainerStatus {
  cns_Name : string;
  cns_Ready : bool;
  cns_Waiting : option string;
  cns_Terminated : option string }.

Record Pod := mkPod {
  pod_Meta : ObjectMeta;
  pod_Phase : string;
  pod_Conditions : list PodCondition;
  pod_ContainerStatuses : list ContainerStatus }.
Abbreviation pod_Name p := (om_Name (pod_Meta p)).

(** ** Storage, configuration and secrets *)
Record PersistentVolumeClaim := mkPVC { pvc_Meta : ObjectMeta; pvc_Phase : string }.
Definition ClaimBound : string := "Bound".

Record Secret := mkSecret { sec_Meta : ObjectMeta; sec_Data : gmap string string }.
Record ConfigMap := mkConfigMap {
  cfm_Meta : ObjectMeta;
  cfm_Data : gmap string string;
  cfm_BinaryData : gmap string string }.

(** ** Services and disruption budgets *)
Inductive IntOrString := FromInt (n : Z) | FromString (s : string).
Record ServicePort := mkServicePort {
  sp_Name : string; sp_Port : Z; sp_TargetPort : IntOrString }.
Record ServiceSpec := mkServiceSpec {
  svs_Type : string;
  svs_ClusterIP : string;
  svs_Selector : gmap string string;
  svs_Ports : list ServicePort;
  svs_PublishNotReadyAddresses : bool }.
Definition ClusterIPNone : string := "None".
Definition ServiceTypeClusterIP : string := "ClusterIP".
Record Service := mkService { svc_Meta : ObjectMeta; svc_Spec : ServiceSpec }.

Record PodDisruptionBudget := mkPDB {
  pdb_Meta : ObjectMeta;
  pdb_MaxUnavailable : option IntOrString;
  pdb_Selector : option (gmap string string) }.

(** ** The pod template *)
Record EnvVar := mkEnvVar {
  ev_Name : string;
  ev_Value : string;
  ev_FieldPath : option string }.
Record VolumeMount := mkVolumeMount {
  vm_Name : string; vm_MountPath : string; vm_ReadOnly : bool }.
Record KeyToPath := mkKeyToPath { kp_Key : string; kp_Path : string }.
Record SecretProjection := mkSecretProjection {
  spj_Name : string; spj_Items : list KeyToPath }.
Inductive VolumeSource :=
| VolSecret (secretName : string)
| VolProjected (sources : list SecretProjection)
| VolConfigMap (name : string) (items : list KeyToPath)
| VolEmptyDir.
Record Volume := mkVolume { vol_Name : string; vol_Source : VolumeSource }.
Record ContainerPort := mkContainerPort { cp_Name : string; cp_ContainerPort : Z; cp_Protocol : string }.
Record Probe := mkProbe {
  pr_TCPPort : IntOrString;
  pr_InitialDelaySeconds : Z;
  pr_PeriodSeconds : Z;
  pr_TimeoutSeconds : Z;
  pr_FailureThreshold : Z }.
Record SecurityContext := mkSecurityContext {
  sc_AllowPrivilegeEscalation : option bool;
  sc_CapabilitiesDrop : list string;
  sc_ReadOnlyRootFilesystem : option bool }.
Record Container := mkContainer {
  ct_Name : string;
  ct_Image : string;
  ct_ImagePullPolicy : string;
  ct_Command : list string;
  ct_Args : list string;
  ct_Stdin : bool;
  ct_TTY : bool;
  ct_Ports : list ContainerPort;
  ct_Env : list EnvVar;
  ct_Resources : ResourceRequirements;
  ct_VolumeMounts : list VolumeMount;
  ct_SecurityContext : option SecurityContext;
  ct_LivenessProbe : option Probe;
  ct_ReadinessProbe : option Probe }.

Record PodAffinityTerm := mkPodAffinityTerm {
  pat_MatchLabels : gmap string string; pat_TopologyKey : string }.
(** The pod anti-affinity of a pod: required terms, and weighted preferred terms. *)
Record PodAntiAffinity := mkPodAntiAffinity {
  paa_Required : list PodAffinityTerm;
  paa_Preferred : list (Z * PodAffinityTerm) }.

Record PodSpec := mkPodSpec {
  ps_NodeSelector : gmap string string;
  ps_SecurityContext : option PodSecurityContext;
  ps_Volumes : list Volume;
  ps_InitContainers : list Container;
  ps_Containers : list Container;
  ps_TerminationGracePeriodSeconds : option Z;
  ps_Affinity : option PodAntiAffinity }.
Record PodTemplate := mkPodTemplate {
  pt_Labels : gmap string string; pt_Spec : PodSpec }.

(** A [volumeClaimTemplates] entry. *)
Record VolumeClaimTemplate := mkVolumeClaimTemplate {
  vct_Name : string;
  vct_AccessModes : list string;
  vct_StorageClassName : option string;
  vct_Storage : string }.

(** ** StatefulSets *)
(** [ss_Partition] flattens [updateStrategy.rollingUpdate.partition]: [None] when
    [rollingUpdate] or its [partition] is unset. *)
Record StatefulSetSpec := mkStatefulSetSpec {
  ss_UpdateStrategyType : string;
  ss_Partition : option Z;
  ss_ServiceName : string;
  ss_Replicas : option Z;
  ss_Selector : gmap string string;
  ss_Template : PodTemplate;
  ss_VolumeClaimTemplates : list VolumeClaimTemplate }.
Record StatefulSetStatus := mkStatefulSetStatus {
  sst_CurrentRevision : string; sst_UpdateRevision : string }.
Record StatefulSet := mkStatefulSet {
  sts_Meta : ObjectMeta; sts_Spec : StatefulSetSpec; sts_Status : StatefulSetStatus }.

Definition ss_with_partition (s : StatefulSetSpec) (p : Z) : StatefulSetSpec :=
  mkStatefulSetSpec (ss_UpdateStrategyType s) (Some p) (ss_ServiceName s) (ss_Replicas s)
    (ss_Selector s) (ss_Template s) (ss_VolumeClaimTemplates s).

(** ** Unstructured objects *)
#[local] Set Warnings "-register-all".
Inductive json :=
| JNull
| JBool (b : bool)
| JNum (n : Z)
| JStr (s : string)
| JList (l : list json)
| JMap (fields : list (string * json)).

Record GVK := mkGVK { gvk_Group : string; gvk_Version : string; gvk_Kind : string }.
#[global] Instance GVK_eq_dec : EqDecision GVK.
Proof. solve_decision. Defined.

Record Unstructured := mkUnstructured {
  un_GVK : GVK;
  un_Meta : ObjectMeta;
  un_Fields : list (string * json) }.

Fixpoint assoc {A} (k : string) (l : list (string * A)) : option A :=
  match l with
  | [] => None
  | (k', v) :: l' => if String.eqb k k' then Some v else assoc k l'
  end.

(** [unstructured.NestedSlice(obj, a, b)]: [None] when a field is absent or has the
    wrong type (the source treats "not found" and an error alike). *)
Definition nested_slice2 (fields : list (string * json)) (a b : string) : option (list json) :=
  match assoc a fields with
  | Some (JMap fs) => match assoc b fs with Some (JList l) => Some l | _ => None end
  | _ => None
  end.
(** [v, _ := m[k].(string)]: the empty string when absent or not a string. *)
Definition str_field (fields : list (string * json)) (k : string) : string :=
  match assoc k fields with Some (JStr s) => s | _ => "" end.
Definition set_field (fields : list (string * json)) (k : string) (v : json) : list (string * json) :=
  (k, v) :: filter (λ kv, kv.1 ≠ k) fields.
