(* ===== verification/Kube.v ===== *)
(** * The operator's environment

    [kind] is the universe of object kinds the operator touches, [api] the calls it
    makes: the Kubernetes client ([client.Client], and the uncached [APIReader]), the
    command runner of [riak.Executor] and the clock. The API server, [kubectl] and Riak
    are outside the repository: a call is an [action] and what comes back is a
    [reply], on which nothing is assumed here. *)
From S2P Require Import Prelude GoLib Effects Types KubeTypes.

Inductive kind :=
| KCluster | KBucket | KUser | KPod | KPVC | KSecret | KConfigMap | KService
| KPDB | KStatefulSet | KUnstructured (g : GVK).

Definition obj (k : kind) : Type :=
  match k with
  | KCluster => RiakCluster
  | KBucket => RiakBucket
  | KUser => RiakUser
  | KPod => Pod
  | KPVC => PersistentVolumeClaim
  | KSecret => Secret
  | KConfigMap => ConfigMap
  | KService => Service
  | KPDB => PodDisruptionBudget
  | KStatefulSet => StatefulSet
  | KUnstructured _ => Unstructured
  end.

(** [client.ObjectKey] *)
Record ObjectKey := mkKey { key_Namespace : string; key_Name : string }.
#[global] Instance ObjectKey_eq_dec : EqDecision ObjectKey.
Proof. solve_decision. Defined.

(** Which reader a Get goes through: the cached client, or the uncached API reader. *)
Inductive source := Cached | Uncached.

Inductive api : Type :=
| AGet (src : source) (k : kind) (key : ObjectKey)
| AList (k : kind) (ns : string) (labels : gmap string string)
| ACreate (k : kind) (o : obj k)
| AUpdate (k : kind) (o : obj k)
| AStatusUpdate (k : kind) (o : obj k)
| APatch (k : kind) (old new : obj k)
| ADelete (k : kind) (key : ObjectKey)
| ACreateOrUpdate (k : kind) (key : ObjectKey) (mutate : obj k → res (obj k))
| ARun (name : string) (args : list string)
| ANow.

(** A write returns the stored object: client-go decodes the reply into the argument. *)
Definition reply (a : api) : Type :=
  match a with
  | AGet _ k _ => res (obj k)
  | AList k _ _ => res (list (obj k))
  | ACreate k _ => option error
  | AUpdate k _ => res (obj k)
  | AStatusUpdate k _ => res (obj k)
  | APatch k _ _ => res (obj k)
  | ADelete _ _ => option error
  | ACreateOrUpdate _ _ _ => option error
  | ARun _ _ => res string
  | ANow => time
  end.

(** Programs of the operator. *)
Abbreviation M := (prog (reply)).

Definition Get (k : kind) (key : ObjectKey) : M (res (obj k)) := call (AGet Cached k key).
Definition GetUncached (k : kind) (key : ObjectKey) : M (res (obj k)) := call (AGet Uncached k key).
Definition List_ (k : kind) (ns : string) (labels : gmap string string) : M (res (list (obj k))) :=
  call (AList k ns labels).
Definition Create (k : kind) (o : obj k) : M (option error) := call (ACreate k o).
Definition Update (k : kind) (o : obj k) : M (res (obj k)) := call (AUpdate k o).
Definition StatusUpdate (k : kind) (o : obj k) : M (res (obj k)) := call (AStatusUpdate k o).
Definition Patch (k : kind) (old new : obj k) : M (res (obj k)) := call (APatch k old new).
Definition Delete (k : kind) (key : ObjectKey) : M (option error) := call (ADelete k key).
Definition CreateOrUpdate (k : kind) (key : ObjectKey) (mutate : obj k → res (obj k)) : M (option error) :=
  call (ACreateOrUpdate k key mutate).
Definition Now : M time := call ANow.

(** [ctrl.Result] with the error of [Reconcile]. *)
Record Result := mkResult { RequeueAfter : Z }.
Definition done_ : Result := mkResult 0.
Definition requeue (d : Z) : Result := mkResult d.

(** ** Classifying calls *)
(** Does the call change anything outside the operator? *)
Definition is_write (a : api) : bool :=
  match a with
  | AGet _ _ _ | AList _ _ _ | ANow => false
  | _ => true
  end.
Definition is_kube_write (a : api) : bool :=
  match a with
  | AGet _ _ _ | AList _ _ _ | ANow | ARun _ _ => false
  | _ => true
  end.

(** ** The unconstrained environment

    Any reply at any time; [ok] restricts the calls. With [trace_env] the state is the
    list of calls made so far, most recent first. *)
Definition event := {a : api & reply a}.
Definition trace_env (ok : list event → api → Prop) : Env reply (list event) :=
  {| allowed := ok;
     step := λ s a r s', s' = existT a r :: s |}.
Definition any_call (_ : list event) (_ : api) : Prop := True.

Lemma wp_trace {A} (ok : list event → api → Prop) a (k : reply a → M A) Q h :
  ok h a → (∀ r, wp (trace_env ok) (k r) Q (existT a r :: h)) →
  wp (trace_env ok) (call a ≫= k) Q h.
Proof. intros Hok Hk. apply wp_call; [done|]. intros r s' ->. apply Hk. Qed.
Lemma wp_trace_last (ok : list event → api → Prop) a (Q : reply a → list event → Prop) h :
  ok h a → (∀ r, Q r (existT a r :: h)) → wp (trace_env ok) (call a) Q h.
Proof. intros Hok Hk. split; [done|]. intros r s' ->. apply Hk. Qed.

(** A server that refuses everything: the base of the environments written for a run. *)
Definition refuse (a : api) : reply a :=
  let e := Errorf "unavailable" in
  match a as a' return reply a' with
  | AGet _ _ _ => Err e
  | AList _ _ _ => Err e
  | ACreate _ _ => Some e
  | AUpdate _ _ => Err e
  | AStatusUpdate _ _ => Err e
  | APatch _ _ _ => Err e
  | ADelete _ _ => Some e
  | ACreateOrUpdate _ _ _ => Some e
  | ARun _ _ => Err e
  | ANow => 0%Z
  end.
