(* ===== verification/KubeLib.v ===== *)
(** * Library functions of apimachinery and controller-runtime

    [meta.SetStatusCondition] and friends, the finalizer helpers and
    [controllerutil.SetControllerReference] live outside the repository. [KubeLib] is
    what the operator calls, [KubeLibLaws] what their documentation promises; the
    components are developed against the interface. [refLib] is one implementation that
    satisfies the laws, used to run the model on concrete inputs. *)
From S2P Require Import Prelude GoLib Effects Types.

Class KubeLib := {
  (** [SetStatusCondition now conds c]: the new list and whether it changed; [now] is
      the clock reading used for a fresh LastTransitionTime. *)
  SetStatusCondition : time → list Condition → Condition → list Condition * bool;
  RemoveStatusCondition : list Condition → string → list Condition;
  FindStatusCondition : list Condition → string → option Condition;
  ContainsFinalizer : list string → string → bool;
  AddFinalizer : list string → string → list string;
  RemoveFinalizer : list string → string → list string;
  (** [SetControllerReference ownerKind owner controlled] *)
  SetControllerReference : string → ObjectMeta → ObjectMeta → res ObjectMeta
}.

(** The condition stored by [SetStatusCondition]: the transition time is kept while the
    status does not flip, and is [now] otherwise. *)
Definition stored_condition (now : time) (old : option Condition) (c : Condition) : Condition :=
  let t := match old with
           | Some o => if String.eqb (cd_Status o) (cd_Status c)
                       then cd_LastTransitionTime o else now
           | None => now
           end in
  mkCondition (cd_Type c) (cd_Status c) (cd_ObservedGeneration c) t (cd_Reason c) (cd_Message c).

(** The reference names the owner. *)
Definition controlled_by (k : string) (o : ObjectMeta) (r : OwnerReference) : Prop :=
  or_Kind r = k ∧ or_Name r = om_Name o ∧ or_UID r = om_UID o.

Class KubeLibLaws (L : KubeLib) : Prop := {
  find_type cs t c : FindStatusCondition cs t = Some c → cd_Type c = t;
  set_find now cs c : cd_LastTransitionTime c = 0%Z →
    FindStatusCondition (SetStatusCondition now cs c).1 (cd_Type c) =
      Some (stored_condition now (FindStatusCondition cs (cd_Type c)) c);
  set_other now cs c t : t ≠ cd_Type c →
    FindStatusCondition (SetStatusCondition now cs c).1 t = FindStatusCondition cs t;
  set_changed now cs c : cd_LastTransitionTime c = 0%Z →
    (SetStatusCondition now cs c).2 = false ↔ (SetStatusCondition now cs c).1 = cs;
  set_same now cs c o : cd_LastTransitionTime c = 0%Z →
    FindStatusCondition cs (cd_Type c) = Some o →
    stored_condition now (Some o) c = o →
    (SetStatusCondition now cs c).1 = cs;
  remove_find cs t : FindStatusCondition (RemoveStatusCondition cs t) t = None;
  remove_other cs t t' : t' ≠ t →
    FindStatusCondition (RemoveStatusCondition cs t) t' = FindStatusCondition cs t';
  finalizer_contains fs f : ContainsFinalizer fs f = true ↔ f ∈ fs;
  finalizer_add fs f g : g ∈ AddFinalizer fs f ↔ g = f ∨ g ∈ fs;
  finalizer_remove fs f g : g ∈ RemoveFinalizer fs f ↔ g ≠ f ∧ g ∈ fs;
  owner_set k o m m' : SetControllerReference k o m = Ok m' →
    om_Name m' = om_Name m ∧ om_Namespace m' = om_Namespace m ∧ om_UID m' = om_UID m ∧
    om_Labels m' = om_Labels m ∧ om_Finalizers m' = om_Finalizers m ∧
    ∃ r, r ∈ om_OwnerReferences m' ∧ or_Controller r = true ∧ or_UID r = om_UID o;
  (** It fails when the owner is in another namespace, or something else is the controller. *)
  owner_free k o m : om_Namespace m = om_Namespace o →
    (∀ r, r ∈ om_OwnerReferences m → or_Controller r = true → controlled_by k o r) →
    is_ok (SetControllerReference k o m) = true;
  (** The only controller it adds is the owner. *)
  owner_only k o m m' r : SetControllerReference k o m = Ok m' →
    r ∈ om_OwnerReferences m' → or_Controller r = true → controlled_by k o r ∨ r ∈ om_OwnerReferences m
}.

(** ** A reference implementation *)
Fixpoint ref_find (cs : list Condition) (t : string) : option Condition :=
  match cs with
  | [] => None
  | c :: cs' => if String.eqb (cd_Type c) t then Some c else ref_find cs' t
  end.
Fixpoint ref_set (now : time) (cs : list Condition) (c : Condition) : list Condition :=
  match cs with
  | [] => [stored_condition now None c]
  | o :: cs' =>
      if String.eqb (cd_Type o) (cd_Type c) then stored_condition now (Some o) c :: cs'
      else o :: ref_set now cs' c
  end.
Definition ref_controller (k : string) (o m : ObjectMeta) : res ObjectMeta :=
  if existsb (λ r, or_Controller r && negb (String.eqb (or_UID r) (om_UID o)))
       (om_OwnerReferences m)
  then Err (Errorf "already owned by another controller")
  else Ok (mkObjectMeta (om_Name m) (om_Namespace m) (om_UID m) (om_Generation m)
             (om_DeletionTimestamp m) (om_Finalizers m) (om_Labels m)
             (mkOwnerReference k (om_Name o) (om_UID o) true ::
              filter (λ r, or_UID r ≠ om_UID o) (om_OwnerReferences m))).
#[global] Instance refLib : KubeLib := {|
  SetStatusCondition := λ now cs c,
    let cs' := ref_set now cs c in (cs', negb (bool_decide (cs' = cs)));
  RemoveStatusCondition := λ cs t, filter (λ c, cd_Type c ≠ t) cs;
  FindStatusCondition := ref_find;
  ContainsFinalizer := λ fs f, bool_decide (f ∈ fs);
  AddFinalizer := λ fs f, if decide (f ∈ fs) then fs else fs ++ [f];
  RemoveFinalizer := λ fs f, filter (λ g, g ≠ f) fs;
  SetControllerReference := ref_controller
|}.

Lemma ref_find_set now cs c :
  ref_find (ref_set now cs c) (cd_Type c) = Some (stored_condition now (ref_find cs (cd_Type c)) c).
Proof.
  induction cs as [|o cs IH]; simpl; [by rewrite String.eqb_refl|].
  destruct (String.eqb_spec (cd_Type o) (cd_Type c)) as [He|He]; simpl.
  - by rewrite String.eqb_refl.
  - apply String.eqb_neq in He. by rewrite He.
Qed.
Lemma ref_find_set_ne now cs c t :
  t ≠ cd_Type c → ref_find (ref_set now cs c) t = ref_find cs t.
Proof.
  intros Hne. induction cs as [|o cs IH]; simpl.
  - by rewrite (proj2 (String.eqb_neq _ _)).
  - destruct (String.eqb_spec (cd_Type o) (cd_Type c)) as [He|He]; simpl.
    + by rewrite He, !(proj2 (String.eqb_neq (cd_Type c) t)) by done.
    + destruct (String.eqb (cd_Type o) t); [done|]. apply IH.
Qed.
Lemma ref_find_filter cs t t' :
  ref_find (filter (λ c, cd_Type c ≠ t) cs) t' =
  if decide (t' = t) then None else ref_find cs t'.
Proof.
  induction cs as [|o cs IH]; [by case_decide|]. rewrite filter_cons.
  destruct (decide (cd_Type o ≠ t)) as [Hne|He]; simpl; rewrite IH.
  - destruct (String.eqb_spec (cd_Type o) t'); case_decide; congruence.
  - apply dec_stable in He. destruct (String.eqb_spec (cd_Type o) t'); case_decide; congruence.
Qed.
#[global] Instance refLib_laws : KubeLibLaws refLib.
Proof.
  split; simpl.
  - intros cs t c. induction cs as [|o cs IH]; simpl; [done|].
    destruct (String.eqb_spec (cd_Type o) t); naive_solver.
  - intros. apply ref_find_set.
  - intros. by apply ref_find_set_ne.
  - intros. rewrite negb_false_iff. apply bool_decide_eq_true.
  - intros now cs c o _. induction cs as [|o' cs IH]; simpl; [done|].
    destruct (String.eqb_spec (cd_Type o') (cd_Type c)) as [He|He].
    + intros [= ->] ->. done.
    + intros Hf Hs. by rewrite IH.
  - intros. rewrite ref_find_filter. by case_decide.
  - intros. rewrite ref_find_filter. by case_decide.
  - intros. apply bool_decide_eq_true.
  - intros. case_decide; set_solver.
  - intros. by rewrite list_elem_of_filter.
  - intros k o m m'. unfold ref_controller. case_match; [done|]. intros [= <-]. simpl.
    split_and!; try done. eexists. split; [by left|done].
  - intros k o m _ Hc. unfold ref_controller. case_match eqn:He; [exfalso|done].
    apply existsb_exists in He as (r & Hin & [Hr Hu]%andb_true_iff). apply list_elem_of_In in Hin.
    destruct (Hc r Hin Hr) as (_ & _ & Huid). by rewrite Huid, String.eqb_refl in Hu.
  - intros k o m m' r. unfold ref_controller. case_match; [done|]. intros [= <-]. cbn.
    intros [->|[_ ?]%list_elem_of_filter]%elem_of_cons _; [by left|by right].
Qed.
