(* ===== verification/Footprint.v ===== *)
(** * Footprints: which calls a program may make

    [footprint C p Q]: whatever the replies, [p] only makes calls in [C] and its result
    satisfies [Q]. A footprint says nothing about when a call is made; it is what a client
    needs of a component it does not depend on, and lifts to any environment that permits
    the calls of [C] ([wp_footprint]). *)
From S2P Require Import Prelude GoLib Effects Types KubeTypes Kube.

Definition only (C : api → Prop) : Env reply unit := {|
  allowed := λ _ a, C a; step := λ _ _ _ _, True |}.
Definition footprint {A} (C : api → Prop) (p : M A) (Q : A → Prop) : Prop :=
  wp (only C) p (λ a _, Q a) tt.

Section footprint.
Context (C : api → Prop).

Lemma fp_ret {A} (a : A) (Q : A → Prop) : Q a → footprint C (mret a) Q.
Proof. intros H. by apply wp_ret. Qed.
Lemma fp_call {A} (a : api) (k : reply a → M A) Q :
  C a → (∀ r, footprint C (k r) Q) → footprint C (call a ≫= k) Q.
Proof. intros Ha Hk. apply wp_call; [done|]. intros r [] _. apply Hk. Qed.
Lemma fp_last (a : api) (Q : reply a → Prop) : C a → (∀ r, Q r) → footprint C (call a) Q.
Proof. intros Ha Hk. split; [done|]. intros r [] _. apply Hk. Qed.
Lemma fp_bind {A B} (p : M A) (f : A → M B) Q1 Q :
  footprint C p Q1 → (∀ a, Q1 a → footprint C (f a) Q) → footprint C (p ≫= f) Q.
Proof. intros Hp Hf. eapply wp_bind_2; [exact Hp|]. intros a [] Ha. by apply Hf. Qed.
Lemma fp_mono {A} (p : M A) (Q1 Q2 : A → Prop) :
  footprint C p Q1 → (∀ a, Q1 a → Q2 a) → footprint C p Q2.
Proof. intros Hp HQ. eapply wp_mono; [exact Hp|]. naive_solver. Qed.
Lemma fp_for_each {A B D} (l : list A) (acc : B) (body : A → B → M (D + B)) :
  (∀ x b, x ∈ l → footprint C (body x b) (λ _, True)) →
  footprint C (for_each l acc body) (λ _, True).
Proof.
  intros Hb. eapply wp_mono; [|done].
  apply (wp_for_each _ _ _ _ (λ _ _ _, True) (λ _ _, True)); [done|].
  intros visited x rest b [] Hl _. eapply wp_mono; [apply Hb; rewrite Hl; set_solver|].
  intros o ? _. by destruct o.
Qed.
End footprint.

Lemma fp_weaken {A} (C1 C2 : api → Prop) (p : M A) Q :
  (∀ a, C1 a → C2 a) → footprint C1 p Q → footprint C2 p Q.
Proof.
  intros HC Hp. eapply wp_mono.
  - by apply (wp_map (only C1) (only C2) id (λ _, True)); [intros; by apply HC| |..].
  - naive_solver.
Qed.

(** Lifting: [I] is what the calls of the footprint preserve. *)
Lemma wp_footprint {S A} (E : Env reply S) (C : api → Prop) (I : S → Prop) (p : M A) Q s :
  footprint C p Q →
  (∀ s a, I s → C a → allowed E s a) →
  (∀ s a r s', I s → C a → step E s a r s' → I s') →
  I s → wp E p (λ a s', Q a ∧ I s') s.
Proof.
  intros Hp Ha Hs HI. eapply wp_mono.
  - apply (wp_map (only C) E (λ _, tt) I); [exact Ha| |exact HI|exact Hp].
    intros s1 a r s2 HI1 HC Hst. split; [done|]. by eapply Hs.
  - naive_solver.
Qed.

(** One step of a footprint proof: a call, a result, or a case analysis. *)
Ltac fp_step :=
  match goal with
  | |- footprint _ (call _) _ => apply fp_last
  | |- footprint _ (call _ ≫= _) _ => apply fp_call; [|intros ?]
  | |- footprint _ (mret _) _ => apply fp_ret
  end.
Ltac fp :=
  unfold Get, GetUncached, List_, Create, Update, StatusUpdate, Patch, Delete, CreateOrUpdate, Now;
  repeat (cbv beta zeta; first [done | fp_step | case_match]).

(** Reading: the clock, and any object but the cluster being reconciled. *)
Definition reads (a : api) : Prop :=
  match a with
  | AGet _ k _ => match k with KCluster => False | _ => True end
  | AList _ _ _ => True
  | ANow => True
  | _ => False
  end.
(** Reading what a component keeps beside the cluster: Secrets, ConfigMaps, documents. *)
Definition side_reads (a : api) : Prop :=
  match a with
  | AGet _ k _ => match k with KSecret | KConfigMap | KUnstructured _ => True | _ => False end
  | ANow => True
  | _ => False
  end.
