(* ===== verification/Status.v ===== *)
(** * Status helpers ([internal/controller/status.go])

    Conditions, pod and container readiness, and the readiness of a cert-manager
    Certificate held as an unstructured object. *)
From S2P Require Import Prelude GoLib Effects Types KubeTypes Kube KubeLib.

Definition conditionReady : string := "Ready".
Definition conditionStorageReady : string := "StorageReady".
Definition conditionCertificateReady : string := "CertificateReady".

Section conditions.
Context `{L : KubeLib}.

(** The condition a call of [setCondition] asks for. *)
Definition wanted_condition (condType : string) (ok : bool) (generation : Z)
    (reason message : string) : Condition :=
  mkCondition condType (if ok then ConditionTrue else ConditionFalse) generation 0
    reason message.

Definition setCondition (now : time) (conds : list Condition) (condType : string) (ok : bool)
    (generation : Z) (reason message : string) : list Condition * bool :=
  SetStatusCondition now conds (wanted_condition condType ok generation reason message).

Context `{!KubeLibLaws L}.

Lemma setCondition_find now conds t ok gen reason msg :
  FindStatusCondition (setCondition now conds t ok gen reason msg).1 t =
    Some (stored_condition now (FindStatusCondition conds t)
            (wanted_condition t ok gen reason msg)).
Proof. by apply (set_find now conds (wanted_condition t ok gen reason msg)). Qed.

Lemma fst_is {A B} (p : A * B) a b : p = (a, b) → a = p.1.
Proof. by intros ->. Qed.
(** The Ready condition is [ok], for this generation. *)
Definition ready_reads (conds : list Condition) (ok : bool) (generation : Z) : Prop :=
  ∃ c, FindStatusCondition conds conditionReady = Some c ∧
    cd_Status c = (if ok then ConditionTrue else ConditionFalse) ∧ cd_ObservedGeneration c = generation.
Lemma setCondition_reads now conds ok gen reason msg :
  ready_reads (setCondition now conds conditionReady ok gen reason msg).1 ok gen.
Proof. eexists. split; [apply setCondition_find|]. done. Qed.

Lemma setCondition_other now conds t t' ok gen reason msg :
  t' ≠ t →
  FindStatusCondition (setCondition now conds t ok gen reason msg).1 t' =
    FindStatusCondition conds t'.
Proof. intros. by apply set_other. Qed.

Lemma setCondition_unchanged now conds t ok gen reason msg :
  (setCondition now conds t ok gen reason msg).2 = false ↔
  (setCondition now conds t ok gen reason msg).1 = conds.
Proof. by apply set_changed. Qed.

Lemma stored_stored now now' old c :
  stored_condition now' (Some (stored_condition now old c)) c = stored_condition now old c.
Proof. unfold stored_condition at 1. simpl. by rewrite String.eqb_refl. Qed.

(** A call that finds what an earlier one with the same arguments stored changes nothing,
    at whatever later time. *)
Lemma setCondition_keep now old now' conds t ok gen reason msg :
  FindStatusCondition conds t = Some (stored_condition now old (wanted_condition t ok gen reason msg)) →
  setCondition now' conds t ok gen reason msg = (conds, false).
Proof.
  intros Hf. assert ((setCondition now' conds t ok gen reason msg).1 = conds) as H1.
  { apply (set_same now' conds (wanted_condition t ok gen reason msg) _ eq_refl Hf), stored_stored. }
  pose proof (proj2 (setCondition_unchanged now' conds t ok gen reason msg) H1) as H2.
  destruct (setCondition now' conds t ok gen reason msg). simpl in *. by subst.
Qed.
Lemma setCondition_again now now' conds t ok gen reason msg :
  let conds' := (setCondition now conds t ok gen reason msg).1 in
  setCondition now' conds' t ok gen reason msg = (conds', false).
Proof. intros conds'. eapply setCondition_keep, setCondition_find. Qed.
End conditions.
#[export] Hint Resolve setCondition_again : operator.

(** ** Pods *)
Definition podIsReady (pod : Pod) : bool :=
  (fix go (l : list PodCondition) : bool :=
     match l with
     | [] => false
     | cond :: l' =>
         if String.eqb (pc_Type cond) PodReady
         then String.eqb (pc_Status cond) ConditionTrue
         else go l'
     end) (pod_Conditions pod).

Definition podHealth (pod : Pod) (ready : bool) : string :=
  if ready then NodeHealthy
  else if String.eqb (pod_Phase pod) "" || String.eqb (pod_Phase pod) PodUnknown
  then NodeHealthUnknown
  else NodeUnhealthy.

(** A set, non-empty waiting/terminated reason. *)
Definition state_reason (r : option string) : option string :=
  match r with
  | Some s => if String.eqb s "" then None else Some s
  | None => None
  end.

Definition containerReady (pod : Pod) (name : string) : bool * string :=
  (fix go (l : list ContainerStatus) : bool * string :=
     match l with
     | [] => (false, "container " +:+ name +:+ " not found in pod " +:+ pod_Name pod)
     | cs :: l' =>
         if negb (String.eqb (cns_Name cs) name) then go l'
         else if cns_Ready cs then (true, "")
         else match state_reason (cns_Waiting cs), state_reason (cns_Terminated cs) with
              | Some r, _ => (false, r)
              | None, Some r => (false, r)
              | None, None => (false, "container is not ready")
              end
     end) (pod_ContainerStatuses pod).

(** ** cert-manager Certificates *)
Definition certificateReady (cert : Unstructured) : bool * string :=
  match nested_slice2 (un_Fields cert) "status" "conditions" with
  | None => (false, "certificate has not been issued yet")
  | Some conds =>
      (fix go (l : list json) : bool * string :=
         match l with
         | [] => (false, "certificate has not been issued yet")
         | JMap cond :: l' =>
             if negb (String.eqb (str_field cond "type") "Ready") then go l'
             else if String.eqb (str_field cond "status") ConditionTrue then (true, "")
             else if negb (String.eqb (str_field cond "message") "")
             then (false, str_field cond "message")
             else (false, "certificate is not ready")
         | _ :: l' => go l'
         end) conds
  end.

Definition certManagerGroup : string := "cert-manager.io".
Definition certManagerVersion : string := "v1".
Definition certManagerKind : string := "Certificate".
Definition certificateGVK : GVK := mkGVK certManagerGroup certManagerVersion certManagerKind.

Definition fetchCertificateReadiness (name namespace : string) : M (bool * string) :=
  r ← Get (KUnstructured certificateGVK) (mkKey namespace name);
  mret match r with
       | Err e =>
           if IsNotFound e
           then (false, "cert-manager Certificate " +:+ name +:+ " does not exist yet")
           else if IsNoMatchError e then (false, "cert-manager CRDs are not installed")
           else (false, err_msg e)
       | Ok cert => certificateReady cert
       end.

(** ** Properties *)

(** The conditions of a Certificate, as the code sees them: the maps of the list. *)
Definition cert_conditions (cert : Unstructured) : list (list (string * json)) :=
  omap (λ j, match j with JMap m => Some m | _ => None end)
    (default [] (nested_slice2 (un_Fields cert) "status" "conditions")).

Lemma certificateReady_unfold cert :
  certificateReady cert =
  match find (λ c, String.eqb (str_field c "type") "Ready") (cert_conditions cert) with
  | None => (false, "certificate has not been issued yet")
  | Some c =>
      if String.eqb (str_field c "status") ConditionTrue then (true, "")
      else (false, if String.eqb (str_field c "message") ""
                   then "certificate is not ready" else str_field c "message")
  end.
Proof.
  unfold certificateReady, cert_conditions.
  destruct (nested_slice2 _ _ _) as [l|]; simpl; [|done].
  induction l as [|j l IH]; [done|]. simpl. destruct j as [| | | | |m]; try apply IH.
  simpl. destruct (String.eqb (str_field m "type") "Ready"); [|apply IH]. simpl.
  repeat case_match; done.
Qed.

(** The reason is empty exactly when the certificate is ready. *)
Lemma certificateReady_reason cert : (certificateReady cert).2 = "" ↔ (certificateReady cert).1 = true.
Proof.
  rewrite certificateReady_unfold. case_match; simpl; [|done].
  case_match; simpl; [done|]. destruct (String.eqb_spec (str_field l "message") ""); naive_solver.
Qed.
