(* ===== verification/Executor.v ===== *)
(** * The riak-admin executor ([internal/riak/executor.go])

    Every Riak operation is one [kubectl exec ... riak-admin <args>] whose textual reply
    is parsed. [encoding/json], whose number formatting goes through [float64], is the
    parameter [GoJson]: how a property value is decoded and a property map encoded. *)
From S2P Require Import Prelude GoLib Effects Types KubeTypes Kube.

(** ** Running riak-admin *)

(** What follows [riak-admin failed: ] is the runner's error; the argument vector is
    the whole [kubectl] command line. *)
Definition riak_admin_script : string :=
  "VMARGS_PATH=$(ls -1 /var/lib/riak/generated.conf/vm.*.args 2>/dev/null | tail -1) exec riak-admin "
    +:+ dquote +:+ "$@" +:+ dquote.
(** ** Running a command *)
(** How a process ended: [cmd.Run()]'s error and what was written to its two streams. *)
Record process := mkProcess { pr_err : option error; pr_stdout : string; pr_stderr : string }.
(** [runShellCommand], over what [os/exec] does with a command line. *)
Definition runShellCommand (start : string → list string → process) (name : string) (args : list string)
    : res string :=
  let p := start name args in
  match pr_err p with
  | Some err => Err (Wrapf "" err (": " +:+ pr_stderr p))
  | None => Ok (TrimSpace (pr_stdout p))
  end.
(** [Executor]; the logger is left out. *)
Record Executor := mkExecutor { runnerFn : string → list string → res string }.
Definition NewExecutorWithRunner (runner : string → list string → res string) : Executor := mkExecutor runner.
Definition NewExecutor (start : string → list string → process) : Executor := mkExecutor (runShellCommand start).
(** The commands of a program, run by an executor; no other call is answered. *)
Definition executor_server (e : Executor) (a : api) (w : unit) : reply a * unit :=
  match a with
  | ARun name args => (runnerFn e name args, tt)
  | a => (refuse a, tt)
  end.

(** ** riak-admin *)
Definition kubectl_args (namespace podName containerName : string) (args : list string) : list string :=
  ["exec"; "-n"; namespace; podName; "-c"; containerName; "--"; "sh"; "-c";
   riak_admin_script; "riak-admin"] ++ args.

Definition nodeNotResponding (line : string) : bool :=
  HasPrefix line "Node " && HasSuffix line " is not responding to pings".

(** The loop of [riakAdminFailed] over the remaining lines, [last] being the last
    non-blank line seen. *)
Fixpoint riakAdminFailed_loop (lines : list string) (last : string) : bool :=
  match lines with
  | [] => String.eqb last "error"
  | line :: lines' =>
      let line := TrimSpace line in
      if String.eqb line "" then riakAdminFailed_loop lines' last
      else if HasPrefix line "{error," || nodeNotResponding line then true
      else riakAdminFailed_loop lines' line
  end.
Definition riakAdminFailed (out : string) : bool :=
  riakAdminFailed_loop (Split out nl) "".

Definition subcommand (args : list string) : list string :=
  if (2 <? length args)%nat then take 2 args else args.

Definition maxLen : nat := 300.
Definition compactOutput (out : string) : string :=
  let s := Join (Fields out) " " in
  if (maxLen <? String.length s)%nat then take_bytes maxLen s +:+ "..." else s.

(** What [ExecuteRiakAdmin] returns for the runner's reply. *)
Definition admin_reply (args : list string) (r : res string) : string * option error :=
  match r with
  | Err e => ("", Some (Wrapf "riak-admin failed: " e ""))
  | Ok out =>
      if riakAdminFailed out
      then (out, Some (Errorf ("riak-admin " +:+ Join (subcommand args) " " +:+
                               " failed: " +:+ compactOutput out)))
      else (out, None)
  end.
Definition ExecuteRiakAdmin (namespace podName containerName : string) (args : list string)
    : M (string * option error) :=
  r ← call (ARun "kubectl" (kubectl_args namespace podName containerName args));
  mret (admin_reply args r).

(** ** Membership *)
Definition GetClusterMembers_parse (output : string) : list string :=
  foldl (λ members line,
    let line := TrimSpace line in
    if String.eqb line "" || HasPrefix line "---" || Contains line "Status" then members
    else match Fields line with
         | [] => members
         | p :: _ => members ++ [p]
         end) [] (Split output nl).
Definition GetClusterMembers (namespace podName containerName : string) : M (res (list string)) :=
  r ← ExecuteRiakAdmin namespace podName containerName ["member-status"];
  mret match r.2 with
       | Some e => Err e
       | None => Ok (GetClusterMembers_parse r.1)
       end.

Definition memberStatusValid : string := "valid".
Record ClusterMember := mkClusterMember { cmb_Status : string; cmb_Node : string }.
#[global] Instance ClusterMember_eq_dec : EqDecision ClusterMember.
Proof. solve_decision. Defined.

Definition member_states : list string :=
  [memberStatusValid; "joining"; "leaving"; "exiting"; "down"].
Definition parse_member_line (line : string) : option ClusterMember :=
  match Fields line with
  | [f0; _; _; f3] =>
      if HasPrefix f3 "riak@" && bool_decide (f0 ∈ member_states)
      then Some (mkClusterMember f0 f3) else None
  | _ => None
  end.
Definition parseMemberStatus (output : string) : list ClusterMember :=
  omap parse_member_line (Split output nl).

Definition MemberStatus (namespace podName containerName : string) : M (res (list ClusterMember)) :=
  r ← ExecuteRiakAdmin namespace podName containerName ["member-status"];
  mret match r.2 with
       | Some e => Err e
       | None => Ok (parseMemberStatus r.1)
       end.

(** ** Transfers *)
Fixpoint transfers_loop (lines : list string) (inActive : bool) : bool :=
  match lines with
  | [] => true
  | line :: lines' =>
      let line := TrimSpace line in
      if String.eqb line "active transfers:" then transfers_loop lines' true
      else if inActive && negb (String.eqb line "") && negb (String.eqb line "ok") then false
      else transfers_loop lines' inActive
  end.
Definition parseTransfersIdle (out : string) : bool :=
  let lower := ToLower out in
  if Contains lower "waiting to handoff" || negb (Contains lower "no transfers active")
  then false
  else transfers_loop (Split lower nl) false.

Definition TransfersIdle (namespace podName containerName : string) : M (res (bool * string)) :=
  r ← ExecuteRiakAdmin namespace podName containerName ["transfers"];
  mret match r.2 with
       | Some e => Err e
       | None => Ok (parseTransfersIdle r.1, compactOutput r.1)
       end.

(** ** Cluster changes *)
Definition JoinCluster (namespace podName containerName targetNode : string) : M (option error) :=
  snd <$> ExecuteRiakAdmin namespace podName containerName ["cluster"; "join"; targetNode].
Definition PlanCluster (namespace podName containerName action : string) : M (string * option error) :=
  ExecuteRiakAdmin namespace podName containerName ["cluster"; action].
Definition CommitCluster (namespace podName containerName : string) : M (string * option error) :=
  ExecuteRiakAdmin namespace podName containerName ["cluster"; "commit"].
Definition GetStatus (namespace podName containerName : string) : M (string * option error) :=
  ExecuteRiakAdmin namespace podName containerName ["status"].

(** ** Bucket types *)
Class GoJson := {
  jvalue : Type;
  json_Unmarshal : string → option jvalue;
  json_String : string → jvalue;
  json_MarshalProps : gmap string jvalue → res string
}.

Section bucket.
Context `{J : GoJson}.

(** A value that is a JSON literal keeps its native type, any other is a string. *)
Definition native_value (v : string) : jvalue :=
  match json_Unmarshal v with Some j => j | None => json_String v end.

Definition CreateBucket (namespace podName containerName bucketType : string)
    (properties : gmap string string) : M (option error) :=
  let props := native_value <$> properties in
  match json_MarshalProps props with
  | Err e => mret (Some (Wrapf "failed to marshal bucket properties: " e ""))
  | Ok propsJSON =>
      r ← ExecuteRiakAdmin namespace podName containerName
            ["bucket-type"; "create"; bucketType; propsJSON];
      match r.2 with
      | None =>
          r' ← ExecuteRiakAdmin namespace podName containerName
                 ["bucket-type"; "activate"; bucketType];
          mret match r'.2 with
               | Some e => if Contains (err_msg e) "already" then None else Some e
               | None => None
               end
      | Some e =>
          if Contains (err_msg e) "already_active" || Contains (err_msg e) "default_type" then
            if bool_decide (props = ∅) then mret None
            else snd <$> ExecuteRiakAdmin namespace podName containerName
                           ["bucket-type"; "update"; bucketType; propsJSON]
          else mret (Some e)
      end
  end.
End bucket.

(** ** Security *)
Definition CreateUserForCert_ex (namespace podName containerName username : string) : M (option error) :=
  r ← ExecuteRiakAdmin namespace podName containerName ["security"; "add-user"; username];
  mret match r.2 with
       | Some e => if Contains (err_msg e) "role_exists" then None else Some e
       | None => None
       end.
Definition EnableSecurity_ex (namespace podName containerName : string) : M (option error) :=
  r ← ExecuteRiakAdmin namespace podName containerName ["security"; "enable"];
  mret match r.2 with
       | Some e => if Contains (err_msg e) "already" then None else Some e
       | None => None
       end.
Definition AddSecuritySource_ex (namespace podName containerName username : string) : M (option error) :=
  snd <$> ExecuteRiakAdmin namespace podName containerName
            ["security"; "add-source"; username; "0.0.0.0/0"; "certificate"].

Definition riakKVPermissions (permission : string) : string :=
  if String.eqb permission "read" then "riak_kv.get"
  else if String.eqb permission "write" then "riak_kv.put"
  else if String.eqb permission "delete" then "riak_kv.delete"
  else if String.eqb permission "list" then "riak_kv.list_keys,riak_kv.list_buckets"
  else if String.eqb permission "admin"
  then "riak_kv.get,riak_kv.put,riak_kv.delete,riak_kv.list_keys,riak_kv.list_buckets"
  else permission.

Definition resourceAny : string := "any".

Definition grantTarget (resource bucket : string) : res (list string) :=
  if String.eqb resource resourceAny then Ok [resourceAny]
  else if String.eqb resource "bucket" then
    match Fields bucket with
    | [] => Err (Errorf "bucket grant requires a bucket target")
    | target => Ok target
    end
  else Err (Errorf ("unknown grant resource " +:+ Quote resource)).

(** The inner loop over one permission's tokens, with the [seen] map and the tokens so
    far. *)
Definition add_token (st : gset string * list string) (t : string) : gset string * list string :=
  if bool_decide (t ∈ st.1) then st else ({[t]} ∪ st.1, st.2 ++ [t]).
Definition permissionTokens (permissions : list string) : list string :=
  (foldl (λ st p, foldl add_token st (Split (riakKVPermissions p) ",")) (∅, []) permissions).2.

Definition GrantPermissions (namespace podName containerName username resource bucket : string)
    (permissions : list string) : M (option error) :=
  match grantTarget resource bucket with
  | Err e => mret (Some e)
  | Ok target =>
      snd <$> ExecuteRiakAdmin namespace podName containerName
        (["security"; "grant"; Join (permissionTokens permissions) ","; "on"] ++ target ++
         ["to"; username])
  end.
Definition GrantPermission (namespace podName containerName username resource permission bucket : string)
    : M (option error) :=
  GrantPermissions namespace podName containerName username resource bucket [permission].
Definition RevokePermissions (namespace podName containerName username resource bucket : string)
    (tokens : list string) : M (option error) :=
  match grantTarget resource bucket with
  | Err e => mret (Some e)
  | Ok target =>
      snd <$> ExecuteRiakAdmin namespace podName containerName
        (["security"; "revoke"; Join tokens ","; "on"] ++ target ++ ["from"; username])
  end.
Definition DeleteUser_ex (namespace podName containerName username : string) : M (option error) :=
  r ← ExecuteRiakAdmin namespace podName containerName ["security"; "del-user"; username];
  mret match r.2 with
       | Some e => if Contains (err_msg e) "unknown_user" then None else Some e
       | None => None
       end.

(** ** Reading grants back *)
Record GrantEntry := mkGrantEntry { ge_Type : string; ge_Bucket : string; ge_Tokens : list string }.
#[global] Instance GrantEntry_eq_dec : EqDecision GrantEntry.
Proof. solve_decision. Defined.

Definition parse_tokens (col : string) : list string :=
  filter (λ t, t ≠ "") (TrimSpace <$> Split col ",").

(** [last.Tokens = append(last.Tokens, tokens...)] on the last entry of the list. *)
Definition extend_last (entries : list GrantEntry) (tokens : list string) : list GrantEntry :=
  match last entries with
  | Some e => take (pred (length entries)) entries ++
              [mkGrantEntry (ge_Type e) (ge_Bucket e) (ge_Tokens e ++ tokens)]
  | None => entries
  end.

(** What one table row does to the entries read so far. *)
Definition grant_row (entries : list GrantEntry) (line : string) : list GrantEntry :=
  match Split (TrimByte line "|") "|" with
  | [c0; c1; c2] =>
      let typ := TrimSpace c0 in
      let bucket := TrimSpace c1 in
      if String.eqb typ "type" then entries
      else
        let tokens := parse_tokens c2 in
        if String.eqb typ "" && negb (bool_decide (entries = [])) then extend_last entries tokens
        else entries ++ [mkGrantEntry typ bucket tokens]
  | _ => entries
  end.
Fixpoint dedicated_loop (lines : list string) (inSection : bool) (entries : list GrantEntry)
    : list GrantEntry :=
  match lines with
  | [] => entries
  | line :: lines' =>
      if HasPrefix line "Dedicated permissions" then dedicated_loop lines' true entries
      else if HasPrefix line "Cumulative permissions" then entries
      else if negb inSection || negb (HasPrefix line "|")
      then dedicated_loop lines' inSection entries
      else dedicated_loop lines' inSection (grant_row entries line)
  end.
Definition parseDedicatedGrants (output : string) : list GrantEntry :=
  dedicated_loop (Split output nl) false [].

Definition GetUserGrants (namespace podName containerName username : string) : M (res (list GrantEntry)) :=
  r ← ExecuteRiakAdmin namespace podName containerName ["security"; "print-grants"; username];
  mret match r.2 with
       | Some e => Err e
       | None => Ok (parseDedicatedGrants r.1)
       end.

(** ** Properties: detecting failures *)

(** The trimmed, non-blank lines of a reply. *)
Definition reply_lines (out : string) : list string :=
  filter (λ l, l ≠ "") (TrimSpace <$> Split out nl).
Definition error_line (l : string) : bool := HasPrefix l "{error," || nodeNotResponding l.

Lemma riakAdminFailed_loop_spec lines last0 :
  riakAdminFailed_loop lines last0 =
  let ls := filter (λ l, l ≠ "") (TrimSpace <$> lines) in
  existsb error_line ls || String.eqb (default last0 (last ls)) "error".
Proof.
  revert last0. induction lines as [|line lines IH]; intros last0; [done|].
  cbn [riakAdminFailed_loop fmap list_fmap]. rewrite filter_cons.
  destruct (String.eqb_spec (TrimSpace line) "") as [->|Hne]; simpl; [by rewrite IH|].
  rewrite decide_True by done. cbn [existsb].
  unfold error_line at 1. destruct (HasPrefix _ _ || _); [done|].
  rewrite IH. cbn zeta. f_equal. f_equal. rewrite last_cons.
  by destruct (last (filter _ _)).
Qed.

Lemma riakAdminFailed_spec out :
  riakAdminFailed out = true ↔
  (∃ l, l ∈ reply_lines out ∧ error_line l = true) ∨ last (reply_lines out) = Some "error".
Proof.
  unfold riakAdminFailed. rewrite riakAdminFailed_loop_spec. cbn zeta.
  fold (reply_lines out). rewrite orb_true_iff, existsb_elem_of, String.eqb_eq.
  destruct (last (reply_lines out)) as [l|] eqn:Hl; simpl; naive_solver.
Qed.

(** [compactOutput] is a single line of bounded length. *)
Lemma take_bytes_length n s : String.length (take_bytes n s) = n `min` String.length s.
Proof.
  revert s. induction n as [|n IH]; intros [|a s]; simpl; try done. by rewrite IH.
Qed.
Lemma take_bytes_all f n s : Str.all f s = true → Str.all f (take_bytes n s) = true.
Proof.
  revert s. induction n as [|n IH]; intros [|a s]; simpl; try done.
  rewrite !andb_true_iff. naive_solver.
Qed.
Lemma Join_all f l sep :
  Str.all f sep = true → Forall (λ s, Str.all f s = true) l → Str.all f (Join l sep) = true.
Proof.
  intros Hsep Hl. induction Hl as [|x l Hx Hl IH]; [done|].
  destruct l as [|y l]; [done|]. rewrite Join_cons, !Str.all_app, Hx, Hsep. done.
Qed.
Lemma is_word_no_nl w : is_word w = true → no_byte nl w = true.
Proof.
  rewrite is_word_spec. intros [_ Hw]. revert Hw. apply Str.all_impl. intros a Ha.
  apply negb_true_iff in Ha. apply negb_true_iff. unfold is_byte.
  apply Ascii.eqb_neq. by intros ->.
Qed.
Lemma compactOutput_bound out : (String.length (compactOutput out) ≤ maxLen + 3)%nat.
Proof.
  unfold compactOutput. destruct (Nat.ltb_spec maxLen (String.length (Join (Fields out) " "))).
  - rewrite Str.app_length, take_bytes_length.
    change (String.length "...") with 3. lia.
  - lia.
Qed.
Lemma compactOutput_one_line out : no_byte nl (compactOutput out) = true.
Proof.
  assert (no_byte nl (Join (Fields out) " ") = true) as Hj.
  { apply Join_all; [done|]. apply Forall_forall. intros w Hw.
    by eapply is_word_no_nl, Fields_words. }
  unfold compactOutput. case_match; [|done]. unfold no_byte.
  rewrite Str.all_app. by rewrite take_bytes_all.
Qed.
