(* ===== verification/ExecutorFacts.v ===== *)
(** * What the riak-admin parsers and commands guarantee

    Round trips of the two tables the operator reads, soundness of the transfer check,
    the tokens of a permission list and the outcome of each command on every branch. *)
From S2P Require Import Prelude GoLib Effects Types KubeTypes Kube Executor.

(** ** Padded words *)
Definition is_pad (s : string) : bool := negb (String.eqb s "") && Str.all is_space s && no_byte nl s.

Lemma is_pad_spec s :
  is_pad s = true ↔ s ≠ "" ∧ Str.all is_space s = true ∧ no_byte nl s = true.
Proof.
  unfold is_pad. rewrite !andb_true_iff, negb_true_iff, String.eqb_neq. tauto.
Qed.
Lemma Fields_pad_r s p t : is_pad p = true → Fields (s +:+ p +:+ t) = Fields s ++ Fields t.
Proof.
  rewrite is_pad_spec. intros (Hne & Hp & _). destruct p as [|c p]; [done|].
  simpl in Hp. apply andb_true_iff in Hp as [Hc Hp].
  rewrite Str.app_cons, Fields_sep by done. f_equal. clear Hne.
  induction p as [|b p IH]; [done|]. simpl in Hp. apply andb_true_iff in Hp as [Hb Hp].
  rewrite Str.app_cons. change (String b (p +:+ t)) with ("" +:+ String b (p +:+ t)).
  rewrite Fields_sep by done. by rewrite IH.
Qed.
Lemma Fields_pad_l p t : is_pad p = true → Fields (p +:+ t) = Fields t.
Proof. intros Hp. rewrite <-(Str.app_nil_l (p +:+ t)). by rewrite Fields_pad_r. Qed.

(** ** The member-status table *)

(** One printed row: the member and the two columns the operator does not use. *)
Record member_row := mkMemberRow {
  mr_member : ClusterMember; mr_ring : string; mr_pending : string; mr_pad : string }.
Definition row_ok (r : member_row) : bool :=
  bool_decide (cmb_Status (mr_member r) ∈ member_states) &&
  HasPrefix (cmb_Node (mr_member r)) "riak@" && is_word (cmb_Node (mr_member r)) &&
  is_word (mr_ring r) && is_word (mr_pending r) && is_pad (mr_pad r).
Definition print_row (r : member_row) : string :=
  cmb_Status (mr_member r) +:+ mr_pad r +:+ mr_ring r +:+ mr_pad r +:+ mr_pending r +:+
  mr_pad r +:+ cmb_Node (mr_member r).
Definition member_header : list string :=
  ["================================= Membership ==================================";
   "Status     Ring    Pending    Node";
   "-------------------------------------------------------------------------------"].
(** The last line counts the rows of each state: [Valid:3 / Leaving:0 / Exiting:0 / Joining:0 / Down:0]. *)
Definition counted (title state : string) (rows : list member_row) : string :=
  title +:+ ":" +:+ Itoa (Z.of_nat (length (filter (λ r, cmb_Status (mr_member r) = state) rows))).
Definition summary_words (rows : list member_row) : list string :=
  [counted "Valid" memberStatusValid rows; "/"; counted "Leaving" "leaving" rows; "/";
   counted "Exiting" "exiting" rows; "/"; counted "Joining" "joining" rows; "/"; counted "Down" "down" rows].
Definition member_footer (rows : list member_row) : list string :=
  ["-------------------------------------------------------------------------------";
   Join (summary_words rows) " "].
Definition print_members (rows : list member_row) : string :=
  Join (member_header ++ (print_row <$> rows) ++ member_footer rows) (sep_of nl).

Lemma member_states_words s : s ∈ member_states → is_word s = true.
Proof. unfold member_states. rewrite !elem_of_cons, elem_of_nil. naive_solver. Qed.

Lemma print_row_fields r :
  row_ok r = true →
  Fields (print_row r) =
    [cmb_Status (mr_member r); mr_ring r; mr_pending r; cmb_Node (mr_member r)].
Proof.
  unfold row_ok, print_row. rewrite !andb_true_iff, bool_decide_eq_true.
  intros (((((Hs & Hn) & Hw) & Hr) & Hq) & Hp). apply member_states_words in Hs.
  by rewrite !Fields_pad_r, !Fields_word.
Qed.
Lemma parse_print_row r :
  row_ok r = true → parse_member_line (print_row r) = Some (mr_member r).
Proof.
  intros Hr. unfold parse_member_line. rewrite print_row_fields by done.
  unfold row_ok in Hr. rewrite !andb_true_iff in Hr.
  destruct Hr as (((((-> & ->) & _) & _) & _) & _). by destruct (mr_member r).
Qed.
Lemma print_row_no_nl r : row_ok r = true → no_byte nl (print_row r) = true.
Proof.
  unfold row_ok, print_row, no_byte. rewrite !andb_true_iff, bool_decide_eq_true.
  intros (((((Hs & Hn) & Hw) & Hr) & Hq) & Hp). apply member_states_words in Hs.
  apply is_pad_spec in Hp as (_ & _ & Hp). rewrite !Str.all_app.
  rewrite !andb_true_iff. repeat split; first [exact Hp | by apply is_word_no_nl].
Qed.

Lemma counted_word title state rows : is_word title = true → is_word (counted title state rows) = true.
Proof.
  intros [Hne Ht]%is_word_spec. apply is_word_spec. unfold counted. split; [by destruct title|].
  rewrite !Str.all_app, Ht. apply digits_no_space, Itoa_digits. lia.
Qed.
Lemma summary_words_ok rows : Forall (λ w, is_word w = true) (summary_words rows).
Proof. by repeat constructor; apply counted_word. Qed.
(** It is nine words, so no row. *)
Lemma summary_no_row rows : parse_member_line (Join (summary_words rows) " ") = None.
Proof. unfold parse_member_line. by rewrite Fields_Join by apply summary_words_ok. Qed.
Lemma summary_no_nl rows : no_byte nl (Join (summary_words rows) " ") = true.
Proof.
  apply Join_all; [done|]. apply (Forall_impl _ _ _ (summary_words_ok rows)). apply is_word_no_nl.
Qed.

Lemma print_members_lines rows :
  Forall (λ r, row_ok r = true) rows →
  Split (print_members rows) nl = member_header ++ (print_row <$> rows) ++ member_footer rows.
Proof.
  intros Hrows. unfold print_members. rewrite Split_Join; [done|done|].
  rewrite !Forall_app. split; [|split].
  - repeat constructor.
  - apply Forall_fmap, (Forall_impl _ _ _ Hrows). apply print_row_no_nl.
  - repeat constructor. apply summary_no_nl.
Qed.
Lemma parse_rows rows : Forall (λ r, row_ok r = true) rows →
  omap parse_member_line (print_row <$> rows) = mr_member <$> rows.
Proof.
  induction 1 as [|r rows Hr Hrows IH]; [done|]. csimpl. rewrite parse_print_row by done. by rewrite IH.
Qed.
Lemma parse_members_roundtrip rows :
  Forall (λ r, row_ok r = true) rows →
  parseMemberStatus (print_members rows) = mr_member <$> rows.
Proof.
  intros Hrows. unfold parseMemberStatus. rewrite print_members_lines by done.
  rewrite !omap_app, parse_rows by done. change (omap parse_member_line member_header) with (@nil ClusterMember).
  unfold member_footer. cbn [omap list_omap]. rewrite summary_no_row.
  change (parse_member_line "-------------------------------------------------------------------------------")
    with (@None ClusterMember). simpl. by rewrite app_nil_r.
Qed.

(** A table is not taken for a failure: no line of it begins like one. *)
Definition tame (l : string) : bool :=
  match l with
  | "" => true
  | String a _ => negb (is_space a) && negb (Ascii.eqb a "{") && negb (Ascii.eqb a "N") && negb (Ascii.eqb a "e")
  end.
Lemma TrimSpace_first a s : is_space a = false → ∃ t, TrimSpace (String a s) = String a t.
Proof.
  intros Ha. unfold TrimSpace, trim. cbn [trim_left]. rewrite Ha. cbn [trim_right]. rewrite Ha.
  destruct (trim_right is_space s); by eexists.
Qed.
Lemma loop_tame lines last0 :
  Forall (λ l, tame l = true) lines → last0 ≠ "error" → riakAdminFailed_loop lines last0 = false.
Proof.
  intros Hl. revert last0. induction Hl as [|l lines Hl _ IH]; intros last0 H0; cbn [riakAdminFailed_loop].
  { by apply String.eqb_neq. }
  destruct l as [|a l]; [by apply IH|]. unfold tame in Hl.
  rewrite !andb_true_iff, !negb_true_iff, !Ascii.eqb_neq in Hl.
  destruct Hl as [[[Ha Hb] Hn] He]. destruct (TrimSpace_first a l Ha) as [t ->].
  change (String.eqb (String a t) "") with false. cbv iota.
  assert (HasPrefix (String a t) "{error," = false) as ->.
  { apply not_true_iff_false. intros (x & Hx)%HasPrefix_spec. by injection Hx. }
  assert (nodeNotResponding (String a t) = false) as ->.
  { apply andb_false_iff. left. apply not_true_iff_false. intros (x & Hx)%HasPrefix_spec. by injection Hx. }
  apply IH. intros [= ]. done.
Qed.
Lemma print_members_succeeds rows :
  Forall (λ r, row_ok r = true) rows → Forall (λ r, cmb_Status (mr_member r) ≠ "exiting") rows →
  riakAdminFailed (print_members rows) = false.
Proof.
  intros Hrows Hex. unfold riakAdminFailed. rewrite print_members_lines by done.
  apply loop_tame; [|done]. rewrite !Forall_app. split; [by repeat constructor|]. split; [|by repeat constructor].
  apply Forall_fmap, Forall_forall. intros r Hin. rewrite Forall_forall in Hrows, Hex.
  specialize (Hrows r Hin). specialize (Hex r Hin). unfold row_ok in Hrows.
  rewrite !andb_true_iff, bool_decide_eq_true in Hrows. destruct Hrows as (((((Hs & _) & _) & _) & _) & _).
  unfold member_states, memberStatusValid in Hs. cbn. unfold print_row.
  rewrite !elem_of_cons in Hs.
  destruct Hs as [Hs|[Hs|[Hs|[Hs|[Hs|Hs%elem_of_nil]]]]]; [| | |..|done]; rewrite Hs in *; done.
Qed.

(** ** Transfers *)
(** The lines after the first "active transfers:" header. *)
Fixpoint after_header (lines : list string) : list string :=
  match lines with
  | [] => []
  | l :: lines' => if String.eqb (TrimSpace l) "active transfers:" then lines' else after_header lines'
  end.
Definition idle_line (l : string) : bool :=
  bool_decide (TrimSpace l ∈ [""; "ok"; "active transfers:"]).

Lemma idle_line_spec l :
  idle_line l = true ↔ TrimSpace l = "" ∨ TrimSpace l = "ok" ∨ TrimSpace l = "active transfers:".
Proof.
  unfold idle_line. rewrite bool_decide_eq_true, !elem_of_cons, elem_of_nil. tauto.
Qed.
Lemma transfers_loop_active lines : transfers_loop lines true = forallb idle_line lines.
Proof.
  induction lines as [|l lines IH]; [done|]. cbn [transfers_loop forallb]. rewrite IH.
  pose proof (idle_line_spec l) as Hi.
  destruct (String.eqb_spec (TrimSpace l) "active transfers:") as [He|He].
  { by rewrite (proj2 Hi) by tauto. }
  destruct (String.eqb_spec (TrimSpace l) "") as [He1|He1]; simpl.
  { by rewrite (proj2 Hi) by tauto. }
  destruct (String.eqb_spec (TrimSpace l) "ok") as [He2|He2]; simpl.
  { by rewrite (proj2 Hi) by tauto. }
  assert (idle_line l = false) as -> by (apply not_true_iff_false; tauto). done.
Qed.
Lemma transfers_loop_spec lines :
  transfers_loop lines false = forallb idle_line (after_header lines).
Proof.
  induction lines as [|l lines IH]; [done|]. cbn [transfers_loop after_header].
  destruct (String.eqb (TrimSpace l) "active transfers:"); [apply transfers_loop_active|].
  simpl. apply IH.
Qed.

Lemma parseTransfersIdle_iff out :
  parseTransfersIdle out = true ↔
  Contains (ToLower out) "no transfers active" = true ∧
  Contains (ToLower out) "waiting to handoff" = false ∧
  ∀ l, l ∈ after_header (Split (ToLower out) nl) → idle_line l = true.
Proof.
  unfold parseTransfersIdle. rewrite transfers_loop_spec, <-forallb_elem_of.
  destruct (Contains _ "waiting to handoff"), (Contains _ "no transfers active"); simpl;
    naive_solver.
Qed.

(** ** Permission tokens *)
Definition tokens_of (permission : string) : list string := Split (riakKVPermissions permission) ",".

Lemma add_tokens_spec toks st :
  st.1 = list_to_set st.2 → NoDup st.2 →
  let st' := foldl add_token st toks in
  st'.1 = list_to_set st'.2 ∧ NoDup st'.2 ∧ (∀ t, t ∈ st'.2 ↔ t ∈ st.2 ∨ t ∈ toks).
Proof.
  revert st. induction toks as [|x toks IH]; intros [seen out] Hseen Hnd; simpl in *.
  { split_and!; [done..|]. set_solver. }
  unfold add_token at 2 4 6 8; simpl. case_bool_decide as Hx.
  - destruct (IH (seen, out) Hseen Hnd) as (H1 & H2 & H3).
    split_and!; [done..|]. intros t. rewrite H3. simpl. set_solver.
  - destruct (IH ({[x]} ∪ seen, out ++ [x])) as (H1 & H2 & H3); simpl.
    + rewrite list_to_set_app_L, Hseen. set_solver.
    + apply NoDup_app. split_and!; [done| |apply NoDup_singleton]. set_solver.
    + split_and!; [done..|]. intros t. rewrite H3. simpl. set_solver.
Qed.

Lemma permissionTokens_unfold ps :
  permissionTokens ps = (foldl add_token (∅, []) (ps ≫= tokens_of)).2.
Proof.
  unfold permissionTokens. f_equal. generalize (∅ : gset string, @nil string).
  induction ps as [|p ps IH]; intros st; [done|].
  simpl. rewrite IH. csimpl. by rewrite foldl_app.
Qed.
Lemma permissionTokens_NoDup ps : NoDup (permissionTokens ps).
Proof.
  rewrite permissionTokens_unfold. apply add_tokens_spec; [done|constructor].
Qed.
Lemma permissionTokens_elem ps t :
  t ∈ permissionTokens ps ↔ ∃ p, p ∈ ps ∧ t ∈ tokens_of p.
Proof.
  rewrite permissionTokens_unfold.
  destruct (add_tokens_spec (ps ≫= tokens_of) (∅, [])) as (_ & _ & ->); [done|constructor|].
  simpl. rewrite list_elem_of_bind. set_solver.
Qed.
Lemma permissionTokens_no_comma ps : Forall (λ t, no_byte "," t = true) (permissionTokens ps).
Proof.
  apply Forall_forall. intros t. rewrite permissionTokens_elem. intros (p & _ & Ht).
  by eapply split_by_pieces.
Qed.
Lemma permissionTokens_not_nil ps : ps ≠ [] → permissionTokens ps ≠ [].
Proof.
  destruct ps as [|p ps]; [done|]. intros _ Hn.
  destruct (tokens_of p) as [|t ts] eqn:Ht; [by apply split_by_not_nil in Ht|].
  assert (t ∈ permissionTokens (p :: ps)) as Hin; [|by rewrite Hn in Hin; apply elem_of_nil in Hin].
  apply permissionTokens_elem. exists p. rewrite Ht. split; by left.
Qed.

(** ** Grant targets *)
Lemma grantTarget_ok resource bucket target :
  grantTarget resource bucket = Ok target ↔
  (resource = resourceAny ∧ target = [resourceAny]) ∨
  (resource = "bucket" ∧ target = Fields bucket ∧ target ≠ []).
Proof.
  unfold grantTarget. destruct (String.eqb_spec resource resourceAny) as [->|Hn]; [naive_solver|].
  destruct (String.eqb_spec resource "bucket") as [->|Hn2]; [|naive_solver].
  destruct (Fields bucket) as [|x l]; naive_solver.
Qed.
Lemma grantTarget_not_nil resource bucket target :
  grantTarget resource bucket = Ok target → target ≠ [].
Proof. rewrite grantTarget_ok. naive_solver. Qed.

(** ** The print-grants table *)
Definition is_blank (s : string) : bool := Str.all (is_byte " ") s.
(** Left and right padding of the three columns of a printed row. *)
Record pads := mkPads { pl0 : string; pr0 : string; pl1 : string; pr1 : string; pl2 : string; pr2 : string }.
Definition pads_ok (p : pads) : bool :=
  is_blank (pl0 p) && is_blank (pr0 p) && is_blank (pl1 p) && is_blank (pr1 p) &&
  is_blank (pl2 p) && is_blank (pr2 p) && negb (String.eqb (pl0 p) "") && negb (String.eqb (pr2 p) "").
Definition bar : string := "|".
Definition print_cells (p : pads) (c0 c1 c2 : string) : string :=
  bar +:+ (pl0 p +:+ c0 +:+ pr0 p) +:+ bar +:+ (pl1 p +:+ c1 +:+ pr1 p) +:+ bar +:+
  (pl2 p +:+ c2 +:+ pr2 p) +:+ bar.

(** A cell's text: no bar, no line break. *)
Definition cell_ok (s : string) : bool := no_byte "|" s && no_byte nl s.

Lemma blank_no_byte c s : c ≠ " "%char → is_blank s = true → no_byte c s = true.
Proof.
  intros Hc. apply Str.all_impl. intros a Ha. apply Ascii.eqb_eq in Ha as ->.
  apply negb_true_iff, Ascii.eqb_neq. congruence.
Qed.
Lemma blank_space s : is_blank s = true → Str.all is_space s = true.
Proof. apply Str.all_impl. by intros a ->%Ascii.eqb_eq. Qed.

Lemma pads_ok_spec p :
  pads_ok p = true →
  is_blank (pl0 p) = true ∧ is_blank (pr0 p) = true ∧ is_blank (pl1 p) = true ∧
  is_blank (pr1 p) = true ∧ is_blank (pl2 p) = true ∧ is_blank (pr2 p) = true ∧
  pl0 p ≠ "" ∧ pr2 p ≠ "".
Proof. unfold pads_ok. rewrite !andb_true_iff, !negb_true_iff, !String.eqb_neq. tauto. Qed.

Lemma print_cells_split p c0 c1 c2 :
  pads_ok p = true → cell_ok c0 = true → cell_ok c1 = true → cell_ok c2 = true →
  Split (TrimByte (print_cells p c0 c1 c2) "|") "|" =
    [pl0 p +:+ c0 +:+ pr0 p; pl1 p +:+ c1 +:+ pr1 p; pl2 p +:+ c2 +:+ pr2 p].
Proof.
  unfold cell_ok. rewrite !andb_true_iff.
  intros (H0&H1&H2&H3&H4&H5&Hne0&Hne5)%pads_ok_spec [Hc0 _] [Hc1 _] [Hc2 _].
  assert (∀ l c r, is_blank l = true → no_byte "|" c = true → is_blank r = true →
            no_byte "|" (l +:+ c +:+ r) = true) as Hcell.
  { intros l c r Hl Hc Hr. unfold no_byte in *. rewrite !Str.all_app, Hc.
    apply (blank_no_byte "|") in Hl, Hr; [|done..]. unfold no_byte in *. by rewrite Hl, Hr. }
  pose proof (Hcell _ _ _ H0 Hc0 H1) as Hx0. pose proof (Hcell _ _ _ H2 Hc1 H3) as Hx1.
  pose proof (Hcell _ _ _ H4 Hc2 H5) as Hx2.
  assert (TrimByte (print_cells p c0 c1 c2) "|" =
            (pl0 p +:+ c0 +:+ pr0 p) +:+ String "|" ((pl1 p +:+ c1 +:+ pr1 p) +:+
              String "|" (pl2 p +:+ c2 +:+ pr2 p))) as ->.
  { unfold TrimByte, print_cells, bar. destruct (pl0 p) as [|a pl0'] eqn:Hpl; [done|].
    simpl in H0. apply andb_true_iff in H0 as [Ha _].
    pose proof (trim_frame (is_byte "|") "|" a
      ((pl0' +:+ c0 +:+ pr0 p) +:+ String "|" ((pl1 p +:+ c1 +:+ pr1 p) +:+ String "|" ""))
      (pl2 p +:+ c2 +:+ pr2 p)) as Ht.
    autorewrite with str in Ht |- *.
    apply Ht; [done| |by intros (_&(_&?)%Str.app_eq_nil)%Str.app_eq_nil|done].
    apply Ascii.eqb_eq in Ha as ->. done. }
  unfold Split. rewrite split_by_sep, split_by_sep by done.
  rewrite !split_by_nosep by done. done.
Qed.

(** The token column of one row: its tokens, a comma when the list goes on below. *)
Definition print_tokens (toks : list string) (more : bool) : string :=
  Join toks ", " +:+ (if more then "," else "").
Definition token_ok (t : string) : bool := is_word t && no_byte "," t && no_byte "|" t.
Definition name_ok (s : string) : bool := is_word s && no_byte "|" s.

Lemma token_ok_spec t : token_ok t = true ↔ is_word t = true ∧ no_byte "," t = true ∧ no_byte "|" t = true.
Proof. unfold token_ok. rewrite !andb_true_iff. tauto. Qed.

Lemma is_word_ne s : is_word s = true → s ≠ "".
Proof. by intros [? _]%is_word_spec. Qed.
Lemma trim_blank s : is_blank s = true → TrimSpace s = "".
Proof.
  intros Hs%blank_space. unfold TrimSpace. rewrite <-(Str.app_nil_r s).
  rewrite <-(Str.app_nil_l ""), <-Str.app_nil_r at 1. str_norm.
  pose proof (trim_pad is_space s "" "" Hs eq_refl eq_refl) as H. by str_norm.
Qed.
Lemma trim_cell l w r :
  is_blank l = true → is_word w = true → is_blank r = true → TrimSpace (l +:+ w +:+ r) = w.
Proof.
  intros Hl%blank_space [_ Hw]%is_word_spec Hr%blank_space. by apply trim_pad.
Qed.

Lemma parse_tokens_print l toks more r :
  is_blank l = true → is_blank r = true → Forall (λ t, token_ok t = true) toks → toks ≠ [] →
  parse_tokens (l +:+ print_tokens toks more +:+ r) = toks.
Proof.
  intros Hl Hr Ht Hne. unfold print_tokens, parse_tokens. revert l Hl.
  induction Ht as [|t toks Htok Ht IH]; intros l Hl; [done|].
  apply token_ok_spec in Htok as (Hw & Hc & _).
  assert (∀ r', is_blank r' = true → no_byte "," (l +:+ t +:+ r') = true) as Hcell.
  { intros r' Hr'. unfold no_byte in *. rewrite !Str.all_app, Hc.
    apply (blank_no_byte ",") in Hl, Hr'; [|done..]. unfold no_byte in *. by rewrite Hl, Hr'. }
  destruct toks as [|t2 toks].
  - simpl. destruct more.
    + rewrite Str.app_assoc. change ("," +:+ r) with (String "," r). rewrite <-Str.app_assoc.
      unfold Split. rewrite split_by_sep by done. rewrite !split_by_nosep.
      * csimpl. rewrite <-(Str.app_nil_r t), trim_cell, trim_blank by done.
        rewrite Str.app_nil_r. rewrite filter_cons_True; [done|].
        by apply is_word_ne.
      * by apply (blank_no_byte ",").
      * rewrite <-(Str.app_nil_r t). by apply Hcell.
    + rewrite Str.app_nil_r. unfold Split. rewrite split_by_nosep by by apply Hcell.
      csimpl. rewrite trim_cell by done. rewrite filter_cons_True; [done|].
      by apply is_word_ne.
  - rewrite Join_cons.
    replace (l +:+ ((t +:+ ", " +:+ Join (t2 :: toks) ", ") +:+ (if more then "," else "")) +:+ r)
      with ((l +:+ t +:+ "") +:+ String "," (" " +:+ (Join (t2 :: toks) ", " +:+
              (if more then "," else "")) +:+ r)) by (by str_norm).
    unfold Split. rewrite split_by_sep by done.
    rewrite split_by_nosep by by apply Hcell. cbn [app]. rewrite fmap_cons.
    rewrite trim_cell, filter_cons_True by (done || by apply is_word_ne).
    f_equal. by apply (IH ltac:(done) " "%string).
Qed.

(** A user's grants on one target as printed: the first row carries the target, the
    continuation rows only tokens. *)
Record grant_print := mkGrantPrint {
  gp_type : string; gp_bucket : string;
  gp_first : list string * pads;
  gp_rest : list (list string * pads) }.
Definition gp_entry (g : grant_print) : GrantEntry :=
  mkGrantEntry (gp_type g) (gp_bucket g) ((gp_first g).1 ++ concat ((gp_rest g).*1)).
Fixpoint print_rest (rows : list (list string * pads)) : list string :=
  match rows with
  | [] => []
  | (toks, p) :: rows' =>
      print_cells p "" "" (print_tokens toks (negb (bool_decide (rows' = [])))) :: print_rest rows'
  end.
Definition print_grant (g : grant_print) : list string :=
  print_cells (gp_first g).2 (gp_type g) (gp_bucket g)
    (print_tokens (gp_first g).1 (negb (bool_decide (gp_rest g = [])))) ::
  print_rest (gp_rest g).
Definition chunk_ok (c : list string * pads) : Prop :=
  c.1 ≠ [] ∧ Forall (λ t, token_ok t = true) c.1 ∧ pads_ok c.2 = true.
Definition grant_ok (g : grant_print) : Prop :=
  name_ok (gp_type g) = true ∧ gp_type g ≠ "type" ∧ name_ok (gp_bucket g) = true ∧
  chunk_ok (gp_first g) ∧ Forall chunk_ok (gp_rest g).

Lemma name_cell s : name_ok s = true → cell_ok s = true.
Proof.
  unfold name_ok, cell_ok. rewrite !andb_true_iff. intros [Hw ?]. split; [done|].
  by apply is_word_no_nl.
Qed.
Lemma tokens_cell toks more : Forall (λ t, token_ok t = true) toks → cell_ok (print_tokens toks more) = true.
Proof.
  intros Ht. unfold cell_ok, print_tokens, no_byte. rewrite !Str.all_app, !andb_true_iff.
  repeat split; try (by destruct more); apply Join_all; try done;
    apply (Forall_impl _ _ _ Ht); intros t (Hw & _ & Hb)%token_ok_spec;
    [done|by apply is_word_no_nl].
Qed.

Lemma extend_last_snoc es e toks :
  extend_last (es ++ [e]) toks = es ++ [mkGrantEntry (ge_Type e) (ge_Bucket e) (ge_Tokens e ++ toks)].
Proof.
  unfold extend_last. rewrite last_snoc, length_app. simpl.
  replace (pred (length es + 1)) with (length es) by lia. by rewrite take_app_length.
Qed.

Lemma grant_row_rest es e toks more p :
  pads_ok p = true → Forall (λ t, token_ok t = true) toks → toks ≠ [] →
  grant_row (es ++ [e]) (print_cells p "" "" (print_tokens toks more)) =
    es ++ [mkGrantEntry (ge_Type e) (ge_Bucket e) (ge_Tokens e ++ toks)].
Proof.
  intros Hp Ht Hne. unfold grant_row.
  rewrite print_cells_split by (done || by apply tokens_cell).
  apply pads_ok_spec in Hp as (H0&H1&H2&H3&H4&H5&_).
  rewrite Str.app_nil_l. rewrite trim_blank; [|unfold is_blank in *; by rewrite Str.all_app, H0].
  rewrite parse_tokens_print by done. simpl.
  rewrite bool_decide_eq_false_2 by by destruct es. by rewrite extend_last_snoc.
Qed.
Lemma grant_row_first es t b toks more p :
  pads_ok p = true → name_ok t = true → t ≠ "type" → name_ok b = true →
  Forall (λ t, token_ok t = true) toks → toks ≠ [] →
  grant_row es (print_cells p t b (print_tokens toks more)) = es ++ [mkGrantEntry t b toks].
Proof.
  intros Hp Hnt Htt Hnb Ht Hne. unfold grant_row.
  rewrite print_cells_split by (done || by apply tokens_cell || by apply name_cell).
  apply pads_ok_spec in Hp as (H0&H1&H2&H3&H4&H5&_).
  unfold name_ok in *. apply andb_true_iff in Hnt as [Hwt _]. apply andb_true_iff in Hnb as [Hwb _].
  rewrite !trim_cell, parse_tokens_print by done.
  rewrite (proj2 (String.eqb_neq t "type")) by done.
  apply is_word_spec in Hwt as [Hn _]. by rewrite (proj2 (String.eqb_neq t "")).
Qed.

Lemma grant_rows_rest rows es t b toks :
  Forall chunk_ok rows →
  foldl grant_row (es ++ [mkGrantEntry t b toks]) (print_rest rows) =
    es ++ [mkGrantEntry t b (toks ++ concat (rows.*1))].
Proof.
  intros Hr. revert toks. induction Hr as [|[c p] rows (Hne & Ht & Hp) Hr IH]; intros toks.
  { simpl. by rewrite app_nil_r. }
  cbn [print_rest foldl]. rewrite grant_row_rest by done. rewrite IH. csimpl.
  by rewrite (assoc_L (++)).
Qed.
Lemma grant_rows_spec gs es :
  Forall grant_ok gs →
  foldl grant_row es (gs ≫= print_grant) = es ++ (gp_entry <$> gs).
Proof.
  intros Hg. revert es. induction Hg as [|g gs (Ht & Hn & Hb & (Hc & Hf & Hp) & Hr) Hg IH]; intros es.
  { simpl. by rewrite app_nil_r. }
  rewrite bind_cons, foldl_app. unfold print_grant at 1. cbn [foldl].
  rewrite grant_row_first, grant_rows_rest by done. rewrite IH.
  by rewrite <-(assoc_L (++)).
Qed.

(** The whole reply of [security print-grants]. *)
Definition section_line (l : string) : bool :=
  HasPrefix l "Dedicated permissions" || HasPrefix l "Cumulative permissions".
Definition print_grants (pre : list string) (user border : string) (hp : pads)
    (gs : list grant_print) (rest : list string) : list string :=
  pre ++ ("Dedicated permissions (user/" +:+ user +:+ ")") :: "" :: ("+" +:+ border) ::
  print_cells hp "type" "bucket" "grants" :: ("+" +:+ border) ::
  (gs ≫= print_grant) ++ ("+" +:+ border) :: "" ::
  ("Cumulative permissions (user/" +:+ user +:+ ")") :: rest.

Lemma dedicated_skip pre lines es :
  Forall (λ l, section_line l = false) pre →
  dedicated_loop (pre ++ lines) false es = dedicated_loop lines false es.
Proof.
  intros Hp. induction Hp as [|l pre Hl Hp IH]; [done|].
  unfold section_line in Hl. apply orb_false_iff in Hl as [H1 H2].
  cbn [dedicated_loop app]. by rewrite H1, H2.
Qed.
Lemma bar_prefix s : HasPrefix (bar +:+ s) "|" = true ∧ section_line (bar +:+ s) = false.
Proof.
  split; [|done]. apply HasPrefix_spec. by exists s.
Qed.
Lemma dedicated_rows rows lines es :
  Forall (λ l, ∃ s, l = bar +:+ s) rows →
  dedicated_loop (rows ++ lines) true es = dedicated_loop lines true (foldl grant_row es rows).
Proof.
  intros Hr. revert es. induction Hr as [|l rows [s ->] Hr IH]; intros es; [done|].
  destruct (bar_prefix s) as [H1 H2]. unfold section_line in H2. apply orb_false_iff in H2 as [H2 H3].
  cbn [dedicated_loop app foldl]. rewrite H1, H2, H3. simpl. by rewrite IH.
Qed.
Lemma print_rest_bars rows : Forall (λ l, ∃ s, l = bar +:+ s) (print_rest rows).
Proof. induction rows as [|[toks p] rows IH]; simpl; constructor; [by eexists|done]. Qed.
Lemma print_grant_bars gs : Forall (λ l, ∃ s, l = bar +:+ s) (gs ≫= print_grant).
Proof.
  induction gs as [|g gs IH]; csimpl; [constructor|]. constructor; [by eexists|].
  apply Forall_app. split; [apply print_rest_bars|done].
Qed.
Lemma header_row es hp : pads_ok hp = true → grant_row es (print_cells hp "type" "bucket" "grants") = es.
Proof.
  intros Hp. unfold grant_row. rewrite print_cells_split by done.
  apply pads_ok_spec in Hp as (H0&H1&_). by rewrite trim_cell.
Qed.

Lemma dedicated_loop_print pre user border hp gs rest :
  Forall (λ l, section_line l = false) pre → pads_ok hp = true → Forall grant_ok gs →
  dedicated_loop (print_grants pre user border hp gs rest) false [] = gp_entry <$> gs.
Proof.
  intros Hpre Hp Hg. unfold print_grants. rewrite dedicated_skip by done.
  change (dedicated_loop (("Dedicated permissions (user/" +:+ user +:+ ")") :: ?l) false [])
    with (dedicated_loop l true []).
  set (tail := ("+" +:+ border) :: "" :: ("Cumulative permissions (user/" +:+ user +:+ ")") :: rest).
  change (dedicated_loop (print_cells hp "type" "bucket" "grants" :: ("+" +:+ border) ::
            (gs ≫= print_grant) ++ tail) true [] = gp_entry <$> gs).
  change (print_cells hp "type" "bucket" "grants" :: ("+" +:+ border) :: (gs ≫= print_grant) ++ tail)
    with ([print_cells hp "type" "bucket" "grants"] ++ ("+" +:+ border) :: (gs ≫= print_grant) ++ tail).
  rewrite dedicated_rows by (repeat constructor; by eexists). simpl foldl. rewrite header_row by done.
  change (dedicated_loop ((gs ≫= print_grant) ++ tail) true [] = gp_entry <$> gs).
  rewrite dedicated_rows by apply print_grant_bars. by rewrite grant_rows_spec.
Qed.

Lemma parseDedicatedGrants_print pre user border hp gs rest :
  Forall (λ l, section_line l = false) pre → pads_ok hp = true → Forall grant_ok gs →
  Forall (λ l, no_byte nl l = true) (print_grants pre user border hp gs rest) →
  parseDedicatedGrants (Join (print_grants pre user border hp gs rest) (sep_of nl)) = gp_entry <$> gs.
Proof.
  intros Hpre Hp Hg Hl. unfold parseDedicatedGrants. rewrite Split_Join; [|by destruct pre|done].
  by apply dedicated_loop_print.
Qed.

(** ** Properties *)

(** C31: reading a printed member-status table gives back exactly its rows, status and
    node, in order, the table being printed with its title, its column heads, its two rules
    and the closing line that counts the rows of each state: nothing of these is taken for a
    member. A row is a state Riak has, a node name that begins with "riak@", and two columns
    that are words. *)
Theorem member_status_roundtrip (rows : list member_row) :
  Forall (λ r, row_ok r = true) rows → parseMemberStatus (print_members rows) = mr_member <$> rows.
Proof. apply parse_members_roundtrip. Qed.
Definition sample_rows : list member_row :=
  [mkMemberRow (mkClusterMember "valid" "riak@c-0.c.db") "66.7%" "--" "  ";
   mkMemberRow (mkClusterMember "joining" "riak@c-1.c.db") "0.0%" "33.3%" "    "].
Lemma member_status_roundtrip_witness :
  last (Split (print_members sample_rows) nl) = Some "Valid:1 / Leaving:0 / Exiting:0 / Joining:1 / Down:0" ∧
  parseMemberStatus (print_members sample_rows) = mr_member <$> sample_rows ∧
  (mr_member <$> sample_rows) =
    [mkClusterMember "valid" "riak@c-0.c.db"; mkClusterMember "joining" "riak@c-1.c.db"].
Proof.
  split; [by vm_compute|]. split; [|done]. apply (member_status_roundtrip sample_rows).
  repeat constructor; by vm_compute.
Defined.

(** C30: reading a print-grants reply gives exactly the entries of its dedicated table, a
    token list that wraps over continuation rows read as one entry, whatever the cumulative
    table after it lists and whatever lines precede the table that do not begin like a section
    ("Dedicated permissions" or "Cumulative permissions"). Bucket types, buckets and tokens are
    words without bars, tokens without commas, and no entry is on a bucket type called "type":
    its row would be taken for the column heads. *)
Theorem print_grants_roundtrip (pre : list string) (user border : string) (hp : pads)
    (gs : list grant_print) (rest : list string) :
  Forall (λ l, section_line l = false) pre → pads_ok hp = true → Forall grant_ok gs →
  Forall (λ l, no_byte nl l = true) (print_grants pre user border hp gs rest) →
  parseDedicatedGrants (Join (print_grants pre user border hp gs rest) (sep_of nl)) = gp_entry <$> gs.
Proof. apply parseDedicatedGrants_print. Qed.
Definition sample_pads : pads := mkPads " " "  " " " " " "" "   ".
Definition sample_printed : list grant_print :=
  [mkGrantPrint "t" "b" (["riak_kv.get"; "riak_kv.put"], sample_pads) [(["riak_kv.delete"], sample_pads)];
   mkGrantPrint "*" "*" (["riak_kv.list_keys"], sample_pads) []].
Lemma print_grants_roundtrip_witness :
  parseDedicatedGrants (Join (print_grants ["Inherited permissions"] "u" "---+" sample_pads
    sample_printed ["| t | b | riak_kv.get |"]) (sep_of nl)) = gp_entry <$> sample_printed ∧
  (gp_entry <$> sample_printed) =
    [mkGrantEntry "t" "b" ["riak_kv.get"; "riak_kv.put"; "riak_kv.delete"];
     mkGrantEntry "*" "*" ["riak_kv.list_keys"]].
Proof.
  split; [|done].
  apply (print_grants_roundtrip ["Inherited permissions"] "u" "---+" sample_pads sample_printed
           ["| t | b | riak_kv.get |"]).
  - by repeat constructor.
  - by vm_compute.
  - repeat constructor; done.
  - repeat constructor; by vm_compute.
Defined.

(** C35: [transfers] output counts as idle exactly when, letter case apart, it has "no transfers
    active" somewhere, "waiting to handoff" nowhere, and every line after the first line that
    is the "Active Transfers:" header is blank, [ok] or that header again. The lines before the
    header are not looked at, and without a header no line is: the code asks for less than its
    comment says. *)
Theorem transfers_idle_iff (out : string) :
  parseTransfersIdle out = true ↔
  Contains (ToLower out) "no transfers active" = true ∧
  Contains (ToLower out) "waiting to handoff" = false ∧
  ∀ l, l ∈ after_header (Split (ToLower out) nl) → idle_line l = true.
Proof. apply parseTransfersIdle_iff. Qed.

(** A riak-admin call whose transport succeeded is an error exactly when some line of
    the reply is an Erlang error tuple or says that the node does not respond, or the
    last non-blank line is the bare word error; otherwise the output is returned as is. *)
Lemma admin_reply_failure (args : list string) (out : string) :
  (admin_reply args (Ok out)).1 = out ∧
  ((admin_reply args (Ok out)).2 ≠ None ↔
   (∃ l, l ∈ reply_lines out ∧ error_line l = true) ∨ last (reply_lines out) = Some "error").
Proof.
  rewrite <-riakAdminFailed_spec. unfold admin_reply.
  destruct (riakAdminFailed out); simpl; (split; [done|]); split; congruence.
Qed.

(** A reply quoted in an error message or a condition is one line of at most 303
    bytes, however long and however many lines the command printed. *)
Lemma compactOutput_bounded (out : string) :
  (String.length (compactOutput out) ≤ 303)%nat ∧ no_byte nl (compactOutput out) = true.
Proof. split; [apply compactOutput_bound|apply compactOutput_one_line]. Qed.
