(* ===== verification/Shell.v ===== *)
(** * From the command's output to what the operator reads

    [runShellCommand] trims what the process printed before [ExecuteRiakAdmin] looks at it.
    The readers of a reply go by lines and words, so they read the trimmed text as they
    would the raw one. *)
From S2P Require Import Prelude GoLib Effects KubeTypes Kube Executor ExecutorFacts.

(** ** Reading by lines *)
(** A reader of lines that leading and trailing white space does not affect. *)
Record line_reader {A} (g : string → list A) : Prop := {
  lr_left : ∀ c l, is_space c = true → g (String c l) = g l;
  lr_right : ∀ c l, is_space c = true → g (l +:+ String c "") = g l;
  lr_blank : g "" = []
}.
Lemma split_by_snoc f c s :
  split_by f (s +:+ String c "") =
  if f c then split_by f s ++ [""]
  else take (pred (length (split_by f s))) (split_by f s) ++ [default "" (last (split_by f s)) +:+ String c ""].
Proof.
  induction s as [|a s IH]; [rewrite Str.app_nil_l; simpl; by destruct (f c)|]. rewrite Str.app_cons. cbn [split_by]. rewrite IH.
  destruct (split_by f s) as [|h t] eqn:Hs; [by apply split_by_not_nil in Hs|].
  by destruct (f a), (f c), t.
Qed.
Lemma last_split (l : list string) : l ≠ [] → l = take (pred (length l)) l ++ [default "" (last l)].
Proof.
  destruct l as [|x l _] using rev_ind; [done|]. intros _. rewrite last_snoc, length_app, Nat.add_1_r. cbn [pred default].
  by rewrite take_app_length.
Qed.
Section reader.
Context {A : Type} (g : string → list A) (Hg : line_reader g).
Lemma read_left c s : is_space c = true → Split (String c s) nl ≫= g = Split s nl ≫= g.
Proof.
  intros Hc. unfold Split. cbn [split_by]. destruct (is_byte nl c); [cbn; by rewrite (lr_blank g Hg)|].
  destruct (split_by _ s) as [|h t] eqn:Hs; [by apply split_by_not_nil in Hs|]. cbn. by rewrite (lr_left g Hg).
Qed.
Lemma read_right c s : is_space c = true → Split (s +:+ String c "") nl ≫= g = Split s nl ≫= g.
Proof.
  intros Hc. unfold Split. rewrite split_by_snoc. pose proof (split_by_not_nil (is_byte nl) s) as Hne.
  destruct (is_byte nl c); rewrite bind_app.
  - cbn. by rewrite (lr_blank g Hg), app_nil_r.
  - symmetry. rewrite (last_split _ Hne) at 1. rewrite bind_app. f_equal. cbn. by rewrite (lr_right g Hg).
Qed.
Lemma read_right_all t s : Str.all is_space t = true → Split (s +:+ t) nl ≫= g = Split s nl ≫= g.
Proof.
  revert s. induction t as [|c t IH]; intros s; [by rewrite Str.app_nil_r|]. cbn. intros [Hc Ht]%andb_true_iff.
  change (String c t) with (String c "" +:+ t). rewrite <-Str.app_assoc, IH by done. by apply read_right.
Qed.
Lemma read_left_all s : Split (trim_left is_space s) nl ≫= g = Split s nl ≫= g.
Proof.
  induction s as [|c s IH]; [done|]. cbn [trim_left]. destruct (is_space c) eqn:Hc; [|done]. by rewrite IH, read_left.
Qed.
Lemma read_TrimSpace s : Split (TrimSpace s) nl ≫= g = Split s nl ≫= g.
Proof.
  rewrite <-(read_left_all s). unfold TrimSpace, trim.
  destruct (trim_right_split is_space (trim_left is_space s)) as (r & Heq & Hr). rewrite Heq at 2. by rewrite read_right_all.
Qed.
End reader.

(** ** The readers *)
Lemma TrimSpace_left c l : is_space c = true → TrimSpace (String c l) = TrimSpace l.
Proof. intros Hc. unfold TrimSpace, trim. cbn. by rewrite Hc. Qed.
Lemma TrimSpace_right c l : is_space c = true → TrimSpace (l +:+ String c "") = TrimSpace l.
Proof.
  intros Hc. unfold TrimSpace, trim. induction l as [|a l IH]; [rewrite Str.app_nil_l; simpl; by rewrite Hc|]. rewrite Str.app_cons. cbn [trim_left].
  destruct (is_space a); [done|]. change (String a (l +:+ String c "")) with (String a l +:+ String c "").
  apply trim_right_all. cbn. by rewrite Hc.
Qed.
Lemma Fields_space_left c l : is_space c = true → Fields (String c l) = Fields l.
Proof. intros Hc. rewrite <-Fields_TrimSpace, TrimSpace_left by done. apply Fields_TrimSpace. Qed.
Lemma Fields_space_right c l : is_space c = true → Fields (l +:+ String c "") = Fields l.
Proof. intros Hc. rewrite <-Fields_TrimSpace, TrimSpace_right by done. apply Fields_TrimSpace. Qed.

Definition trimmed_line (l : string) : list string := filter (λ l, l ≠ "") [TrimSpace l].
Lemma trimmed_line_reader : line_reader trimmed_line.
Proof.
  split; [| |done]; intros c l Hc; unfold trimmed_line; [by rewrite TrimSpace_left|by rewrite TrimSpace_right].
Qed.
Lemma reply_lines_bind out : reply_lines out = Split out nl ≫= trimmed_line.
Proof.
  unfold reply_lines. induction (Split out nl) as [|l ls IH]; [done|]. csimpl. rewrite <-IH. unfold trimmed_line.
  rewrite !filter_cons. by destruct (decide _).
Qed.
Lemma reply_lines_trim out : reply_lines (TrimSpace out) = reply_lines out.
Proof. rewrite !reply_lines_bind. apply read_TrimSpace, trimmed_line_reader. Qed.
Lemma riakAdminFailed_trim out : riakAdminFailed (TrimSpace out) = riakAdminFailed out.
Proof. apply eq_true_iff_eq. by rewrite !riakAdminFailed_spec, reply_lines_trim. Qed.

Definition member_line (l : string) : list ClusterMember := option_list (parse_member_line l).
Lemma member_line_reader : line_reader member_line.
Proof.
  split; [| |done]; intros c l Hc; unfold member_line, parse_member_line;
    [by rewrite Fields_space_left|by rewrite Fields_space_right].
Qed.
Lemma omap_bind {A B} (f : A → option B) l : omap f l = l ≫= (λ x, option_list (f x)).
Proof. induction l as [|x l IH]; [done|]. csimpl. rewrite IH. by destruct (f x). Qed.
Lemma parseMemberStatus_trim out : parseMemberStatus (TrimSpace out) = parseMemberStatus out.
Proof. unfold parseMemberStatus. rewrite !omap_bind. apply (read_TrimSpace member_line), member_line_reader. Qed.
Lemma compactOutput_trim out : compactOutput (TrimSpace out) = compactOutput out.
Proof. unfold compactOutput. by rewrite Fields_TrimSpace. Qed.

(** *** transfers *)
(** A text whose ends are not white space is found in the trimmed text as in the raw one. *)
Definition tight (sub : string) : Prop := (∃ a t, sub = String a t ∧ is_space a = false) ∧ (∃ t b, sub = t +:+ String b "" ∧ is_space b = false).
Lemma Contains_left c s sub : tight sub → is_space c = true → Contains (String c s) sub = Contains s sub.
Proof.
  intros [(a & t & -> & Ha) _] Hc. cbn [Contains]. unfold HasPrefix at 1. cbn.
  destruct (ascii_dec a c) as [->|]; [congruence|done].
Qed.
Lemma HasPrefix_right c b s t :
  b ≠ c → HasPrefix (s +:+ String c "") (t +:+ String b "") = HasPrefix s (t +:+ String b "").
Proof.
  intros Hbc. unfold HasPrefix. revert s. induction t as [|x t IH]; intros [|y s];
    rewrite ?Str.app_nil_l, ?Str.app_cons; cbn [String.prefix].
  - by destruct (ascii_dec b c).
  - destruct (ascii_dec b y); [|done]. by destruct (s +:+ _), s.
  - destruct (ascii_dec x c); [|done]. by destruct t.
  - destruct (ascii_dec x y); [apply IH|done].
Qed.
Lemma Contains_right c s sub : tight sub → is_space c = true → Contains (s +:+ String c "") sub = Contains s sub.
Proof.
  intros [(a & u & Hu & _) (t & b & Hsub & Hb)] Hc. assert (b ≠ c) as Hbc by congruence.
  induction s as [|x s IH].
  - rewrite Str.app_nil_l. cbn [Contains]. rewrite <-(Str.app_nil_l (String c "")), Hsub, HasPrefix_right by done.
    by destruct t.
  - rewrite Str.app_cons. cbn [Contains]. rewrite IH. f_equal. rewrite <-Str.app_cons, Hsub. by apply HasPrefix_right.
Qed.

Section find.
Context (sub : string) (Hsub : tight sub).
Lemma Contains_right_all s t : Str.all is_space t = true → Contains (s +:+ t) sub = Contains s sub.
Proof.
  revert s. induction t as [|c t IH]; intros s; [by rewrite Str.app_nil_r|]. cbn. intros [Hc Ht]%andb_true_iff.
  change (String c t) with (String c "" +:+ t). rewrite <-Str.app_assoc, IH by done. by apply Contains_right.
Qed.
Lemma Contains_TrimSpace s : Contains (TrimSpace s) sub = Contains s sub.
Proof.
  assert (Contains (trim_left is_space s) sub = Contains s sub) as <-.
  { induction s as [|c s IH]; [done|]. cbn [trim_left]. destruct (is_space c) eqn:Hc; [|done]. by rewrite IH, Contains_left. }
  unfold TrimSpace, trim. destruct (trim_right_split is_space (trim_left is_space s)) as (r & Heq & Hr).
  rewrite Heq at 2. by rewrite Contains_right_all.
Qed.
End find.
Lemma lower_space a : is_space (lower_byte a) = is_space a.
Proof. destruct a as [[] [] [] [] [] [] [] []]; reflexivity. Qed.
Lemma ToLower_TrimSpace s : ToLower (TrimSpace s) = TrimSpace (ToLower s).
Proof.
  assert (∀ s, ToLower (trim_right is_space s) = trim_right is_space (ToLower s)) as Hr.
  { induction s0 as [|a t IH]; [done|]. cbn. rewrite lower_space. unfold ToLower in IH. rewrite <-IH.
    destruct (trim_right is_space t); [by destruct (is_space a)|done]. }
  unfold TrimSpace, trim. rewrite Hr. f_equal. induction s as [|a s IH]; [done|]. cbn. rewrite lower_space.
  by destruct (is_space a).
Qed.
(** The loop sees the trimmed, non-blank lines only. *)
Fixpoint active_loop (lines : list string) (inActive : bool) : bool :=
  match lines with
  | [] => true
  | line :: lines' =>
      if String.eqb line "active transfers:" then active_loop lines' true
      else if inActive && negb (String.eqb line "ok") then false
      else active_loop lines' inActive
  end.
Lemma transfers_loop_lines lines b : transfers_loop lines b = active_loop (lines ≫= trimmed_line) b.
Proof.
  revert b. induction lines as [|l lines IH]; intros b; [done|]. cbn [transfers_loop mbind list_bind]. unfold trimmed_line at 1.
  rewrite filter_cons. destruct (decide (TrimSpace l ≠ "")) as [Hne|He].
  - cbn. destruct (String.eqb (TrimSpace l) "active transfers:"); [apply IH|].
    apply String.eqb_neq in Hne as ->. cbn [negb]. rewrite andb_true_r. destruct (b && _); [done|apply IH].
  - apply dec_stable in He. rewrite He. cbn. rewrite andb_false_r. apply IH.
Qed.
Lemma parseTransfersIdle_trim out : parseTransfersIdle (TrimSpace out) = parseTransfersIdle out.
Proof.
  unfold parseTransfersIdle. rewrite ToLower_TrimSpace, !Contains_TrimSpace, !transfers_loop_lines.
  - by rewrite (read_TrimSpace trimmed_line trimmed_line_reader).
  - split; [by eexists _, _|]. by exists "no transfers activ", "e"%char.
  - split; [by eexists _, _|]. by exists "waiting to handof", "f"%char.
Qed.

(** *** print-grants *)
(** The table is read by columns, so only line ends may be cut off around it. *)
Definition line_ends : string → bool := Str.all (is_byte nl).
Definition flush (out : string) : Prop :=
  ∃ a b, out = a +:+ TrimSpace out +:+ b ∧ line_ends a = true ∧ line_ends b = true.
Lemma dedicated_loop_blank lines b es : dedicated_loop (lines ++ [""]) b es = dedicated_loop lines b es.
Proof.
  revert b es. induction lines as [|l lines IH]; intros b es; cbn; [by destruct b|].
  destruct (HasPrefix l _); [done|]. destruct (HasPrefix l _); [done|]. by destruct (_ || _).
Qed.
Lemma parseDedicatedGrants_left a s : line_ends a = true → parseDedicatedGrants (a +:+ s) = parseDedicatedGrants s.
Proof.
  unfold parseDedicatedGrants, Split. induction a as [|c a IH]; [done|]. cbn [line_ends Str.all]. intros [Hc Ha]%andb_true_iff.
  rewrite Str.app_cons. cbn [split_by]. rewrite Hc. by apply IH.
Qed.
Lemma parseDedicatedGrants_right b s : line_ends b = true → parseDedicatedGrants (s +:+ b) = parseDedicatedGrants s.
Proof.
  revert s. induction b as [|c b IH]; intros s; [by rewrite Str.app_nil_r|]. cbn [line_ends Str.all]. intros [Hc Hb]%andb_true_iff.
  change (String c b) with (String c "" +:+ b). rewrite <-Str.app_assoc, IH by done.
  unfold parseDedicatedGrants, Split. rewrite split_by_snoc, Hc. apply dedicated_loop_blank.
Qed.
Lemma parseDedicatedGrants_trim out : flush out → parseDedicatedGrants (TrimSpace out) = parseDedicatedGrants out.
Proof.
  intros (a & b & Heq & Ha & Hb). rewrite Heq at 2. by rewrite parseDedicatedGrants_left, parseDedicatedGrants_right.
Qed.

(** ** Properties *)
(** What [ExecuteRiakAdmin] returns when [kubectl] is run by the default runner. *)
Definition asked (start : string → list string → process) (ns pod ctr : string) (args : list string)
    : string * option error :=
  (run (executor_server (NewExecutor start)) (ExecuteRiakAdmin ns pod ctr args) tt).1.

(** C36: what the operator makes of a command. When the process cannot be run or fails,
    [ExecuteRiakAdmin] returns no output and an error of the same kind that carries the
    process's own and all of stderr. When it exits with 0, the reply is an error exactly
    when some line of what it printed, white space aside, is an Erlang error tuple or says
    that the node does not respond, or the last non-blank line is the bare word error; and
    from the trimmed output that is returned, the membership, the transfers and the quoted
    reply read as from what the process printed, and so do the grants, if only line ends were
    trimmed. *)
Theorem command_reply_read (start : string → list string → process) (ns pod ctr : string) (args : list string) :
  let p := start "kubectl" (kubectl_args ns pod ctr args) in
  let reply := asked start ns pod ctr args in
  match pr_err p with
  | Some e => reply = ("", Some (Error (err_kind e) ("riak-admin failed: " +:+ err_msg e +:+ ": " +:+ pr_stderr p)))
  | None =>
      (reply.2 ≠ None ↔
       (∃ l, l ∈ reply_lines (pr_stdout p) ∧ error_line l = true) ∨ last (reply_lines (pr_stdout p)) = Some "error") ∧
      parseMemberStatus reply.1 = parseMemberStatus (pr_stdout p) ∧
      parseTransfersIdle reply.1 = parseTransfersIdle (pr_stdout p) ∧
      compactOutput reply.1 = compactOutput (pr_stdout p) ∧
      (flush (pr_stdout p) → parseDedicatedGrants reply.1 = parseDedicatedGrants (pr_stdout p))
  end.
Proof.
  intros p reply. assert (reply = admin_reply args (runShellCommand start "kubectl" (kubectl_args ns pod ctr args))) as -> by done.
  unfold runShellCommand. fold p. destruct (pr_err p) as [e|]; cbn zeta.
  - unfold admin_reply, Wrapf. cbn. by rewrite !Str.app_nil_l, !Str.app_nil_r.
  - destruct (admin_reply_failure args (TrimSpace (pr_stdout p))) as [-> Hf]. rewrite reply_lines_trim in Hf.
    rewrite parseMemberStatus_trim, parseTransfersIdle_trim, compactOutput_trim.
    split_and!; [exact Hf|done..|]. apply parseDedicatedGrants_trim.
Qed.
(** A reply with line ends around it, as riak-admin prints it. *)
Definition demo_start (name : string) (args : list string) : process :=
  mkProcess None (sep_of nl +:+ "Dedicated permissions (user/u)" +:+ sep_of nl +:+ "| t | b | riak_kv.get |" +:+ sep_of nl) "".
Lemma command_reply_read_witness :
  parseDedicatedGrants (asked demo_start "db" "c-0" "riak" ["security"; "print-grants"; "u"]).1 =
  [mkGrantEntry "t" "b" ["riak_kv.get"]].
Proof.
  destruct (command_reply_read demo_start "db" "c-0" "riak" ["security"; "print-grants"; "u"]) as (_ & _ & _ & _ & ->);
    [by vm_compute|].
  exists (sep_of nl), (sep_of nl). split; [by vm_compute|done].
Defined.
