(* ===== verification/Manager.v ===== *)
(** * The Riak manager ([internal/riak/manager.go])

    Membership, bucket types and users of one cluster, on top of the executor. *)
From S2P Require Import Prelude GoLib Effects Types KubeTypes Kube Executor.

Definition no_members : error := Errorf "no cluster members available".

(** [pod := cluster.Status.Members[0].Pod], guarded by the emptiness check every method
    starts with. *)
Definition first_pod (cluster : RiakCluster) : option string :=
  nm_Pod <$> head (cst_Members (cl_Status cluster)).

Definition GetClusterStatus (cluster : RiakCluster) : M (string * option error) :=
  match first_pod cluster with
  | None => mret ("", Some no_members)
  | Some pod => GetStatus (cl_Namespace cluster) pod "riak"
  end.

(** ** Membership *)
Record seed_scan := mkScan { sn_seedNode : string; sn_inRing : gset string; sn_valid : Z }.

(** One iteration of the loop over the seed's member-status rows. *)
Definition scan_member (seed : string) (st : seed_scan) (mem : ClusterMember) : seed_scan :=
  mkScan
    (if String.eqb (cmb_Node mem) ("riak@" +:+ seed) || HasPrefix (cmb_Node mem) ("riak@" +:+ seed +:+ ".")
     then cmb_Node mem else sn_seedNode st)
    ({[cmb_Node mem]} ∪ sn_inRing st)
    (if String.eqb (cmb_Status mem) memberStatusValid then sn_valid st + 1 else sn_valid st).
Definition scan_seed (seed : string) (members : list ClusterMember) : seed_scan :=
  foldl (scan_member seed) (mkScan "" ∅ 0) members.

Definition seed_missing (seed : string) (members : list ClusterMember) : error :=
  Errorf ("seed node for " +:+ seed +:+ " not found in member-status (members: [" +:+
          Join ((λ m, cmb_Status m +:+ " " +:+ cmb_Node m) <$> members) ", " +:+ "])").

(** One iteration of the loop over the pods: [joined] counts the joins so far. *)
Definition join_pod (cluster : RiakCluster) (seed : string) (sc : seed_scan)
    (pod : string) (joined : nat) : M (error + nat) :=
  if String.eqb pod seed then mret (inr joined) else
  r ← MemberStatus (cl_Namespace cluster) pod "riak";
  match r with
  | Err e => mret (inl (Wrapf ("member-status on " +:+ pod +:+ ": ") e ""))
  | Ok [m] =>
      if bool_decide (cmb_Node m ∈ sn_inRing sc) then mret (inr joined)
      else
        e ← JoinCluster (cl_Namespace cluster) pod "riak" (sn_seedNode sc);
        mret match e with
             | Some e => inl (Wrapf ("join " +:+ pod +:+ ": ") e "")
             | None => inr (S joined)
             end
  | Ok _ => mret (inr joined)
  end.

Definition ReconcileMembership (cluster : RiakCluster) (podNames : list string) : M (res bool) :=
  let seed := cl_Name cluster +:+ "-0" in
  r ← MemberStatus (cl_Namespace cluster) seed "riak";
  match r with
  | Err e => mret (Err (Wrapf ("member-status on seed " +:+ seed +:+ ": ") e ""))
  | Ok seedMembers =>
      let sc := scan_seed seed seedMembers in
      if String.eqb (sn_seedNode sc) "" then mret (Err (seed_missing seed seedMembers))
      else
        o ← for_each podNames 0 (join_pod cluster seed sc);
        match o with
        | inl e => mret (Err e)
        | inr joined =>
            if (0 <? joined)%nat then
              r1 ← ExecuteRiakAdmin (cl_Namespace cluster) seed "riak" ["cluster"; "plan"];
              match r1.2 with
              | Some e => mret (Err (Wrapf "cluster plan: " e ""))
              | None =>
                  r2 ← ExecuteRiakAdmin (cl_Namespace cluster) seed "riak" ["cluster"; "commit"];
                  mret match r2.2 with
                       | Some e => Err (Wrapf "cluster commit: " e "")
                       | None => Ok false
                       end
              end
            else mret (Ok (bool_decide (sn_valid sc = Z.of_nat (length podNames))))
        end
  end.

(** ** Configuration *)
(** Errors are logged and dropped. [map_to_list] fixes one of the orders in which Go may
    range over the map. *)
Definition ConfigureNode (namespace podName : string) (config : gmap string string) : M (option error) :=
  _ ← for_each (map_to_list config) tt (λ kv _,
        _ ← ExecuteRiakAdmin namespace podName "riak" ["config"; "set"; kv.1; kv.2];
        mret (inr tt : error + unit));
  mret None.

(** ** Bucket types *)
Definition CreateBucketType `{J : GoJson} (cluster : RiakCluster) (bucketType : string)
    (properties : gmap string string) : M (option error) :=
  match first_pod cluster with
  | None => mret (Some no_members)
  | Some pod => CreateBucket (cl_Namespace cluster) pod "riak" bucketType properties
  end.

(** ** Users *)
Definition grantKey (resource bucket : string) : res string :=
  match grantTarget resource bucket with
  | Err e => Err e
  | Ok target =>
      match target with
      | t :: rest =>
          if String.eqb t resourceAny then Ok "* *"
          else match rest with
               | [] => Ok (t +:+ " *")
               | b :: _ => Ok (t +:+ " " +:+ b)
               end
      | [] => Ok "" (* unreachable: grantTarget never returns an empty target *)
      end
  end.

(** A grant target as the spec spells it: [struct{ resource, bucket string }]. *)
Abbreviation target := (string * string)%type.

(** Batching the grants by target, in first-seen order. *)
Definition group_grant (st : list target * gmap target (list string)) (g : Grant)
    : list target * gmap target (list string) :=
  let t := (g_Resource g, g_BucketName g) in
  let '(order, perms) := st in
  (if decide (is_Some (perms !! t)) then order else order ++ [t],
   <[t := default [] (perms !! t) ++ [g_Permission g]]> perms).
Definition group_grants (grants : list Grant) : list target * gmap target (list string) :=
  foldl group_grant ([], ∅) grants.

Abbreviation desired_map := (gmap string (gset string)).
Definition add_desired (d : desired_map) (key : string) (toks : list string) : desired_map :=
  <[key := default ∅ (d !! key) ∪ list_to_set toks]> d.

Definition apply_target (ns pod username : string) (perms : gmap target (list string))
    (t : target) (desired : desired_map) : M (error + desired_map) :=
  let ps := default [] (perms !! t) in
  e ← GrantPermissions ns pod "riak" username t.1 t.2 ps;
  mret match e with
       | Some e => inl e
       | None =>
           match grantKey t.1 t.2 with
           | Err e => inl e
           | Ok key => inr (add_desired desired key (permissionTokens ps))
           end
       end.

Definition stale_tokens (desired : desired_map) (entry : GrantEntry) : list string :=
  filter (λ tok, tok ∉ default ∅ (desired !! (ge_Type entry +:+ " " +:+ ge_Bucket entry)))
    (ge_Tokens entry).
(** The [resource, bucket] arguments that name an entry's target. *)
Definition entry_target (entry : GrantEntry) : target :=
  if String.eqb (ge_Type entry) "*" then (resourceAny, "")
  else if negb (String.eqb (ge_Bucket entry) "*")
  then ("bucket", ge_Type entry +:+ " " +:+ ge_Bucket entry)
  else ("bucket", ge_Type entry).

Definition revoke_entry (ns pod username : string) (desired : desired_map)
    (entry : GrantEntry) (_ : unit) : M (error + unit) :=
  match stale_tokens desired entry with
  | [] => mret (inr tt)
  | stale =>
      let rb := entry_target entry in
      e ← RevokePermissions ns pod "riak" username rb.1 rb.2 stale;
      mret match e with Some e => inl e | None => inr tt end
  end.

Definition GrantUserPermissions (cluster : RiakCluster) (username : string) (grants : list Grant)
    : M (option error) :=
  match first_pod cluster with
  | None => mret (Some no_members)
  | Some pod =>
      let ns := cl_Namespace cluster in
      let '(order, perms) := group_grants grants in
      o ← for_each order (∅ : desired_map) (apply_target ns pod username perms);
      match o with
      | inl e => mret (Some e)
      | inr desired =>
          r ← GetUserGrants ns pod "riak" username;
          match r with
          | Err e => mret (Some (Wrapf "read current grants: " e ""))
          | Ok current =>
              o ← for_each current tt (revoke_entry ns pod username desired);
              mret match o with inl e => Some e | inr _ => None end
          end
      end
  end.

Definition DeleteUser (cluster : RiakCluster) (username : string) : M (option error) :=
  match first_pod cluster with
  | None => mret (Some no_members)
  | Some pod => DeleteUser_ex (cl_Namespace cluster) pod "riak" username
  end.
Definition CreateUserForCert (cluster : RiakCluster) (username : string) : M (option error) :=
  match first_pod cluster with
  | None => mret (Some no_members)
  | Some pod => CreateUserForCert_ex (cl_Namespace cluster) pod "riak" username
  end.
Definition EnableSecurity (cluster : RiakCluster) : M (option error) :=
  match first_pod cluster with
  | None => mret (Some no_members)
  | Some pod => EnableSecurity_ex (cl_Namespace cluster) pod "riak"
  end.
Definition AddSecuritySource (cluster : RiakCluster) (username : string) : M (option error) :=
  match first_pod cluster with
  | None => mret (Some no_members)
  | Some pod => AddSecuritySource_ex (cl_Namespace cluster) pod "riak" username
  end.
