(* ===== verification/RiakEnv.v ===== *)
(** * Environments that answer riak-admin

    [riak.Manager] only talks to the world through [kubectl exec ... riak-admin].
    [riak_env] is an environment given by what a riak-admin command may reply and do to
    a state; its state may be the history of commands ([history_env]) or an abstract
    model of the Riak cluster. Its [allowed] part makes a [wp] fact also say that every
    command goes to the [riak] container of the given namespace. *)
From S2P Require Import Prelude GoLib Effects Types KubeTypes Kube Executor.

(** The pod and the riak-admin arguments of a [kubectl_args] vector. *)
Definition exec_pod (full : list string) : string := default "" (full !! 3).
Definition exec_args (full : list string) : list string := drop 11 full.

Section env.
Context {S : Type} (ns : string).
Context (ok : S → string → list string → Prop).
Context (stp : S → string → list string → res string → S → Prop).

Definition riak_env : Env reply S := {|
  allowed := λ s a, ∃ pod args,
    a = ARun "kubectl" (kubectl_args ns pod "riak" args) ∧ ok s pod args;
  step := λ s a, match a as a' return reply a' → S → Prop with
                 | ARun _ full => λ r s', stp s (exec_pod full) (exec_args full) r s'
                 | _ => λ _ _, False
                 end
|}.

Lemma wp_admin {A} pod args (k : string * option error → M A) Q s :
  ok s pod args →
  (∀ r s', stp s pod args r s' → wp riak_env (k (admin_reply args r)) Q s') →
  wp riak_env (ExecuteRiakAdmin ns pod "riak" args ≫= k) Q s.
Proof.
  intros Hok Hk. unfold ExecuteRiakAdmin. apply wp_bind, wp_call; [by eexists _, _|].
  intros r s' Hs. apply wp_ret, (Hk r s'). exact Hs.
Qed.

Lemma wp_admin_fmap {A} pod args (f : string * option error → A) Q s :
  ok s pod args →
  (∀ r s', stp s pod args r s' → Q (f (admin_reply args r)) s') →
  wp riak_env (f <$> ExecuteRiakAdmin ns pod "riak" args) Q s.
Proof. intros Hok Hk. by apply (wp_admin pod args (λ x, Ret (f x))). Qed.
End env.

(** ** Histories *)
Record command := mkCommand { cm_pod : string; cm_args : list string; cm_reply : res string }.
(** Any reply to any command; the state is the list of commands, most recent first. *)
Definition history_env (ns : string) (ok : list command → string → list string → Prop)
    : Env reply (list command) :=
  riak_env ns ok (λ h pod args r h', h' = mkCommand pod args r :: h).

Definition cm_out (c : command) : string := (admin_reply (cm_args c) (cm_reply c)).1.
Definition cm_err (c : command) : option error := (admin_reply (cm_args c) (cm_reply c)).2.
Definition succeeded (c : command) : bool := bool_decide (cm_err c = None).

Lemma admin_reply_ok args r : (admin_reply args r).2 = None ↔ ∃ out, r = Ok out ∧ riakAdminFailed out = false.
Proof.
  destruct r as [out|e]; simpl; [|by split; [|intros (? & ? & _)]].
  destruct (riakAdminFailed out) eqn:Hf; simpl; split; try done.
  - intros (out' & [= <-] & Hf'). congruence.
  - intros _. by exists out.
Qed.
