(* ===== verification/Membership.v ===== *)
(** * Ring membership: what [ReconcileMembership] may do, and that it converges

    Two readings of [Manager.ReconcileMembership] ([internal/riak/manager.go]): against
    an environment that answers anything (which commands can ever be issued), and
    against an abstract ring, where one pass joins every standalone pod and the next
    reports the cluster complete. *)
From S2P Require Import Prelude GoLib Effects Types KubeTypes Kube Executor ExecutorFacts Manager RiakEnv Samples.

(** ** Reading the seed's table *)
Definition member_nodes (ms : list ClusterMember) : list string := cmb_Node <$> ms.
Definition names_seed (seed node : string) : bool :=
  String.eqb node ("riak@" +:+ seed) || HasPrefix node ("riak@" +:+ seed +:+ ".").
Definition valid_count (ms : list ClusterMember) : nat :=
  length (filter (λ m, cmb_Status m = memberStatusValid) ms).

Lemma scan_seed_spec seed ms :
  let sc := scan_seed seed ms in
  sn_inRing sc = list_to_set (member_nodes ms) ∧
  sn_valid sc = Z.of_nat (valid_count ms) ∧
  sn_seedNode sc = default "" (last (filter (λ n, names_seed seed n = true) (member_nodes ms))).
Proof.
  unfold scan_seed, valid_count. induction ms as [|m ms (IH1 & IH2 & IH3)] using rev_ind; [done|].
  rewrite foldl_snoc. cbn [scan_member sn_inRing sn_valid sn_seedNode].
  unfold member_nodes in *. rewrite IH1, IH2, IH3, fmap_app, !filter_app, list_to_set_app_L, length_app.
  split_and!.
  - simpl. set_solver.
  - simpl. destruct (String.eqb_spec (cmb_Status m) memberStatusValid).
    + rewrite filter_cons_True by done. simpl. lia.
    + rewrite filter_cons_False by done. simpl. lia.
  - simpl. fold (names_seed seed (cmb_Node m)). destruct (names_seed seed (cmb_Node m)) eqn:Hn.
    + rewrite filter_cons_True by done. by rewrite filter_nil, last_snoc.
    + rewrite filter_cons_False by congruence. by rewrite filter_nil, app_nil_r.
Qed.

Lemma scan_seed_node seed ms :
  sn_seedNode (scan_seed seed ms) ≠ "" →
  sn_seedNode (scan_seed seed ms) ∈ member_nodes ms ∧
  names_seed seed (sn_seedNode (scan_seed seed ms)) = true.
Proof.
  destruct (scan_seed_spec seed ms) as (_ & _ & ->).
  destruct (last _) as [n|] eqn:Hl; simpl; [|done]. intros _.
  apply last_Some_elem_of, list_elem_of_filter in Hl. tauto.
Qed.

(** ** Safety: the commands a pass may issue *)
Definition status_args : list string := ["member-status"].
Definition join_args (node : string) : list string := ["cluster"; "join"; node].
Definition plan_args : list string := ["cluster"; "plan"].
Definition commit_args : list string := ["cluster"; "commit"].

(** [c] is a successful member-status on [pod] that listed [ms]. *)
Definition status_read (pod : string) (ms : list ClusterMember) (c : command) : Prop :=
  cm_pod c = pod ∧ cm_args c = status_args ∧ cm_err c = None ∧ parseMemberStatus (cm_out c) = ms.
(** [c] is a successful join issued on one of [pods]. *)
Definition join_done (pods : list string) (c : command) : Prop :=
  cm_pod c ∈ pods ∧ (∃ n, cm_args c = join_args n) ∧ cm_err c = None.

(** Given the commands so far (most recent first), may this one be issued? *)
Inductive membership_ok (seed : string) (pods : list string) (h : list command) (pod : string)
    : list string → Prop :=
| ok_status : pod = seed ∨ pod ∈ pods → membership_ok seed pods h pod status_args
| ok_join node c0 c h' seedMembers m :
    pod ∈ pods → pod ≠ seed →
    last h = Some c0 → status_read seed seedMembers c0 →
    h = c :: h' → status_read pod [m] c →
    cmb_Node m ∉ member_nodes seedMembers →
    node ∈ member_nodes seedMembers → names_seed seed node = true →
    membership_ok seed pods h pod (join_args node)
| ok_plan c : pod = seed → c ∈ h → join_done pods c → membership_ok seed pods h pod plan_args
| ok_commit c h' :
    pod = seed → h = c :: h' → cm_pod c = seed → cm_args c = plan_args → cm_err c = None →
    membership_ok seed pods h pod commit_args.

(** [pod] was asked for its members in [h], and is not a ring of its own that [ms] does not list. *)
Definition answered (ms : list ClusterMember) (h : list command) (pod : string) : Prop :=
  ∃ c pm, c ∈ h ∧ status_read pod pm c ∧ (length pm ≠ 1 ∨ member_nodes pm ⊆ member_nodes ms).
(** Nothing was changed, the seed listed as many valid members as there are pods, and every
    other pod either listed other than one member or was itself listed by the seed. *)
Definition ring_checked (seed : string) (pods : list string) (h : list command) : Prop :=
  Forall (λ c, cm_args c = status_args) h ∧
  ∃ c0 ms, last h = Some c0 ∧ status_read seed ms c0 ∧ valid_count ms = length pods ∧
    ∀ pod, pod ∈ pods → pod ≠ seed → answered ms h pod.
(** What a pass that returned [r] has done. *)
Definition membership_post (seed : string) (pods : list string) (r : res bool) (h : list command) : Prop :=
  match r with
  | Err _ => True
  | Ok true => ring_checked seed pods h
  | Ok false =>
      (∃ c h' cj, h = c :: h' ∧ cm_pod c = seed ∧ cm_args c = commit_args ∧ cm_err c = None ∧
         cj ∈ h' ∧ join_done pods cj) ∨
      (Forall (λ c, cm_args c = status_args) h ∧
       ∃ c0 ms, last h = Some c0 ∧ status_read seed ms c0 ∧ valid_count ms ≠ length pods)
  end.

Section safety.
Context (cluster : RiakCluster) (pods : list string).
Let seed : string := cl_Name cluster +:+ "-0".
Let E : Env reply (list command) := history_env (cl_Namespace cluster) (membership_ok seed pods).

Lemma wp_MemberStatus {A} pod (k : res (list ClusterMember) → M A) Q h :
  pod = seed ∨ pod ∈ pods →
  (∀ r, let c := mkCommand pod status_args r in
     wp E (k match cm_err c with
             | Some e => Err e
             | None => Ok (parseMemberStatus (cm_out c))
             end) Q (c :: h)) →
  wp E (MemberStatus (cl_Namespace cluster) pod "riak" ≫= k) Q h.
Proof.
  intros Hpod Hk. unfold MemberStatus. apply wp_bind, wp_admin; [by constructor|].
  intros r h' ->. apply wp_ret. apply Hk.
Qed.

(** The loop invariant: history [h] holds the seed's reading and [joined] joins, or the answers
    of the pods that are done. *)
Definition loop_inv (ms : list ClusterMember) (c0 : command) (done_ : list string) (joined : nat)
    (h : list command) : Prop :=
  last h = Some c0 ∧
  match joined with
  | 0 => Forall (λ c, cm_args c = status_args) h ∧ ∀ pod, pod ∈ done_ → pod ≠ seed → answered ms h pod
  | S _ => ∃ c, c ∈ h ∧ join_done pods c
  end.

Lemma answered_cons ms c h pod : answered ms h pod → answered ms (c :: h) pod.
Proof. intros (c' & pm & Hc & H). exists c', pm. split; [by right|done]. Qed.
Lemma loop_inv_status ms c0 done_ j pod r h :
  loop_inv ms c0 done_ j h → loop_inv ms c0 done_ j (mkCommand pod status_args r :: h).
Proof.
  intros [Hl Hj]. split; [by rewrite last_cons, Hl|]. destruct j.
  - destruct Hj as [Hf Ha]. split; [by constructor|]. intros p Hp Hne. by apply answered_cons, Ha.
  - destruct Hj as (c & Hc & Hd). exists c. split; [by right|done].
Qed.
(** One more pod is done. *)
Lemma loop_inv_done ms c0 done_ pod j h :
  loop_inv ms c0 done_ j h → (pod ≠ seed → answered ms h pod) → loop_inv ms c0 (done_ ++ [pod]) j h.
Proof.
  intros [Hl Hj] Hp. split; [done|]. destruct j; [|done]. destruct Hj as [Hf Ha]. split; [done|].
  intros p [Hin| ->%list_elem_of_singleton]%elem_of_app; auto.
Qed.

Lemma join_pod_safe ms c0 done_ pod j h :
  sn_seedNode (scan_seed seed ms) ≠ "" → status_read seed ms c0 → pod ∈ pods → loop_inv ms c0 done_ j h →
  wp E (join_pod cluster seed (scan_seed seed ms) pod j)
    (λ o h', match o with inl _ => True | inr j' => loop_inv ms c0 (done_ ++ [pod]) j' h' end) h.
Proof.
  intros Hseed Hc0 Hpod Hinv. unfold join_pod.
  destruct (String.eqb_spec pod seed) as [Heq|Hne]; [apply wp_ret; by apply loop_inv_done|].
  apply wp_MemberStatus; [by right|]. intros r c.
  pose proof (loop_inv_status ms c0 done_ j pod r h Hinv) as Hinv'. fold c in Hinv'.
  destruct (cm_err c) as [e|] eqn:Herr; [by apply wp_ret|].
  destruct (scan_seed_spec seed ms) as (Hring & _ & _).
  assert (∀ pm, parseMemberStatus (cm_out c) = pm → length pm ≠ 1 ∨ member_nodes pm ⊆ member_nodes ms →
    loop_inv ms c0 (done_ ++ [pod]) j (c :: h)) as Hskip.
  { intros pm Hpm Hok. apply loop_inv_done; [done|]. intros _. exists c, pm. split_and!; [by left|done|done]. }
  destruct (parseMemberStatus (cm_out c)) as [|m [|m2 l]] eqn:Hp;
    [apply wp_ret, (Hskip _ eq_refl); by left| |apply wp_ret, (Hskip _ eq_refl); by left].
  case_bool_decide as Hin.
  { apply wp_ret, (Hskip _ eq_refl). right. rewrite Hring in Hin. cbn. set_solver. }
  destruct (scan_seed_node seed ms Hseed) as [Hn1 Hn2].
  assert (cmb_Node m ∉ member_nodes ms) as Hm by (rewrite Hring in Hin; set_solver).
  unfold JoinCluster. apply wp_bind, wp_admin_fmap.
  { eapply ok_join with (c0 := c0) (c := c); try done. by destruct Hinv'. }
  intros r2 h' ->. destruct (admin_reply _ r2).2 as [e|] eqn:He; apply wp_ret; [done|].
  split; [by rewrite last_cons, (proj1 Hinv')|].
  eexists. split; [by left|]. split_and!; [done|by eexists|done].
Qed.

Lemma ReconcileMembership_wp :
  wp E (ReconcileMembership cluster pods) (membership_post seed pods) [].
Proof.
  unfold ReconcileMembership. fold seed. apply wp_MemberStatus; [by left|]. intros r c0.
  destruct (cm_err c0) as [e|] eqn:Herr; [by apply wp_ret|].
  set (ms := parseMemberStatus (cm_out c0)).
  assert (status_read seed ms c0) as Hc0 by done.
  destruct (String.eqb_spec (sn_seedNode (scan_seed seed ms)) "") as [_|Hseed]; [by apply wp_ret|].
  eapply wp_bind_2.
  { apply (wp_for_each E pods 0 _ (λ d j h, loop_inv ms c0 d j h) (λ _ _, True)).
    - split; [done|]. split; [by constructor|]. by intros ? ?%elem_of_nil.
    - intros done_ x rest j h Hl Hinv. apply join_pod_safe; [done|done|rewrite Hl, elem_of_app; right;
      by left|done]. }
  intros [e|j] h; [by intros; apply wp_ret|]. intros [Hl Hj].
  destruct j as [|j]; cbn [Nat.ltb Nat.leb].
  { apply wp_ret. destruct (scan_seed_spec seed ms) as (_ & -> & _).
    destruct Hj as [Hf Ha].
    case_bool_decide as Hv; simpl; [|right]; (split; [done|]); exists c0, ms; split_and!; try done; lia. }
  destruct Hj as (cj & Hcj & Hjoin).
  apply wp_admin; [by eapply ok_plan|]. intros r1 h1 ->.
  destruct (admin_reply _ r1).2 as [e|] eqn:He1; [by apply wp_ret|].
  apply wp_admin; [by eapply (ok_commit _ _ _ _ (mkCommand seed plan_args r1))|]. intros r2 h2 ->.
  destruct (admin_reply _ r2).2 as [e|] eqn:He2; apply wp_ret; [done|].
  left. eexists _, _, cj. split_and!; try done. by right.
Qed.
End safety.

(** ** Convergence against an abstract ring

    The pods of the seed's ring, those with a staged join, and whether a plan was made
    since the last staged change. [node] gives a pod's Riak node name. *)
Record ring := mkRing { rg_members : list string; rg_staged : list string; rg_planned : bool }.

Section ring.
Context (node : string → string).

(** What member-status on [pod] lists: staged nodes are already shown, as joining. *)
Definition ring_view (s : ring) (pod : string) : list ClusterMember :=
  if bool_decide (pod ∈ rg_members s ++ rg_staged s)
  then ((λ p, mkClusterMember "valid" (node p)) <$> rg_members s) ++
       ((λ p, mkClusterMember "joining" (node p)) <$> rg_staged s)
  else [mkClusterMember "valid" (node pod)].

(** The preconditions of the riak-admin commands. *)
Inductive ring_ok (s : ring) (pod : string) : list string → Prop :=
| ring_ok_status : ring_ok s pod status_args
| ring_ok_join q :
    pod ∉ rg_members s ++ rg_staged s → q ∈ rg_members s → ring_ok s pod (join_args (node q))
| ring_ok_plan : pod ∈ rg_members s → rg_staged s ≠ [] → ring_ok s pod plan_args
| ring_ok_commit : pod ∈ rg_members s → rg_planned s = true → ring_ok s pod commit_args.

(** Their effects when they succeed. *)
Inductive ring_effect (s : ring) (pod : string) (out : string) : list string → ring → Prop :=
| eff_status : parseMemberStatus out = ring_view s pod → ring_effect s pod out status_args s
| eff_join n : ring_effect s pod out (join_args n)
                 (mkRing (rg_members s) (rg_staged s ++ [pod]) false)
| eff_plan : ring_effect s pod out plan_args (mkRing (rg_members s) (rg_staged s) true)
| eff_commit : ring_effect s pod out commit_args
                 (mkRing (rg_members s ++ rg_staged s) [] false).

(** A Riak that carries out every command. *)
Definition ring_env (ns : string) : Env reply ring :=
  riak_env ns ring_ok (λ s pod args r s',
    ∃ out, r = Ok out ∧ riakAdminFailed out = false ∧ ring_effect s pod out args s').

Lemma wp_ring_status {A} ns pod (k : res (list ClusterMember) → M A) Q s :
  wp (ring_env ns) (k (Ok (ring_view s pod))) Q s →
  wp (ring_env ns) (MemberStatus ns pod "riak" ≫= k) Q s.
Proof.
  intros Hk. unfold MemberStatus. apply wp_bind, wp_admin; [by constructor|].
  intros r s' (out & -> & Hf & He). unfold admin_reply. rewrite Hf. apply wp_ret.
  inversion He as [Hp| | |]; subst. cbv beta iota; cbn [fst snd]. by rewrite Hp.
Qed.
Lemma wp_ring_admin {A} ns pod args s' (k : string * option error → M A) Q s :
  ring_ok s pod args →
  (∀ out s'', ring_effect s pod out args s'' → s'' = s') →
  (∀ out, wp (ring_env ns) (k (out, None)) Q s') →
  wp (ring_env ns) (ExecuteRiakAdmin ns pod "riak" args ≫= k) Q s.
Proof.
  intros Hok Heff Hk. apply wp_admin; [done|]. intros r s'' (out & -> & Hf & He).
  unfold admin_reply. rewrite Hf. rewrite (Heff _ _ He). apply Hk.
Qed.

Context `{!Inj (=) (=) node}.
Context (cluster : RiakCluster) (pods : list string).
Let seed : string := cl_Name cluster +:+ "-0".
Context (Hseed_name : names_seed seed (node seed) = true) (Hnode : ∀ p, node p ≠ "").
Let ns : string := cl_Namespace cluster.

Lemma view_nodes s pod :
  pod ∈ rg_members s ++ rg_staged s →
  member_nodes (ring_view s pod) = node <$> rg_members s ++ rg_staged s.
Proof.
  intros Hin. unfold ring_view, member_nodes. rewrite bool_decide_true by done.
  by rewrite !fmap_app, <-!list_fmap_compose.
Qed.
Lemma view_valid s pod :
  pod ∈ rg_members s ++ rg_staged s → valid_count (ring_view s pod) = length (rg_members s).
Proof.
  intros Hin. unfold ring_view, valid_count. rewrite bool_decide_true by done.
  rewrite filter_app, length_app.
  assert (∀ l, length (filter (λ m, cmb_Status m = memberStatusValid)
            ((λ p, mkClusterMember "valid" (node p)) <$> l)) = length l) as ->.
  { induction l as [|x l IH]; [done|]. rewrite fmap_cons, filter_cons_True by done. simpl. by rewrite IH. }
  assert (∀ l, length (filter (λ m, cmb_Status m = memberStatusValid)
            ((λ p, mkClusterMember "joining" (node p)) <$> l)) = 0) as ->; [|lia].
  induction l as [|x l IH]; [done|]. rewrite fmap_cons, filter_cons_False by done. done.
Qed.

Lemma scan_ring s :
  seed ∈ rg_members s →
  let sc := scan_seed seed (ring_view s seed) in
  (∀ p, node p ∈ sn_inRing sc ↔ p ∈ rg_members s ++ rg_staged s) ∧
  sn_valid sc = Z.of_nat (length (rg_members s)) ∧
  sn_seedNode sc ≠ "" ∧ ∃ q, q ∈ rg_members s ++ rg_staged s ∧ sn_seedNode sc = node q.
Proof.
  intros Hs sc. assert (seed ∈ rg_members s ++ rg_staged s) as Hs' by set_solver.
  destruct (scan_seed_spec seed (ring_view s seed)) as (H1 & H2 & H3). fold sc in H1, H2, H3.
  rewrite view_nodes in H1, H3 by done. rewrite view_valid in H2 by done.
  destruct (last _) as [n|] eqn:Hl; simpl in H3.
  2: { apply last_None in Hl. assert (node seed ∈ @nil string) as Hbad; [|set_solver].
       rewrite <-Hl. apply list_elem_of_filter. split; [done|]. by apply list_elem_of_fmap_2. }
  apply last_Some_elem_of, list_elem_of_filter in Hl as [_ (q & -> & Hq)%list_elem_of_fmap].
  rewrite H3. split_and!; [|done|apply Hnode|by exists q].
  intros p. rewrite H1, elem_of_list_to_set. rewrite list_elem_of_fmap_inj by done. done.
Qed.

(** Pods a pass joins: those outside the seed's ring, in order. *)
Definition missing (s : ring) (l : list string) : list string :=
  filter (λ p, p ∉ rg_members s) l.

Lemma missing_snoc s l p :
  missing s (l ++ [p]) = missing s l ++ (if decide (p ∈ rg_members s) then [] else [p]).
Proof.
  unfold missing. rewrite filter_app. case_decide.
  - by rewrite (filter_cons_False _ p) by tauto.
  - by rewrite filter_cons_True by done.
Qed.

Lemma join_pod_ring s s1 visited pod rest :
  seed ∈ rg_members s → rg_staged s = [] → NoDup pods → pods = visited ++ pod :: rest →
  rg_members s1 = rg_members s → rg_staged s1 = missing s visited →
  wp (ring_env ns)
    (join_pod cluster seed (scan_seed seed (ring_view s seed)) pod (length (missing s visited)))
    (λ o s', match o with
             | inl _ => False
             | inr j => j = length (missing s (visited ++ [pod])) ∧ rg_members s' = rg_members s ∧
                        rg_staged s' = missing s (visited ++ [pod])
             end) s1.
Proof.
  intros Hs Hst Hnd Hpods Hm1 Hs1. destruct (scan_ring s Hs) as (Hin & _ & _ & q & Hq & Hn).
  rewrite Hst, app_nil_r in Hq. setoid_rewrite Hst in Hin. setoid_rewrite app_nil_r in Hin.
  remember (missing s (visited ++ [pod])) as m' eqn:Hm'. rewrite missing_snoc in Hm'.
  unfold join_pod. destruct (String.eqb_spec pod seed) as [->|Hne].
  { rewrite decide_True, app_nil_r in Hm' by done. subst m'. by apply wp_ret. }
  apply wp_ring_status. case_decide as Hp.
  { rewrite app_nil_r in Hm'. subst m'. unfold ring_view at 1. rewrite Hm1.
    rewrite bool_decide_true by (rewrite elem_of_app; by left).
    destruct (rg_members s) as [|p0 l0] eqn:Hr; [by apply not_elem_of_nil in Hp|].
    cbn [fmap list_fmap app].
    match goal with |- wp _ ?prog _ _ =>
      match prog with context [?x ++ ?y] => destruct (x ++ y) as [|m2 l] end end;
      [|by apply wp_ret].
    rewrite bool_decide_true; [by apply wp_ret|]. cbn. apply Hin. by left. }
  assert (pod ∉ rg_members s1 ++ rg_staged s1) as Hout.
  { rewrite Hm1, Hs1, elem_of_app. intros [?|Hd]; [done|].
    apply list_elem_of_filter in Hd as [_ Hd]. rewrite Hpods in Hnd.
    apply NoDup_app in Hnd as (_ & Hdis & _). apply (Hdis pod Hd). by left. }
  unfold ring_view at 1. rewrite bool_decide_false by done.
  cbn [cmb_Node]. rewrite bool_decide_false by (by rewrite Hin).
  unfold JoinCluster. rewrite Hn. apply wp_bind, wp_admin_fmap; [constructor; [done|by rewrite Hm1]|].
  intros r s' (out & -> & Hf & He). unfold admin_reply. rewrite Hf. apply wp_ret.
  inversion He; subst. cbn. rewrite Hs1, length_app, Hm1. split_and!; [simpl; lia|done|done].
Qed.

(** One pass: every standalone pod of [pods] joins the ring. *)
Lemma ReconcileMembership_ring s :
  NoDup pods → seed ∈ rg_members s → rg_staged s = [] →
  wp (ring_env ns) (ReconcileMembership cluster pods)
    (λ r s', rg_members s' = rg_members s ++ missing s pods ∧ rg_staged s' = [] ∧
             r = Ok (bool_decide (missing s pods = [] ∧ length (rg_members s) = length pods))) s.
Proof.
  intros Hnd Hs Hst. unfold ReconcileMembership. fold seed ns. apply wp_ring_status.
  destruct (scan_ring s Hs) as (_ & Hv & Hne & _).
  rewrite (proj2 (String.eqb_neq _ _) Hne).
  set (Inv := λ (l : list string) (j : nat) (s' : ring),
    j = length (missing s l) ∧ rg_members s' = rg_members s ∧ rg_staged s' = missing s l).
  eapply wp_bind_2.
  { apply (wp_for_each _ pods 0 _ Inv (λ _ _, False)); [done|].
    intros visited x rest j s1 Hl (-> & H1 & H2). by eapply join_pod_ring. }
  intros [e|j] s1; [done|]. intros (-> & H1 & H2). rewrite Hv.
  destruct (missing s pods) as [|p l] eqn:Hm; cbn [length Nat.ltb Nat.leb].
  { apply wp_ret. rewrite H1, app_nil_r. split_and!; [done|done|].
    f_equal. apply bool_decide_ext. naive_solver lia. }
  eapply wp_ring_admin; [apply ring_ok_plan; [by rewrite H1|by rewrite H2]|by inversion 1|].
  intros out. cbn [snd].
  eapply wp_ring_admin; [apply ring_ok_commit; [by rewrite <-H1 in Hs|done]|by inversion 1|].
  intros out2. apply wp_ret. cbn [rg_members rg_staged]. rewrite H1, H2. split_and!; [done|done|].
  rewrite bool_decide_false by (by intros [? _]). done.
Qed.

(** Complete rings are reported as such. *)
Lemma missing_complete s :
  NoDup pods → NoDup (rg_members s) → rg_members s ⊆ pods →
  rg_members s ++ missing s pods ≡ₚ pods.
Proof.
  intros Hp Hr Hsub. apply NoDup_Permutation; [|done|].
  - apply NoDup_app. split_and!; [done| |by apply NoDup_filter].
    intros x Hx Hm. apply list_elem_of_filter in Hm as [? _]. done.
  - intros x. unfold missing. rewrite elem_of_app, list_elem_of_filter.
    destruct (decide (x ∈ rg_members s)); naive_solver.
Qed.

(** A pod the seed already lists is left alone, whether its join was committed or not. *)
Lemma join_pod_listed s pod j :
  seed ∈ rg_members s → pod ∈ rg_members s ++ rg_staged s →
  wp (ring_env ns) (join_pod cluster seed (scan_seed seed (ring_view s seed)) pod j)
    (λ o s', o = inr j ∧ s' = s) s.
Proof.
  intros Hs Hp. destruct (scan_ring s Hs) as (Hin & _).
  unfold join_pod. destruct (String.eqb_spec pod seed) as [->|Hne]; [by apply wp_ret|].
  apply wp_ring_status. pose proof (view_nodes s pod Hp) as Hv.
  destruct (ring_view s pod) as [|m [|m2 l]] eqn:Hview; try by apply wp_ret.
  rewrite bool_decide_true; [by apply wp_ret|].
  assert (cmb_Node m ∈ member_nodes [m]) as Hm by by left.
  rewrite Hv in Hm. apply list_elem_of_fmap in Hm as (p & -> & Hpin). by apply Hin.
Qed.
Lemma ReconcileMembership_listed s :
  seed ∈ rg_members s → pods ⊆ rg_members s ++ rg_staged s →
  wp (ring_env ns) (ReconcileMembership cluster pods)
    (λ r s', s' = s ∧ r = Ok (bool_decide (length (rg_members s) = length pods))) s.
Proof.
  intros Hs Hsub. unfold ReconcileMembership. fold seed ns. apply wp_ring_status.
  destruct (scan_ring s Hs) as (_ & Hv & Hne & _).
  rewrite (proj2 (String.eqb_neq _ _) Hne).
  eapply wp_bind_2.
  { apply (wp_for_each _ pods 0 _ (λ _ j s', j = 0 ∧ s' = s) (λ _ _, False)); [done|].
    intros visited x rest j s1 Hl (-> & ->). eapply wp_mono.
    - apply join_pod_listed; [done|]. apply Hsub. rewrite Hl, elem_of_app. right. by left.
    - by intros o s' (-> & ->). }
  intros [e|j] s1; [done|]. intros (-> & ->). rewrite Hv. apply wp_ret. split; [done|].
  f_equal. apply bool_decide_ext. lia.
Qed.
End ring.

(** *** A Riak to run the code against

    [ring_sim] answers every command and prints member-status the way Riak does. *)
Definition sim_row (m : ClusterMember) : member_row := mkMemberRow m "33.3%" "--" "   ".
Definition ring_sim (node : string → string) (a : api) (s : ring) : reply a * ring :=
  match a as a' return reply a' * ring with
  | ARun _ full =>
      let pod := exec_pod full in
      match exec_args full with
      | ["member-status"] => (Ok (print_members (sim_row <$> ring_view node s pod)), s)
      | ["cluster"; "join"; _] =>
          (Ok "Success: staged join request", mkRing (rg_members s) (rg_staged s ++ [pod]) false)
      | ["cluster"; "plan"] => (Ok "Staged Changes", mkRing (rg_members s) (rg_staged s) true)
      | ["cluster"; "commit"] =>
          (Ok "Cluster changes committed", mkRing (rg_members s ++ rg_staged s) [] false)
      | _ => (Err (Errorf "unknown command"), s)
      end
  | AGet _ _ _ => (Err (Errorf "unavailable"), s)
  | AList _ _ _ => (Err (Errorf "unavailable"), s)
  | ACreate _ _ => (Some (Errorf "unavailable"), s)
  | AUpdate _ _ => (Err (Errorf "unavailable"), s)
  | AStatusUpdate _ _ => (Err (Errorf "unavailable"), s)
  | APatch _ _ _ => (Err (Errorf "unavailable"), s)
  | ADelete _ _ => (Some (Errorf "unavailable"), s)
  | ACreateOrUpdate _ _ _ => (Some (Errorf "unavailable"), s)
  | ANow => (0%Z, s)
  end.

(** ** Properties *)

(** C4: whatever Riak answers, a membership pass only issues commands that [membership_ok]
    allows: a pod is joined only right after it reported a ring of exactly itself, a node
    that the seed's table does not list, and only to the seed's own node; plan follows a
    successful join, commit a successful plan. [true] is returned only by a pass that
    changed nothing, whose seed listed exactly as many valid members as pods, and in which
    every other pod either listed other than one member or was itself listed by the seed. *)
Theorem membership_safe (cluster : RiakCluster) (pods : list string) :
  let seed := cl_Name cluster +:+ "-0" in
  wp (history_env (cl_Namespace cluster) (membership_ok seed pods))
    (ReconcileMembership cluster pods) (membership_post seed pods) [].
Proof. apply ReconcileMembership_wp. Qed.

(** With a Riak that carries out its commands, two passes over the cluster's pods form
    the complete ring: every pod not yet in the seed's ring is joined and committed by
    the first, and the second reports the cluster complete. *)
Lemma membership_converges (node : string → string) (cluster : RiakCluster)
    (pods : list string) (s : ring) :
  let seed := cl_Name cluster +:+ "-0" in
  Inj (=) (=) node → (∀ p, node p ≠ "") → names_seed seed (node seed) = true →
  NoDup pods → NoDup (rg_members s) → rg_members s ⊆ pods → seed ∈ rg_members s →
  rg_staged s = [] →
  wp (ring_env node (cl_Namespace cluster))
    (_ ← ReconcileMembership cluster pods; ReconcileMembership cluster pods)
    (λ r s', r = Ok true ∧ rg_members s' ≡ₚ pods ∧ rg_staged s' = []) s.
Proof.
  intros seed Hinj Hne Hname Hp Hr Hsub Hs Hst.
  eapply wp_bind_2; [by apply ReconcileMembership_ring|]. intros r s1 (H1 & H2 & _).
  pose proof (missing_complete pods s Hp Hr Hsub) as Hperm. rewrite <-H1 in Hperm.
  assert (missing s1 pods = []) as Hm.
  { unfold missing. apply elem_of_nil_inv. intros p [Hout Hin]%list_elem_of_filter.
    apply Hout. by rewrite Hperm. }
  eapply wp_mono.
  - apply ReconcileMembership_ring; [done|done|done|done| |done].
    rewrite H1, elem_of_app. by left.
  - intros r2 s2 (H3 & H4 & ->). rewrite H3, Hm, app_nil_r. split_and!; [|done|done].
    rewrite bool_decide_true; [done|]. split; [done|]. by rewrite Hperm.
Qed.

Lemma membership_converges_witness :
  run (ring_sim (String.append "riak@"))
    (r1 ← ReconcileMembership sample_cluster sample_pods;
     r2 ← ReconcileMembership sample_cluster sample_pods; mret (r1, r2)) (mkRing ["c-0"] [] false) =
    ((Ok false, Ok true), mkRing ["c-0"; "c-1"; "c-2"] [] false) ∧
  wp (ring_env (String.append "riak@") "db")
    (_ ← ReconcileMembership sample_cluster sample_pods; ReconcileMembership sample_cluster sample_pods)
    (λ r s', r = Ok true ∧ rg_members s' ≡ₚ sample_pods ∧ rg_staged s' = []) (mkRing ["c-0"] [] false).
Proof.
  split; [by vm_compute|].
  apply (membership_converges (String.append "riak@") sample_cluster sample_pods (mkRing ["c-0"] [] false)).
  - apply _.
  - by intros p.
  - by vm_compute.
  - by apply (bool_decide_unpack _); vm_compute.
  - by apply (bool_decide_unpack _); vm_compute.
  - by apply (bool_decide_unpack _); vm_compute.
  - by apply (bool_decide_unpack _); vm_compute.
  - done.
Defined.

(** C28: a staged join that was not committed stays uncommitted: when every pod is already
    in the seed's table, some of them only as joining, a pass issues no plan and no
    commit, whatever was staged before it, and reports the cluster incomplete. *)
Theorem membership_staged_left (node : string → string) (cluster : RiakCluster)
    (pods : list string) (s : ring) :
  let seed := cl_Name cluster +:+ "-0" in
  Inj (=) (=) node → (∀ p, node p ≠ "") → names_seed seed (node seed) = true →
  NoDup pods → pods ≡ₚ rg_members s ++ rg_staged s → seed ∈ rg_members s → rg_staged s ≠ [] →
  wp (ring_env node (cl_Namespace cluster)) (ReconcileMembership cluster pods)
    (λ r s', r = Ok false ∧ s' = s) s.
Proof.
  intros seed Hinj Hne Hname Hnd Hp Hs Hst.
  eapply wp_mono; [apply ReconcileMembership_listed; [done..|]|].
  - intros p Hin. by rewrite <-Hp.
  - intros r s' (-> & ->). split; [|done]. rewrite bool_decide_false; [done|].
    apply Permutation_length in Hp. rewrite length_app in Hp.
    destruct (rg_staged s); [done|]. simpl in Hp. lia.
Qed.
Lemma membership_staged_left_witness :
  let s := mkRing ["c-0"; "c-1"] ["c-2"] false in
  wp (ring_env (String.append "riak@") "db") (ReconcileMembership sample_cluster sample_pods)
    (λ r s', r = Ok false ∧ s' = s) s ∧
  run (ring_sim (String.append "riak@")) (ReconcileMembership sample_cluster sample_pods) s =
    (Ok false, s).
Proof.
  intros s. split; [|by vm_compute].
  apply (membership_staged_left (String.append "riak@") sample_cluster sample_pods s).
  - apply _.
  - by intros p.
  - by vm_compute.
  - by apply (bool_decide_unpack _); vm_compute.
  - done.
  - by apply (bool_decide_unpack _); vm_compute.
  - done.
Defined.
