(* ===== verification/Grants.v ===== *)
(** * User grants: [GrantUserPermissions] makes Riak's grants equal the spec

    The abstract state is the set of (bucket type, bucket, permission) triples Riak holds
    for one user, with ["*"] for any type and for a whole type. [sec_env] is the
    documented behaviour of [riak-admin security grant | revoke | print-grants] on that
    set, any command being allowed to fail, before or after taking effect, when [flaky], and
    only for a usage error otherwise. *)
From S2P Require Import Prelude GoLib Effects Types Samples KubeTypes Kube Executor ExecutorFacts Manager RiakEnv.

Abbreviation triple := (string * string * string)%type.
Abbreviation grants_state := (gset triple).

(** ** The security commands of Riak *)
Definition granted (key : string * string) (toks : list string) : grants_state :=
  list_to_set ((λ t, (key.1, key.2, t)) <$> toks).

(** The words between [on] and [to]/[from]: any, a type, or a type and a bucket. *)
Definition on_target (words : list string) : option (string * string) :=
  match words with
  | [t] => Some (if String.eqb t "any" then ("*", "*") else (t, "*"))
  | [t; b] => if String.eqb t "any" then None else Some (t, b)
  | _ => None
  end.
Definition sec_target (kw user : string) (rest : list string) : option (string * string) :=
  match reverse rest with
  | u :: k :: words => if String.eqb u user && String.eqb k kw then on_target (reverse words) else None
  | _ => None
  end.
(** The effect of a well-formed grant or revoke for [user]; [None] is a usage error. *)
Definition sec_effect (user : string) (args : list string) (s : grants_state) : option grants_state :=
  match args with
  | sec :: op :: toks :: on :: rest =>
      if negb (String.eqb sec "security" && String.eqb on "on") then None
      else if String.eqb op "grant"
      then (λ k, s ∪ granted k (Split toks ",")) <$> sec_target "to" user rest
      else if String.eqb op "revoke"
      then (λ k, s ∖ granted k (Split toks ",")) <$> sec_target "from" user rest
      else None
  | _ => None
  end.

(** A print-grants reply for state [s]: some table whose rows list exactly [s]. *)
Definition grant_printable (g : grant_print) : Prop :=
  name_ok (gp_type g) = true ∧ name_ok (gp_bucket g) = true ∧
  chunk_ok (gp_first g) ∧ Forall chunk_ok (gp_rest g).
Definition entry_triples (e : GrantEntry) : list triple :=
  (λ t, (ge_Type e, ge_Bucket e, t)) <$> ge_Tokens e.
Definition printed (user : string) (s : grants_state) (out : string) : Prop :=
  ∃ pre border hp gs rest,
    out = Join (print_grants pre user border hp gs rest) (sep_of nl) ∧
    Forall (λ l, section_line l = false) pre ∧ pads_ok hp = true ∧ Forall grant_printable gs ∧
    Forall (λ l, no_byte nl l = true) (print_grants pre user border hp gs rest) ∧
    s = list_to_set (gs ≫= λ g, entry_triples (gp_entry g)).

Definition print_args (user : string) : list string := ["security"; "print-grants"; user].
Definition sec_step (flaky : bool) (user : string) (s : grants_state) (_ : string) (args : list string)
    (r : res string) (s' : grants_state) : Prop :=
  let err := (admin_reply args r).2 in
  if decide (args = print_args user)
  then s' = s ∧ match err with None => printed user s (admin_reply args r).1 | Some _ => flaky = true end
  else match sec_effect user args s with
       | Some s1 => match err with None => s' = s1 | Some _ => flaky = true ∧ (s' = s ∨ s' = s1) end
       | None => s' = s ∧ err ≠ None
       end.
(** The commands a reconcile of [user]'s grants may issue, all on pod [pod]; grants are only
    listed in states satisfying [P]. *)
Definition sec_ok_at (P : grants_state → Prop) (user pod : string) (s : grants_state) (p : string)
    (args : list string) : Prop :=
  p = pod ∧
  (args = print_args user ∧ P s ∨
   ∃ op toks target kw, args = ["security"; op; toks; "on"] ++ target ++ [kw; user] ∧
     (op = "grant" ∧ kw = "to" ∨ op = "revoke" ∧ kw = "from")).
Definition sec_env_at (P : grants_state → Prop) (flaky : bool) (ns user pod : string) : Env reply grants_state :=
  riak_env ns (sec_ok_at P user pod) (sec_step flaky user).
Abbreviation sec_ok := (sec_ok_at (λ _, True)).
Abbreviation sec_env := (sec_env_at (λ _, True)).

Lemma sec_effect_cmd op kw user toks target s :
  op = "grant" ∧ kw = "to" ∨ op = "revoke" ∧ kw = "from" →
  toks ≠ [] → Forall (λ t, no_byte "," t = true) toks →
  sec_effect user (["security"; op; Join toks ","; "on"] ++ target ++ [kw; user]) s =
  (λ k, if String.eqb op "grant" then s ∪ granted k toks else s ∖ granted k toks) <$> on_target target.
Proof.
  intros Hop Hne Hc.
  assert (∀ kw', sec_target kw' user (target ++ [kw'; user]) = on_target target) as Ht.
  { intros kw'. unfold sec_target. rewrite reverse_app.
    change (reverse [kw'; user]) with [user; kw']. cbn [app].
    by rewrite !String.eqb_refl, reverse_involutive. }
  cbn [app sec_effect].
  pose proof (Split_Join toks "," Hne Hc) as Hs. change (sep_of ",") with "," in Hs. rewrite Hs.
  by destruct Hop as [[-> ->]|[-> ->]]; cbn [String.eqb Ascii.eqb Bool.eqb andb negb]; rewrite Ht.
Qed.

(** ** The specification *)
(** The key Riak stores a grant of this resource and bucket under. *)
Definition target_key (t : target) : option (string * string) :=
  if String.eqb t.1 "any" then Some ("*", "*")
  else if String.eqb t.1 "bucket" then on_target (Fields t.2) else None.
Definition grant_triples (g : Grant) : list triple :=
  match target_key (g_Resource g, g_BucketName g) with
  | Some (ty, b) => (λ t, (ty, b, t)) <$> tokens_of (g_Permission g)
  | None => []
  end.
(** The grants a spec asks for. *)
Definition spec_grants (grants : list Grant) : grants_state := list_to_set (grants ≫= grant_triples).

(** Names the print-grants table or the command line cannot tell from keywords. *)
Definition reserved (w : string) : Prop := w ∈ ["*"; "any"; "type"].
Definition grant_unreserved (g : Grant) : Prop := Forall (λ w, ¬ reserved w) (Fields (g_BucketName g)).
Definition key_ok (t b : string) : Prop := t ≠ "any" ∧ t ≠ "type" ∧ (t = "*" → b = "*").
Definition state_ok (s : grants_state) : Prop := set_Forall (λ x : triple, key_ok x.1.1 x.1.2) s.
#[global] Instance state_ok_dec s : Decision (state_ok s).
Proof. unfold state_ok, key_ok. apply _. Defined.
#[global] Instance grant_unreserved_dec g : Decision (grant_unreserved g).
Proof. unfold grant_unreserved, reserved. apply _. Defined.

(** ** Batching *)
Definition grant_target (g : Grant) : target := (g_Resource g, g_BucketName g).

Lemma group_grants_spec grants :
  let st := group_grants grants in
  (∀ t, t ∈ st.1 ↔ ∃ g, g ∈ grants ∧ grant_target g = t) ∧
  (∀ t, is_Some (st.2 !! t) ↔ t ∈ st.1) ∧
  (∀ t p, p ∈ default [] (st.2 !! t) ↔ ∃ g, g ∈ grants ∧ grant_target g = t ∧ g_Permission g = p).
Proof.
  unfold group_grants. induction grants as [|g grants (IH1 & IH2 & IH3)] using rev_ind.
  { split_and!; intros t; simpl; rewrite ?lookup_empty; [set_solver| |set_solver].
    split; [by intros [? ?]|by intros ?%not_elem_of_nil]. }
  rewrite foldl_snoc. destruct (foldl group_grant ([], ∅) grants) as [order perms]. simpl in *.
  unfold group_grant. fold (grant_target g). cbn [fst snd]. split_and!.
  - intros t. transitivity (t ∈ order ∨ t = grant_target g).
    + case_decide as Hd; [apply IH2 in Hd; naive_solver|].
      by rewrite elem_of_app, list_elem_of_singleton.
    + rewrite IH1. setoid_rewrite elem_of_app. setoid_rewrite list_elem_of_singleton. naive_solver.
  - intros t. destruct (decide (t = grant_target g)) as [->|Hne].
    + rewrite lookup_insert_eq. split; [intros _|done].
      case_decide as Hd; [by apply IH2|]. rewrite elem_of_app. right. by left.
    + rewrite lookup_insert_ne, IH2 by done. case_decide; [done|].
      rewrite elem_of_app, list_elem_of_singleton. tauto.
  - intros t p. setoid_rewrite elem_of_app. setoid_rewrite list_elem_of_singleton.
    destruct (decide (t = grant_target g)) as [->|Hne].
    + rewrite lookup_insert_eq. cbn [from_option id]. rewrite elem_of_app, list_elem_of_singleton, IH3.
      split.
      * intros [(g' & ? & ? & ?)| ->]; [exists g'|exists g]; auto.
      * intros (g' & [?| ->] & ? & ?); [left|right]; eauto.
    + rewrite lookup_insert_ne, IH3 by done. split.
      * intros (g' & ? & ? & ?). exists g'. auto.
      * intros (g' & [?| ->] & ? & ?); [eauto|congruence].
Qed.

Definition target_triples (perms : gmap target (list string)) (t : target) : list triple :=
  match target_key t with
  | Some (ty, b) => (λ tok, (ty, b, tok)) <$> permissionTokens (default [] (perms !! t))
  | None => []
  end.
Definition applied (perms : gmap target (list string)) (l : list target) : grants_state :=
  list_to_set (l ≫= target_triples perms).

Lemma applied_all grants :
  applied (group_grants grants).2 (group_grants grants).1 = spec_grants grants.
Proof.
  destruct (group_grants_spec grants) as (H1 & _ & H3). apply set_eq. intros [[ty b] tok].
  unfold applied, spec_grants. rewrite !elem_of_list_to_set, !list_elem_of_bind.
  assert (∀ t, (ty, b, tok) ∈ target_triples (group_grants grants).2 t ↔
    ∃ g, g ∈ grants ∧ grant_target g = t ∧ (ty, b, tok) ∈ grant_triples g) as Ht.
  { intros t. unfold target_triples, grant_triples. split.
    - destruct (target_key t) as [[ty' b']|] eqn:Hk; [|set_solver].
      intros (tok' & [= -> -> ->] & Htok)%list_elem_of_fmap.
      apply permissionTokens_elem in Htok as (p & Hp & Htok). apply H3 in Hp as (g & Hg & <- & <-).
      exists g. split_and!; [done|done|]. unfold grant_target in Hk. rewrite Hk.
      by apply list_elem_of_fmap_2.
    - intros (g & Hg & <- & Hin). fold (grant_target g) in Hin.
      destruct (target_key (grant_target g)) as [[ty' b']|]; [|set_solver].
      apply list_elem_of_fmap in Hin as (tok' & [= -> -> ->] & Htok).
      apply list_elem_of_fmap_2, permissionTokens_elem. exists (g_Permission g).
      split; [|done]. apply H3. eauto. }
  setoid_rewrite Ht. setoid_rewrite H1. naive_solver.
Qed.

(** ** Keys of the [desired] map *)
Definition map_key (ty b : string) : string := ty +:+ " " +:+ b.
Lemma Fields_map_key ty b : is_word ty = true → is_word b = true → Fields (map_key ty b) = [ty; b].
Proof. intros. by apply (Fields_Join [ty; b]); repeat constructor. Qed.
Lemma map_key_inj ty b ty' b' :
  is_word ty = true → is_word b = true → is_word ty' = true → is_word b' = true →
  map_key ty b = map_key ty' b' → ty = ty' ∧ b = b'.
Proof.
  intros H1 H2 H3 H4 He. apply (f_equal Fields) in He.
  rewrite !Fields_map_key in He by done. by injection He.
Qed.

Lemma on_target_words words ty b :
  Forall (λ w, is_word w = true) words → on_target words = Some (ty, b) →
  is_word ty = true ∧ is_word b = true.
Proof.
  intros Hw. destruct words as [|t [|u [|? ?]]]; simpl; try done.
  - inversion_clear Hw. case_match; intros [= <- <-]; done.
  - inversion_clear Hw as [|? ? ? Hw']. inversion_clear Hw'. case_match; [done|]. by intros [= <- <-].
Qed.
Lemma grantTarget_words resource bucket tgt :
  grantTarget resource bucket = Ok tgt → Forall (λ w, is_word w = true) tgt.
Proof.
  rewrite grantTarget_ok. intros [[-> ->]|(-> & -> & _)]; [by repeat constructor|].
  apply Forall_forall. intros w. apply Fields_words.
Qed.
Lemma grantTarget_key t tgt : grantTarget t.1 t.2 = Ok tgt → target_key t = on_target tgt.
Proof.
  rewrite grantTarget_ok. unfold target_key. destruct t as [r bk]. simpl.
  intros [[-> ->]|(-> & -> & _)]; done.
Qed.
Lemma grantKey_ok t tgt ty b :
  grantTarget t.1 t.2 = Ok tgt → on_target tgt = Some (ty, b) → grantKey t.1 t.2 = Ok (map_key ty b).
Proof.
  intros Ht Ho. unfold grantKey. rewrite Ht.
  change resourceAny with "any". destruct tgt as [|x [|y [|? ?]]]; simpl in *; try done.
  - destruct (String.eqb x "any"); by injection Ho as <- <-.
  - destruct (String.eqb x "any"); [done|]. by injection Ho as <- <-.
Qed.

(** [desired] records exactly the triples [T]. *)
Definition records (desired : desired_map) (T : grants_state) : Prop :=
  ∀ ty b tok, is_word ty = true → is_word b = true →
    tok ∈ default ∅ (desired !! map_key ty b) ↔ (ty, b, tok) ∈ T.

Lemma elem_of_granted k toks x : x ∈ granted k toks ↔ x.1 = k ∧ x.2 ∈ toks.
Proof.
  unfold granted. rewrite elem_of_list_to_set, list_elem_of_fmap.
  destruct x as [[a b] t], k as [a' b']. simpl. naive_solver.
Qed.
Lemma records_add desired T ty b toks :
  is_word ty = true → is_word b = true → records desired T →
  records (add_desired desired (map_key ty b) toks) (T ∪ granted (ty, b) toks).
Proof.
  intros Hty Hb Hr ty' b' tok Hty' Hb'. unfold add_desired. unfold records in Hr.
  rewrite elem_of_union, elem_of_granted. simpl.
  destruct (decide (map_key ty b = map_key ty' b')) as [He|Hne].
  - destruct (map_key_inj ty b ty' b') as [<- <-]; try done.
    rewrite lookup_insert_eq. cbn [from_option id].
    rewrite elem_of_union, elem_of_list_to_set, Hr by done. naive_solver.
  - rewrite lookup_insert_ne, Hr by done. split; [auto|]. intros [?|[[= -> ->] _]]; [done|].
    by destruct Hne.
Qed.

(** ** Applying and revoking *)
Section apply.
Context (P : grants_state → Prop) (flaky : bool) (ns pod user : string).
Abbreviation E := (sec_env_at P flaky ns user pod).

Lemma wp_security op kw toks tgt s :
  op = "grant" ∧ kw = "to" ∨ op = "revoke" ∧ kw = "from" →
  toks ≠ [] → Forall (λ t, no_byte "," t = true) toks →
  wp E (snd <$> ExecuteRiakAdmin ns pod "riak"
                  (["security"; op; Join toks ","; "on"] ++ tgt ++ [kw; user]))
    (λ e s', match on_target tgt with
             | None => s' = s ∧ e ≠ None
             | Some k =>
                 let s1 := if String.eqb op "grant" then s ∪ granted k toks else s ∖ granted k toks in
                 match e with None => s' = s1 | Some _ => flaky = true ∧ (s' = s ∨ s' = s1) end
             end) s.
Proof.
  intros Hop Hne Hc. apply wp_admin_fmap; [split; [done|right; by eexists _, _, _, _]|].
  intros r s'. unfold sec_step. rewrite decide_False.
  2: { intros He. apply (f_equal length) in He. rewrite !length_app in He. simpl in He. lia. }
  rewrite sec_effect_cmd by done. destruct (on_target tgt); simpl; done.
Qed.

Lemma grantTarget_none t e : grantTarget t.1 t.2 = Err e → target_key t = None.
Proof.
  destruct t as [r bk]. unfold target_key, grantTarget. cbn [fst snd]. change resourceAny with "any".
  destruct (String.eqb r "any"); [done|]. destruct (String.eqb r "bucket"); [|done].
  by destruct (Fields bk).
Qed.
(** Why a grant can fail: the command, or a resource that Riak does not know. *)
Definition excused (targets : list target) : Prop := flaky = true ∨ ∃ t, t ∈ targets ∧ target_key t = None.
Lemma apply_target_spec perms t desired T s :
  default [] (perms !! t) ≠ [] → records desired T →
  wp E (apply_target ns pod user perms t desired)
    (λ o s', match o with
             | inl _ => excused [t] ∧ (s' = s ∨ s' = s ∪ applied perms [t])
             | inr d' => s' = s ∪ applied perms [t] ∧ records d' (T ∪ applied perms [t])
             end) s.
Proof.
  intros Hps Hr. unfold apply_target, GrantPermissions.
  assert (target_key t = None → excused [t]) as Hnone by (intros Hn; right; exists t; split; [by left|done]).
  destruct (grantTarget t.1 t.2) as [tgt|e] eqn:Ht.
  2: { apply wp_ret. split; [by eapply Hnone, grantTarget_none|by left]. }
  eapply wp_bind_2.
  { apply wp_security; [by left|by apply permissionTokens_not_nil|apply permissionTokens_no_comma]. }
  intros e s'. pose proof (grantTarget_key t tgt Ht) as Hk.
  destruct (on_target tgt) as [[ty b]|] eqn:Ho.
  2: { intros [-> He]. destruct e; [|done]. apply wp_ret. split; [by apply Hnone|by left]. }
  assert (applied perms [t] = granted (ty, b) (permissionTokens (default [] (perms !! t)))) as ->.
  { unfold applied. csimpl. rewrite app_nil_r. unfold target_triples. by rewrite Hk. }
  cbn [String.eqb Ascii.eqb Bool.eqb]. destruct e as [e|]; intros Hs; apply wp_ret.
  { destruct Hs as [Hf Hs]. split; [by left|done]. }
  rewrite (grantKey_ok t tgt ty b) by done. split; [done|].
  destruct (on_target_words tgt ty b) as [? ?]; [by eapply grantTarget_words|done|].
  by apply records_add.
Qed.

(** The first loop. *)
Lemma apply_targets_spec perms order s :
  (∀ t, t ∈ order → default [] (perms !! t) ≠ []) →
  wp E (for_each order ∅ (apply_target ns pod user perms))
    (λ o s', match o with
             | inl _ => excused order ∧ s ⊆ s' ∧ s' ⊆ s ∪ applied perms order
             | inr d' => s' = s ∪ applied perms order ∧ records d' (applied perms order)
             end) s.
Proof.
  intros Hne. apply (wp_for_each _ order ∅ _
    (λ l d s', s' = s ∪ applied perms l ∧ records d (applied perms l))
    (λ _ s', excused order ∧ s ⊆ s' ∧ s' ⊆ s ∪ applied perms order)).
  - split; [set_solver|]. intros ty b tok _ _. rewrite lookup_empty. set_solver.
  - intros visited t rest d s' Hl [-> Hr].
    assert (∀ l1 l2, applied perms (l1 ++ l2) = applied perms l1 ∪ applied perms l2) as Happ.
    { intros l1 l2. unfold applied. by rewrite bind_app, list_to_set_app_L. }
    eapply wp_mono; [apply apply_target_spec; [apply Hne; rewrite Hl, elem_of_app; right; by left|done]|].
    intros [e|d'] s'.
    + change (t :: rest) with ([t] ++ rest) in Hl. rewrite Hl, !Happ. intros [He Hs].
      split; [destruct He as [He|(t' & ->%list_elem_of_singleton & He)]; [by left|right; exists t; set_solver]|].
      destruct Hs as [->| ->]; set_solver.
    + rewrite Happ. intros [-> Hr']. split; [set_solver|done].
Qed.

Definition entry_ok (e : GrantEntry) : Prop :=
  is_word (ge_Type e) = true ∧ is_word (ge_Bucket e) = true ∧ key_ok (ge_Type e) (ge_Bucket e) ∧
  Forall (λ t, no_byte "," t = true) (ge_Tokens e).

Lemma entry_target_on entry :
  entry_ok entry →
  ∃ tgt, grantTarget (entry_target entry).1 (entry_target entry).2 = Ok tgt ∧
         on_target tgt = Some (ge_Type entry, ge_Bucket entry).
Proof.
  destruct entry as [ty b toks]. intros (Hty & Hb & (Hany & _ & Hstar) & _). simpl in *.
  unfold entry_target. simpl.
  destruct (String.eqb_spec ty "*") as [->|Ht].
  { exists ["any"]. rewrite Hstar by done. done. }
  destruct (String.eqb_spec b "*") as [->|Hbs]; simpl; unfold grantTarget; simpl.
  - rewrite Fields_word by done. exists [ty]. split; [done|]. simpl.
    by rewrite (proj2 (String.eqb_neq _ _)).
  - pose proof (Fields_map_key ty b Hty Hb) as Hf. unfold map_key in Hf. simpl in Hf. rewrite Hf.
    exists [ty; b]. split; [done|]. simpl. by rewrite (proj2 (String.eqb_neq _ _)).
Qed.

(** Removing the stale tokens of one entry. *)
Definition stale_triples (D : grants_state) (es : list GrantEntry) : grants_state :=
  list_to_set (es ≫= entry_triples) ∖ D.

Lemma revoke_entry_spec desired D entry u s :
  records desired D → entry_ok entry →
  wp E (revoke_entry ns pod user desired entry u)
    (λ o s', match o with
             | inl _ => flaky = true ∧ (s' = s ∨ s' = s ∖ stale_triples D [entry])
             | inr _ => s' = s ∖ stale_triples D [entry]
             end) s.
Proof.
  intros Hr Hok. pose proof Hok as (Hty & Hb & _ & Hc). unfold revoke_entry.
  assert (stale_triples D [entry] = granted (ge_Type entry, ge_Bucket entry) (stale_tokens desired entry)) as ->.
  { apply set_eq. intros [[ty b] tok]. rewrite elem_of_granted. unfold stale_triples.
    csimpl. rewrite app_nil_r, elem_of_difference, elem_of_list_to_set.
    unfold entry_triples. rewrite list_elem_of_fmap. simpl. unfold stale_tokens.
    rewrite list_elem_of_filter. fold (map_key (ge_Type entry) (ge_Bucket entry)).
    unfold records in Hr. rewrite Hr by done. split.
    - intros [(t & [= -> -> ->] & Ht) Hn]. done.
    - intros [[= -> ->] [Hn Ht]]. split; [by exists tok|done]. }
  destruct (stale_tokens desired entry) as [|t0 toks] eqn:Hst.
  { apply wp_ret. unfold granted. simpl. set_solver. }
  destruct (entry_target_on entry Hok) as (tgt & Ht & Ho).
  unfold RevokePermissions. cbn zeta. rewrite Ht. eapply wp_bind_2.
  { apply wp_security; [by right|done|]. rewrite <-Hst. apply Forall_forall. intros t Hin.
    apply list_elem_of_filter in Hin as [_ Hin]. by eapply Forall_forall in Hc. }
  intros e s'. rewrite Ho. cbn [String.eqb Ascii.eqb Bool.eqb].
  destruct e as [e|]; intros Hs; apply wp_ret; done.
Qed.

(** The second loop. *)
Lemma revoke_entries_spec desired D entries s :
  records desired D → Forall entry_ok entries →
  wp E (for_each entries tt (revoke_entry ns pod user desired))
    (λ o s', match o with
             | inl _ => flaky = true ∧ s ∩ D ⊆ s' ∧ s' ⊆ s
             | inr _ => s' = s ∖ stale_triples D entries
             end) s.
Proof.
  intros Hr Hok. apply (wp_for_each _ entries tt _
    (λ l _ s', s' = s ∖ stale_triples D l) (λ _ s', flaky = true ∧ s ∩ D ⊆ s' ∧ s' ⊆ s)).
  - unfold stale_triples. set_solver.
  - intros visited x rest u s' Hl ->.
    eapply wp_mono; [apply revoke_entry_spec; [done|]|].
    { eapply Forall_forall; [done|]. rewrite Hl, elem_of_app. right. by left. }
    intros [e|[]] s'.
    + intros [Hf Hs]. split; [done|]. destruct Hs as [->| ->]; unfold stale_triples; set_solver.
    + intros ->. unfold stale_triples. rewrite bind_app, list_to_set_app_L. set_solver.
Qed.
End apply.

Lemma tokens_no_comma l :
  Forall (λ t, token_ok t = true) l → Forall (λ t, no_byte "," t = true) l.
Proof. intros Hl. apply (Forall_impl _ _ _ Hl). by intros x (_ & Hx & _)%token_ok_spec. Qed.
Lemma chunk_entry_ok g s :
  grant_printable g → state_ok s → list_to_set (entry_triples (gp_entry g)) ⊆ s →
  entry_ok (gp_entry g) ∧ grant_ok g.
Proof.
  intros (Hn1 & Hn2 & Hc & Hr) Hs Hsub.
  destruct (gp_first g) as [[|t ts] p] eqn:Hf; [by destruct Hc|].
  assert (key_ok (gp_type g) (gp_bucket g)) as Hk.
  { apply (Hs (gp_type g, gp_bucket g, t)), Hsub, elem_of_list_to_set, list_elem_of_fmap_2.
    unfold gp_entry. simpl. rewrite Hf. by left. }
  pose proof Hk as (H1 & H2 & _). unfold name_ok in *. rewrite !andb_true_iff in *.
  split; [|unfold grant_ok, name_ok; rewrite !andb_true_iff, Hf; tauto].
  unfold entry_ok. simpl. split_and!; try tauto.
  rewrite Hf. apply Forall_app. split.
  - by destruct Hc as (_ & Ht%tokens_no_comma & _).
  - apply Forall_concat, Forall_fmap. eapply Forall_impl; [exact Hr|]. by intros [l q] (_ & Ht%tokens_no_comma & _).
Qed.

(** A successful print-grants is read back as the state. *)
Lemma printed_read user s out :
  state_ok s → printed user s out →
  Forall entry_ok (parseDedicatedGrants out) ∧
  list_to_set (parseDedicatedGrants out ≫= entry_triples) = s.
Proof.
  intros Hs (pre & border & hp & gs & rest & -> & Hpre & Hhp & Hgs & Hnl & Hst).
  assert (Forall (λ g, entry_ok (gp_entry g) ∧ grant_ok g) gs) as Hall.
  { apply Forall_forall. intros g Hg. eapply chunk_entry_ok; [by eapply Forall_forall in Hgs|done|].
    rewrite Hst. intros x. rewrite !elem_of_list_to_set, list_elem_of_bind. eauto. }
  apply Forall_and in Hall as [He Hg]. rewrite parseDedicatedGrants_print by done.
  split; [by apply Forall_fmap|]. rewrite Hst. f_equal.
  clear. induction gs as [|g gs IH]; [done|]. csimpl. by rewrite IH.
Qed.

Lemma wp_GetUserGrants P flaky ns user pod s :
  state_ok s → P s →
  wp (sec_env_at P flaky ns user pod) (GetUserGrants ns pod "riak" user)
    (λ r s', s' = s ∧ match r with
                      | Err _ => flaky = true
                      | Ok es => Forall entry_ok es ∧ list_to_set (es ≫= entry_triples) = s
                      end) s.
Proof.
  intros Hs HP. unfold GetUserGrants. apply wp_admin; [split; [done|by left]|].
  intros r s'. unfold sec_step. rewrite decide_True by done. intros [-> Hp]. apply wp_ret.
  split; [done|]. destruct (admin_reply _ r).2; [done|]. by apply (printed_read user).
Qed.

Lemma spec_grants_ok grants : Forall grant_unreserved grants → state_ok (spec_grants grants).
Proof.
  intros Hg [[ty b] tok]. unfold spec_grants. rewrite elem_of_list_to_set, list_elem_of_bind.
  intros (g & Hin & Hgin). revert Hin. unfold grant_triples, target_key. simpl.
  destruct (String.eqb _ "any"); [intros (? & [= -> -> ->] & _)%list_elem_of_fmap; done|].
  destruct (String.eqb _ "bucket"); [|by intros ?%not_elem_of_nil].
  eapply Forall_forall in Hg; [|exact Hgin]. unfold grant_unreserved in Hg.
  destruct (Fields (g_BucketName g)) as [|t [|u [|? ?]]]; simpl; try by intros ?%not_elem_of_nil.
  - inversion_clear Hg as [|? ? Hr _]. unfold reserved in Hr.
    destruct (String.eqb_spec t "any") as [->|]; [set_solver|].
    intros (? & [= -> -> ->] & _)%list_elem_of_fmap. unfold key_ok. set_solver.
  - inversion_clear Hg as [|? ? Hr _]. unfold reserved in Hr.
    destruct (String.eqb_spec t "any") as [->|]; [set_solver|].
    intros (? & [= -> -> ->] & _)%list_elem_of_fmap. unfold key_ok. set_solver.
Qed.

(** A resource that can be granted on. *)
Definition grant_known (g : Grant) : Prop := is_Some (target_key (grant_target g)).
#[global] Instance grant_known_dec g : Decision (grant_known g).
Proof. apply is_Some_dec. Defined.
(** The whole function. *)
Lemma GrantUserPermissions_wp (P : grants_state → Prop) (flaky : bool) (cluster : RiakCluster) (user pod : string)
    (grants : list Grant) (s : grants_state) :
  first_pod cluster = Some pod → state_ok s → Forall grant_unreserved grants →
  let D := spec_grants grants in P (s ∪ D) →
  wp (sec_env_at P flaky (cl_Namespace cluster) user pod) (GrantUserPermissions cluster user grants)
    (λ e s', s ∩ D ⊆ s' ∧ s' ⊆ s ∪ D ∧ (e = None → s' = D) ∧
             (flaky = false → Forall grant_known grants → e = None)) s.
Proof.
  intros Hpod Hs Hg D HP. pose proof (spec_grants_ok grants Hg) as HD. fold D in HD.
  unfold GrantUserPermissions. rewrite Hpod. cbn zeta.
  pose proof (applied_all grants) as Hall. fold D in Hall.
  destruct (group_grants_spec grants) as (H1 & H2 & H3).
  destruct (group_grants grants) as [order perms]. cbn [fst snd] in *.
  eapply wp_bind_2.
  { apply apply_targets_spec. intros t (g & Hin & Ht)%H1 Hn.
    assert (g_Permission g ∈ default [] (perms !! t)) as Hp by (apply H3; eauto).
    rewrite Hn in Hp. by apply not_elem_of_nil in Hp. }
  rewrite Hall. intros [e|desired] s1.
  { intros (He & ? & ?). apply wp_ret. split_and!; [set_solver..|done|]. intros Hf Hk.
    destruct He as [He|(t & (g & Hin & <-)%H1 & Hn)]; [congruence|].
    eapply Forall_forall in Hk; [|exact Hin]. unfold grant_known in Hk. rewrite Hn in Hk. by destruct Hk. }
  intros [-> Hr]. eapply wp_bind_2.
  { apply wp_GetUserGrants; [|done]. apply set_Forall_union; done. }
  intros [es|e] s2 [-> Hes]; [|apply wp_ret; split_and!; [set_solver..|done|congruence]].
  destruct Hes as [Hok Hset]. eapply wp_bind_2; [by apply revoke_entries_spec|].
  intros [e|u] s3 Hs3; apply wp_ret; [split_and!; [set_solver..|done|destruct Hs3; congruence]|].
  unfold stale_triples in Hs3. rewrite Hset in Hs3.
  assert (s3 = D) as ->; [|split_and!; [set_solver..|done|done]].
  subst s3. apply set_eq. intros x. rewrite !elem_of_difference, elem_of_union.
  destruct (decide (x ∈ D)); tauto.
Qed.

(** ** Every permitted command has a reply *)
(** What a print-grants table can show: words without bars and, for permissions, commas. *)
Definition triple_printable (x : triple) : Prop :=
  name_ok x.1.1 = true ∧ name_ok x.1.2 = true ∧ token_ok x.2 = true.
Definition printable_state (s : grants_state) : Prop := set_Forall triple_printable s.
#[global] Instance printable_state_dec s : Decision (printable_state s).
Proof. unfold printable_state, triple_printable. apply _. Defined.
Definition sim_pads : pads := mkPads " " " " " " " " " " " ".
Definition sim_grant (x : triple) : grant_print := mkGrantPrint x.1.1 x.1.2 ([x.2], sim_pads) [].
Definition sim_table (user : string) (s : grants_state) : string :=
  Join (print_grants ["Inherited permissions (user/" +:+ user +:+ ")"] user "----" sim_pads
          (sim_grant <$> elements s) []) (sep_of nl).
Lemma sim_grant_ok x : triple_printable x → grant_printable (sim_grant x).
Proof. intros (H1 & H2 & H3). split_and!; [done..| |by constructor]. split; [done|]. split; [by constructor|done]. Qed.
Lemma sim_grant_line x : triple_printable x →
  Forall (λ l, no_byte nl l = true ∧ tame l = true) (print_grant (sim_grant x)).
Proof.
  intros (H1%name_cell & H2%name_cell & H3). constructor; [|constructor]. split; [|done].
  assert (Forall (λ t, token_ok t = true) [x.2]) as H4%(tokens_cell _ false) by by constructor.
  unfold cell_ok in *. rewrite !andb_true_iff in *. destruct H1 as [_ H1], H2 as [_ H2], H4 as [_ H4].
  change (no_byte nl (print_cells sim_pads x.1.1 x.1.2 (print_tokens [x.2] false)) = true).
  unfold print_cells, no_byte in *. by rewrite !Str.all_app, H1, H2, H4.
Qed.
Lemma sim_table_printed user s :
  no_byte nl user = true → printable_state s →
  printed user s (sim_table user s) ∧ riakAdminFailed (sim_table user s) = false.
Proof.
  intros Hu Hs. unfold sim_table. set (gs := sim_grant <$> elements s).
  set (lines := print_grants _ _ _ _ _ _).
  assert (Forall (λ x, triple_printable x) (elements s)) as Hel.
  { apply Forall_forall. intros x Hx%elem_of_elements. by apply Hs. }
  assert (Forall (λ l, no_byte nl l = true ∧ tame l = true) lines) as Hl.
  { unfold lines, print_grants. apply Forall_app. split.
    { repeat constructor. unfold no_byte in *. by rewrite !Str.all_app, Hu. }
    repeat (apply Forall_cons; split; [split; [unfold no_byte in *; by rewrite ?Str.all_app, ?Hu|done]|]).
    apply Forall_app. split.
    - apply Forall_bind, Forall_fmap, (Forall_impl _ _ _ Hel). intros x Hx. by apply sim_grant_line.
    - repeat (apply Forall_cons; split; [split; [unfold no_byte in *; by rewrite ?Str.all_app, ?Hu|done]|]).
      constructor. }
  apply Forall_and in Hl as [Hl Ht]. split.
  - exists ["Inherited permissions (user/" +:+ user +:+ ")"], "----", sim_pads, gs, [].
    split; [done|]. split; [by repeat constructor|]. split; [done|]. split; [|split; [exact Hl|]].
    + apply Forall_fmap, (Forall_impl _ _ _ Hel). intros x. apply sim_grant_ok.
    + apply set_eq. intros x. rewrite elem_of_list_to_set, list_elem_of_bind. unfold gs. split.
      * intros Hx. exists (sim_grant x). split; [|by apply list_elem_of_fmap_2, elem_of_elements].
        cbn. destruct x as [[? ?] ?]. by left.
      * intros (g & Hg & (y & -> & Hy%elem_of_elements)%list_elem_of_fmap). cbn in Hg.
        apply list_elem_of_singleton in Hg as ->. by destruct y as [[? ?] ?].
  - unfold riakAdminFailed. rewrite Split_Join by done. by apply loop_tame.
Qed.
Lemma sec_total user pod s p args :
  no_byte nl user = true → sec_ok_at printable_state user pod s p args →
  ∃ r s', sec_step false user s p args r s'.
Proof.
  intros Hu (_ & Hargs). unfold sec_step. destruct (decide (args = print_args user)) as [->|Hne].
  - destruct Hargs as [[_ Hs]|(op & toks & tgt & kw & He & Hop)].
    2: { exfalso. by destruct Hop as [[-> _]|[-> _]]. }
    destruct (sim_table_printed user s Hu Hs) as [Hp Hf]. exists (Ok (sim_table user s)), s.
    cbn [admin_reply]. rewrite Hf. by split.
  - destruct (sec_effect user args s) as [s1|]; [by exists (Ok ""), s1|]. by exists (Ok "error"), s.
Qed.

(** ** Properties *)

(** C3: when [GrantUserPermissions] reports success, the user's grants in Riak are exactly those
    of the spec: missing ones are added and every other permission is revoked. Two conditions
    limit this to names that print-grants and the command line can tell from keywords: no grant
    held before is on a bucket type named "any" or "type", or on the type "*" with a bucket
    ([state_ok]; a grant on a type "type" is taken for a header and would stay), and no grant of
    the spec names "*", "any" or "type" ([grant_unreserved]). Whatever fails on the way, a
    permission the spec lists is never taken away and none outside the spec is ever added; only
    grant, revoke and print-grants of this user are issued, on the cluster's first member. When
    the commands are carried out ([flaky] is false) and every grant has a target
    ([grant_known]), it succeeds. *)
Theorem GrantUserPermissions_refines (flaky : bool) (cluster : RiakCluster) (user pod : string)
    (grants : list Grant) (s : grants_state) :
  first_pod cluster = Some pod → state_ok s → Forall grant_unreserved grants →
  let D := spec_grants grants in
  wp (sec_env flaky (cl_Namespace cluster) user pod) (GrantUserPermissions cluster user grants)
    (λ e s', s ∩ D ⊆ s' ∧ s' ⊆ s ∪ D ∧ (e = None → s' = D) ∧
             (flaky = false → Forall grant_known grants → e = None)) s.
Proof. intros. by apply GrantUserPermissions_wp. Qed.

(** *** A Riak security subsystem to run the code against *)
Definition sec_sim (user : string) (a : api) (s : grants_state) : reply a * grants_state :=
  match a as a' return reply a' * grants_state with
  | ARun _ full =>
      let args := exec_args full in
      if decide (args = print_args user) then (Ok (sim_table user s), s)
      else match sec_effect user args s with
           | Some s' => (Ok "", s')
           | None => (Ok "error", s)
           end
  | AGet _ _ _ => (Err (Errorf "unavailable"), s)
  | AList _ _ _ => (Err (Errorf "unavailable"), s)
  | ACreate _ _ => (Some (Errorf "unavailable"), s)
  | AUpdate _ _ => (Err (Errorf "unavailable"), s)
  | AStatusUpdate _ _ => (Err (Errorf "unavailable"), s)
  | APatch _ _ _ => (Err (Errorf "unavailable"), s)
  | ADelete _ _ => (Some (Errorf "unavailable"), s)
  | ACreateOrUpdate _ _ _ => (Some (Errorf "unavailable"), s)
  | ANow => (0%Z, s)
  end.

Definition sample_grants : list Grant :=
  [mkGrant "bucket" "t b" "read"; mkGrant "bucket" "t b" "write"; mkGrant "any" "" "list"].
Definition stale_state : grants_state :=
  {[("t", "b", "riak_kv.delete"); ("t", "b", "riak_kv.get"); ("old", "*", "riak_kv.get")]}.

Lemma GrantUserPermissions_refines_witness :
  let c := cl_with_status sample_cluster (sample_status sample_pods) in
  run (sec_sim "alice") (GrantUserPermissions c "alice" sample_grants) stale_state =
    (None, spec_grants sample_grants) ∧
  wp (sec_env false "db" "alice" "c-0") (GrantUserPermissions c "alice" sample_grants)
    (λ e s', e = None ∧ s' = spec_grants sample_grants) stale_state.
Proof.
  intros c. split; [by apply (bool_decide_unpack _); vm_compute|].
  eapply wp_mono; [apply (GrantUserPermissions_refines false c "alice" "c-0" sample_grants stale_state)|].
  - done.
  - by apply (bool_decide_unpack _); vm_compute.
  - by apply (bool_decide_unpack _); vm_compute.
  - intros e s' (_ & _ & H1 & H2). assert (e = None) as He; [|by split; [|apply H1]].
    apply H2; [done|]. by apply (bool_decide_unpack _); vm_compute.
Defined.
