(* ===== verification/BucketTypes.v ===== *)
(** * Bucket types: [CreateBucket] leaves the type active with its properties

    The abstract state of one bucket type is [None] (unknown to Riak) or whether it is
    active and its explicit properties. [bt_env] is the documented life cycle behind
    [riak-admin bucket-type create | activate | update]; commands may fail at any time
    when [flaky], and only say that the work is done already otherwise. The errors
    [CreateBucket] interprets are only given when they are true. *)
From S2P Require Import Prelude GoLib Effects Types Samples KubeTypes Kube Executor Manager RiakEnv.

(** [json.Marshal] writes different property maps differently, and writes back what
    [json.Unmarshal] read. *)
Class GoJsonLaws (J : GoJson) : Prop := {
  json_marshal_inj (p q : gmap string jvalue) j :
    json_MarshalProps p = Ok j → json_MarshalProps q = Ok j → p = q;
  json_marshal_total (m : gmap string string) : ∃ j, json_MarshalProps (native_value <$> m) = Ok j
}.

Section bucket.
Context `{J : GoJson} `{!GoJsonLaws J}.
Abbreviation props_map := (gmap string jvalue).
Abbreviation bt_state := (option (bool * props_map)).

Definition bt_active (s : bt_state) : Prop := ∃ p, s = Some (true, p).
Definition says (e : error) (w : string) : Prop := Contains (err_msg e) w = true.

Definition says_exists (e : error) : Prop := says e "already_active" ∨ says e "default_type".

(** [bt_cmd flaky typ args s err s']: command [args] on type [typ] took [s] to [s'] and
    reported [err]. *)
Inductive bt_cmd (flaky : bool) (typ : string) : list string → bt_state → option error → bt_state → Prop :=
| bt_create p j s :
    json_MarshalProps p = Ok j → ¬ bt_active s →
    bt_cmd flaky typ ["bucket-type"; "create"; typ; j] s None (Some (false, p))
| bt_create_fail j s e :
    (says_exists e → bt_active s) → flaky = true ∨ says_exists e →
    bt_cmd flaky typ ["bucket-type"; "create"; typ; j] s (Some e) s
| bt_activate a p :
    bt_cmd flaky typ ["bucket-type"; "activate"; typ] (Some (a, p)) None (Some (true, p))
| bt_activate_fail a p e :
    flaky = true ∨ says e "already" →
    bt_cmd flaky typ ["bucket-type"; "activate"; typ] (Some (a, p)) (Some e)
      (if Contains (err_msg e) "already" then Some (true, p) else Some (a, p))
| bt_update p q j :
    json_MarshalProps p = Ok j →
    bt_cmd flaky typ ["bucket-type"; "update"; typ; j] (Some (true, q)) None (Some (true, p ∪ q))
| bt_update_fail q j e :
    flaky = true →
    bt_cmd flaky typ ["bucket-type"; "update"; typ; j] (Some (true, q)) (Some e) (Some (true, q)).

(** Create is always possible, activate needs a created type, update an active one; the
    properties are sent encoded. *)
Definition encoded (j : string) : Prop := ∃ p : props_map, json_MarshalProps p = Ok j.
Definition bt_ok (typ pod : string) (s : bt_state) (p : string) (args : list string) : Prop :=
  p = pod ∧
  ((∃ j, args = ["bucket-type"; "create"; typ; j] ∧ encoded j) ∨
   (args = ["bucket-type"; "activate"; typ] ∧ is_Some s) ∨
   (∃ j, args = ["bucket-type"; "update"; typ; j] ∧ encoded j ∧ bt_active s)).
Definition bt_env (flaky : bool) (ns typ pod : string) : Env reply bt_state :=
  riak_env ns (bt_ok typ pod) (λ s _ args r s', bt_cmd flaky typ args s (admin_reply args r).2 s').

Lemma bt_cmd_total typ pod s p args :
  bt_ok typ pod s p args → ∃ r s', bt_cmd false typ args s (admin_reply args r).2 s'.
Proof.
  intros (_ & [(j & -> & q & Hj)|[(-> & [[a q] ->])|(j & -> & (q & Hj) & q' & ->)]]).
  - destruct s as [[[] q']|].
    2,3: exists (Ok ""); eexists; apply (bt_create _ _ q); [done|by intros [? [=]]].
    exists (Err (Errorf "already_active")). eexists. apply bt_create_fail; [by eexists|by right; left].
  - exists (Ok ""). eexists. apply bt_activate.
  - exists (Ok ""). eexists. by apply bt_update.
Qed.

(** A type that is active stays so, with all it held beside [properties]. *)
Definition type_kept (properties : gmap string string) (s s' : bt_state) : Prop :=
  ∀ q, s = Some (true, q) → ∃ p, s' = Some (true, p) ∧ ∀ k, properties !! k = None → p !! k = q !! k.
Lemma type_kept_refl properties s : type_kept properties s s.
Proof. intros q ->. by exists q. Qed.
Lemma type_kept_inactive properties a s' : (∀ q, a ≠ Some (true, q)) → type_kept properties a s'.
Proof. intros Ha q Hq. by destruct (Ha q). Qed.
Lemma type_kept_active properties s s' : type_kept properties s s' → bt_active s → bt_active s'.
Proof. intros Hk [q Hq]. destruct (Hk q Hq) as (p & Hp & _). by exists p. Qed.
Lemma type_kept_update (properties : gmap string string) q :
  type_kept properties (Some (true, q)) (Some (true, (native_value <$> properties) ∪ q)).
Proof.
  intros q' [= <-]. eexists. split; [done|]. intros k Hk. apply lookup_union_r. by rewrite lookup_fmap, Hk.
Qed.

Lemma CreateBucket_wp flaky ns pod typ (properties : gmap string string) s :
  wp (bt_env flaky ns typ pod) (CreateBucket ns pod "riak" typ properties)
    (λ e s', type_kept properties s s' ∧
             (e = None → ∃ p, s' = Some (true, p) ∧ native_value <$> properties ⊆ p) ∧
             (flaky = false → e = None)) s.
Proof.
  unfold CreateBucket. cbn zeta. set (props := native_value <$> properties).
  destruct (json_marshal_total properties) as [j Hj]. fold props in Hj. rewrite Hj.
  apply wp_admin; [split; [done|]; left; exists j; split; [done|by eexists]|].
  intros r s1 Hs1. inversion Hs1 as [p j' s' Hp Hna He Hr|j' s' e Hsay Hwhy He Hr| | | |]; subst.
  - assert (∀ t, type_kept properties s t) as Hkept.
    { intros t. apply type_kept_inactive. intros q ->. apply Hna. by exists q. }
    assert (p = props) as -> by by eapply json_marshal_inj.
    apply wp_admin; [split; [done|]; right; left; done|].
    intros r2 s2 Hs2. inversion Hs2 as [| |a q Hq|a q e Hwhy Hq| |]; subst; apply wp_ret; (split; [done|]).
    + split; [by eexists|done].
    + destruct (Contains (err_msg e) "already") eqn:Hc; [split; [by eexists|done]|].
      split; [done|]. intros ->. destruct Hwhy as [|Hwhy]; [done|]. unfold says in Hwhy. congruence.
  - destruct (Contains (err_msg e) "already_active" || Contains (err_msg e) "default_type") eqn:Hc.
    2: { apply wp_ret. split; [apply type_kept_refl|]. split; [done|]. intros ->.
    destruct Hwhy as [|[Hw|Hw]]; [done|..];
         apply orb_false_iff in Hc; unfold says in Hw; destruct Hc; congruence. }
    assert (bt_active s1) as [q ->] by (apply Hsay; unfold says_exists, says; by apply orb_true_iff).
    case_bool_decide as Hempty.
    { apply wp_ret. split; [apply type_kept_refl|]. split; [|done]. intros _. exists q. split; [done|].
      rewrite Hempty. apply map_empty_subseteq. }
    apply wp_admin_fmap; [split; [done|]; right; right; exists j; split; [done|]; split; by eexists|].
    intros r2 s2 Hs2. inversion Hs2 as [| | | |p q' j' Hp|q' j' e2 Hf]; subst.
    + assert (p = props) as -> by by eapply json_marshal_inj. split; [apply type_kept_update|].
      split; [|done]. intros _. eexists. split; [done|]. apply map_union_subseteq_l.
    + split; [apply type_kept_refl|]. by split.
Qed.
End bucket.
Arguments bt_env {J} flaky ns typ pod.

(** A [GoJson] for evaluation: numbers and booleans decode, a map is encoded injectively. *)
Definition demo_json : GoJson := {|
  jvalue := string;
  json_Unmarshal := λ s, if Str.all is_digit s && negb (String.eqb s "") then Some s else None;
  json_String := λ s, dquote +:+ s +:+ dquote;
  json_MarshalProps := λ m, Ok (pretty (encode m))
|}.
#[global] Instance demo_json_laws : GoJsonLaws demo_json.
Proof.
  split; [|intros m; by eexists]. intros p q j. cbn. intros [= <-] [= He]. by apply (inj encode), (inj pretty).
Qed.

(** ** Properties *)

(** C17: when [CreateBucketType] reports success the bucket type is active in Riak and holds
    every property of the spec with its native JSON type, whether the type was unknown,
    created but inactive, or already active; activate is only issued for a created type,
    update only for an active one, and an active type stays active and keeps, even on a
    failure, every property that the spec does not mention. When the commands are carried out
    ([flaky] is false) it succeeds. *)
Theorem CreateBucketType_active (J : GoJson) (HJ : GoJsonLaws J) (flaky : bool) (cluster : RiakCluster)
    (pod typ : string) (properties : gmap string string) (s : option (bool * gmap string jvalue)) :
  first_pod cluster = Some pod →
  wp (bt_env flaky (cl_Namespace cluster) typ pod) (CreateBucketType cluster typ properties)
    (λ e s', type_kept properties s s' ∧
             (e = None → ∃ p, s' = Some (true, p) ∧ native_value <$> properties ⊆ p) ∧
             (flaky = false → e = None)) s.
Proof. intros Hpod. unfold CreateBucketType. rewrite Hpod. apply CreateBucket_wp. Qed.

Lemma CreateBucketType_active_witness :
  let c := cl_with_status sample_cluster (sample_status sample_pods) in
  wp (@bt_env demo_json false "db" "t" "c-0") (@CreateBucketType demo_json c "t" {["n_val" := "3"]})
    (λ e s', e = None ∧ ∃ p, s' = Some (true, p) ∧ @native_value demo_json <$> {["n_val" := "3"]} ⊆ p)
    None.
Proof.
  intros c. eapply wp_mono; [by apply (CreateBucketType_active demo_json demo_json_laws false c "c-0")|].
  intros e s' (_ & H1 & H2). split; [by apply H2|by apply H1, H2].
Defined.
