(* ===== verification/Rollout.v ===== *)
(** * Rolling restarts ([internal/controller/rollout.go])

    The operator holds the StatefulSet's rolling-update partition and lowers it by one
    node at a time. [int32] arithmetic is wrapped where the source computes it. *)
From S2P Require Import Prelude GoLib Effects Types KubeTypes Kube KubeLib Status Executor.

Definition conditionUpdateInProgress : string := "UpdateInProgress".
Definition conditionRolloutBlocked : string := "RolloutBlocked".
Definition conditionRolloutStalled : string := "RolloutStalled".
Definition statefulSetRevisionLabel : string := "controller-revision-hash".
Definition defaultRolloutStall : Z := 30 * minute.

Record rolloutPod := mkRolloutPod {
  rp_ordinal : Z; rp_name : string; rp_revision : string; rp_ready : bool }.

Definition rolloutInProgress (sts : StatefulSet) : bool :=
  negb (String.eqb (sst_UpdateRevision (sts_Status sts)) "") &&
  negb (String.eqb (sst_UpdateRevision (sts_Status sts)) (sst_CurrentRevision (sts_Status sts))).

Definition livePartition (sts : StatefulSet) : Z := default 0%Z (ss_Partition (sts_Spec sts)).

Definition stsPartition (existing : StatefulSet) (replicas : Z) : Z :=
  if String.eqb (om_UID (sts_Meta existing)) "" then 0
  else if rolloutInProgress existing then Z.min (livePartition existing) replicas
  else replicas.

(** The loop over the ordinals [partition .. replicas - 1]. *)
Fixpoint next_loop (partition : Z) (updateRevision : string) (byOrdinal : gmap Z rolloutPod)
    (ords : list Z) : Z * string :=
  match ords with
  | [] => (wrap32 (partition - 1), "")
  | ord :: ords' =>
      match byOrdinal !! ord with
      | None => (partition, "pod " +:+ Itoa ord +:+ " is not created yet")
      | Some p =>
          if negb (String.eqb (rp_revision p) updateRevision)
          then (partition, "pod " +:+ rp_name p +:+ " is not yet on the new revision")
          else if negb (rp_ready p) then (partition, "pod " +:+ rp_name p +:+ " is not Ready")
          else next_loop partition updateRevision byOrdinal ords'
      end
  end.
Definition by_ordinal (pods : list rolloutPod) : gmap Z rolloutPod :=
  foldl (λ m p, <[rp_ordinal p := p]> m) ∅ pods.
Definition rolloutNext (partition replicas : Z) (updateRevision : string) (pods : list rolloutPod)
    : Z * string :=
  if (partition <=? 0)%Z then (0%Z, "")
  else next_loop partition updateRevision (by_ordinal pods) (seqZ partition (replicas - partition)).

Definition podOrdinal (name : string) : option Z :=
  match after_last name "-" with
  | None => None
  | Some s =>
      match ParseInt32 s with
      | Some n => if (n <? 0)%Z then None else Some n
      | None => None
      end
  end.
Definition podOrdinalOrMax (name : string) : Z := default int32_max (podOrdinal name).

Definition rollout_pod (pod : Pod) : option rolloutPod :=
  match podOrdinal (pod_Name pod), om_DeletionTimestamp (pod_Meta pod) with
  | Some ord, None =>
      Some (mkRolloutPod ord (pod_Name pod)
              (default "" (om_Labels (pod_Meta pod) !! statefulSetRevisionLabel)) (podIsReady pod))
  | _, _ => None
  end.
Definition cluster_labels (cluster : RiakCluster) : gmap string string :=
  {["app" := "riak"; "cluster" := cl_Name cluster]}.
Definition rolloutPods (cluster : RiakCluster) : M (res (list rolloutPod)) :=
  r ← List_ KPod (cl_Namespace cluster) (cluster_labels cluster);
  mret match r with
       | Err e => Err e
       | Ok items => Ok (omap (M:=list) rollout_pod items)
       end.

(** ** Is the cluster settled? *)
(** The loop over the pods: a reason to wait, or the pod to ask. *)
Fixpoint settled_loop (pods : list rolloutPod) (probe : string) : string + string :=
  match pods with
  | [] => inr probe
  | p :: pods' =>
      if negb (rp_ready p) then inl ("pod " +:+ rp_name p +:+ " is not Ready")
      else settled_loop pods'
             (if String.eqb probe "" || (rp_ordinal p <? podOrdinalOrMax probe)%Z
              then rp_name p else probe)
  end.
Definition count_valid (members : list ClusterMember) : Z :=
  foldl (λ v m, if String.eqb (cmb_Status m) "valid" then wrap32 (v + 1) else v) 0%Z members.
Definition wait_for_transfers (cluster : RiakCluster) : bool :=
  match cs_Rollout (cl_Spec cluster) with
  | None => true
  | Some ro => default true (ro_WaitForTransfers ro)
  end.
Definition len32 {A} (l : list A) : Z := wrap32 (Z.of_nat (length l)).

Definition clusterSettled (cluster : RiakCluster) (pods : list rolloutPod) : M (bool * string) :=
  let size := cl_Size cluster in
  if (len32 pods <? size)%Z
  then mret (false, Itoa (Z.of_nat (length pods)) +:+ " of " +:+ Itoa size +:+ " pods exist")
  else
  match settled_loop pods "" with
  | inl why => mret (false, why)
  | inr probe =>
      if (size =? 1)%Z || String.eqb probe "" then mret (true, "")
      else
        r ← MemberStatus (cl_Namespace cluster) probe "riak";
        match r with
        | Err e => mret (false, "member-status on " +:+ probe +:+ " failed: " +:+ err_msg e)
        | Ok members =>
            let valid := count_valid members in
            if negb (valid =? size)%Z || negb (len32 members =? size)%Z
            then mret (false, Itoa valid +:+ " of " +:+ Itoa size +:+ " nodes are valid ring members")
            else if wait_for_transfers cluster then
              t ← TransfersIdle (cl_Namespace cluster) probe "riak";
              mret match (t : res (bool * string)) with
                   | Err e => (false, "riak-admin transfers on " +:+ probe +:+ " failed: " +:+ err_msg e)
                   | Ok (idle, detail) =>
                       if idle then (true, "")
                       else (false, "waiting for handoff and ownership transfers to finish: " +:+ detail)
                   end
            else mret (true, "")
        end
  end.

(** ** Conditions *)
Section conditions.
Context `{L : KubeLib}.

(** [setCondition(&cluster.Status.Conditions, ...)] *)
Definition setClusterCondition (cluster : RiakCluster) (condType : string) (ok : bool)
    (reason message : string) : M RiakCluster :=
  now ← Now;
  mret (cl_set_Conditions cluster
          (setCondition now (cst_Conditions (cl_Status cluster)) condType ok
             (cl_Generation cluster) reason message).1).
Definition removeClusterCondition (cluster : RiakCluster) (condType : string) : RiakCluster :=
  cl_set_Conditions cluster (RemoveStatusCondition (cst_Conditions (cl_Status cluster)) condType).

Definition stall_timeout (cluster : RiakCluster) : Z :=
  default defaultRolloutStall (cs_Rollout (cl_Spec cluster) ≫= ro_StallTimeout).

Definition markBlocked (cluster : RiakCluster) (reason message : string) (canStall : bool)
    : M RiakCluster :=
  cluster ← setClusterCondition cluster conditionUpdateInProgress true "Waiting" message;
  cluster ← setClusterCondition cluster conditionRolloutBlocked true reason message;
  stalled ← (if canStall then
               match FindStatusCondition (cst_Conditions (cl_Status cluster)) conditionRolloutBlocked with
               | Some c =>
                   now ← Now;
                   mret (stall_timeout cluster <? now - cd_LastTransitionTime c)%Z
               | None => mret false
               end
             else mret false);
  if stalled : bool
  then setClusterCondition cluster conditionRolloutStalled true "StallTimeout"
         ("the rollout has been waiting longer than spec.rollout.stallTimeout: " +:+ message)
  else setClusterCondition cluster conditionRolloutStalled false "Progressing" "".

Definition clearBlocked (cluster : RiakCluster) : RiakCluster :=
  removeClusterCondition (removeClusterCondition cluster conditionRolloutBlocked)
    conditionRolloutStalled.
Definition clearRolloutConditions (cluster : RiakCluster) : RiakCluster :=
  clearBlocked (removeClusterCondition cluster conditionUpdateInProgress).

(** ** One step of the rollout *)
Definition rollout_paused (cluster : RiakCluster) : bool :=
  match cs_Rollout (cl_Spec cluster) with Some ro => ro_Paused ro | None => false end.
Definition set_partition (sts : StatefulSet) (p : Z) : StatefulSet :=
  mkStatefulSet (sts_Meta sts) (ss_with_partition (sts_Spec sts) p) (sts_Status sts).

(** The updated cluster object, and the error. *)
Definition reconcileRollout (cluster : RiakCluster) : M (RiakCluster * option error) :=
  r ← Get KStatefulSet (mkKey (cl_Namespace cluster) (cl_Name cluster));
  match r with
  | Err e => mret (cluster, IgnoreNotFound (Some e))
  | Ok sts =>
      if negb (rolloutInProgress sts) then mret (clearRolloutConditions cluster, None)
      else
      let replicas := cl_Size cluster in
      let partition := livePartition sts in
      ps ← rolloutPods cluster;
      match ps with
      | Err e => mret (cluster, Some e)
      | Ok pods =>
          let '(next, blocked) :=
            rolloutNext partition replicas (sst_UpdateRevision (sts_Status sts)) pods in
          if (partition <=? 0)%Z then
            cluster ← setClusterCondition cluster conditionUpdateInProgress true "Finishing"
                        "the last node is restarting on the new revision";
            mret (clearBlocked cluster, None)
          else if rollout_paused cluster then
            cluster ← markBlocked cluster "Paused" "the rollout is paused (spec.rollout.paused)" false;
            mret (cluster, None)
          else
            blocked ← (if String.eqb blocked "" then
                         s ← clusterSettled cluster pods;
                         mret (if (s : bool * string).1 then blocked else s.2)
                       else mret blocked);
            if negb (String.eqb blocked "") then
              cluster ← markBlocked cluster "WaitingForCluster" blocked true;
              mret (cluster, None)
            else
              p ← Patch KStatefulSet sts (set_partition sts next);
              match p with
              | Err e => mret (cluster, Some e)
              | Ok _ =>
                  cluster ← setClusterCondition cluster conditionUpdateInProgress true "Restarting"
                    ("restarting " +:+ cl_Name cluster +:+ "-" +:+ Itoa next +:+ " (" +:+
                     Itoa (wrap32 (next + 1)) +:+ " of " +:+ Itoa replicas +:+
                     " nodes still on the old revision)");
                  mret (clearBlocked cluster, None)
              end
      end
  end.

(** ** The disruption budget *)
Definition pdb_enabled (cluster : RiakCluster) : bool :=
  default true (cs_PodDisruptionBudget (cl_Spec cluster) ≫= pdbc_Enabled).
Definition pdb_mutate (cluster : RiakCluster) (pdb : PodDisruptionBudget) : res PodDisruptionBudget :=
  m ← SetControllerReference "RiakCluster" (cl_Meta cluster) (pdb_Meta pdb);
  mret (mkPDB m (Some (FromInt 1)) (Some (cluster_labels cluster))).
Definition reconcilePodDisruptionBudget (cluster : RiakCluster) : M (option error) :=
  let key := mkKey (cl_Namespace cluster) (cl_Name cluster) in
  if negb (pdb_enabled cluster) then
    e ← Delete KPDB key;
    mret (IgnoreNotFound e)
  else CreateOrUpdate KPDB key (pdb_mutate cluster).
End conditions.
