(* ===== verification/RolloutFacts.v ===== *)
(** * Rolling restarts: safety of a step, the stall clock and the rollout as a system *)
From S2P Require Import Prelude GoLib Effects Types Samples KubeTypes Kube KubeLib Status Executor ExecutorFacts RiakEnv Rollout.

(** ** Pod names *)
Lemma podOrdinal_name name n :
  (0 ≤ n)%Z → in_int32 n → podOrdinal (name +:+ "-" +:+ Itoa n) = Some n.
Proof.
  intros Hn Hr. unfold podOrdinal. change ("-" +:+ Itoa n) with (String "-" (Itoa n)).
  rewrite after_last_app by (apply digits_no_byte; [done|by apply Itoa_digits]).
  rewrite ParseInt32_Itoa by done. by rewrite (proj2 (Z.ltb_ge _ _)).
Qed.
Lemma podOrdinal_range name n : podOrdinal name = Some n → (0 ≤ n ≤ int32_max)%Z.
Proof.
  unfold podOrdinal. destruct (after_last name "-") as [s|]; [|done].
  destruct (ParseInt32 s) as [m|] eqn:Hm; [|done]. apply ParseInt32_range in Hm.
  destruct (Z.ltb_spec m 0); [done|]. intros [= <-]. unfold in_int32 in Hm. lia.
Qed.

(** ** The next partition *)
Definition node_updated (rev : string) (m : gmap Z rolloutPod) (ord : Z) : Prop :=
  ∃ p, m !! ord = Some p ∧ rp_revision p = rev ∧ rp_ready p = true.

Lemma next_loop_spec part rev m ords :
  match next_loop part rev m ords with
  | (n, "") => n = wrap32 (part - 1) ∧ ∀ ord, ord ∈ ords → node_updated rev m ord
  | (n, _) => n = part ∧ ¬ ∀ ord, ord ∈ ords → node_updated rev m ord
  end.
Proof.
  induction ords as [|o ords IH]; cbn [next_loop].
  { split; [done|]. by intros ord ?%not_elem_of_nil. }
  assert (¬ node_updated rev m o → ¬ ∀ ord, ord ∈ o :: ords → node_updated rev m ord) as Hno.
  { intros Hn Hall. apply Hn, Hall. by left. }
  destruct (m !! o) as [p|] eqn:Hp.
  2: { split; [done|]. apply Hno. intros (p & Hp' & _). congruence. }
  destruct (String.eqb_spec (rp_revision p) rev) as [Hr|Hr]; simpl.
  2: { split; [done|]. apply Hno. intros (p' & Hp' & ? & _). congruence. }
  destruct (rp_ready p) eqn:Hrdy; simpl.
  2: { split; [done|]. apply Hno. intros (p' & Hp' & _ & ?). congruence. }
  destruct (next_loop part rev m ords) as [n [|c s]]; destruct IH as [-> IH]; (split; [done|]).
  - intros ord [->|Hin]%elem_of_cons; [by exists p|]. by apply IH.
  - intros Hall. apply IH. intros ord Hin. apply Hall. by right.
Qed.

Definition all_updated (part replicas : Z) (rev : string) (pods : list rolloutPod) : Prop :=
  ∀ ord, (part ≤ ord < replicas)%Z → node_updated rev (by_ordinal pods) ord.

Lemma rolloutNext_spec part replicas rev pods n msg :
  rolloutNext part replicas rev pods = (n, msg) → (0 < part)%Z →
  (msg = "" → n = wrap32 (part - 1) ∧ all_updated part replicas rev pods) ∧
  (msg ≠ "" → n = part ∧ ¬ all_updated part replicas rev pods).
Proof.
  intros H Hp. unfold rolloutNext in H. rewrite (proj2 (Z.leb_gt _ _)) in H by done.
  pose proof (next_loop_spec part rev (by_ordinal pods) (seqZ part (replicas - part))) as Hs.
  rewrite H in Hs. unfold all_updated.
  assert (∀ ord, ord ∈ seqZ part (replicas - part) ↔ (part ≤ ord < replicas)%Z) as Hr.
  { intros ord. rewrite elem_of_seqZ. lia. }
  destruct msg; setoid_rewrite Hr in Hs; by split.
Qed.

(** ** The settled check *)
Lemma settled_loop_ready pods probe r :
  settled_loop pods probe = inr r → Forall (λ p, rp_ready p = true) pods.
Proof.
  revert probe. induction pods as [|p pods IH]; intros probe; cbn [settled_loop]; [done|].
  destruct (rp_ready p) eqn:Hr; simpl; [|done]. intros H. constructor; [done|by eapply IH].
Qed.
Lemma wrap32_le z : (0 ≤ z)%Z → (wrap32 z ≤ z)%Z.
Proof.
  intros Hz. unfold wrap32.
  pose proof (Z.mod_le (z + 2 ^ 31) (2 ^ 32)). lia.
Qed.
Lemma count_valid_spec members :
  (Z.of_nat (length members) ≤ int32_max)%Z →
  count_valid members = Z.of_nat (length (filter (λ m, cmb_Status m = "valid") members)).
Proof.
  unfold count_valid. induction members as [|m ms IH] using rev_ind; [done|].
  rewrite length_app, foldl_snoc, filter_app, length_app. cbn [length]. intros Hl.
  rewrite IH by lia. destruct (String.eqb_spec (cmb_Status m) "valid").
  - rewrite filter_cons_True by done. rewrite filter_nil. cbn [length].
    rewrite wrap32_id; [lia|]. pose proof (length_filter (λ m, cmb_Status m = "valid") ms).
    unfold in_int32, int32_max, int32_min in *. lia.
  - rewrite filter_cons_False by done. rewrite filter_nil. cbn [length]. lia.
Qed.

(** Exactly [size] members, all of them valid. *)
Definition ring_complete (size : Z) (members : list ClusterMember) : Prop :=
  Z.of_nat (length members) = size ∧ Forall (λ m, cmb_Status m = "valid") members.
Lemma ring_complete_check size members :
  (Z.of_nat (length members) ≤ int32_max)%Z →
  negb (count_valid members =? size)%Z || negb (len32 members =? size)%Z = false →
  ring_complete size members.
Proof.
  intros Hl. rewrite orb_false_iff, !negb_false_iff, !Z.eqb_eq, count_valid_spec by done.
  unfold len32. rewrite wrap32_id by (unfold in_int32, int32_min, int32_max in *; lia).
  intros [Hv Hs]. split; [done|]. apply Forall_forall. intros m Hm. apply dec_stable. intros Hn.
  pose proof (length_filter_lt (λ m, cmb_Status m = "valid") members m Hm Hn). lia.
Qed.

Lemma settled_loop_why pods probe why : settled_loop pods probe = inl why → why ≠ "".
Proof.
  revert probe. induction pods as [|p pods IH]; intros probe; cbn [settled_loop]; [done|].
  destruct (rp_ready p); simpl; [apply IH|]. by intros [= <-].
Qed.
Lemma settled_loop_probe pods :
  Forall (λ p, rp_name p ≠ "") pods → settled_loop pods "" = inr "" → pods = [].
Proof.
  intros Hn. destruct Hn as [|p pods Hp Hn]; [done|]. cbn [settled_loop].
  destruct (rp_ready p); simpl; [|done]. intros H. exfalso.
  assert (∀ probe, probe ≠ "" → settled_loop pods probe ≠ inr "") as Hne; [|by apply Hne in H].
  clear Hp H. induction Hn as [|q pods Hq Hn IH]; intros probe Hprobe; cbn [settled_loop]; [congruence|].
  destruct (rp_ready q); simpl; [|done]. apply IH. by destruct (_ || _).
Qed.
Lemma rollout_pods_named items : Forall (λ p, rp_name p ≠ "") (omap (M:=list) rollout_pod items).
Proof.
  apply Forall_forall. intros p (pod & _ & Hp)%list_elem_of_omap. revert Hp. unfold rollout_pod.
  destruct (podOrdinal (pod_Name pod)) eqn:Ho; [|done]. destruct (om_DeletionTimestamp _); [done|].
  intros [= <-]. cbn. intros Hn. by rewrite Hn in Ho.
Qed.

(** ** What justifies a step *)
(** A successful riak-admin call of the history. *)
Definition admin_event (ns pod : string) (args : list string) (out : string) : event :=
  existT (ARun "kubectl" (kubectl_args ns pod "riak" args)) (Ok out).
Definition admin_said (h : list event) (ns pod : string) (args : list string) (out : string) : Prop :=
  admin_event ns pod args out ∈ h ∧ riakAdminFailed out = false.

(** Since the history began, the cluster was seen settled: enough pods, all Ready, and
    (except for a single node) a complete ring with no transfer running. *)
Definition settled (cluster : RiakCluster) (h : list event) (pods : list rolloutPod) : Prop :=
  (cl_Size cluster ≤ Z.of_nat (length pods))%Z ∧
  Forall (λ p, rp_ready p = true) pods ∧
  ((cl_Size cluster ≤ 1)%Z ∨
   ∃ probe out,
     admin_said h (cl_Namespace cluster) probe ["member-status"] out ∧
     ((Z.of_nat (length (parseMemberStatus out)) ≤ int32_max)%Z →
      ring_complete (cl_Size cluster) (parseMemberStatus out)) ∧
     (wait_for_transfers cluster = true →
      ∃ tout, admin_said h (cl_Namespace cluster) probe ["transfers"] tout ∧
              parseTransfersIdle tout = true)).

Record step_justified (cluster : RiakCluster) (h : list event) (old new : StatefulSet) : Prop := {
  sj_progress : rolloutInProgress old = true;
  sj_paused : rollout_paused cluster = false;
  sj_positive : (0 < livePartition old)%Z;
  sj_one : in_int32 (livePartition old) → new = set_partition old (livePartition old - 1);
  sj_read : existT (AGet Cached KStatefulSet (mkKey (cl_Namespace cluster) (cl_Name cluster))) (Ok old) ∈ h;
  sj_pods : ∃ items : list Pod,
    existT (AList KPod (cl_Namespace cluster) (cluster_labels cluster)) (Ok items) ∈ h ∧
    let pods := omap rollout_pod items in
    all_updated (livePartition old) (cl_Size cluster) (sst_UpdateRevision (sts_Status old)) pods ∧
    settled cluster h pods
}.

(** The calls a rollout reconcile may make: reads, the two riak-admin queries, and a
    justified patch of the StatefulSet. *)
Definition rollout_ok (cluster : RiakCluster) (h : list event) (a : api) : Prop :=
  match a with
  | AGet _ _ _ | AList _ _ _ | ANow => True
  | ARun name args =>
      ∃ pod, name = "kubectl" ∧
        (args = kubectl_args (cl_Namespace cluster) pod "riak" ["member-status"] ∨
         args = kubectl_args (cl_Namespace cluster) pod "riak" ["transfers"])
  | APatch k old new =>
      match k return obj k → obj k → Prop with
      | KStatefulSet => step_justified cluster h
      | _ => λ _ _, False
      end old new
  | _ => False
  end.

Section safety.
Context `{L : KubeLib}.
Context (cluster : RiakCluster).
Abbreviation E := (trace_env (rollout_ok cluster)).
Let ns : string := cl_Namespace cluster.

(** Conditions only read the clock. *)
Lemma wp_setClusterCondition c t ok reason msg (Q : RiakCluster → list event → Prop) h :
  (∀ c' now, Q c' (existT ANow now :: h)) →
  wp E (setClusterCondition c t ok reason msg) Q h.
Proof. intros HQ. unfold setClusterCondition, Now. apply wp_trace; [done|]. intros now. apply wp_ret, HQ. Qed.
Lemma wp_markBlocked c reason msg b h : wp E (markBlocked c reason msg b) (λ _ _, True) h.
Proof.
  unfold markBlocked. apply wp_bind, wp_setClusterCondition. intros c1 n1.
  apply wp_bind, wp_setClusterCondition. intros c2 n2.
  apply wp_bind_2 with (Q1 := λ _ _, True); [|intros [] h' _; by apply wp_setClusterCondition].
  destruct b; [|by apply wp_ret]. destruct (FindStatusCondition _ _); [|by apply wp_ret].
  unfold Now. apply wp_trace; [done|]. intros now. by apply wp_ret.
Qed.

Lemma wp_query {A} pod sub (k : string * option error → M A) Q h :
  sub = "member-status" ∨ sub = "transfers" →
  (∀ r, wp E (k (admin_reply [sub] r)) Q
          (existT (ARun "kubectl" (kubectl_args ns pod "riak" [sub])) r :: h)) →
  wp E (ExecuteRiakAdmin ns pod "riak" [sub] ≫= k) Q h.
Proof.
  intros Hsub Hk. unfold ExecuteRiakAdmin. apply wp_bind. apply wp_trace.
  - exists pod. split; [done|]. destruct Hsub as [-> | ->]; auto.
  - intros r. apply wp_ret, Hk.
Qed.

Lemma clusterSettled_wp items h :
  let pods := omap (M:=list) rollout_pod items in
  wp E (clusterSettled cluster pods)
    (λ r h', (∃ d, h' = d ++ h) ∧ (r.1 = true → settled cluster h' pods) ∧ (r.1 = false → r.2 ≠ "")) h.
Proof.
  intros pods. unfold clusterSettled. cbn zeta.
  assert (∃ d : list event, h = d ++ h) as Hself by by exists [].
  destruct (Z.ltb_spec (len32 pods) (cl_Size cluster)) as [Hlt|Hge].
  { apply wp_ret. split_and!; [done|done|]. intros _. by destruct (Itoa _) eqn:Hi; [apply Itoa_not_nil in Hi|]. }
  assert (cl_Size cluster ≤ Z.of_nat (length pods))%Z as Hlen.
  { unfold len32 in Hge. pose proof (wrap32_le (Z.of_nat (length pods))). lia. }
  destruct (settled_loop pods "") as [why|probe] eqn:Hloop.
  { apply wp_ret. split_and!; [done|done|]. intros _. by eapply settled_loop_why. }
  pose proof (settled_loop_ready _ _ _ Hloop) as Hready.
  destruct (Z.eqb_spec (cl_Size cluster) 1) as [H1|H1]; cbn [orb].
  { split_and!; [done| |done]. intros _. split_and!; [done|done|left; lia]. }
  destruct (String.eqb_spec probe "") as [->|Hprobe].
  { apply wp_ret. split_and!; [done| |done]. intros _. split_and!; [done|done|]. left.
    apply settled_loop_probe in Hloop; [|apply rollout_pods_named]. rewrite Hloop in Hlen.
    simpl in Hlen. lia. }
  unfold MemberStatus. apply wp_bind, wp_query; [by left|]. intros r. apply wp_ret.
  match goal with |- wp _ _ _ ?x => set (h1 := x) end.
  assert (∃ d, h1 = d ++ h) as H1h by by eexists [_].
  destruct (admin_reply _ r).2 as [e|] eqn:Hr; [by apply wp_ret|].
  apply admin_reply_ok in Hr as (out & -> & Hf). unfold admin_reply. rewrite Hf. cbn [fst snd].
  destruct (negb _ || negb _) eqn:Hchk.
  { apply wp_ret. split_and!; [done|done|]. intros _.
    by destruct (Itoa _) eqn:Hi; [apply Itoa_not_nil in Hi|]. }
  assert (admin_said h1 ns probe ["member-status"] out) as Hsaid by (split; [by left|done]).
  assert ((Z.of_nat (length (parseMemberStatus out)) ≤ int32_max)%Z →
          ring_complete (cl_Size cluster) (parseMemberStatus out)) as Hring.
  { intros Hl. by apply ring_complete_check. }
  destruct (wait_for_transfers cluster) eqn:Hwait.
  2: { apply wp_ret. split_and!; [done| |done]. intros _. split_and!; [done|done|]. right.
       exists probe, out. split_and!; [done|done|congruence]. }
  unfold TransfersIdle. apply wp_bind, wp_query; [by right|]. intros r2. apply wp_ret.
  match goal with |- wp _ _ _ ?x => set (h2 := x) end.
  assert (∃ d, h2 = d ++ h) as H2h by by eexists [_; _].
  destruct (admin_reply _ r2).2 as [e|] eqn:Hr2; [by apply wp_ret|].
  apply admin_reply_ok in Hr2 as (tout & -> & Hf2). unfold admin_reply. rewrite Hf2. cbn [fst snd].
  destruct (parseTransfersIdle tout) eqn:Hidle; [|by apply wp_ret].
  apply wp_ret. split_and!; [done| |done]. intros _. split_and!; [done|done|]. right.
  exists probe, out. split_and!; [|done|].
  - destruct Hsaid. split; [by right|done].
  - intros _. exists tout. split; [|done]. split; [by left|done].
Qed.

(** The whole reconcile. *)
Lemma reconcileRollout_wp : wp E (reconcileRollout cluster) (λ _ _, True) [].
Proof.
  unfold reconcileRollout, Get. apply wp_trace; [done|]. intros [sts|e]; [|by apply wp_ret].
  destruct (rolloutInProgress sts) eqn:Hprog; cbn [negb]; [|by apply wp_ret].
  unfold rolloutPods, List_. apply wp_bind, wp_trace; [done|]. intros [items|e]; apply wp_ret; [|by apply wp_ret].
  destruct (rolloutNext _ _ _ _) as [next blocked] eqn:Hnext.
  destruct (Z.leb_spec (livePartition sts) 0) as [Hle|Hpos].
  { apply wp_bind, wp_setClusterCondition. intros c now. by apply wp_ret. }
  destruct (rolloutNext_spec _ _ _ _ _ _ Hnext Hpos) as [Hok _].
  destruct (rollout_paused cluster) eqn:Hpause.
  { eapply wp_bind_2; [apply wp_markBlocked|]. intros. by apply wp_ret. }
  match goal with |- wp _ _ _ ?x => set (h1 := x) end.
  apply wp_bind_2 with (Q1 := λ b h', (∃ d, h' = d ++ h1) ∧
    (b = "" → blocked = "" ∧ settled cluster h' (omap (M:=list) rollout_pod items))).
  { destruct (String.eqb_spec blocked "") as [->|Hb].
    - eapply wp_bind_2; [apply clusterSettled_wp|]. intros [[] why] h' (Hd & Hs & Hw); apply wp_ret.
      + split; [done|]. intros _. split; [done|by apply Hs].
      + split; [done|]. intros Hwhy. by destruct (Hw eq_refl).
    - apply wp_ret. split; [by exists []|done]. }
  intros b h2 [[d Hd] Hb]. destruct (String.eqb_spec b "") as [->|Hne]; cbn [negb].
  2: { eapply wp_bind_2; [apply wp_markBlocked|]. intros. by apply wp_ret. }
  destruct (Hb eq_refl) as [-> Hset]. destruct (Hok eq_refl) as [-> Hall].
  apply wp_trace.
  - constructor; [done|done|done| | |].
    + intros Hr. rewrite wrap32_id; [done|]. unfold in_int32, int32_min in *. lia.
    + rewrite Hd, elem_of_app. right. unfold h1. right. by left.
    + exists items. split; [|by split]. rewrite Hd, elem_of_app. right. by left.
  - intros [sts'|e]; [|by apply wp_ret]. apply wp_bind, wp_setClusterCondition.
    intros c now. by apply wp_ret.
Qed.
End safety.

(** ** The stall clock *)
(** An environment whose only service is a clock standing at [now]. *)
Definition clock_env (now : time) : Env reply unit := {|
  allowed := λ _ a, a = ANow;
  step := λ _ a, match a as a' return reply a' → unit → Prop with
                 | ANow => λ r _, r = now
                 | _ => λ _ _, False
                 end
|}.
Lemma wp_clock {A} now (k : time → M A) Q s :
  wp (clock_env now) (k now) Q s → wp (clock_env now) (Now ≫= k) Q s.
Proof. intros Hk. apply wp_call; [done|]. by intros r [] ->; destruct s. Qed.

Section stall.
Context `{L : KubeLib} `{!KubeLibLaws L}.

Definition conds_of (c : RiakCluster) : list Condition := cst_Conditions (cl_Status c).
(** Only the conditions of the status may differ. *)
Definition same_but_conditions (c c' : RiakCluster) : Prop :=
  cl_set_Conditions c' (conds_of c) = c.

Lemma wp_setClusterCondition_clock now c t ok reason msg (Q : RiakCluster → unit → Prop) s :
  (∀ c', same_but_conditions c c' →
     FindStatusCondition (conds_of c') t = Some (stored_condition now (FindStatusCondition (conds_of c) t)
       (wanted_condition t ok (cl_Generation c) reason msg)) →
     (∀ t', t' ≠ t → FindStatusCondition (conds_of c') t' = FindStatusCondition (conds_of c) t') →
     Q c' s) →
  wp (clock_env now) (setClusterCondition c t ok reason msg) Q s.
Proof.
  intros HQ. unfold setClusterCondition. apply wp_clock, wp_ret, HQ.
  - by destruct c as [? ? []].
  - apply setCondition_find.
  - intros t' Ht. by apply setCondition_other.
Qed.

(** When the current block began. *)
Definition blocked_since (c : RiakCluster) (now : time) : time :=
  match FindStatusCondition (conds_of c) conditionRolloutBlocked with
  | Some o => if String.eqb (cd_Status o) ConditionTrue then cd_LastTransitionTime o else now
  | None => now
  end.

Lemma same_trans a b c : same_but_conditions a b → same_but_conditions b c → same_but_conditions a c.
Proof. unfold same_but_conditions. destruct a as [? ? []], b as [? ? []], c as [? ? []]. unfold cl_set_Conditions, cl_with_status, cst_set_Conditions. cbn. intros [=] [=]. by subst. Qed.
Lemma same_spec a b : same_but_conditions a b → cl_Spec a = cl_Spec b ∧ cl_Meta a = cl_Meta b.
Proof. unfold same_but_conditions. destruct a, b. cbn. intros [= ? ? ?]. by subst. Qed.

Lemma markBlocked_wp c reason msg b now :
  wp (clock_env now) (markBlocked c reason msg b) (λ c' _,
    same_but_conditions c c' ∧
    FindStatusCondition (conds_of c') conditionRolloutBlocked =
      Some (mkCondition conditionRolloutBlocked ConditionTrue (cl_Generation c)
              (blocked_since c now) reason msg) ∧
    (cd_Status <$> FindStatusCondition (conds_of c') conditionRolloutStalled) =
      Some (if b && (stall_timeout c <? now - blocked_since c now)%Z
            then ConditionTrue else ConditionFalse)) tt.
Proof.
  unfold markBlocked. apply wp_bind, wp_setClusterCondition_clock. intros c1 Hs1 _ Ho1.
  apply wp_bind, wp_setClusterCondition_clock. intros c2 Hs2 Hf2 _.
  pose proof (same_trans _ _ _ Hs1 Hs2) as Hs. destruct (same_spec _ _ Hs1) as [_ Hm1].
  destruct (same_spec _ _ Hs) as [Hspec _].
  rewrite Ho1, <-Hm1 in Hf2 by done.
  assert (FindStatusCondition (conds_of c2) conditionRolloutBlocked =
    Some (mkCondition conditionRolloutBlocked ConditionTrue (cl_Generation c)
            (blocked_since c now) reason msg)) as Hb.
  { rewrite Hf2. unfold stored_condition, blocked_since. simpl.
    by destruct (FindStatusCondition (conds_of c) _). }
  clear Hf2. fold (conds_of c2). rewrite Hb.
  assert (stall_timeout c2 = stall_timeout c) as Ht by (unfold stall_timeout; by rewrite Hspec).
  apply wp_bind_2 with (Q1 := λ st _, st = b && (stall_timeout c <? now - blocked_since c now)%Z).
  { destruct b; [|by apply wp_ret]. apply wp_clock, wp_ret. by rewrite Ht. }
  intros st [] <-. destruct st; apply wp_setClusterCondition_clock; intros c3 Hs3 Hf3 Ho3;
    rewrite Hf3, Ho3 by done; (split; [by eapply same_trans|]); done.
Qed.
End stall.

(** ** Properties *)

(** C1: whatever the API server and Riak answer, the only change a rollout reconcile makes is
    to lower the StatefulSet's partition by exactly one, and only if a revision is pending,
    the rollout is not paused, every pod at or above the partition was listed on the new
    revision and Ready, at least [size] pods exist and all are Ready, and, for more than
    one node, the ring was reported complete with no transfer running (unless
    [waitForTransfers] is off). *)
Theorem rollout_step_safe (L : KubeLib) (cluster : RiakCluster) :
  wp (trace_env (rollout_ok cluster)) (reconcileRollout cluster) (λ _ _, True) [].
Proof. apply reconcileRollout_wp. Qed.

(** The StatefulSet is written with partition 0 only when it is new; an existing one
    keeps its live partition (never above the replica count) while a revision is pending
    and otherwise holds every pod back, so re-applying the spec never restarts a pod that
    the rollout has not reached. *)
Lemma stsPartition_holds (existing : StatefulSet) (replicas : Z) :
  om_UID (sts_Meta existing) ≠ "" → (0 ≤ livePartition existing)%Z → (0 ≤ replicas)%Z →
  (0 ≤ stsPartition existing replicas ≤ replicas)%Z ∧
  (∀ ord, (0 ≤ ord < replicas)%Z → (stsPartition existing replicas ≤ ord)%Z →
     rolloutInProgress existing = true ∧ (livePartition existing ≤ ord)%Z).
Proof.
  intros Hu Hl Hr. unfold stsPartition. rewrite (proj2 (String.eqb_neq _ _) Hu).
  destruct (rolloutInProgress existing); split; [lia| |lia|lia].
  intros ord Ho Hle. split; [done|lia].
Qed.
Definition rolling_sts (part : Z) (cur upd : string) : StatefulSet :=
  mkStatefulSet (mkObjectMeta "c" "db" "uid" 1 None [] ∅ [])
    (mkStatefulSetSpec "RollingUpdate" (Some part) "c" (Some 3%Z) ∅
       (mkPodTemplate ∅ (mkPodSpec ∅ None [] [] [] None None)) [])
    (mkStatefulSetStatus cur upd).
Lemma stsPartition_holds_witness :
  stsPartition (rolling_sts 2 "a" "b") 3 = 2%Z ∧ stsPartition (rolling_sts 2 "b" "b") 3 = 3%Z ∧
  (0 ≤ stsPartition (rolling_sts 2 "a" "b") 3 ≤ 3)%Z ∧
  (∀ ord, (0 ≤ ord < 3)%Z → (stsPartition (rolling_sts 2 "a" "b") 3 ≤ ord)%Z →
     rolloutInProgress (rolling_sts 2 "a" "b") = true ∧ (livePartition (rolling_sts 2 "a" "b") ≤ ord)%Z).
Proof.
  split; [done|]. split; [done|].
  apply (stsPartition_holds (rolling_sts 2 "a" "b") 3); [done|by vm_compute|done].
Defined.

(** The ordinal of a StatefulSet pod is read back from its name, for every cluster name
    (dashes and digits included) and every ordinal an int32 can hold. *)
Lemma podOrdinal_roundtrip (name : string) (n : Z) :
  (0 ≤ n ≤ int32_max)%Z → podOrdinal (name +:+ "-" +:+ Itoa n) = Some n.
Proof. intros Hn. apply podOrdinal_name; [lia|]. unfold in_int32, int32_min. lia. Qed.
Lemma podOrdinal_roundtrip_witness : podOrdinal ("my-riak-2" +:+ "-" +:+ Itoa 11) = Some 11%Z.
Proof. apply (podOrdinal_roundtrip "my-riak-2" 11). split; [done|by vm_compute]. Defined.

(** Marking a rollout blocked records the reason, keeps the time the block began however
    often the reason changes, and raises RolloutStalled exactly when the wait, measured from
    that time, exceeds the stall timeout; a paused rollout never stalls, and nothing but
    conditions changes. *)
Lemma markBlocked_stall (L : KubeLib) (HL : KubeLibLaws L) (c : RiakCluster)
    (reason msg : string) (canStall : bool) (now : time) :
  wp (clock_env now) (markBlocked c reason msg canStall) (λ c' _,
    same_but_conditions c c' ∧
    FindStatusCondition (conds_of c') conditionRolloutBlocked =
      Some (mkCondition conditionRolloutBlocked ConditionTrue (cl_Generation c)
              (blocked_since c now) reason msg) ∧
    (cd_Status <$> FindStatusCondition (conds_of c') conditionRolloutStalled) =
      Some (if canStall && (stall_timeout c <? now - blocked_since c now)%Z
            then ConditionTrue else ConditionFalse)) tt.
Proof. apply markBlocked_wp. Qed.
Definition blocked_cluster (since : time) : RiakCluster :=
  cl_set_Conditions sample_cluster
    [mkCondition conditionRolloutBlocked ConditionTrue 1 since "WaitingForCluster" "pod c-2 is not Ready"].
Lemma markBlocked_stall_witness :
  let now := (31 * minute)%Z in
  stall_timeout (blocked_cluster 0) = (30 * minute)%Z ∧
  wp (clock_env now) (markBlocked (blocked_cluster 0) "WaitingForCluster" "pod c-1 is not Ready" true)
    (λ c' _, same_but_conditions (blocked_cluster 0) c' ∧
       FindStatusCondition (conds_of c') conditionRolloutBlocked =
         Some (mkCondition conditionRolloutBlocked ConditionTrue 0 0 "WaitingForCluster"
                 "pod c-1 is not Ready") ∧
       (cd_Status <$> FindStatusCondition (conds_of c') conditionRolloutStalled) =
         Some ConditionTrue) tt.
Proof.
  intros now. split; [done|].
  apply (markBlocked_stall refLib refLib_laws (blocked_cluster 0) "WaitingForCluster"
           "pod c-1 is not Ready" true now).
Defined.
