(* ===== verification/RolloutSystem.v ===== *)
(** * The rollout as a system

    The operator, the StatefulSet controller and the nodes, as a step relation: the
    controller may replace any pod at or above the partition that is still on the old
    revision, nodes may become ready or unready at any time, the operator re-applies the
    StatefulSet ([stsPartition]) and lowers the partition ([rolloutNext]) when it finds
    every node Ready. *)
From S2P Require Import Prelude GoLib Effects Types Samples KubeTypes Kube KubeLib Status Executor Rollout RolloutFacts.
From stdpp Require Import relations.

Record node := mkNode { nd_new : bool; nd_ready : bool }.
Record rsys := mkSys { sy_part : Z; sy_nodes : list node }.

Definition old_rev : string := "rev-1".
Definition new_rev : string := "rev-2".

(** What the code sees of a state. *)
Definition node_pod (name : string) (i : nat) (nd : node) : rolloutPod :=
  mkRolloutPod (Z.of_nat i) (name +:+ "-" +:+ Itoa (Z.of_nat i))
    (if nd_new nd then new_rev else old_rev) (nd_ready nd).
Definition sys_pods (name : string) (s : rsys) : list rolloutPod := imap (node_pod name) (sy_nodes s).
Definition empty_template : PodTemplate := mkPodTemplate ∅ (mkPodSpec ∅ None [] [] [] None None).
Definition sys_sts (name : string) (size : Z) (s : rsys) : StatefulSet :=
  mkStatefulSet (mkObjectMeta name "" "uid" 1 None [] ∅ [])
    (mkStatefulSetSpec "RollingUpdate" (Some (sy_part s)) name (Some size) ∅ empty_template [])
    (mkStatefulSetStatus old_rev new_rev).

Section system.
Context (name : string) (size : Z).

Inductive rstep : rsys → rsys → Prop :=
| rs_restart s i nd :
    sy_nodes s !! i = Some nd → nd_new nd = false → (sy_part s ≤ Z.of_nat i)%Z →
    rstep s (mkSys (sy_part s) (<[i := mkNode true false]> (sy_nodes s)))
| rs_ready s i nd b :
    sy_nodes s !! i = Some nd →
    rstep s (mkSys (sy_part s) (<[i := mkNode (nd_new nd) b]> (sy_nodes s)))
| rs_reapply s :
    rstep s (mkSys (stsPartition (sys_sts name size s) size) (sy_nodes s))
| rs_operator s next :
    (0 < sy_part s)%Z → rolloutNext (sy_part s) size new_rev (sys_pods name s) = (next, "") →
    Forall (λ nd, nd_ready nd = true) (sy_nodes s) →
    rstep s (mkSys next (sy_nodes s)).

(** A template change finds the partition held at the size and every node on the old
    revision. *)
Definition initial (s : rsys) : Prop :=
  sy_part s = size ∧ Z.of_nat (length (sy_nodes s)) = size ∧
  Forall (λ nd, nd_new nd = false) (sy_nodes s).
Definition reachable (s : rsys) : Prop := ∃ s0, initial s0 ∧ rtc rstep s0 s.

(** Above the partition everything is new, below it everything is old: only the node at
    the partition can be in transition. *)
Record sys_inv (s : rsys) : Prop := {
  inv_len : Z.of_nat (length (sy_nodes s)) = size;
  inv_part : (0 ≤ sy_part s ≤ size)%Z;
  inv_above i nd : sy_nodes s !! i = Some nd → (sy_part s < Z.of_nat i)%Z → nd_new nd = true;
  inv_below i nd : sy_nodes s !! i = Some nd → (Z.of_nat i < sy_part s)%Z → nd_new nd = false
}.

Hypothesis Hsize : (1 ≤ size ≤ int32_max)%Z.

Lemma by_ordinal_snoc pods p : by_ordinal (pods ++ [p]) = <[rp_ordinal p := p]> (by_ordinal pods).
Proof. unfold by_ordinal. by rewrite foldl_snoc. Qed.
Lemma sys_lookup s i :
  by_ordinal (sys_pods name s) !! Z.of_nat i = node_pod name i <$> sy_nodes s !! i.
Proof.
  unfold sys_pods. induction (sy_nodes s) as [|nd l IH] using rev_ind; [done|].
  rewrite imap_app. cbn [imap]. rewrite by_ordinal_snoc. unfold compose. rewrite Nat.add_0_r.
  cbn [rp_ordinal node_pod].
  destruct (decide (i = length l)) as [->|Hne].
  - rewrite lookup_insert_eq, lookup_app_r, Nat.sub_diag by done. done.
  - rewrite lookup_insert_ne by lia. rewrite IH.
    destruct (decide (i < length l)); [by rewrite lookup_app_l|].
    rewrite !lookup_ge_None_2; [done| |lia]. rewrite length_app. simpl. lia.
Qed.

(** [rolloutNext] on a state, in terms of the nodes. *)
Lemma sys_all_updated s :
  Z.of_nat (length (sy_nodes s)) = size → (0 ≤ sy_part s)%Z →
  all_updated (sy_part s) size new_rev (sys_pods name s) ↔
  ∀ i nd, sy_nodes s !! i = Some nd → (sy_part s ≤ Z.of_nat i)%Z → nd = mkNode true true.
Proof.
  intros Hlen H0. unfold all_updated, node_updated. split.
  - intros Hall i nd Hi Hp. destruct (Hall (Z.of_nat i)) as (p & Hl & Hr & Hrdy).
    { apply lookup_lt_Some in Hi. lia. }
    rewrite sys_lookup, Hi in Hl. injection Hl as <-. destruct nd as [[] r]; simpl in *; by subst.
  - intros Hall ord Ho. destruct (lookup_lt_is_Some_2 (sy_nodes s) (Z.to_nat ord)) as [nd Hnd]; [lia|].
    pose proof (sys_lookup s (Z.to_nat ord)) as Hl. rewrite Z2Nat.id, Hnd in Hl by lia.
    rewrite Hl. eexists. split; [done|]. by rewrite (Hall _ _ Hnd) by lia.
Qed.

Lemma sys_inv_step s s' : sys_inv s → rstep s s' → sys_inv s'.
Proof.
  intros [Hlen Hpart Habove Hbelow] Hstep.
  destruct Hstep as [s i nd Hi Hold Hge|s i nd b Hi|s|s next Hpos Hnext Hready].
  - split; simpl; [by rewrite length_insert|done| |]; intros j nd';
      rewrite list_lookup_insert_Some; intros [(<- & <- & _)|[Hne Hj]]; intros; try done; [by eauto|lia|by eauto].
  - split; simpl; [by rewrite length_insert|done| |]; intros j nd';
      rewrite list_lookup_insert_Some; intros [(<- & <- & _)|[Hne Hj]]; intros; simpl; eauto.
  - assert (stsPartition (sys_sts name size s) size = sy_part s) as ->; [|by split].
    unfold stsPartition, livePartition. simpl. lia.
  - destruct (rolloutNext_spec _ _ _ _ _ _ Hnext Hpos) as [Hok _].
    destruct (Hok eq_refl) as [-> Hall]. rewrite sys_all_updated in Hall by lia.
    rewrite wrap32_id by (unfold in_int32, int32_min; lia).
    split; simpl; [done|lia| |].
    + intros i nd Hi Hlt. by rewrite (Hall i nd Hi) by lia.
    + intros i nd Hi Hlt. apply (Hbelow i nd Hi). lia.
Qed.

Lemma reachable_inv s : reachable s → sys_inv s.
Proof.
  intros (s0 & (Hp & Hlen & Hold) & Hsteps).
  assert (sys_inv s0) as Hinv.
  { split; [done|lia| |].
    - intros i nd Hi Hlt. apply lookup_lt_Some in Hi. lia.
    - intros i nd Hi _. by eapply Forall_lookup in Hold. }
  clear Hp Hlen Hold. induction Hsteps; [done|]. by eapply IHHsteps, sys_inv_step.
Qed.

(** Any node can be made ready, so a step of the operator can always be prepared. *)
Lemma make_ready s k :
  (k ≤ length (sy_nodes s))%nat →
  ∃ s', rtc rstep s s' ∧ sy_part s' = sy_part s ∧ length (sy_nodes s') = length (sy_nodes s) ∧
    (∀ i, nd_new <$> sy_nodes s' !! i = nd_new <$> sy_nodes s !! i) ∧
    (∀ i nd, (i < k)%nat → sy_nodes s' !! i = Some nd → nd_ready nd = true).
Proof.
  induction k as [|k IH]; intros Hk; [exists s; split_and!; try done; lia|].
  destruct IH as (s1 & Hst & Hp & Hl & Hnew & Hrdy); [lia|].
  destruct (lookup_lt_is_Some_2 (sy_nodes s1) k) as [nd Hnd]; [lia|].
  eexists. split; [eapply rtc_r; [exact Hst|]; by apply (rs_ready s1 k nd true)|].
  simpl. split_and!; [done|by rewrite length_insert| |].
  - intros i. rewrite <-Hnew. destruct (decide (i = k)) as [->|Hne].
    + rewrite list_lookup_insert_eq, Hnd by lia. done.
    + by rewrite list_lookup_insert_ne.
  - intros i nd'. rewrite list_lookup_insert_Some. intros Hik [(-> & <- & _)|[Hne Hi]]; [done|].
    apply (Hrdy i nd'); [lia|done].
Qed.
Lemma restart_at s i :
  (sy_part s ≤ Z.of_nat i)%Z →
  ∃ s', rtc rstep s s' ∧ sy_part s' = sy_part s ∧
    (∀ nd, sy_nodes s' !! i = Some nd → nd_new nd = true).
Proof.
  intros Hp. destruct (sy_nodes s !! i) as [[[] r]|] eqn:Hi.
  - exists s. split_and!; [done|done|]. rewrite Hi. intros nd [= <-]. done.
  - eexists. split; [apply rtc_once; by eapply rs_restart|]. split; [done|]. simpl.
    intros nd. rewrite list_lookup_insert_eq by (by eapply lookup_lt_Some). intros [= <-]. done.
  - exists s. split_and!; [done|done|]. congruence.
Qed.

(** From a reachable state the rollout can be carried to its end. *)
Lemma settle_at s :
  sys_inv s →
  ∃ s', rtc rstep s s' ∧ sys_inv s' ∧ sy_part s' = sy_part s ∧
    Forall (λ nd, nd_ready nd = true) (sy_nodes s') ∧
    ∀ i nd, sy_nodes s' !! i = Some nd → (sy_part s ≤ Z.of_nat i)%Z → nd = mkNode true true.
Proof.
  intros Hinv. destruct (restart_at s (Z.to_nat (sy_part s))) as (s1 & H1 & Hp1 & Hn1).
  { destruct Hinv. lia. }
  assert (∀ a b, rtc rstep a b → sys_inv a → sys_inv b) as Hpres.
  { intros a b Hab. induction Hab; [done|]. intros. by eapply IHHab, sys_inv_step. }
  destruct (make_ready s1 (length (sy_nodes s1))) as (s2 & H2 & Hp2 & Hl2 & Hn2 & Hr2); [done|].
  assert (sys_inv s2) as Hinv2 by (apply (Hpres s1 s2 H2), (Hpres s s1 H1 Hinv)).
  assert (Forall (λ nd, nd_ready nd = true) (sy_nodes s2)) as Hready.
  { apply Forall_lookup. intros i nd Hi. apply (Hr2 i nd); [|done]. rewrite <-Hl2. by eapply lookup_lt_Some. }
  exists s2. split_and!; [by etransitivity|done|congruence|done|].
  intros i nd Hi Hge. eapply Forall_lookup in Hready; [|exact Hi].
  assert (nd_new nd = true) as Hnew; [|destruct nd; simpl in *; by subst].
  destruct (decide (Z.of_nat i = sy_part s)) as [He|Hne].
  - specialize (Hn2 i). rewrite Hi in Hn2. symmetry in Hn2.
    apply fmap_Some in Hn2 as (nd1 & Hi1 & ->). apply Hn1. rewrite <-He, Nat2Z.id. done.
  - apply (inv_above s2 Hinv2 i nd Hi). lia.
Qed.
Lemma completes s :
  sys_inv s →
  ∃ s', rtc rstep s s' ∧ sy_part s' = 0%Z ∧ Forall (λ nd, nd = mkNode true true) (sy_nodes s').
Proof.
  remember (Z.to_nat (sy_part s)) as k eqn:Hk. revert s Hk.
  induction k as [|k IH]; intros s Hk Hinv;
    destruct (settle_at s Hinv) as (s1 & H1 & Hinv1 & Hp1 & Hr1 & Hall1);
    pose proof (inv_part s1 Hinv1) as Hrange.
  - exists s1. split_and!; [done|lia|]. apply Forall_lookup. intros i nd Hi. apply (Hall1 i nd Hi). lia.
  - destruct (rolloutNext (sy_part s1) size new_rev (sys_pods name s1)) as [next msg] eqn:Hnext.
    destruct (rolloutNext_spec _ _ _ _ _ _ Hnext) as [Hok Hno]; [lia|].
    destruct (decide (msg = "")) as [->|Hmsg].
    2: { exfalso. apply (Hno Hmsg). apply sys_all_updated; [by destruct Hinv1|lia|].
         intros i nd Hi Hge. apply (Hall1 i nd Hi). lia. }
    destruct (Hok eq_refl) as [-> _]. rewrite wrap32_id in Hnext by (unfold in_int32, int32_min; lia).
    assert (rstep s1 (mkSys (sy_part s1 - 1) (sy_nodes s1))) as Hop by (constructor; [lia|done|done]).
    destruct (IH (mkSys (sy_part s1 - 1) (sy_nodes s1))) as (s' & H2 & ? & ?).
    + simpl. lia.
    + by eapply sys_inv_step.
    + exists s'. split_and!; [|done|done]. etransitivity; [exact H1|]. by eapply rtc_l.
Qed.
End system.

(** ** Properties *)

(** In every reachable state of a rollout, nodes above the partition are on the new
    revision and nodes below it on the old one, so at most one node can be in transition;
    a pod is only ever replaced at the partition itself, and the operator's step leaves
    the partition between 0 and the cluster size. *)
Lemma rollout_one_at_a_time (name : string) (size : Z) (s : rsys) :
  (1 ≤ size ≤ int32_max)%Z → reachable name size s →
  (0 ≤ sy_part s ≤ size)%Z ∧
  (∀ i nd, sy_nodes s !! i = Some nd → (sy_part s < Z.of_nat i)%Z → nd_new nd = true) ∧
  (∀ i nd, sy_nodes s !! i = Some nd → (Z.of_nat i < sy_part s)%Z → nd_new nd = false).
Proof. intros Hs Hr. by destruct (reachable_inv name size Hs s Hr). Qed.

Definition three_old : rsys := mkSys 3 [mkNode false true; mkNode false true; mkNode false true].
Lemma three_old_step :
  rtc (rstep "c" 3) three_old (mkSys 2 [mkNode false true; mkNode false true; mkNode true false]).
Proof.
  eapply rtc_l.
  - apply (rs_operator "c" 3 three_old 2); [done|by vm_compute|by repeat constructor].
  - apply rtc_once. by apply (rs_restart "c" 3 (mkSys 2 (sy_nodes three_old)) 2 (mkNode false true)).
Qed.
Lemma rollout_one_at_a_time_witness :
  let s := mkSys 2 [mkNode false true; mkNode false true; mkNode true false] in
  (0 ≤ sy_part s ≤ 3)%Z ∧
  (∀ i nd, sy_nodes s !! i = Some nd → (sy_part s < Z.of_nat i)%Z → nd_new nd = true) ∧
  (∀ i nd, sy_nodes s !! i = Some nd → (Z.of_nat i < sy_part s)%Z → nd_new nd = false).
Proof.
  intros s. apply (rollout_one_at_a_time "c" 3 s); [by vm_compute|].
  exists three_old. split; [|apply three_old_step].
  split; [done|]. split; [done|by repeat constructor].
Defined.

(** A rollout never deadlocks: from every reachable state the operator's steps, the
    StatefulSet controller and nodes becoming ready can carry it to the end, partition 0
    with every node Ready on the new revision. *)
Lemma rollout_can_finish (name : string) (size : Z) (s : rsys) :
  (1 ≤ size ≤ int32_max)%Z → reachable name size s →
  ∃ s', rtc (rstep name size) s s' ∧ sy_part s' = 0%Z ∧
        Forall (λ nd, nd = mkNode true true) (sy_nodes s').
Proof. intros Hs Hr. apply (completes name size Hs), (reachable_inv name size Hs s Hr). Qed.
Lemma rollout_can_finish_witness :
  ∃ s', rtc (rstep "c" 3) three_old s' ∧ sy_part s' = 0%Z ∧
        Forall (λ nd, nd = mkNode true true) (sy_nodes s').
Proof.
  apply (rollout_can_finish "c" 3 three_old); [by vm_compute|].
  exists three_old. split; [|done]. split; [done|]. split; [done|by repeat constructor].
Defined.

(** No step raises the partition, and an operator step lowers it by one, so a rollout of
    [size] nodes takes at most [size] operator steps. *)
Lemma rollout_progress (name : string) (size : Z) (s s' : rsys) :
  (1 ≤ size ≤ int32_max)%Z → reachable name size s → rstep name size s s' →
  sy_part s' = sy_part s ∧ length (sy_nodes s') = length (sy_nodes s) ∨
  sy_part s' = (sy_part s - 1)%Z ∧ sy_nodes s' = sy_nodes s ∧
  Forall (λ nd, nd_ready nd = true) (sy_nodes s).
Proof.
  intros Hs Hr Hst. pose proof (reachable_inv name size Hs s Hr) as [Hlen Hp _ _].
  destruct Hst as [s i nd Hi Hold Hge|s i nd b Hi|s|s next Hpos Hnext Hready]; simpl.
  - left. by rewrite length_insert.
  - left. by rewrite length_insert.
  - left. split; [|done]. unfold stsPartition, livePartition. simpl. lia.
  - right. destruct (rolloutNext_spec _ _ _ _ _ _ Hnext Hpos) as [Hok _].
    destruct (Hok eq_refl) as [-> _]. rewrite wrap32_id by (unfold in_int32, int32_min; lia). done.
Qed.
Lemma rollout_progress_witness :
  let s' := mkSys 2 (sy_nodes three_old) in
  sy_part s' = sy_part three_old ∧ length (sy_nodes s') = length (sy_nodes three_old) ∨
  sy_part s' = (sy_part three_old - 1)%Z ∧ sy_nodes s' = sy_nodes three_old ∧
  Forall (λ nd, nd_ready nd = true) (sy_nodes three_old).
Proof.
  intros s'. apply (rollout_progress "c" 3 three_old s'); [by vm_compute| |].
  - exists three_old. split; [|done]. split; [done|]. split; [done|by repeat constructor].
  - apply (rs_operator "c" 3 three_old 2); [done|by vm_compute|by repeat constructor].
Defined.
