(* ===== verification/Tls.v ===== *)
(** * TLS objects ([internal/controller/tls.go])

    Names of the certificates and Secrets, the cert-manager Certificates the operator
    creates, and the volume that mounts them. An [unstructured] object keeps its
    [apiVersion], [kind] and [metadata] in [un_GVK] and [un_Meta]. *)
From S2P Require Import Prelude GoLib Effects Types KubeTypes Kube Status.

Definition riakTLSPortName : string := "https".
Definition riakTLSPort : Z := 8443.
Definition riakTLSVolumeName : string := "riak-tls".
Definition riakTLSMountPath : string := "/etc/riak/certs".
Definition riakTLSCertFile : string := "/etc/riak/certs/tls.crt".
Definition riakTLSKeyFile : string := "/etc/riak/certs/tls.key".
Definition riakTLSCACertFile : string := "/etc/riak/certs/ca.crt".

Definition clusterTLSSecretName (clusterName : string) : string := clusterName +:+ "-tls".
Definition userClientTLSSecretName (riakUserName : string) : string := riakUserName +:+ "-client-tls".
Definition clusterCertName (clusterName : string) : string := clusterName +:+ "-tls".
Definition userCertName (riakUserName : string) : string := riakUserName +:+ "-client-tls".

(** [trust.go]: named here because the volume mounts it. *)
Definition trustBundleKey : string := "ca.crt".
Definition clusterTrustSecretName (clusterName : string) : string := clusterName +:+ "-tls-trust".
Definition hasAdditionalClientCAs (cluster : RiakCluster) : bool :=
  match cs_TLS (cl_Spec cluster) with
  | Some tls => tls_Enabled tls && (0 <? length (tls_AdditionalClientCAs tls))%nat
  | None => false
  end.

(** [if kind == "" { kind = "Issuer" }] *)
Definition issuer_kind (k : string) : string := if String.eqb k "" then "Issuer" else k.
Definition issuer_ref (name kind : string) : json :=
  JMap [("name", JStr name); ("kind", JStr (issuer_kind kind))].

Definition cluster_dns_names (cluster : RiakCluster) : list string :=
  let n := cl_Name cluster in
  let ns := cl_Namespace cluster in
  ["*." +:+ n +:+ "-headless." +:+ ns +:+ ".svc.cluster.local";
   n +:+ "-headless." +:+ ns +:+ ".svc.cluster.local";
   n +:+ "." +:+ ns +:+ ".svc.cluster.local";
   n +:+ "-headless";
   n].
(** The source dereferences [spec.tls.certManager]: its caller checked it. *)
Definition buildClusterCertificate (cluster : RiakCluster) (cm : CertManagerConfig) : Unstructured :=
  mkUnstructured certificateGVK (new_meta (clusterCertName (cl_Name cluster)) (cl_Namespace cluster))
    [("spec", JMap
       [("secretName", JStr (clusterTLSSecretName (cl_Name cluster)));
        ("issuerRef", issuer_ref (cm_IssuerName cm) (cm_IssuerKind cm));
        ("dnsNames", JList (JStr <$> cluster_dns_names cluster));
        ("usages", JList (JStr <$> ["server auth"; "client auth"; "digital signature";
                                    "key encipherment"]))])].

Definition buildUserCertificate (riakUserName namespace riakUsername : string)
    (certRef : UserCertificateRef) (issuer : CertIssuerRef) : Unstructured :=
  let secretName := if String.eqb (ucr_SecretName certRef) ""
                    then userClientTLSSecretName riakUserName else ucr_SecretName certRef in
  mkUnstructured certificateGVK (new_meta (userCertName riakUserName) namespace)
    [("spec", JMap
       [("secretName", JStr secretName);
        ("commonName", JStr riakUsername);
        ("issuerRef", issuer_ref (ir_Name issuer) (ir_Kind issuer));
        ("usages", JList (JStr <$> ["client auth"; "digital signature"; "key encipherment"]))])].

Definition tlsVolume (cluster : RiakCluster) : Volume :=
  if negb (hasAdditionalClientCAs cluster)
  then mkVolume riakTLSVolumeName (VolSecret (clusterTLSSecretName (cl_Name cluster)))
  else mkVolume riakTLSVolumeName (VolProjected
    [mkSecretProjection (clusterTLSSecretName (cl_Name cluster))
       [mkKeyToPath "tls.crt" "tls.crt"; mkKeyToPath "tls.key" "tls.key"];
     mkSecretProjection (clusterTrustSecretName (cl_Name cluster)) [mkKeyToPath trustBundleKey "ca.crt"]]).
