(* ===== verification/Trust.v ===== *)
(** * Trusted client CAs ([internal/controller/trust.go])

    PEM and X.509 ([encoding/pem], [crypto/x509]) are the parameter [GoX509]; the laws of
    their documentation that the code relies on are [GoX509Laws]. *)
From S2P Require Import Prelude GoLib Effects Types KubeTypes Kube KubeLib Status Tls.

Record pem_block := mkPemBlock { pb_Type : string; pb_Bytes : string }.
Class GoX509 := {
  x509_Certificate : Type;
  pem_Decode : string → option (pem_block * string);
  pem_Encode : pem_block → string;
  x509_ParseCertificate : string → res x509_Certificate;
  cert_Raw : x509_Certificate → string;
  cert_CommonName : x509_Certificate → string;
  cert_NotAfter : x509_Certificate → time;
  (** [leaf.Verify] for client authentication with these roots and intermediates, at [now] *)
  x509_Verify : x509_Certificate → list x509_Certificate → list x509_Certificate → time → option error;
  (** [roots.AppendCertsFromPEM(bundle)]: the certificates added to an empty pool *)
  x509_PoolFromPEM : string → list x509_Certificate
}.
Class GoX509Laws (X : GoX509) : Prop := {
  pem_consumes d b rest : pem_Decode d = Some (b, rest) → (String.length rest < String.length d)%nat;
  pem_roundtrip b rest : pem_Decode (pem_Encode b +:+ rest) = Some (b, rest);
  pem_empty : pem_Decode "" = None;
  cert_raw raw c : x509_ParseCertificate raw = Ok c → cert_Raw c = raw
}.

Definition CERTIFICATE : string := "CERTIFICATE".

Section trust.
Context `{X : GoX509}.

(** The loop of [parsePEMCerts], with fuel; every block shortens the input. *)
Fixpoint pem_loop (fuel : nat) (data : string) (certs : list x509_Certificate)
    : res (list x509_Certificate) :=
  match fuel with
  | O => Ok certs
  | S fuel =>
      match pem_Decode data with
      | None => Ok certs
      | Some (block, data) =>
          if negb (String.eqb (pb_Type block) CERTIFICATE) then pem_loop fuel data certs
          else match x509_ParseCertificate (pb_Bytes block) with
               | Err e => Err (Wrapf "invalid certificate: " e "")
               | Ok c => pem_loop fuel data (certs ++ [c])
               end
      end
  end.
Definition parsePEMCerts (data : string) : res (list x509_Certificate) :=
  pem_loop (S (String.length data)) data [].

(** [out], [seen] and [n] of [mergeCABundle]. [pem.Encode] into a buffer, without
    headers, cannot fail. *)
Record merge_state := mkMerge { mg_out : string; mg_seen : gset string; mg_n : Z }.
Definition merge_cert (st : merge_state) (c : x509_Certificate) : merge_state :=
  if bool_decide (cert_Raw c ∈ mg_seen st) then st
  else mkMerge (mg_out st +:+ pem_Encode (mkPemBlock CERTIFICATE (cert_Raw c)))
         ({[cert_Raw c]} ∪ mg_seen st) (mg_n st + 1).
Fixpoint merge_loop (inputs : list string) (st : merge_state) : res merge_state :=
  match inputs with
  | [] => Ok st
  | i :: inputs' =>
      match parsePEMCerts i with
      | Err e => Err e
      | Ok certs => merge_loop inputs' (foldl merge_cert st certs)
      end
  end.
Definition mergeCABundle (inputs : list string) : res (string * Z) :=
  match merge_loop inputs (mkMerge "" ∅ 0) with
  | Err e => Err e
  | Ok st => Ok (mg_out st, mg_n st)
  end.

(** ** Reading the CAs *)
(** The uncached API reader when there is one, else the client. *)
Definition reader (apiReader : bool) : source := if apiReader then Uncached else Cached.
Definition get_from (rd : source) (k : kind) (key : ObjectKey) : M (res (obj k)) :=
  call (AGet rd k key).

Definition readTrustedCA (rd : source) (ns : string) (src : TrustedCASource) : M (res string) :=
  match tca_SecretRef src, tca_ConfigMapRef src with
  | Some ref, _ =>
      r ← get_from rd KSecret (mkKey ns (ks_Name ref));
      mret match r with
           | Err e => if IsNotFound e
                      then Err (Errorf ("additionalClientCAs: Secret " +:+ Quote (ks_Name ref) +:+ " not found"))
                      else Err e
           | Ok s => match sec_Data s !! ks_Key ref with
                     | None => Err (Errorf ("additionalClientCAs: Secret " +:+ Quote (ks_Name ref) +:+
                                            " has no key " +:+ Quote (ks_Key ref)))
                     | Some v => Ok v
                     end
           end
  | None, Some ref =>
      r ← get_from rd KConfigMap (mkKey ns (ks_Name ref));
      mret match r with
           | Err e => if IsNotFound e
                      then Err (Errorf ("additionalClientCAs: ConfigMap " +:+ Quote (ks_Name ref) +:+ " not found"))
                      else Err e
           | Ok cm => match cfm_Data cm !! ks_Key ref with
                      | None => Err (Errorf ("additionalClientCAs: ConfigMap " +:+ Quote (ks_Name ref) +:+
                                             " has no key " +:+ Quote (ks_Key ref)))
                      | Some v => Ok v
                      end
           end
  | None, None => mret (Err (Errorf "additionalClientCAs: entry sets neither secretRef nor configMapRef"))
  end.

Definition describeCASource (src : TrustedCASource) : string :=
  match tca_SecretRef src, tca_ConfigMapRef src with
  | Some ref, _ => "Secret " +:+ Quote (ks_Name ref) +:+ " key " +:+ Quote (ks_Key ref)
  | None, Some ref => "ConfigMap " +:+ Quote (ks_Name ref) +:+ " key " +:+ Quote (ks_Key ref)
  | None, None => "entry"
  end.

(** One [additionalClientCAs] entry: its PEM is read, parsed and must hold a certificate. *)
Definition trusted_input (rd : source) (ns : string) (src : TrustedCASource) (inputs : list string)
    : M (error + list string) :=
  r ← readTrustedCA rd ns src;
  mret match r with
       | Err e => inl e
       | Ok pemData =>
           match parsePEMCerts pemData with
           | Err e => inl (Wrapf "additionalClientCAs: " e "")
           | Ok [] => inl (Errorf ("additionalClientCAs: " +:+ describeCASource src +:+
                                   " holds no PEM CERTIFICATE"))
           | Ok _ => inr (inputs ++ [pemData])
           end
       end.

Definition missing_ca_key (name : string) : error :=
  Errorf ("cluster TLS Secret " +:+ Quote name +:+ " has no ca.crt key; Riak needs the issuing CA there").

(** The bundle, its certificate count, and [clusterCAMissing]. *)
Definition buildTrustBundle (rd : source) (cluster : RiakCluster) : M (res (string * Z * bool)) :=
  let finish (inputs : list string) (missing : bool) : res (string * Z * bool) :=
    match mergeCABundle inputs with Ok b => Ok (b, missing) | Err e => Err e end in
  match cs_TLS (cl_Spec cluster) with
  | None => mret (finish [] false)
  | Some tls =>
      if negb (tls_Enabled tls) then mret (finish [] false)
      else
      let name := clusterTLSSecretName (cl_Name cluster) in
      r ← get_from rd KSecret (mkKey (cl_Namespace cluster) name);
      match (match r with
             | Err e => if IsNotFound e then Ok ([], true) else Err e
             | Ok s => match sec_Data s !! "ca.crt" with
                       | None => Err (missing_ca_key name)
                       | Some ca => Ok ([ca], false)
                       end
             end) with
      | Err e => mret (Err e)
      | Ok (inputs, missing) =>
          o ← for_each (tls_AdditionalClientCAs tls) inputs (trusted_input rd (cl_Namespace cluster));
          mret match o with
               | inl e => Err e
               | inr inputs => finish inputs missing
               end
      end
  end.

(** ** The trust Secret *)
Section reconcile.
Context `{L : KubeLib}.

Definition trust_secret (cluster : RiakCluster) (bundle : string) : res Secret :=
  m ← SetControllerReference "RiakCluster" (cl_Meta cluster)
        (new_meta (clusterTrustSecretName (cl_Name cluster)) (cl_Namespace cluster));
  mret (mkSecret m {[trustBundleKey := bundle]}).

Definition reconcileTrustBundle (apiReader : bool) (cluster : RiakCluster) : M (option error) :=
  if negb (hasAdditionalClientCAs cluster) then mret None
  else
  let rd := reader apiReader in
  b ← buildTrustBundle rd cluster;
  match b with
  | Err e => mret (Some e)
  | Ok (bundle, _, clusterCAMissing) =>
      if clusterCAMissing : bool then mret None
      else
      r ← get_from rd KSecret (mkKey (cl_Namespace cluster) (clusterTrustSecretName (cl_Name cluster)));
      match r with
      | Err e =>
          if IsNotFound e then
            match trust_secret cluster bundle with
            | Err e => mret (Some e)
            | Ok s => Create KSecret s
            end
          else mret (Some e)
      | Ok existing =>
          if String.eqb (default "" (sec_Data existing !! trustBundleKey)) bundle then mret None
          else
            u ← Update KSecret (mkSecret (sec_Meta existing) {[trustBundleKey := bundle]});
            mret (res_err u)
      end
  end.
End reconcile.

Definition trustStatus (apiReader : bool) (cluster : RiakCluster) : M (Z * string) :=
  match cs_TLS (cl_Spec cluster) with
  | None => mret (0%Z, "")
  | Some tls =>
      if negb (tls_Enabled tls) then mret (0%Z, "")
      else
        b ← buildTrustBundle (reader apiReader) cluster;
        mret match (b : res (string * Z * bool)) with
             | Err e => (0%Z, err_msg e)
             | Ok (_, count, _) => (wrap32 count, "")
             end
  end.

(** ** External client certificates *)
Definition verifyClientCert (certPEM username : string) (roots : list x509_Certificate) (now : time)
    : res time :=
  match parsePEMCerts certPEM with
  | Err e => Err e
  | Ok [] => Err (Errorf "tls.crt holds no PEM CERTIFICATE")
  | Ok (leaf :: inter) =>
      if negb (String.eqb (cert_CommonName leaf) username)
      then Err (Errorf ("certificate CommonName " +:+ Quote (cert_CommonName leaf) +:+
                        " does not match spec.username " +:+ Quote username))
      else match x509_Verify leaf roots inter now with
           | Some e => Err (Wrapf "certificate is not valid for client authentication against a trusted CA: " e "")
           | None => Ok (cert_NotAfter leaf)
           end
  end.

(** Readiness, the reason when not ready, and the expiry ([None] is the zero time). *)
Definition externalCertificateReadiness (rd : source) (user : RiakUser) (secretName : string)
    (cluster : RiakCluster) (now : time) : M (bool * string * option time) :=
  r ← get_from rd KSecret (mkKey (om_Namespace (us_Meta user)) secretName);
  match r with
  | Err e => mret (false, if IsNotFound e then "Secret " +:+ Quote secretName +:+ " does not exist"
                          else err_msg e, None)
  | Ok s =>
      match sec_Data s !! "tls.crt" with
      | None => mret (false, "Secret " +:+ Quote secretName +:+ " has no tls.crt", None)
      | Some crt =>
          b ← buildTrustBundle rd cluster;
          mret match (b : res (string * Z * bool)) with
               | Err e => (false, "cannot build the cluster's trusted CAs: " +:+ err_msg e, None)
               | Ok (bundle, _, _) =>
                   match x509_PoolFromPEM bundle with
                   | [] => (false, "the cluster trusts no CA: enable spec.tls and/or set spec.tls.additionalClientCAs", None)
                   | roots =>
                       match verifyClientCert crt (us_Username (us_Spec user)) roots now with
                       | Err e => (false, err_msg e, None)
                       | Ok notAfter => (true, "", Some notAfter)
                       end
                   end
               end
      end
  end.
End trust.
