(* ===== verification/TrustFacts.v ===== *)
(** * Trusted client CAs: the bundle, when it is written, who is let in *)
From S2P Require Import Prelude GoLib Effects Types Samples KubeTypes Kube KubeLib Status Tls Trust.

(** ** Parsing *)
Section pem.
Context `{X : GoX509}.

Lemma res_fmap_fmap {A B C} (f : A → B) (g : B → C) (r : res A) : g <$> (f <$> r) = (λ a, g (f a)) <$> r.
Proof. by destruct r. Qed.

Lemma pem_loop_acc fuel data acc : pem_loop fuel data acc = (app acc) <$> pem_loop fuel data [].
Proof.
  revert data acc. induction fuel as [|f IH]; intros data acc; cbn [pem_loop].
  { cbn. by rewrite app_nil_r. }
  destruct (pem_Decode data) as [[b rest]|]; [|by cbn; rewrite app_nil_r].
  destruct (negb _); [apply IH|]. destruct (x509_ParseCertificate _) as [c|e]; [|done].
  rewrite (IH rest (acc ++ [c])), (IH rest ([] ++ [c])), res_fmap_fmap.
  destruct (pem_loop f rest []); cbn; [|done]. by rewrite <-(assoc_L (++)).
Qed.

Context `{LX : !GoX509Laws X}.

Lemma pem_loop_fuel f f' data :
  (String.length data < f)%nat → (String.length data < f')%nat →
  pem_loop f data [] = pem_loop f' data [].
Proof.
  revert f' data. induction f as [|f IH]; intros f' data Hf Hf'; [lia|].
  destruct f' as [|f']; [lia|]. cbn [pem_loop].
  destruct (pem_Decode data) as [[b rest]|] eqn:Hd; [|done].
  pose proof (pem_consumes data b rest Hd). destruct (negb _); [apply IH; lia|].
  destruct (x509_ParseCertificate _) as [c|e]; [|done].
  rewrite (pem_loop_acc f), (pem_loop_acc f'). f_equal. apply IH; lia.
Qed.

(** [parsePEMCerts] block by block, without fuel. *)
Lemma parsePEMCerts_unfold data :
  parsePEMCerts data =
  match pem_Decode data with
  | None => Ok []
  | Some (b, rest) =>
      if negb (String.eqb (pb_Type b) CERTIFICATE) then parsePEMCerts rest
      else match x509_ParseCertificate (pb_Bytes b) with
           | Err e => Err (Wrapf "invalid certificate: " e "")
           | Ok c => (cons c) <$> parsePEMCerts rest
           end
  end.
Proof.
  unfold parsePEMCerts at 1. cbn [pem_loop].
  destruct (pem_Decode data) as [[b rest]|] eqn:Hd; [|done].
  pose proof (pem_consumes data b rest Hd) as Hc. unfold parsePEMCerts.
  destruct (negb _); [apply pem_loop_fuel; lia|].
  destruct (x509_ParseCertificate _) as [c|e]; [|done].
  rewrite pem_loop_acc. rewrite (pem_loop_fuel _ (S (String.length rest))) by lia. done.
Qed.

(** Certificates that came out of the parser. *)
Definition parsed (c : x509_Certificate) : Prop := x509_ParseCertificate (cert_Raw c) = Ok c.

Lemma parsePEMCerts_parsed data cs : parsePEMCerts data = Ok cs → Forall parsed cs.
Proof.
  remember (String.length data) as n eqn:Hn. revert data cs Hn.
  induction n as [n IH] using lt_wf_ind. intros data cs ->. rewrite parsePEMCerts_unfold.
  destruct (pem_Decode data) as [[b rest]|] eqn:Hd; [|by intros [= <-]].
  pose proof (pem_consumes data b rest Hd) as Hc.
  destruct (negb _); [by eapply IH|].
  destruct (x509_ParseCertificate _) as [c|e] eqn:Hp; [|done].
  destruct (parsePEMCerts rest) as [cs'|e] eqn:Hr; [|done]. intros [= <-].
  constructor; [|by eapply IH]. unfold parsed. by rewrite (cert_raw _ _ Hp).
Qed.

(** ** Encoding *)
Definition encode_cert (c : x509_Certificate) : string := pem_Encode (mkPemBlock CERTIFICATE (cert_Raw c)).
Definition encode_certs (cs : list x509_Certificate) : string :=
  foldl (λ out c, out +:+ encode_cert c) "" cs.

Lemma encode_certs_cons c cs : encode_certs (c :: cs) = encode_cert c +:+ encode_certs cs.
Proof.
  unfold encode_certs. cbn [foldl]. rewrite Str.app_nil_l. generalize (encode_cert c) as s. clear.
  induction cs as [|c cs IH]; intros s; cbn [foldl]; [by rewrite Str.app_nil_r|].
  rewrite (IH (s +:+ _)), (IH ("" +:+ _)), Str.app_nil_l. by rewrite Str.app_assoc.
Qed.
Lemma parse_encode cs : Forall parsed cs → parsePEMCerts (encode_certs cs) = Ok cs.
Proof.
  intros Hp. induction Hp as [|c cs Hc Hp IH].
  { unfold encode_certs. cbn [foldl]. by rewrite parsePEMCerts_unfold, pem_empty. }
  rewrite encode_certs_cons. unfold encode_cert. rewrite parsePEMCerts_unfold, pem_roundtrip.
  cbn [pb_Type pb_Bytes]. rewrite String.eqb_refl. cbn [negb]. rewrite Hc, IH. done.
Qed.

(** ** Merging *)
(** The certificates of every input, in order: the first parse error wins. *)
Fixpoint all_certs (inputs : list string) : res (list x509_Certificate) :=
  match inputs with
  | [] => Ok []
  | i :: inputs' => cs ← parsePEMCerts i; (app cs) <$> all_certs inputs'
  end.

(** The state of the merge after certificates [cs]: [ds] are the distinct ones. *)
Definition merged (cs ds : list x509_Certificate) (st : merge_state) : Prop :=
  mg_out st = encode_certs ds ∧ mg_seen st = list_to_set (cert_Raw <$> ds) ∧
  mg_n st = Z.of_nat (length ds) ∧ NoDup (cert_Raw <$> ds) ∧ ds `sublist_of` cs ∧
  ∀ raw, raw ∈ cert_Raw <$> cs → raw ∈ cert_Raw <$> ds.

Lemma encode_certs_snoc cs c : encode_certs (cs ++ [c]) = encode_certs cs +:+ encode_cert c.
Proof. unfold encode_certs. by rewrite foldl_snoc. Qed.
Lemma merge_cert_spec cs ds st c :
  merged cs ds st → ∃ ds', merged (cs ++ [c]) ds' (merge_cert st c).
Proof.
  intros (Ho & Hs & Hn & Hnd & Hsub & Hall). unfold merge_cert. rewrite Hs.
  case_bool_decide as Hin; rewrite elem_of_list_to_set in Hin.
  - exists ds. split_and!; [done..| |].
    + by apply sublist_inserts_r.
    + intros raw. rewrite fmap_app, elem_of_app. intros [?|Hr]; [by apply Hall|].
      apply list_elem_of_singleton in Hr as ->. done.
  - exists (ds ++ [c]). unfold merged. cbn [mg_out mg_seen mg_n].
    rewrite encode_certs_snoc, fmap_app, list_to_set_app_L, length_app.
    split_and!; [by rewrite Ho|cbn; set_solver|simpl; lia| |by apply sublist_app|].
    + apply NoDup_app. split_and!; [done| |apply NoDup_singleton].
      intros x Hx ->%list_elem_of_singleton. done.
    + intros raw. rewrite fmap_app, !elem_of_app. intros [?|?]; [left; by apply Hall|by right].
Qed.
Lemma merge_certs_spec cs ds st l :
  merged cs ds st → ∃ ds', merged (cs ++ l) ds' (foldl merge_cert st l).
Proof.
  revert cs ds st. induction l as [|c l IH]; intros cs ds st Hm; cbn [foldl].
  { rewrite app_nil_r. by exists ds. }
  destruct (merge_cert_spec cs ds st c Hm) as [ds1 Hm1].
  destruct (IH _ _ _ Hm1) as [ds2 Hm2]. exists ds2. by rewrite <-(assoc_L (++)) in Hm2.
Qed.
Lemma merge_loop_spec inputs cs ds st :
  merged cs ds st →
  match all_certs inputs with
  | Err e => merge_loop inputs st = Err e
  | Ok l => ∃ ds' st', merge_loop inputs st = Ok st' ∧ merged (cs ++ l) ds' st'
  end.
Proof.
  revert cs ds st. induction inputs as [|i inputs IH]; intros cs ds st Hm; cbn [all_certs merge_loop].
  { exists ds, st. by rewrite app_nil_r. }
  destruct (parsePEMCerts i) as [l|e]; cbn; [|done].
  destruct (merge_certs_spec cs ds st l Hm) as [ds1 Hm1]. specialize (IH _ _ _ Hm1).
  destruct (all_certs inputs) as [l'|e]; cbn; [|done].
  destruct IH as (ds' & st' & ? & Hm'). exists ds', st'. split; [done|].
  by rewrite <-(assoc_L (++)) in Hm'.
Qed.
Lemma all_certs_parsed inputs cs : all_certs inputs = Ok cs → Forall parsed cs.
Proof.
  revert cs. induction inputs as [|i inputs IH]; intros cs; cbn [all_certs]; [by intros [= <-]|].
  destruct (parsePEMCerts i) as [l|e] eqn:Hp; cbn; [|done].
  destruct (all_certs inputs) as [l'|e]; cbn; [|done]. intros [= <-].
  apply Forall_app. split; [by eapply parsePEMCerts_parsed|by apply IH].
Qed.

Lemma mergeCABundle_wf inputs :
  match all_certs inputs with
  | Err e => mergeCABundle inputs = Err e
  | Ok cs => ∃ ds, mergeCABundle inputs = Ok (encode_certs ds, Z.of_nat (length ds)) ∧
      parsePEMCerts (encode_certs ds) = Ok ds ∧ NoDup (cert_Raw <$> ds) ∧ ds `sublist_of` cs ∧
      ∀ raw, raw ∈ cert_Raw <$> ds ↔ raw ∈ cert_Raw <$> cs
  end.
Proof.
  assert (merged [] [] (mkMerge "" ∅ 0)) as H0 by (split_and!; [done..|constructor|done|done]).
  pose proof (merge_loop_spec inputs [] [] _ H0) as Hl. unfold mergeCABundle.
  destruct (all_certs inputs) as [cs|e] eqn:Hcs; [|by rewrite Hl].
  destruct Hl as (ds & st & -> & Ho & _ & Hn & Hnd & Hsub & Hall). cbn [app] in *.
  exists ds. rewrite Ho, Hn. split_and!; [done| |done|done|].
  - apply parse_encode. apply all_certs_parsed in Hcs.
    apply Forall_forall. intros c Hc. eapply Forall_forall; [exact Hcs|]. by eapply elem_of_sublist.
  - intros raw. split; [|apply Hall]. intros Hr.
    apply list_elem_of_fmap in Hr as (c & -> & Hc). apply list_elem_of_fmap_2. by eapply elem_of_sublist.
Qed.
End pem.

(** ** Which bundle is built *)
Section bundle.
Context `{X : GoX509}.

(** An additional CA as some read of the history returned it. *)
Definition secret_read (h : list event) (rd : source) (ns name key v : string) : Prop :=
  ∃ s : Secret, existT (AGet rd KSecret (mkKey ns name)) (Ok s) ∈ h ∧ sec_Data s !! key = Some v.
Definition configmap_read (h : list event) (rd : source) (ns name key v : string) : Prop :=
  ∃ c : ConfigMap, existT (AGet rd KConfigMap (mkKey ns name)) (Ok c) ∈ h ∧ cfm_Data c !! key = Some v.
Definition ca_read (h : list event) (rd : source) (ns : string) (src : TrustedCASource) (v : string) : Prop :=
  match tca_SecretRef src, tca_ConfigMapRef src with
  | Some ref, _ => secret_read h rd ns (ks_Name ref) (ks_Key ref) v
  | None, Some ref => configmap_read h rd ns (ks_Name ref) (ks_Key ref) v
  | None, None => False
  end.
(** An acceptable input: read, parsed, and holding a certificate. *)
Definition ca_input (h : list event) (rd : source) (ns : string) (src : TrustedCASource) (v : string) : Prop :=
  ca_read h rd ns src v ∧ ∃ c cs, parsePEMCerts v = Ok (c :: cs).

(** The bundle a cluster with TLS trusts, given the reads: its own CA first (unless its
    Secret does not exist yet), then every additional CA in order. *)
Definition bundle_built (h : list event) (rd : source) (cluster : RiakCluster) (tls : TLSConfig)
    (bundle : string) (n : Z) (missing : bool) : Prop :=
  ∃ own cas,
    mergeCABundle (own ++ cas) = Ok (bundle, n) ∧
    Forall2 (ca_input h rd (cl_Namespace cluster)) (tls_AdditionalClientCAs tls) cas ∧
    if missing then own = []
    else ∃ ca, own = [ca] ∧
         secret_read h rd (cl_Namespace cluster) (clusterTLSSecretName (cl_Name cluster)) "ca.crt" ca.

Lemma ca_read_mono h d rd ns src v : ca_read h rd ns src v → ca_read (d ++ h) rd ns src v.
Proof.
  unfold ca_read, secret_read, configmap_read.
  destruct (tca_SecretRef src), (tca_ConfigMapRef src); try done;
    intros (s & Hin & Hv); exists s; (split; [|done]); apply elem_of_app; by right.
Qed.
Lemma ca_input_mono h d rd ns src v : ca_input h rd ns src v → ca_input (d ++ h) rd ns src v.
Proof. intros [? ?]. split; [by apply ca_read_mono|done]. Qed.

Section wp.
Context (ok : list event → api → Prop) (rd : source).
Context (Hreads : ∀ h k key, ok h (AGet rd k key)).

Lemma readTrustedCA_wp ns src h :
  wp (trace_env ok) (readTrustedCA rd ns src)
    (λ r h', (∃ d, h' = d ++ h) ∧ ∀ v, r = Ok v → ca_read h' rd ns src v) h.
Proof.
  unfold readTrustedCA, ca_read.
  destruct (tca_SecretRef src) as [ref|]; [|destruct (tca_ConfigMapRef src) as [ref|]].
  - unfold get_from. apply wp_trace; [apply Hreads|]. intros r. apply wp_ret. split; [by eexists [_]|].
    intros v. destruct r as [s|e]; [|by destruct (IsNotFound e)].
    destruct (sec_Data s !! ks_Key ref) eqn:Hv; [|done]. intros [= <-]. exists s. split; [by left|done].
  - unfold get_from. apply wp_trace; [apply Hreads|]. intros r. apply wp_ret. split; [by eexists [_]|].
    intros v. destruct r as [s|e]; [|by destruct (IsNotFound e)].
    destruct (cfm_Data s !! ks_Key ref) eqn:Hv; [|done]. intros [= <-]. exists s. split; [by left|done].
  - apply wp_ret. split; [by exists []|done].
Qed.

Lemma trusted_inputs_wp ns srcs own h :
  wp (trace_env ok) (for_each srcs own (trusted_input rd ns))
    (λ o h', (∃ d, h' = d ++ h) ∧
       match o with
       | inl _ => True
       | inr inputs => ∃ cas, inputs = own ++ cas ∧ Forall2 (ca_input h' rd ns) srcs cas
       end) h.
Proof.
  eapply wp_mono.
  - apply (wp_for_each _ srcs own _
      (λ l inputs h', (∃ d, h' = d ++ h) ∧ ∃ cas, inputs = own ++ cas ∧ Forall2 (ca_input h' rd ns) l cas)
      (λ _ h', ∃ d, h' = d ++ h)).
    { split; [by exists []|]. exists []. by rewrite app_nil_r. }
    intros visited src rest inputs h1 _ ([d1 ->] & cas & -> & Hcas). unfold trusted_input.
    eapply wp_bind_2; [apply readTrustedCA_wp|]. intros r h2 ([d2 ->] & Hr). apply wp_ret.
    assert (∃ d, d2 ++ d1 ++ h = d ++ h) as Hd by (exists (d2 ++ d1); by rewrite (assoc_L (++))).
    destruct r as [v|e]; [|done]. destruct (parsePEMCerts v) as [[|c cs]|e] eqn:Hp; try done.
    split; [done|]. exists (cas ++ [v]). rewrite (assoc_L (++)). split; [done|].
    apply Forall2_app.
    + eapply Forall2_impl; [exact Hcas|]. intros. by apply ca_input_mono.
    + constructor; [|constructor]. split; [by apply Hr|by eexists _, _].
  - intros [e|inputs] h'; [done|]. by intros [? ?].
Qed.

Lemma buildTrustBundle_wp cluster tls h :
  cs_TLS (cl_Spec cluster) = Some tls → tls_Enabled tls = true →
  wp (trace_env ok) (buildTrustBundle rd cluster)
    (λ r h', (∃ d, h' = d ++ h) ∧
       ∀ b n missing, r = Ok (b, n, missing) → bundle_built h' rd cluster tls b n missing) h.
Proof.
  intros Htls Hen. unfold buildTrustBundle. rewrite Htls, Hen. cbn [negb].
  unfold get_from. apply wp_trace; [apply Hreads|]. intros r.
  match goal with |- wp _ _ _ ?x => set (h1 := x) end.
  assert (∃ d, h1 = d ++ h) as H1 by by eexists [_].
  match goal with |- wp _ (match ?x with _ => _ end) _ _ => destruct x as [[own missing]|e] eqn:Hown end;
    [|by apply wp_ret].
  eapply wp_bind_2; [apply trusted_inputs_wp|]. intros o h2 ([d ->] & Ho). apply wp_ret.
  destruct H1 as [d1 H1]. split; [exists (d ++ d1); rewrite H1; by rewrite (assoc_L (++))|].
  destruct o as [e|inputs]; [done|]. destruct Ho as (cas & -> & Hcas). intros b n m.
  destruct (mergeCABundle (own ++ cas)) as [[b' n']|e] eqn:Hm; [|done]. intros [= <- <- <-].
  exists own, cas. split; [done|]. split; [done|].
  destruct r as [s|e].
  - destruct (sec_Data s !! "ca.crt") as [ca|] eqn:Hca; [|done]. injection Hown as <- <-.
    exists ca. split; [done|]. exists s. split; [|done]. apply elem_of_app. right. by left.
  - destruct (IsNotFound e); [|done]. by injection Hown as <- <-.
Qed.
End wp.
End bundle.

(** ** When the trust Secret is written *)
Section reconcile.
Context `{X : GoX509} `{L : KubeLib}.
Context (apiReader : bool) (cluster : RiakCluster).
Let rd : source := reader apiReader.

Definition trust_key : ObjectKey := mkKey (cl_Namespace cluster) (clusterTrustSecretName (cl_Name cluster)).

(** The calls allowed: reads; creating the Secret after it was reported missing; replacing
    its data when it differs. Both write a bundle built with the cluster's own CA. *)
Definition trust_ok (h : list event) (a : api) : Prop :=
  match a with
  | AGet _ _ _ => True
  | ACreate k o =>
      match k return obj k → Prop with
      | KSecret => λ s, ∃ tls b n e,
          cs_TLS (cl_Spec cluster) = Some tls ∧ bundle_built h rd cluster tls b n false ∧
          existT (AGet rd KSecret trust_key) (Err e) ∈ h ∧ IsNotFound e = true ∧
          trust_secret cluster b = Ok s
      | _ => λ _, False
      end o
  | AUpdate k o =>
      match k return obj k → Prop with
      | KSecret => λ s, ∃ tls b n old,
          cs_TLS (cl_Spec cluster) = Some tls ∧ bundle_built h rd cluster tls b n false ∧
          existT (AGet rd KSecret trust_key) (Ok old) ∈ h ∧
          sec_Data old !! trustBundleKey ≠ Some b ∧
          s = mkSecret (sec_Meta old) {[trustBundleKey := b]}
      | _ => λ _, False
      end o
  | _ => False
  end.

(** The Secret was seen to hold [b], or was successfully written with it. *)
Definition trust_stored (h : list event) (b : string) : Prop :=
  (∃ old : Secret, existT (AGet rd KSecret trust_key) (Ok old) ∈ h ∧
                   default "" (sec_Data old !! trustBundleKey) = b) ∨
  (∃ s : Secret, existT (ACreate KSecret s) None ∈ h ∧ trust_secret cluster b = Ok s) ∨
  (∃ s s' : Secret, existT (AUpdate KSecret s) (Ok s') ∈ h ∧ sec_Data s = {[trustBundleKey := b]}).

Lemma bundle_built_mono h d tls b n m :
  bundle_built h rd cluster tls b n m → bundle_built (d ++ h) rd cluster tls b n m.
Proof.
  intros (own & cas & Hm & Hcas & Hown). exists own, cas. split; [done|]. split.
  - eapply Forall2_impl; [exact Hcas|]. intros. by apply ca_input_mono.
  - destruct m; [done|]. destruct Hown as (ca & -> & s & Hin & Hv). exists ca. split; [done|].
    exists s. split; [|done]. apply elem_of_app. by right.
Qed.

Lemma reconcileTrustBundle_wp :
  wp (trace_env trust_ok) (reconcileTrustBundle apiReader cluster)
    (λ r h, r = None → hasAdditionalClientCAs cluster = true →
       ∃ tls b n missing, cs_TLS (cl_Spec cluster) = Some tls ∧
         bundle_built h rd cluster tls b n missing ∧ (missing = true ∨ trust_stored h b)) [].
Proof.
  unfold reconcileTrustBundle. fold rd. unfold hasAdditionalClientCAs.
  destruct (cs_TLS (cl_Spec cluster)) as [tls|] eqn:Htls; [|by apply wp_ret].
  destruct (tls_Enabled tls) eqn:Hen; [|by apply wp_ret].
  cbn [andb]. destruct (0 <? _)%nat; [|by apply wp_ret]. cbn [negb].
  eapply wp_bind_2; [apply (buildTrustBundle_wp trust_ok rd); [by intros|exact Htls|exact Hen]|].
  intros r h ([d Hd] & Hb). destruct r as [[[b n] missing]|e]; [|by apply wp_ret].
  specialize (Hb b n missing eq_refl).
  destruct missing; [apply wp_ret; intros _ _; exists tls, b, n, true; split; [done|]; split; [done|by left]|].
  unfold get_from. apply wp_trace; [done|]. fold trust_key. intros [old|e].
  - destruct (String.eqb_spec (default "" (sec_Data old !! trustBundleKey)) b) as [He|Hne].
    + apply wp_ret. intros _ _. exists tls, b, n, false. split; [done|]. split.
      { by apply (bundle_built_mono h [_]). }
      right. left. exists old. split; [by left|done].
    + apply wp_trace.
      * exists tls, b, n, old. split; [done|]. split; [by apply (bundle_built_mono h [_])|].
        split; [by left|]. split; [|done]. intros Hs. by rewrite Hs in Hne.
      * intros [s'|e]; apply wp_ret; [|done]. intros _ _. exists tls, b, n, false. split; [done|].
        split; [by apply (bundle_built_mono h [_; _])|]. right. right. right.
        eexists _, s'. split; [by left|done].
  - destruct (IsNotFound e) eqn:Hnf; [|by apply wp_ret].
    destruct (trust_secret cluster b) as [s|e'] eqn:Hts; [|by apply wp_ret].
    apply wp_trace_last.
    + exists tls, b, n, e. split; [done|]. split; [by apply (bundle_built_mono h [_])|].
      split; [by left|]. by split.
    + intros r -> _. exists tls, b, n, false. split; [done|].
      split; [by apply (bundle_built_mono h [_; _])|]. right. right. left.
      exists s. split; [by left|done].
Qed.
End reconcile.

(** ** Who is let in *)
Section external.
Context `{X : GoX509}.

(** An accepted client certificate: right name, valid for client authentication at [now],
    chained to the certificates of [bundle]; [notAfter] is its expiry. *)
Definition accepted (crt username bundle : string) (now notAfter : time) : Prop :=
  ∃ leaf inter, parsePEMCerts crt = Ok (leaf :: inter) ∧ cert_CommonName leaf = username ∧
    x509_PoolFromPEM bundle ≠ [] ∧
    x509_Verify leaf (x509_PoolFromPEM bundle) inter now = None ∧ notAfter = cert_NotAfter leaf.

Lemma verifyClientCert_ok crt username roots now t :
  verifyClientCert crt username roots now = Ok t ↔
  ∃ leaf inter, parsePEMCerts crt = Ok (leaf :: inter) ∧ cert_CommonName leaf = username ∧
    x509_Verify leaf roots inter now = None ∧ t = cert_NotAfter leaf.
Proof.
  unfold verifyClientCert. destruct (parsePEMCerts crt) as [[|leaf inter]|e].
  - split; [done|]. by intros (? & ? & ? & _).
  - destruct (String.eqb_spec (cert_CommonName leaf) username) as [Hcn|Hcn]; cbn [negb].
    + destruct (x509_Verify leaf roots inter now) eqn:Hv.
      * split; [done|]. intros (l & i & [= <- <-] & _ & Hv' & _). congruence.
      * split; [intros [= <-]; by exists leaf, inter|].
        by intros (l & i & [= <- <-] & _ & _ & ->).
    + split; [done|]. intros (l & i & [= <- <-] & Hcn' & _). congruence.
  - split; [done|]. by intros (? & ? & ? & _).
Qed.

Lemma externalCertificateReadiness_wp ok rd user name cluster tls now h :
  (∀ h k key, ok h (AGet rd k key)) →
  cs_TLS (cl_Spec cluster) = Some tls → tls_Enabled tls = true →
  wp (trace_env ok) (externalCertificateReadiness rd user name cluster now)
    (λ r h', match r with
             | (true, why, t) => why = "" ∧ ∃ crt bundle n missing notAfter,
                 t = Some notAfter ∧
                 secret_read h' rd (om_Namespace (us_Meta user)) name "tls.crt" crt ∧
                 bundle_built h' rd cluster tls bundle n missing ∧
                 accepted crt (us_Username (us_Spec user)) bundle now notAfter
             | (false, _, t) => t = None
             end) h.
Proof.
  intros Hok Htls Hen. unfold externalCertificateReadiness, get_from.
  apply wp_trace; [apply Hok|]. intros [s|e]; [|by apply wp_ret].
  destruct (sec_Data s !! "tls.crt") as [crt|] eqn:Hcrt; [|by apply wp_ret].
  eapply wp_bind_2; [by apply (buildTrustBundle_wp _ rd Hok cluster tls)|].
  intros r h' ([d ->] & Hb). apply wp_ret. destruct r as [[[bundle n] missing]|e]; [|done].
  destruct (x509_PoolFromPEM bundle) as [|root roots] eqn:Hpool; [done|].
  destruct (verifyClientCert crt _ _ now) as [t|e] eqn:Hv; [|done].
  split; [done|]. exists crt, bundle, n, missing, t. split; [done|]. split.
  { exists s. split; [|done]. apply elem_of_app. right. by left. }
  split; [by apply Hb|]. apply verifyClientCert_ok in Hv as (leaf & inter & ? & ? & ? & ->).
  exists leaf, inter. rewrite Hpool. by split_and!.
Qed.
End external.

(** ** A PEM and X.509 to evaluate with

    A block is its type and bytes, each byte marked; a certificate is its subject, expires
    at 100 and verifies against any pool until then. *)
Fixpoint mark (s : string) : string :=
  match s with EmptyString => "0" | String a s' => String "1" (String a (mark s')) end.
Fixpoint unmark (s : string) : option (string * string) :=
  match s with
  | String "0" s' => Some ("", s')
  | String "1" (String a s') => '(x, rest) ← unmark s'; Some (String a x, rest)
  | _ => None
  end.
Definition demo_decode (d : string) : option (pem_block * string) :=
  '(t, r1) ← unmark d; '(b, r2) ← unmark r1; Some (mkPemBlock t b, r2).
Definition demo_encode (b : pem_block) : string := mark (pb_Type b) +:+ mark (pb_Bytes b).
Definition demo_x509 : GoX509 := {|
  x509_Certificate := string;
  pem_Decode := demo_decode;
  pem_Encode := demo_encode;
  x509_ParseCertificate := λ raw, Ok raw;
  cert_Raw := id;
  cert_CommonName := id;
  cert_NotAfter := λ _, 100%Z;
  x509_Verify := λ _ _ _ now, if (now <=? 100)%Z then None else Some (Errorf "expired");
  x509_PoolFromPEM := λ b, match demo_decode b with Some (b, _) => [pb_Bytes b] | None => [] end
|}.
Lemma unmark_mark s rest : unmark (mark s +:+ rest) = Some (s, rest).
Proof. induction s as [|a s IH]; [done|]. cbn [mark]. rewrite !Str.app_cons. cbn [unmark]. by rewrite IH. Qed.
Lemma unmark_shorter d x rest : unmark d = Some (x, rest) → (String.length rest < String.length d)%nat.
Proof.
  revert x rest. assert (∀ n d x rest, (String.length d ≤ n)%nat → unmark d = Some (x, rest) →
    (String.length rest < String.length d)%nat) as Hgen; [|intros; by eapply Hgen].
  clear. induction n as [|n IH]; intros d x rest Hn; [destruct d; [done|simpl in Hn; lia]|].
  destruct d as [|c d]; [done|]. cbn [unmark].
  destruct c as [[] [] [] [] [] [] [] []]; try done.
  - destruct d as [|a d]; [done|]. destruct (unmark d) as [[y r]|] eqn:Hu; [|done].
    cbn. intros [= _ <-]. apply IH in Hu; simpl in *; lia.
  - intros [= _ <-]. simpl. lia.
Qed.
Lemma demo_x509_laws : GoX509Laws demo_x509.
Proof.
  split; cbn.
  - intros d b rest. unfold demo_decode.
    destruct (unmark d) as [[t r1]|] eqn:H1; [|done]. cbn.
    destruct (unmark r1) as [[b' r2]|] eqn:H2; [|done]. cbn. intros [= _ <-].
    apply unmark_shorter in H1, H2. lia.
  - intros [t b] rest. unfold demo_decode, demo_encode. cbn. rewrite Str.app_assoc.
    rewrite unmark_mark. cbn. by rewrite unmark_mark.
  - done.
  - by intros raw c [= ->].
Qed.
Definition demo_pem (names : list string) : string :=
  foldr (λ n s, demo_encode (mkPemBlock CERTIFICATE n) +:+ s) "" names.

(** ** Properties *)

(** C20: [mergeCABundle] concatenates the CA certificates of its inputs without duplicates:
    if every input parses, the bundle parses back to a sub-sequence of the inputs'
    certificates that holds each distinct certificate exactly once, and the count is
    their number; otherwise the first parse error is returned. *)
Theorem mergeCABundle_correct (X : GoX509) (LX : GoX509Laws X) (inputs : list string) :
  match all_certs inputs with
  | Err e => mergeCABundle inputs = Err e
  | Ok cs => ∃ ds bundle, mergeCABundle inputs = Ok (bundle, Z.of_nat (length ds)) ∧
      parsePEMCerts bundle = Ok ds ∧ NoDup (cert_Raw <$> ds) ∧ ds `sublist_of` cs ∧
      ∀ raw, raw ∈ cert_Raw <$> ds ↔ raw ∈ cert_Raw <$> cs
  end.
Proof.
  pose proof (mergeCABundle_wf inputs) as H. destruct (all_certs inputs) as [cs|e]; [|done].
  destruct H as (ds & H). by exists ds, (encode_certs ds).
Qed.
Lemma mergeCABundle_correct_witness :
  @mergeCABundle demo_x509 [demo_pem ["a"; "b"]; demo_pem ["b"; "c"]] = Ok (demo_pem ["a"; "b"; "c"], 3%Z) ∧
  match @all_certs demo_x509 [demo_pem ["a"; "b"]; demo_pem ["b"; "c"]] with
  | Err e => @mergeCABundle demo_x509 [demo_pem ["a"; "b"]; demo_pem ["b"; "c"]] = Err e
  | Ok cs => ∃ ds bundle, @mergeCABundle demo_x509 [demo_pem ["a"; "b"]; demo_pem ["b"; "c"]] =
                            Ok (bundle, Z.of_nat (length ds)) ∧
      @parsePEMCerts demo_x509 bundle = Ok ds ∧ NoDup (@cert_Raw demo_x509 <$> ds) ∧ ds `sublist_of` cs ∧
      ∀ raw, raw ∈ @cert_Raw demo_x509 <$> ds ↔ raw ∈ @cert_Raw demo_x509 <$> cs
  end.
Proof.
  split; [by vm_compute|].
  apply (mergeCABundle_correct demo_x509 demo_x509_laws [demo_pem ["a"; "b"]; demo_pem ["b"; "c"]]).
Defined.

(** C18: whatever the API server answers, the trust Secret is only written with a bundle made
    of the cluster's own CA and every additional CA that was read, is created only after
    it was reported missing and replaced only when its content differs; a reconcile that
    reports success left the Secret holding that bundle, unless the cluster certificate
    has not been issued yet, in which case nothing is written. *)
Theorem reconcileTrustBundle_safe (X : GoX509) (L : KubeLib) (apiReader : bool) (cluster : RiakCluster) :
  wp (trace_env (trust_ok apiReader cluster)) (reconcileTrustBundle apiReader cluster)
    (λ r h, r = None → hasAdditionalClientCAs cluster = true →
       ∃ tls b n missing, cs_TLS (cl_Spec cluster) = Some tls ∧
         bundle_built h (reader apiReader) cluster tls b n missing ∧
         (missing = true ∨ trust_stored apiReader cluster h b)) [].
Proof. apply reconcileTrustBundle_wp. Qed.

(** C19: an externally issued client certificate is reported ready only if the Secret's
    certificate carries the user's name and verifies for client authentication, at the
    time given, against a bundle of the cluster's own CA and its additional CAs; the
    expiry returned is that certificate's. A certificate that is not ready has no expiry. *)
Theorem external_certificate_sound (X : GoX509) (ok : list event → api → Prop) (rd : source)
    (user : RiakUser) (name : string) (cluster : RiakCluster) (tls : TLSConfig) (now : time) :
  (∀ h k key, ok h (AGet rd k key)) →
  cs_TLS (cl_Spec cluster) = Some tls → tls_Enabled tls = true →
  wp (trace_env ok) (externalCertificateReadiness rd user name cluster now)
    (λ r h, match r with
            | (true, why, t) => why = "" ∧ ∃ crt bundle n missing notAfter,
                t = Some notAfter ∧
                secret_read h rd (om_Namespace (us_Meta user)) name "tls.crt" crt ∧
                bundle_built h rd cluster tls bundle n missing ∧
                accepted crt (us_Username (us_Spec user)) bundle now notAfter
            | (false, _, t) => t = None
            end) [].
Proof. apply externalCertificateReadiness_wp. Qed.
Lemma external_certificate_sound_witness :
  wp (trace_env any_call)
    (@externalCertificateReadiness demo_x509 Uncached sample_user "alice-cert" tls_cluster 50)
    (λ r h, match r with
            | (true, why, t) => why = "" ∧ ∃ crt bundle n missing notAfter,
                t = Some notAfter ∧
                secret_read h Uncached "db" "alice-cert" "tls.crt" crt ∧
                @bundle_built demo_x509 h Uncached tls_cluster sample_tls bundle n missing ∧
                @accepted demo_x509 crt "alice" bundle 50 notAfter
            | (false, _, t) => t = None
            end) [] ∧
  (∃ t, @verifyClientCert demo_x509 (demo_pem ["alice"]) "alice" ["ca"] 50 = Ok t).
Proof.
  split; [|by exists 100%Z].
  apply (external_certificate_sound demo_x509 any_call Uncached sample_user "alice-cert" tls_cluster
           sample_tls 50); done.
Defined.
