(* ===== verification/Monitoring.v ===== *)
(** * Metrics exporter and scrape objects ([internal/controller/monitoring.go]) *)
From S2P Require Import Prelude GoLib Effects Types KubeTypes Kube KubeLib Status.

Definition riakMetricsPortName : string := "metrics".
Definition riakMetricsPort : Z := 7979.
Definition exporterContainerName : string := "metrics-exporter".
Definition defaultExporterImage : string := "quay.io/prometheuscommunity/json-exporter:v0.6.0".
Definition riakStatsURL : string := "http://127.0.0.1:8098/stats".

Definition monitoringEnabled (cluster : RiakCluster) : bool :=
  match cs_Monitoring (cl_Spec cluster) with Some m => mon_Enabled m | None => false end.
Definition exporterConfigMapName (clusterName : string) : string := clusterName +:+ "-metrics-exporter".

(** The fields of Riak's stats the exporter maps, and their help texts: each field [f]
    becomes the metric [riak_f] with the JSONPath [{.f}]. *)
Definition exporter_metrics : list (string * string) :=
  [("node_gets", "GETs coordinated by this node in the last minute");
   ("node_gets_total", "Total GETs coordinated by this node");
   ("node_puts", "PUTs coordinated by this node in the last minute");
   ("node_puts_total", "Total PUTs coordinated by this node");
   ("node_get_fsm_time_mean", "Mean GET latency (microseconds) over the last minute");
   ("node_get_fsm_time_median", "Median GET latency (microseconds) over the last minute");
   ("node_get_fsm_time_95", "95th percentile GET latency (microseconds) over the last minute");
   ("node_get_fsm_time_99", "99th percentile GET latency (microseconds) over the last minute");
   ("node_get_fsm_time_100", "Maximum GET latency (microseconds) over the last minute");
   ("node_put_fsm_time_mean", "Mean PUT latency (microseconds) over the last minute");
   ("node_put_fsm_time_median", "Median PUT latency (microseconds) over the last minute");
   ("node_put_fsm_time_95", "95th percentile PUT latency (microseconds) over the last minute");
   ("node_put_fsm_time_99", "99th percentile PUT latency (microseconds) over the last minute");
   ("node_put_fsm_time_100", "Maximum PUT latency (microseconds) over the last minute");
   ("vnode_gets", "vnode GET operations in the last minute");
   ("vnode_gets_total", "Total vnode GET operations");
   ("vnode_puts", "vnode PUT operations in the last minute");
   ("vnode_puts_total", "Total vnode PUT operations");
   ("read_repairs", "Read repairs in the last minute");
   ("read_repairs_total", "Total read repairs");
   ("coord_redirs_total", "Total coordinator redirects to other nodes");
   ("pbc_active", "Active protocol buffers connections");
   ("pbc_connects_total", "Total protocol buffers connections");
   ("node_get_fsm_objsize_99", "99th percentile object size (bytes) fetched in the last minute");
   ("memory_processes", "Memory (bytes) used by Erlang processes");
   ("memory_system", "Memory (bytes) allocated by the Erlang VM");
   ("sys_process_count", "Number of Erlang processes");
   ("ring_num_partitions", "Ring size")].
Definition exporter_entry (m : string * string) : string :=
  "      - name: riak_" +:+ m.1 +:+ sep_of nl +:+
  "        path: " +:+ dquote +:+ "{." +:+ m.1 +:+ "}" +:+ dquote +:+ sep_of nl +:+
  "        help: " +:+ m.2 +:+ sep_of nl.
Definition exporterConfig : string :=
  "modules:" +:+ sep_of nl +:+ "  riak:" +:+ sep_of nl +:+ "    metrics:" +:+ sep_of nl +:+
  foldr (λ m s, exporter_entry m +:+ s) "" exporter_metrics.

Definition customMetricsConfig (cluster : RiakCluster) : option KeySelector :=
  mcs_ConfigMapKeyRef <$> (cs_Monitoring (cl_Spec cluster) ≫= mon_MetricsConfig).

(** ** The exporter's configuration *)
Section monitoring.
Context `{L : KubeLib}.

Definition exporter_cm_mutate (cluster : RiakCluster) (cm : ConfigMap) : res ConfigMap :=
  m ← SetControllerReference "RiakCluster" (cl_Meta cluster) (cfm_Meta cm);
  mret (mkConfigMap m {["config.yml" := exporterConfig]} (cfm_BinaryData cm)).

Definition reconcileMonitoringConfigMap (cluster : RiakCluster) : M (option error) :=
  match customMetricsConfig cluster with
  | Some ref =>
      r ← Get KConfigMap (mkKey (cl_Namespace cluster) (ks_Name ref));
      match r with
      | Err e =>
          mret (Some (if IsNotFound e
                      then Errorf ("spec.monitoring.metricsConfig: ConfigMap " +:+ Quote (ks_Name ref) +:+
                                   " not found")
                      else e))
      | Ok cm =>
          let inData := bool_decide (is_Some (cfm_Data cm !! ks_Key ref)) in
          let inBinary := bool_decide (is_Some (cfm_BinaryData cm !! ks_Key ref)) in
          if negb inData && negb inBinary
          then mret (Some (Errorf ("spec.monitoring.metricsConfig: ConfigMap " +:+ Quote (ks_Name ref) +:+
                                   " has no key " +:+ Quote (ks_Key ref))))
          else
            e ← Delete KConfigMap (mkKey (cl_Namespace cluster) (exporterConfigMapName (cl_Name cluster)));
            mret (IgnoreNotFound e)
      end
  | None =>
      CreateOrUpdate KConfigMap (mkKey (cl_Namespace cluster) (exporterConfigMapName (cl_Name cluster)))
        (exporter_cm_mutate cluster)
  end.

(** ** The sidecar *)
Definition exporterContainer (mon : MonitoringConfig) : Container :=
  {| ct_Name := exporterContainerName;
     ct_Image := if String.eqb (mon_ExporterImage mon) "" then defaultExporterImage
                 else mon_ExporterImage mon;
     ct_ImagePullPolicy := "";
     ct_Command := [];
     ct_Args := ["--config.file=/config/config.yml"];
     ct_Stdin := false;
     ct_TTY := false;
     ct_Ports := [mkContainerPort riakMetricsPortName riakMetricsPort "TCP"];
     ct_Env := [];
     ct_Resources := mkResourceRequirements {["cpu" := "10m"; "memory" := "32Mi"]}
                       {["cpu" := "100m"; "memory" := "64Mi"]};
     ct_VolumeMounts := [mkVolumeMount "metrics-exporter-config" "/config" true];
     ct_SecurityContext := None;
     ct_LivenessProbe := None;
     ct_ReadinessProbe := Some (mkProbe (FromInt riakMetricsPort) 5 10 0 0) |}.
Definition exporterConfigVolume (cluster : RiakCluster) : Volume :=
  mkVolume "metrics-exporter-config"
    match customMetricsConfig cluster with
    | Some ref => VolConfigMap (ks_Name ref) [mkKeyToPath (ks_Key ref) "config.yml"]
    | None => VolConfigMap (exporterConfigMapName (cl_Name cluster)) []
    end.
Definition monitoringSidecars (cluster : RiakCluster) : list Container :=
  match cs_Monitoring (cl_Spec cluster) with
  | Some mon => if mon_Enabled mon then [exporterContainer mon] else []
  | None => []
  end.

(** ** Scrape objects *)
Definition serviceMonitorGVK : GVK := mkGVK "monitoring.coreos.com" "v1" "ServiceMonitor".
Definition podMonitorGVK : GVK := mkGVK "monitoring.coreos.com" "v1" "PodMonitor".

Definition scrapeKind (cluster : RiakCluster) : string :=
  match cs_Monitoring (cl_Spec cluster) with
  | None => ScrapeKindPodMonitor
  | Some m => if String.eqb (mon_ScrapeKind m) "" then ScrapeKindPodMonitor else mon_ScrapeKind m
  end.
Definition scrapeObjectName (cluster : RiakCluster) : string := cl_Name cluster +:+ "-metrics".
Definition scrape_key (cluster : RiakCluster) : ObjectKey :=
  mkKey (cl_Namespace cluster) (scrapeObjectName cluster).

Definition exporterEndpoint : json :=
  JMap [("port", JStr riakMetricsPortName);
        ("path", JStr "/probe");
        ("params", JMap [("module", JList [JStr "riak"]); ("target", JList [JStr riakStatsURL])]);
        ("interval", JStr "30s")].

Definition monitor_spec (cluster : RiakCluster) (gvk : GVK) (endpointsField : string) : json :=
  JMap [("selector", JMap [("matchLabels", JMap [("app", JStr "riak"); ("cluster", JStr (cl_Name cluster))])]);
        (endpointsField, JList [exporterEndpoint]);
        (if decide (gvk = podMonitorGVK) then "podTargetLabels" else "targetLabels", JList [JStr "cluster"])].
Definition monitor_mutate (cluster : RiakCluster) (gvk : GVK) (endpointsField : string)
    (o : Unstructured) : res Unstructured :=
  m ← SetControllerReference "RiakCluster" (cl_Meta cluster) (un_Meta o);
  mret (mkUnstructured (un_GVK o) m
          (set_field (un_Fields o) "spec" (monitor_spec cluster gvk endpointsField))).

Definition reconcileMonitor (cluster : RiakCluster) (gvk : GVK) (endpointsField : string)
    : M (option error) :=
  e ← CreateOrUpdate (KUnstructured gvk) (scrape_key cluster) (monitor_mutate cluster gvk endpointsField);
  mret match e with
       | Some e' => if IsNoMatchError e' then None else Some e'
       | None => None
       end.
Definition reconcileServiceMonitor (cluster : RiakCluster) : M (option error) :=
  reconcileMonitor cluster serviceMonitorGVK "endpoints".
Definition reconcilePodMonitor (cluster : RiakCluster) : M (option error) :=
  reconcileMonitor cluster podMonitorGVK "podMetricsEndpoints".

Definition deleteMonitor (cluster : RiakCluster) (gvk : GVK) : M (option error) :=
  e ← Delete (KUnstructured gvk) (scrape_key cluster);
  mret match e with
       | None => None
       | Some e' => if IsNotFound e' || IsNoMatchError e' then None else Some e'
       end.

(** [if err = a(); err == nil { err = b() }] *)
Definition and_then (a b : M (option error)) : M (option error) :=
  e ← a;
  match e with Some e' => mret (Some e') | None => b end.

Definition reconcileScrapeObject (cluster : RiakCluster) : M (option error) :=
  if String.eqb (scrapeKind cluster) ScrapeKindServiceMonitor
  then and_then (reconcileServiceMonitor cluster) (deleteMonitor cluster podMonitorGVK)
  else if String.eqb (scrapeKind cluster) ScrapeKindNone
  then and_then (deleteMonitor cluster serviceMonitorGVK) (deleteMonitor cluster podMonitorGVK)
  else and_then (reconcilePodMonitor cluster) (deleteMonitor cluster serviceMonitorGVK).
End monitoring.

(** ** The scrape objects of a cluster

    [monitor_env crd]: the API server as far as the cluster's two possible monitors go.
    [crd] says which kinds are installed; the state which monitors exist. A call may fail
    for any reason without effect, but "no such kind" is only said of an absent CRD. *)
Record monitors := mkMonitors { has_pod : bool; has_service : bool }.
Definition has (s : monitors) (g : GVK) : bool :=
  if decide (g = podMonitorGVK) then has_pod s
  else if decide (g = serviceMonitorGVK) then has_service s else false.
Definition set_has (s : monitors) (g : GVK) (b : bool) : monitors :=
  if decide (g = podMonitorGVK) then mkMonitors b (has_service s)
  else if decide (g = serviceMonitorGVK) then mkMonitors (has_pod s) b else s.

Section scrape.
Context `{L : KubeLib}.
Context (crd : GVK → bool) (cluster : RiakCluster).

Definition known_monitor (g : GVK) : Prop := g = podMonitorGVK ∨ g = serviceMonitorGVK.
Definition monitor_ok (_ : monitors) (a : api) : Prop :=
  match a with
  | ACreateOrUpdate k key _ => key = scrape_key cluster ∧ ∃ g, k = KUnstructured g ∧ known_monitor g
  | ADelete k key => key = scrape_key cluster ∧ ∃ g, k = KUnstructured g ∧ known_monitor g
  | _ => False
  end.
Definition created (g : GVK) (s : monitors) (r : option error) (s' : monitors) : Prop :=
  match r with
  | None => crd g = true ∧ s' = set_has s g true
  | Some e => s' = s ∧ (IsNoMatchError e = true → crd g = false)
  end.
Definition deleted (g : GVK) (s : monitors) (r : option error) (s' : monitors) : Prop :=
  match r with
  | None => s' = set_has s g false
  | Some e => s' = s ∧ (IsNoMatchError e = true → crd g = false) ∧ (IsNotFound e = true → has s g = false)
  end.
Definition monitor_env : Env reply monitors := {|
  allowed := monitor_ok;
  step := λ s a, match a as a' return reply a' → monitors → Prop with
                 | ACreateOrUpdate k _ _ =>
                     match k with KUnstructured g => created g s | _ => λ _ _, False end
                 | ADelete k _ => match k with KUnstructured g => deleted g s | _ => λ _ _, False end
                 | _ => λ _ _, False
                 end
|}.

(** Only installed kinds have objects. *)
Definition installed (s : monitors) : Prop := ∀ g, known_monitor g → has s g = true → crd g = true.

Lemma has_set_has s g b : known_monitor g → has (set_has s g b) g = b.
Proof. by intros [-> | ->]. Qed.
Lemma has_set_has_ne s g g' b : g ≠ g' → has (set_has s g b) g' = has s g'.
Proof.
  intros Hne. unfold has, set_has. repeat case_decide; simpl; congruence.
Qed.
Lemma installed_set s g b :
  known_monitor g → (b = true → crd g = true) → installed s → installed (set_has s g b).
Proof.
  intros Hg Hb Hi g' Hg'. destruct (decide (g = g')) as [->|Hne].
  - rewrite has_set_has by done. exact Hb.
  - rewrite has_set_has_ne by done. by apply Hi.
Qed.

Lemma reconcileMonitor_wp g field s :
  known_monitor g → installed s →
  wp monitor_env (reconcileMonitor cluster g field)
    (λ r s', installed s' ∧ (∀ g', g' ≠ g → has s' g' = has s g') ∧
             (r = None → has s' g = crd g)) s.
Proof.
  intros Hg Hi. unfold reconcileMonitor, CreateOrUpdate.
  apply wp_call; [by split; [|exists g]|]. intros [e|] s'.
  - intros [-> Hcrd]. apply wp_ret. split_and!; [done..|].
    destruct (IsNoMatchError e); [|done]. intros _. specialize (Hcrd eq_refl). rewrite Hcrd.
    destruct (has s g) eqn:Hh; [|done]. rewrite (Hi g) in Hcrd; done.
  - intros [Hcrd ->]. apply wp_ret. split_and!.
    + by apply installed_set.
    + intros g' Hne. by rewrite has_set_has_ne.
    + intros _. by rewrite has_set_has, Hcrd.
Qed.
Lemma deleteMonitor_wp g s :
  known_monitor g → installed s →
  wp monitor_env (deleteMonitor cluster g)
    (λ r s', installed s' ∧ (∀ g', g' ≠ g → has s' g' = has s g') ∧
             (r = None → has s' g = false)) s.
Proof.
  intros Hg Hi. unfold deleteMonitor, Delete.
  apply wp_call; [by split; [|exists g]|]. intros [e|] s'.
  - intros (-> & Hcrd & Hnf). apply wp_ret. split_and!; [done..|].
    destruct (IsNotFound e); [intros _; by apply Hnf|].
    destruct (IsNoMatchError e); [|done]. intros _. specialize (Hcrd eq_refl).
    destruct (has s g) eqn:Hh; [|done]. rewrite (Hi g) in Hcrd; done.
  - intros ->. apply wp_ret. split_and!.
    + by apply installed_set.
    + intros g' Hne. by rewrite has_set_has_ne.
    + intros _. by rewrite has_set_has.
Qed.
Lemma wp_and_then (a b : M (option error)) Q1 (Q : option error → monitors → Prop) s :
  wp monitor_env a Q1 s → (∀ e s', Q1 (Some e) s' → Q (Some e) s') →
  (∀ s', Q1 None s' → wp monitor_env b Q s') → wp monitor_env (and_then a b) Q s.
Proof.
  intros Ha He Hb. unfold and_then. eapply wp_bind_2; [exact Ha|].
  intros [e|] s' H; [by apply wp_ret, He|by apply Hb].
Qed.

(** The kinds [scrapeKind] selects. *)
Definition selected (g : GVK) : bool :=
  if decide (g = serviceMonitorGVK) then String.eqb (scrapeKind cluster) ScrapeKindServiceMonitor
  else negb (String.eqb (scrapeKind cluster) ScrapeKindServiceMonitor) &&
       negb (String.eqb (scrapeKind cluster) ScrapeKindNone).

Lemma reconcileScrapeObject_wp s :
  installed s →
  wp monitor_env (reconcileScrapeObject cluster)
    (λ r s', installed s' ∧ (r = None → ∀ g, known_monitor g → has s' g = selected g && crd g)) s.
Proof.
  intros Hi. unfold reconcileScrapeObject, selected.
  assert (podMonitorGVK ≠ serviceMonitorGVK) as Hne by done.
  assert (known_monitor podMonitorGVK ∧ known_monitor serviceMonitorGVK) as [Kp Ks]
    by (split; [by left|by right]).
  destruct (String.eqb (scrapeKind cluster) ScrapeKindServiceMonitor); cbn [negb andb].
  { eapply wp_and_then; [by apply reconcileMonitor_wp|by intros e s' (? & _)|].
    intros s1 (Hi1 & _ & Hh1). eapply wp_mono; [by apply deleteMonitor_wp|].
    intros r s2 (Hi2 & Hk2 & Hh2). split; [done|]. intros Hr g [-> | ->].
    - by rewrite Hh2.
    - by rewrite Hk2, Hh1 by done. }
  destruct (String.eqb (scrapeKind cluster) ScrapeKindNone); cbn [negb].
  { eapply wp_and_then; [by apply deleteMonitor_wp|by intros e s' (? & _)|].
    intros s1 (Hi1 & _ & Hh1). eapply wp_mono; [by apply deleteMonitor_wp|].
    intros r s2 (Hi2 & Hk2 & Hh2). split; [done|]. intros Hr g [-> | ->].
    - by rewrite Hh2.
    - by rewrite Hk2, Hh1 by done. }
  eapply wp_and_then; [by apply reconcileMonitor_wp|by intros e s' (? & _)|].
  intros s1 (Hi1 & _ & Hh1). eapply wp_mono; [by apply deleteMonitor_wp|].
  intros r s2 (Hi2 & Hk2 & Hh2). split; [done|]. intros Hr g [-> | ->].
  - by rewrite Hk2, Hh1 by done.
  - by rewrite Hh2.
Qed.
End scrape.

(** ** Properties *)

(** C29: when [reconcileScrapeObject] succeeds, exactly the monitor selected by
    [spec.monitoring.scrapeKind] exists, if its CRD is installed, and the other kind does
    not: switching kinds, or to None, leaves no object that would scrape twice. Only
    this cluster's two monitors are ever written or deleted. *)
Theorem reconcileScrapeObject_exact (L : KubeLib) (crd : GVK → bool) (cluster : RiakCluster) (s : monitors) :
  installed crd s →
  wp (monitor_env crd cluster) (reconcileScrapeObject cluster)
    (λ r s', installed crd s' ∧
             (r = None → ∀ g, known_monitor g → has s' g = selected cluster g && crd g)) s.
Proof. apply reconcileScrapeObject_wp. Qed.
Lemma reconcileScrapeObject_exact_witness :
  let c := mkRiakCluster (new_meta "c" "db")
    (mkRiakClusterSpec 1 "" "" None "" None false ∅ None
       (Some (mkMonitoringConfig true "" None ScrapeKindServiceMonitor)) 0 ∅ "" None false None None None)
    no_RiakClusterStatus in
  selected c serviceMonitorGVK = true ∧
  wp (monitor_env (λ _, true) c) (reconcileScrapeObject c)
    (λ r s', installed (λ _, true) s' ∧
             (r = None → ∀ g, known_monitor g → has s' g = selected c g && true)) (mkMonitors true false).
Proof.
  intros c. split; [done|].
  apply (reconcileScrapeObject_exact refLib (λ _, true) c (mkMonitors true false)). done.
Defined.
