(* ===== verification/BucketController.v ===== *)
(** * The RiakBucket controller ([internal/controller/riakbucket_controller.go]) *)
From S2P Require Import Prelude GoLib Effects Types KubeTypes Kube KubeLib Status Executor Manager.

Definition riakBucketFinalizerName : string := "riak.openriak.io/bucket-finalizer".

(** What [Reconcile] returns: [(ctrl.Result, error)]. *)
Abbreviation outcome := (Result * option error)%type.
Definition fails (e : error) : outcome := (done_, Some e).
Definition finish (r : Result) : outcome := (r, None).

(** Conversion of a possibly absent string key: [m[k]] on a Go map. *)
Definition map_get (m : gmap string string) (k : string) : string := default "" (m !! k).

Definition effectiveBucketProperties (spec : RiakBucketSpec) : gmap string string * Z :=
  let properties := bs_Properties spec in
  let nVal := if (bs_NVal spec =? 0)%Z then bs_ReplicationFactor spec else bs_NVal spec in
  let '(properties, nVal) :=
    if (0 <? nVal)%Z then (<["n_val" := Itoa nVal]> properties, nVal)
    else match ParseInt32 (map_get properties "n_val") with
         | Some parsed => if (0 <? parsed)%Z then (properties, parsed) else (properties, nVal)
         | None => (properties, nVal)
         end in
  (if bs_AllowMulti spec then <["allow_mult" := "true"]> properties else properties, nVal).

Definition bucketNodes (cluster : RiakCluster) : list BucketNodeRef :=
  (λ m, mkBucketNodeRef (nm_Name m) (nm_Pod m) (nm_Ready m) (nm_Health m)) <$>
    cst_Members (cl_Status cluster).

Definition bucket_type (spec : RiakBucketSpec) : string :=
  if String.eqb (bs_BucketType spec) "" then "default" else bs_BucketType spec.

(** Assignments to the status. *)
Definition bst_set_Phase (s : RiakBucketStatus) (v : string) : RiakBucketStatus :=
  mkRiakBucketStatus v (bst_Created s) (bst_LastUpdateTime s) (bst_Error s) (bst_BucketName s)
    (bst_BucketType s) (bst_ReplicationFactor s) (bst_NVal s) (bst_Properties s) (bst_Nodes s)
    (bst_Conditions s).
Definition bst_set_Conditions (s : RiakBucketStatus) (v : list Condition) : RiakBucketStatus :=
  mkRiakBucketStatus (bst_Phase s) (bst_Created s) (bst_LastUpdateTime s) (bst_Error s)
    (bst_BucketName s) (bst_BucketType s) (bst_ReplicationFactor s) (bst_NVal s)
    (bst_Properties s) (bst_Nodes s) v.
Definition bst_failed (s : RiakBucketStatus) (message : string) (conds : list Condition) : RiakBucketStatus :=
  mkRiakBucketStatus BucketPhaseFailed (bst_Created s) (bst_LastUpdateTime s) message
    (bst_BucketName s) (bst_BucketType s) (bst_ReplicationFactor s) (bst_NVal s)
    (bst_Properties s) (bst_Nodes s) conds.
Definition bst_set_time (s : RiakBucketStatus) (t : time) : RiakBucketStatus :=
  mkRiakBucketStatus (bst_Phase s) (bst_Created s) (Some t) (bst_Error s)
    (bst_BucketName s) (bst_BucketType s) (bst_ReplicationFactor s) (bst_NVal s)
    (bst_Properties s) (bst_Nodes s) (bst_Conditions s).

Section bucket.
Context `{L : KubeLib} `{J : GoJson}.

Definition failBucket (bucket : RiakBucket) (reason message : string) : M unit :=
  let st := bk_Status bucket in
  let same := String.eqb (bst_Phase st) BucketPhaseFailed && String.eqb (bst_Error st) message in
  now ← Now;
  let '(conds, changed) := setCondition now (bst_Conditions st) conditionReady false
                             (om_Generation (bk_Meta bucket)) reason message in
  let bucket := bk_with_status bucket (bst_failed st message conds) in
  if same && negb changed then mret tt
  else
    now ← Now;
    _ ← StatusUpdate KBucket (bk_with_status bucket (bst_set_time (bk_Status bucket) now));
    mret tt.

(** [Reconcile] from the point where the cluster is known to be Ready. *)
Definition provision_bucket (bucket : RiakBucket) (cluster : RiakCluster) : M outcome :=
  let bucketType := bucket_type (bk_Spec bucket) in
  let '(properties, nVal) := effectiveBucketProperties (bk_Spec bucket) in
  e ← CreateBucketType cluster bucketType properties;
  match e with
  | Some e =>
      _ ← failBucket bucket "CreateFailed" ("failed to create bucket: " +:+ err_msg e);
      mret (finish (requeue (10 * second)))
  | None =>
      now ← Now;
      tc ← Now;
      let conds := (setCondition tc (bst_Conditions (bk_Status bucket)) conditionReady true
                      (om_Generation (bk_Meta bucket)) "BucketCreated"
                      ("bucket type " +:+ Quote bucketType +:+ " is active on cluster " +:+
                       cl_Name cluster)).1 in
      r ← StatusUpdate KBucket (bk_with_status bucket
            (mkRiakBucketStatus BucketPhaseReady true (Some now) "" (bs_BucketName (bk_Spec bucket))
               bucketType nVal nVal properties (bucketNodes cluster) conds));
      mret match r with Err e => fails e | Ok _ => finish done_ end
  end.

(** From the lookup of the cluster on. *)
Definition bucket_with_cluster (bucket : RiakBucket) : M outcome :=
  r ← Get KCluster (mkKey (om_Namespace (bk_Meta bucket)) (bs_ClusterName (bk_Spec bucket)));
  match r with
  | Err e =>
      if negb (IsNotFound e) then mret (fails e)
      else
        _ ← failBucket bucket "ClusterNotFound" ("cluster not found: " +:+ err_msg e);
        mret (finish (requeue (5 * second)))
  | Ok cluster =>
      if negb (String.eqb (cst_Phase (cl_Status cluster)) PhaseReady) then
        now ← Now;
        let '(conds, changed) := setCondition now (bst_Conditions (bk_Status bucket)) conditionReady
          false (om_Generation (bk_Meta bucket)) "ClusterNotReady"
          ("cluster " +:+ cl_Name cluster +:+ " is in phase " +:+ Quote (cst_Phase (cl_Status cluster))) in
        _ ← (if changed : bool
             then _ ← StatusUpdate KBucket (bk_with_status bucket (bst_set_Conditions (bk_Status bucket) conds));
                  mret tt
             else mret tt);
        mret (finish (requeue (5 * second)))
      else provision_bucket bucket cluster
  end.

Definition bucket_finalizers (f : list string → string → list string) (bucket : RiakBucket) : RiakBucket :=
  bk_with_meta bucket (with_finalizers (bk_Meta bucket)
    (f (om_Finalizers (bk_Meta bucket)) riakBucketFinalizerName)).

Definition ReconcileBucket (req : ObjectKey) : M outcome :=
  r ← Get KBucket req;
  match r with
  | Err e => mret (done_, IgnoreNotFound (Some e))
  | Ok bucket =>
      let has := ContainsFinalizer (om_Finalizers (bk_Meta bucket)) riakBucketFinalizerName in
      match om_DeletionTimestamp (bk_Meta bucket) with
      | Some _ =>
          if has then
            u ← Update KBucket (bucket_finalizers RemoveFinalizer bucket);
            mret (done_, res_err u)
          else mret (finish done_)
      | None =>
          u ← (if has then mret (Ok bucket) else Update KBucket (bucket_finalizers AddFinalizer bucket));
          match u with
          | Err e => mret (fails e)
          | Ok bucket =>
              u ← (if String.eqb (bst_Phase (bk_Status bucket)) ""
                   then StatusUpdate KBucket (bk_with_status bucket (bst_set_Phase (bk_Status bucket) BucketPhaseCreating))
                   else mret (Ok bucket));
              match u with
              | Err e => mret (fails e)
              | Ok bucket => bucket_with_cluster bucket
              end
          end
      end
  end.
End bucket.
