(* ===== verification/BucketFacts.v ===== *)
(** * The RiakBucket controller: what is reported is what was applied *)
From S2P Require Import Prelude GoLib Effects Types Samples KubeTypes Kube KubeLib Footprint Status Executor Manager RiakEnv BucketTypes BucketController.

(** ** Effective properties *)
Lemma effective_spec (spec : RiakBucketSpec) :
  in_int32 (bs_NVal spec) → in_int32 (bs_ReplicationFactor spec) →
  let '(props, n) := effectiveBucketProperties spec in
  ((0 < n)%Z → ParseInt32 (map_get props "n_val") = Some n) ∧
  ((n ≤ 0)%Z → ∀ m, ParseInt32 (map_get props "n_val") = Some m → (m ≤ 0)%Z) ∧
  (props !! "allow_mult" = if bs_AllowMulti spec then Some "true" else bs_Properties spec !! "allow_mult") ∧
  (∀ k, k ≠ "n_val" → k ≠ "allow_mult" → props !! k = bs_Properties spec !! k).
Proof.
  intros H1 H2. unfold effectiveBucketProperties.
  set (nv := if (bs_NVal spec =? 0)%Z then _ else _).
  assert (in_int32 nv) as Hnv by (unfold nv; by destruct (_ =? _)%Z).
  assert (∀ b (m : gmap string string),
    let m' := if b : bool then <["allow_mult" := "true"]> m else m in
    map_get m' "n_val" = map_get m "n_val" ∧
    m' !! "allow_mult" = (if b then Some "true" else m !! "allow_mult") ∧
    ∀ k, k ≠ "n_val" → k ≠ "allow_mult" → m' !! k = m !! k) as Hm.
  { intros [] m; simpl; [|done]. unfold map_get. rewrite lookup_insert_ne by done.
    split_and!; [done|by rewrite lookup_insert_eq|]. intros k _ Hk. by rewrite lookup_insert_ne. }
  destruct (Z.ltb_spec 0 nv) as [Hpos|Hneg].
  - destruct (Hm (bs_AllowMulti spec) (<["n_val" := Itoa nv]> (bs_Properties spec))) as (H3 & H4 & H5).
    rewrite H3, H4. unfold map_get at 1 2. rewrite lookup_insert_eq. cbn [from_option id].
    rewrite ParseInt32_Itoa by done. split_and!; [done|intros; lia| |].
    + destruct (bs_AllowMulti spec); [done|]. by rewrite lookup_insert_ne.
    + intros k Hk Hk'. rewrite H5 by done. by rewrite lookup_insert_ne.
  - destruct (Hm (bs_AllowMulti spec) (bs_Properties spec)) as (H3 & H4 & H5).
    destruct (ParseInt32 (map_get (bs_Properties spec) "n_val")) as [parsed|] eqn:Hparse;
      [destruct (Z.ltb_spec 0 parsed)|]; rewrite H3, H4, Hparse;
      (split_and!; [| |done|done]); intros; try done; try lia; congruence.
Qed.

(** ** The world of a bucket: its type in Riak, and what the API server last said *)
Section world.
Context `{L : KubeLib} `{HL : !KubeLibLaws L} `{J : GoJson} `{HJ : !GoJsonLaws J}.
Context (typ : string).

(** [bw_seen]: the bucket as the API server last returned it. *)
Record bucket_world := mkBucketWorld {
  bw_type : option (bool * gmap string jvalue); bw_seen : option RiakBucket }.
(** It is not being deleted and has the finalizer. *)
Definition live (b : RiakBucket) : Prop :=
  om_DeletionTimestamp (bk_Meta b) = None ∧
  ContainsFinalizer (om_Finalizers (bk_Meta b)) riakBucketFinalizerName = true.
Definition seen_live (s : bucket_world) : Prop := ∃ b, bw_seen s = Some b ∧ live b.

(** A Ready status may only be written for an active type holding the properties it lists,
    unless it is the status last read with its Ready condition set to False. *)
Definition ready_claim (s : bucket_world) (b : RiakBucket) : Prop :=
  ready_reads (bst_Conditions (bk_Status b)) true (om_Generation (bk_Meta b)) ∧
  bst_Created (bk_Status b) = true ∧ bst_BucketType (bk_Status b) = typ ∧
  (bst_Properties (bk_Status b), bst_NVal (bk_Status b)) = effectiveBucketProperties (bk_Spec b) ∧
  ∃ p, bw_type s = Some (true, p) ∧ native_value <$> bst_Properties (bk_Status b) ⊆ p.
Definition only_conditions (s : bucket_world) (b : RiakBucket) : Prop :=
  ∃ b0, bw_seen s = Some b0 ∧
    bk_with_status b (bst_set_Conditions (bk_Status b) (bst_Conditions (bk_Status b0))) = b0.
Definition status_ok (s : bucket_world) (b : RiakBucket) : Prop :=
  bst_Phase (bk_Status b) = BucketPhaseReady →
  ready_claim s b ∨
  only_conditions s b ∧ ready_reads (bst_Conditions (bk_Status b)) false (om_Generation (bk_Meta b)).

Definition bucket_ok (s : bucket_world) (a : api) : Prop :=
  match a with
  | AGet _ _ _ => True
  | ANow => True
  | AUpdate k o => match k return obj k → Prop with KBucket => λ _, True | _ => λ _, False end o
  | AStatusUpdate k o =>
      match k return obj k → Prop with KBucket => status_ok s | _ => λ _, False end o
  | ARun name args => seen_live s ∧ ∃ ns pod args',
      ARun name args = ARun "kubectl" (kubectl_args ns pod "riak" args') ∧
      bt_ok typ pod (bw_type s) pod args'
  | _ => False
  end.

(** A bucket that is read has type [typ]; a write returns the spec and metadata written;
    riak-admin acts on the type as [bt_cmd] says. *)
Definition bucket_read (s : bucket_world) (r : res RiakBucket) (s' : bucket_world) : Prop :=
  match r with
  | Ok b => s' = mkBucketWorld (bw_type s) (Some b) ∧ bucket_type (bk_Spec b) = typ
  | Err _ => s' = s
  end.
Definition bucket_written (s : bucket_world) (b : RiakBucket) (r : res RiakBucket) (s' : bucket_world) : Prop :=
  match r with
  | Ok b' => s' = mkBucketWorld (bw_type s) (Some b') ∧ bk_Spec b' = bk_Spec b ∧ bk_Meta b' = bk_Meta b
  | Err _ => s' = s
  end.
Definition bucket_step (s : bucket_world) (a : api) : reply a → bucket_world → Prop :=
  match a as a' return reply a' → bucket_world → Prop with
  | AGet _ k _ =>
      match k return res (obj k) → bucket_world → Prop with
      | KBucket => bucket_read s
      | _ => λ _ s', s' = s
      end
  | AUpdate k o =>
      match k return obj k → res (obj k) → bucket_world → Prop with
      | KBucket => bucket_written s
      | _ => λ _ _ s', s' = s
      end o
  | AStatusUpdate k o =>
      match k return obj k → res (obj k) → bucket_world → Prop with
      | KBucket => bucket_written s
      | _ => λ _ _ s', s' = s
      end o
  | ARun _ full => λ r s', bw_seen s' = bw_seen s ∧
      bt_cmd true typ (exec_args full) (bw_type s) (admin_reply (exec_args full) r).2 (bw_type s')
  | _ => λ _ s', s' = s
  end.
Definition bucket_env : Env reply bucket_world := {| allowed := bucket_ok; step := bucket_step |}.

(** An active type stays active. *)
Definition stays_active (s s' : bucket_world) : Prop := bt_active (bw_type s) → bt_active (bw_type s').
#[local] Instance stays_active_refl : Reflexive stays_active.
Proof. by intros s ?. Qed.

Lemma stays_same s s' : bw_type s' = bw_type s → stays_active s s'.
Proof. intros Hs. unfold stays_active. by rewrite Hs. Qed.

(** *** The pieces *)
Lemma wp_write_bucket {A} b (k : res RiakBucket → M A) Q s :
  status_ok s b →
  (∀ e, wp bucket_env (k (Err e)) Q s) →
  (∀ b', bk_Spec b' = bk_Spec b → bk_Meta b' = bk_Meta b →
     wp bucket_env (k (Ok b')) Q (mkBucketWorld (bw_type s) (Some b'))) →
  wp bucket_env (StatusUpdate KBucket b ≫= k) Q s.
Proof.
  intros Hc He Hk. apply wp_call; [exact Hc|]. intros [b'|e] s'.
  - intros (-> & Hs & Hm). by apply Hk.
  - intros ->. apply He.
Qed.
Lemma not_ready_ok s b : bst_Phase (bk_Status b) ≠ BucketPhaseReady → status_ok s b.
Proof. by intros Hn ?. Qed.

Lemma failBucket_wp b reason msg s :
  wp bucket_env (failBucket b reason msg) (λ _ s', bw_type s' = bw_type s) s.
Proof.
  unfold failBucket, Now. apply wp_call; [done|]. intros now s' ->.
  destruct (setCondition _ _ _ _ _ _ _) as [conds changed].
  destruct (_ && negb changed); [by apply wp_ret|].
  apply wp_call; [done|]. intros now' s' ->.
  apply wp_write_bucket; [by apply not_ready_ok|intros; by apply wp_ret..].
Qed.

Lemma CreateBucketType_world cluster properties s :
  seen_live s →
  wp bucket_env (CreateBucketType cluster typ properties)
    (λ e s', stays_active s s' ∧
             (e = None → ∃ p, bw_type s' = Some (true, p) ∧ native_value <$> properties ⊆ p)) s.
Proof.
  intros Hlive. unfold CreateBucketType. destruct (first_pod cluster) as [pod|]; [|by apply wp_ret; split].
  eapply wp_mono.
  - apply (wp_map (bt_env true (cl_Namespace cluster) typ pod) bucket_env bw_type seen_live);
      [| |done|apply CreateBucket_wp].
    + intros s1 a Hl (p & args & -> & Hok). split; [done|]. exists (cl_Namespace cluster), p, args.
      split; [done|]. by destruct Hok as [-> Hok].
    + intros s1 a r s2 [b0 Hl] (p & args & -> & Hok) [Hl' Hst]. split; [exact Hst|].
      exists b0. by rewrite Hl'.
  - intros e s' [(H1 & H2 & _) _]. split; [exact (type_kept_active _ _ _ H1)|done].
Qed.

Lemma provision_bucket_wp b cluster s :
  seen_live s → bucket_type (bk_Spec b) = typ →
  wp bucket_env (provision_bucket b cluster) (λ _ s', stays_active s s') s.
Proof.
  intros Hlive Htyp. unfold provision_bucket.
  destruct (effectiveBucketProperties (bk_Spec b)) as [props n] eqn:Hp. rewrite Htyp.
  eapply wp_bind_2; [by apply CreateBucketType_world|]. intros [e|] s1 (Hact & Hdone).
  { eapply wp_bind_2; [apply failBucket_wp|]. intros ? s2 Hs2. apply wp_ret. unfold stays_active. by rewrite Hs2. }
  destruct (Hdone eq_refl) as (p & Hs1 & Hsub).
  assert (bt_active (bw_type s1)) as Hnow by by exists p.
  unfold Now. apply wp_call; [done|]. intros now s' ->. apply wp_call; [done|]. intros tc s' ->.
  apply wp_write_bucket; [|intros; by apply wp_ret..].
  intros _. left. unfold ready_claim, bk_with_status. cbn [bk_Status bk_Spec bst_Created bst_BucketType bst_Properties bst_NVal]. rewrite Hp.
  split_and!; [apply setCondition_reads|done..|]. by exists p.
Qed.

Lemma bucket_with_cluster_wp b s :
  bw_seen s = Some b → live b → bucket_type (bk_Spec b) = typ →
  wp bucket_env (bucket_with_cluster b) (λ _ s', stays_active s s') s.
Proof.
  intros Hseen Hlive Htyp. unfold bucket_with_cluster, Get. apply wp_call; [done|].
  intros [cluster|e] s' ->.
  - destruct (negb _); [|apply provision_bucket_wp; [by exists b|done]].
    unfold Now. apply wp_call; [done|]. intros now s' ->.
    destruct (setCondition _ _ _ _ _ _ _) as [conds changed] eqn:Hconds.
    apply wp_bind_2 with (Q1 := λ _ s', bw_type s' = bw_type s).
    + destruct changed; [|by apply wp_ret].
      apply wp_write_bucket; [|intros; by apply wp_ret..].
      intros _. right. split; [exists b; split; [done|by destruct b as [? ? []]]|].
      cbn. rewrite (fst_is _ _ _ Hconds). apply setCondition_reads.
    + intros ? s2 Hs2. by apply wp_ret, stays_same.
  - destruct (negb _); [by apply wp_ret|].
    eapply wp_bind_2; [apply failBucket_wp|]. intros ? s2 Hs2. by apply wp_ret, stays_same.
Qed.

Lemma ReconcileBucket_wp req s :
  wp bucket_env (ReconcileBucket req) (λ _ s', stays_active s s') s.
Proof.
  unfold ReconcileBucket, Get. apply wp_call; [done|]. intros [b|e] s'; [|by intros ->; apply wp_ret, stays_same].
  intros [-> Htyp]. destruct (om_DeletionTimestamp (bk_Meta b)) eqn:Hdel.
  { destruct (ContainsFinalizer _ _); [|by apply wp_ret, stays_same].
    apply wp_call; [done|]. intros [b'|e] s'; [intros (-> & _)|intros ->]; by apply wp_ret, stays_same. }
  set (Q1 := λ (u : res RiakBucket) s', bw_type s' = bw_type s ∧
    match u with
    | Ok b' => bw_seen s' = Some b' ∧ live b' ∧ bucket_type (bk_Spec b') = typ
    | Err _ => True
    end).
  apply wp_bind_2 with (Q1 := Q1).
  { destruct (ContainsFinalizer _ _) eqn:Hf; [by apply wp_ret|].
    split; [done|]. intros [b'|e] s'; [|by intros ->; apply wp_ret].
    intros (-> & Hs & Hm). apply wp_ret. split; [done|]. split; [done|]. rewrite Hs. split; [|done].
    split; rewrite Hm; [done|]. cbn. apply finalizer_contains, finalizer_add. by left. }
  intros [b1|e] s1 [Ht1 H1]; [|by apply wp_ret, stays_same].
  destruct H1 as (Hseen1 & Hlive1 & Htyp1).
  apply wp_bind_2 with (Q1 := Q1).
  { destruct (String.eqb _ _); [|by apply wp_ret].
    split; [by apply not_ready_ok|]. intros [b'|e] s'; [|by intros ->; apply wp_ret].
    intros (-> & Hs & Hm). apply wp_ret. split; [done|]. split; [done|]. rewrite Hs. split; [|done].
    unfold live. by rewrite Hm. }
  intros [b2|e] s2 [Ht2 H2]; [|by apply wp_ret, stays_same].
  destruct H2 as (Hseen2 & Hlive2 & Htyp2).
  eapply wp_mono; [by apply bucket_with_cluster_wp|]. intros ? s3 H3. unfold stays_active in *.
  by rewrite <-Ht2.
Qed.
End world.

(** ** A run *)
(** A server holding one bucket and one cluster, and a Riak where every command works; the
    state is the bucket and the riak-admin commands, most recent first. *)
Definition bucket_sim (c : RiakCluster) (a : api) (w : RiakBucket * list (list string))
    : reply a * (RiakBucket * list (list string)) :=
  match a as a' return reply a' * (RiakBucket * list (list string)) with
  | AGet rd k key =>
      (match k as k return res (obj k) with
       | KBucket => Ok w.1
       | KCluster => Ok c
       | k => refuse (AGet rd k key)
       end, w)
  | AUpdate k o =>
      match k as k return obj k → res (obj k) * (RiakBucket * list (list string)) with
      | KBucket => λ b, (Ok b, (b, w.2))
      | k => λ o, (refuse (AUpdate k o), w)
      end o
  | AStatusUpdate k o =>
      match k as k return obj k → res (obj k) * (RiakBucket * list (list string)) with
      | KBucket => λ b, (Ok b, (b, w.2))
      | k => λ o, (refuse (AUpdate k o), w)
      end o
  | ARun _ full => (Ok "", (w.1, exec_args full :: w.2))
  | a => (refuse a, w)
  end.

(** ** Properties *)

(** C8: a RiakBucket is reported Ready (phase Ready and Ready condition True for its generation)
    only when its bucket type is active in Riak with every effective property of the spec, and
    the properties and n_val in the status are the ones that were sent. Any other status written
    with the phase Ready is the one that was read with nothing but its conditions changed, its
    Ready condition being False for the current generation: so a bucket that was Ready keeps the
    phase, but not the condition, while its cluster is not ready. Riak is only asked on behalf
    of a bucket that carries the finalizer and is not being deleted, and no reconcile
    deactivates a type. The Kubernetes API may refuse or fail any call. *)
Theorem bucket_ready_sound (L : KubeLib) (HL : KubeLibLaws L) (J : GoJson) (HJ : GoJsonLaws J)
    (typ : string) (req : ObjectKey) (s : bucket_world) :
  wp (bucket_env typ) (ReconcileBucket req) (λ _ s', stays_active s s') s.
Proof. by apply ReconcileBucket_wp. Qed.
Lemma bucket_ready_sound_witness :
  let r := run (bucket_sim ready_cluster) (@ReconcileBucket refLib demo_json (mkKey "db" "b")) (sample_bucket, []) in
  r.1 = finish done_ ∧ bst_Phase (bk_Status r.2.1) = BucketPhaseReady ∧
  bst_NVal (bk_Status r.2.1) = 3%Z ∧ length r.2.2 = 2 ∧
  wp (@bucket_env refLib demo_json "t") (@ReconcileBucket refLib demo_json (mkKey "db" "b"))
    (λ _ s', @stays_active demo_json (mkBucketWorld None None) s') (mkBucketWorld None None).
Proof.
  intros r. split; [by vm_compute|]. split; [by vm_compute|]. split; [by vm_compute|].
  split; [by vm_compute|].
  apply (bucket_ready_sound refLib refLib_laws demo_json demo_json_laws "t" (mkKey "db" "b")
           (@mkBucketWorld demo_json None None)).
Defined.

(** The properties sent to Riak are [spec.properties] with only n_val and allow_mult
    overridden by the typed fields, and the n_val reported in the status is the one Riak
    is sent: a positive value is exactly what the n_val property parses to, and nothing
    positive is reported otherwise. *)
Lemma effective_properties_reported (spec : RiakBucketSpec) :
  in_int32 (bs_NVal spec) → in_int32 (bs_ReplicationFactor spec) →
  let '(props, n) := effectiveBucketProperties spec in
  ((0 < n)%Z → ParseInt32 (map_get props "n_val") = Some n) ∧
  ((n ≤ 0)%Z → ∀ m, ParseInt32 (map_get props "n_val") = Some m → (m ≤ 0)%Z) ∧
  (props !! "allow_mult" = if bs_AllowMulti spec then Some "true" else bs_Properties spec !! "allow_mult") ∧
  (∀ k, k ≠ "n_val" → k ≠ "allow_mult" → props !! k = bs_Properties spec !! k).
Proof. apply effective_spec. Qed.
Lemma effective_properties_reported_witness :
  let spec := mkRiakBucketSpec "c" "orders" "t" 0 false 0 {["n_val" := "99999999999"]} in
  effectiveBucketProperties spec = ({["n_val" := "99999999999"]}, 0%Z) ∧
  let '(props, n) := effectiveBucketProperties (bk_Spec sample_bucket) in
  ((0 < n)%Z → ParseInt32 (map_get props "n_val") = Some n) ∧
  ((n ≤ 0)%Z → ∀ m, ParseInt32 (map_get props "n_val") = Some m → (m ≤ 0)%Z) ∧
  (props !! "allow_mult" = Some "true") ∧
  (∀ k, k ≠ "n_val" → k ≠ "allow_mult" → props !! k = bs_Properties (bk_Spec sample_bucket) !! k).
Proof.
  split; [by apply (bool_decide_unpack _); vm_compute|].
  apply (effective_properties_reported (bk_Spec sample_bucket));
    apply (bool_decide_unpack _); by vm_compute.
Defined.

(** A bucket stuck in the same failure is not rewritten: after [failBucket] has recorded
    a reason and message, calling it again with the same ones, at any later time, makes no
    call but reading the clock. *)
Lemma failBucket_quiet (L : KubeLib) (HL : KubeLibLaws L) (b : RiakBucket) (reason message : string)
    (now t : time) :
  let conds := (setCondition now (bst_Conditions (bk_Status b)) conditionReady false
                  (om_Generation (bk_Meta b)) reason message).1 in
  let b' := bk_with_status b (bst_set_time (bst_failed (bk_Status b) message conds) t) in
  footprint (λ a, a = ANow) (failBucket b' reason message) (λ _, True).
Proof.
  intros conds b'. unfold failBucket, Now. apply fp_call; [done|]. intros now'.
  change (bst_Conditions (bk_Status b')) with conds. change (bk_Meta b') with (bk_Meta b).
  pose proof (setCondition_again now now' (bst_Conditions (bk_Status b)) conditionReady false
                (om_Generation (bk_Meta b)) reason message) as Ha. cbn zeta in Ha. fold conds in Ha.
  rewrite Ha. cbn. rewrite String.eqb_refl. by apply fp_ret.
Qed.
