(* ===== verification/UserController.v ===== *)
(** * The RiakUser controller ([internal/controller/riakuser_controller.go]) *)
From S2P Require Import Prelude GoLib Effects Types KubeTypes Kube KubeLib Status Executor Manager Tls Trust BucketController.

Definition riakUserFinalizerName : string := "riak.openriak.io/user-finalizer".
Definition userDeleteGracePeriod : Z := 2 * minute.
(** [trust.go] *)
Definition externalCertRecheck : Z := 10 * minute.

(** Assignments to the status. *)
Definition ust_set_Phase (s : RiakUserStatus) (v : string) : RiakUserStatus :=
  mkRiakUserStatus v (ust_Created s) (ust_LastUpdateTime s) (ust_Error s) (ust_Username s)
    (ust_CertificateReady s) (ust_CertificateError s) (ust_ClusterName s) (ust_Grants s) (ust_Conditions s).
Definition ust_set_Conditions (s : RiakUserStatus) (v : list Condition) : RiakUserStatus :=
  mkRiakUserStatus (ust_Phase s) (ust_Created s) (ust_LastUpdateTime s) (ust_Error s) (ust_Username s)
    (ust_CertificateReady s) (ust_CertificateError s) (ust_ClusterName s) (ust_Grants s) v.
Definition ust_set_time (s : RiakUserStatus) (t : time) : RiakUserStatus :=
  mkRiakUserStatus (ust_Phase s) (ust_Created s) (Some t) (ust_Error s) (ust_Username s)
    (ust_CertificateReady s) (ust_CertificateError s) (ust_ClusterName s) (ust_Grants s) (ust_Conditions s).
Definition ust_set_certificate (s : RiakUserStatus) (ready : bool) (err : string) (conds : list Condition)
    : RiakUserStatus :=
  mkRiakUserStatus (ust_Phase s) (ust_Created s) (ust_LastUpdateTime s) (ust_Error s) (ust_Username s)
    ready err (ust_ClusterName s) (ust_Grants s) conds.
Definition ust_failed (s : RiakUserStatus) (message : string) (conds : list Condition) : RiakUserStatus :=
  mkRiakUserStatus UserPhaseFailed (ust_Created s) (ust_LastUpdateTime s) message (ust_Username s)
    (ust_CertificateReady s) (ust_CertificateError s) (ust_ClusterName s) (ust_Grants s) conds.

Definition equalGrants (a b : list Grant) : bool := bool_decide (a = b).

Definition certRequeue (now : time) (certRef : UserCertificateRef) (ready : bool) (notAfter : option time)
    : Result :=
  if negb ready then requeue (30 * second)
  else match ucr_IssuerRef certRef with
       | Some _ => done_
       | None =>
           match notAfter with
           | Some t => let until := (t - now)%Z in
                       if (0 <? until)%Z && (until <? externalCertRecheck)%Z
                       then requeue until else requeue externalCertRecheck
           | None => requeue externalCertRecheck
           end
       end.

Section user.
Context `{L : KubeLib} `{X : GoX509}.
(** Is an uncached API reader configured? *)
Context (apiReader : bool).

Definition deleteRiakUser (user : RiakUser) (deletion : time) : M (option error) :=
  if negb (ust_Created (us_Status user)) then mret None
  else
  r ← Get KCluster (mkKey (om_Namespace (us_Meta user)) (us_ClusterName (us_Spec user)));
  match r with
  | Err e => mret (IgnoreNotFound (Some e))
  | Ok cluster =>
      if bool_decide (is_Some (om_DeletionTimestamp (cl_Meta cluster))) ||
         negb (String.eqb (cst_Phase (cl_Status cluster)) PhaseReady) ||
         bool_decide (cst_Members (cl_Status cluster) = [])
      then mret None
      else
        err ← DeleteUser cluster (us_Username (us_Spec user));
        match err with
        | None => mret None
        | Some e =>
            now ← Now;
            if (userDeleteGracePeriod <? now - deletion)%Z then mret None else mret (Some e)
        end
  end.

Definition failUser (user : RiakUser) (reason message : string) : M unit :=
  let st := us_Status user in
  let same := String.eqb (ust_Phase st) UserPhaseFailed && String.eqb (ust_Error st) message in
  now ← Now;
  let '(conds, changed) := setCondition now (ust_Conditions st) conditionReady false
                             (om_Generation (us_Meta user)) reason message in
  let user := us_with_status user (ust_failed st message conds) in
  if same && negb changed then mret tt
  else
    now ← Now;
    _ ← StatusUpdate KUser (us_with_status user (ust_set_time (us_Status user) now));
    mret tt.

Definition markUserReady (user : RiakUser) (clusterName : string) (certReady : bool) (certReason : string)
    : M (option error) :=
  let st := us_Status user in
  let unchanged := String.eqb (ust_Phase st) UserPhaseReady && ust_Created st &&
    String.eqb (ust_Error st) "" && String.eqb (ust_Username st) (us_Username (us_Spec user)) &&
    String.eqb (ust_ClusterName st) clusterName && Bool.eqb (ust_CertificateReady st) certReady &&
    String.eqb (ust_CertificateError st) certReason && equalGrants (ust_Grants st) (us_Grants (us_Spec user)) in
  let '(condReason, condMessage) :=
    if certReady then ("CertificateIssued", "the client certificate has been issued")
    else ("CertificatePending", certReason) in
  let gen := om_Generation (us_Meta user) in
  now1 ← Now;
  let '(conds1, certChanged) := setCondition now1 (ust_Conditions st) conditionCertificateReady certReady
    gen condReason condMessage in
  now2 ← Now;
  let '(conds2, readyChanged) := setCondition now2 conds1 conditionReady true gen "UserProvisioned"
    ("Riak user " +:+ Quote (us_Username (us_Spec user)) +:+ " is provisioned on cluster " +:+ clusterName) in
  if unchanged && negb certChanged && negb readyChanged then mret None
  else
    now ← Now;
    r ← StatusUpdate KUser (us_with_status user
          (mkRiakUserStatus UserPhaseReady true (Some now) "" (us_Username (us_Spec user)) certReady
             certReason clusterName (us_Grants (us_Spec user)) conds2));
    mret (res_err r).

Definition reconcileUserCertificate (user : RiakUser) (certRef : UserCertificateRef) : M (option error) :=
  match ucr_IssuerRef certRef with
  | None => mret None
  | Some issuer =>
      let cert := buildUserCertificate (om_Name (us_Meta user)) (om_Namespace (us_Meta user))
                    (us_Username (us_Spec user)) certRef issuer in
      match SetControllerReference "RiakUser" (us_Meta user) (un_Meta cert) with
      | Err e => mret (Some (Wrapf "setting controller reference on user certificate: " e ""))
      | Ok m =>
          let cert := mkUnstructured (un_GVK cert) m (un_Fields cert) in
          r ← Get (KUnstructured certificateGVK)
                (mkKey (om_Namespace (un_Meta cert)) (om_Name (un_Meta cert)));
          match r with
          | Ok _ => mret None
          | Err e => if IsNotFound e then Create (KUnstructured certificateGVK) cert
                     else mret (Some e)
          end
      end
  end.

Definition userCertificateReadiness (user : RiakUser) (certRef : UserCertificateRef) (cluster : RiakCluster)
    : M (bool * string * option time) :=
  match ucr_IssuerRef certRef with
  | None =>
      now ← Now;
      externalCertificateReadiness (reader apiReader) user (ucr_ExternalSecretName certRef) cluster now
  | Some _ =>
      r ← fetchCertificateReadiness (userCertName (om_Name (us_Meta user))) (om_Namespace (us_Meta user));
      mret ((r : bool * string).1, r.2, None)
  end.

(** [if err := step; err != nil { failUser; requeue }] *)
Definition fail_and_requeue (user : RiakUser) (reason message : string) (after : Z) : M outcome :=
  _ ← failUser user reason message;
  mret (finish (requeue after)).

(** The rest of [Reconcile] once security is enabled on the Ready cluster. *)
Definition provision_user (user : RiakUser) (certRef : UserCertificateRef) (cluster : RiakCluster)
    : M outcome :=
  let username := us_Username (us_Spec user) in
  e ← CreateUserForCert cluster username;
  match e with
  | Some e => fail_and_requeue user "CreateUserFailed" ("failed to create user: " +:+ err_msg e) (10 * second)
  | None =>
  e ← AddSecuritySource cluster username;
  match e with
  | Some e => fail_and_requeue user "SecuritySourceFailed" ("failed to set security source: " +:+ err_msg e)
                (10 * second)
  | None =>
  e ← GrantUserPermissions cluster username (us_Grants (us_Spec user));
  match e with
  | Some e => fail_and_requeue user "GrantFailed" ("failed to grant permissions: " +:+ err_msg e) (10 * second)
  | None =>
  c ← userCertificateReadiness user certRef cluster;
  let '(certReady, certReason, notAfter) := (c : bool * string * option time) in
  e ← markUserReady user (cl_Name cluster) certReady certReason;
  match e with
  | Some e => mret (fails e)
  | None =>
      now ← Now;
      mret (finish (certRequeue now certRef certReady notAfter))
  end end end end.

Definition set_security_enabled (cluster : RiakCluster) : RiakCluster :=
  cl_with_status cluster (cst_set_SecurityEnabled (cl_Status cluster) true).

(** Security, once per cluster. The status write decodes the reply into [cluster]. *)
Definition secure_and_provision (user : RiakUser) (certRef : UserCertificateRef) (cluster : RiakCluster)
    : M outcome :=
  if cst_SecurityEnabled (cl_Status cluster) then provision_user user certRef cluster
  else
    e ← EnableSecurity cluster;
    match e with
    | Some e => fail_and_requeue user "SecurityEnableFailed" ("failed to enable security: " +:+ err_msg e)
                  (10 * second)
    | None =>
        r ← StatusUpdate KCluster (set_security_enabled cluster);
        match r with
        | Err _ => mret (finish (requeue (5 * second)))
        | Ok cluster => provision_user user certRef cluster
        end
    end.

(** From the lookup of the cluster on. *)
Definition user_with_cluster (user : RiakUser) (certRef : UserCertificateRef) : M outcome :=
  r ← Get KCluster (mkKey (om_Namespace (us_Meta user)) (us_ClusterName (us_Spec user)));
  match r with
  | Err e =>
      if negb (IsNotFound e) then mret (fails e)
      else fail_and_requeue user "ClusterNotFound" ("cluster not found: " +:+ err_msg e) (5 * second)
  | Ok cluster =>
      if negb (String.eqb (cst_Phase (cl_Status cluster)) PhaseReady) then
        now ← Now;
        let '(conds, changed) := setCondition now (ust_Conditions (us_Status user)) conditionReady
          false (om_Generation (us_Meta user)) "ClusterNotReady"
          ("cluster " +:+ cl_Name cluster +:+ " is in phase " +:+ Quote (cst_Phase (cl_Status cluster))) in
        _ ← (if changed : bool
             then _ ← StatusUpdate KUser (us_with_status user (ust_set_Conditions (us_Status user) conds));
                  mret tt
             else mret tt);
        mret (finish (requeue (5 * second)))
      else
        e ← reconcileUserCertificate user certRef;
        match e with
        | Some e =>
            now ← Now;
            let conds := (setCondition now (ust_Conditions (us_Status user)) conditionCertificateReady false
                            (om_Generation (us_Meta user)) "CertificateRequestFailed" (err_msg e)).1 in
            fail_and_requeue
              (us_with_status user (ust_set_certificate (us_Status user) false (err_msg e) conds))
              "CertificateFailed" ("failed to reconcile certificate: " +:+ err_msg e) (10 * second)
        | None => secure_and_provision user certRef cluster
        end
  end.

Definition certificate_ref_missing : string :=
  "certificateRef is required: password authentication was removed; recreate the user with spec.certificateRef".
Definition fail_without_certificate (user : RiakUser) : M outcome :=
  now ← Now;
  tc ← Now;
  let conds := (setCondition tc (ust_Conditions (us_Status user)) conditionReady false
                  (om_Generation (us_Meta user)) "CertificateRefMissing" certificate_ref_missing).1 in
  r ← StatusUpdate KUser (us_with_status user
        (ust_set_time (ust_failed (us_Status user) certificate_ref_missing conds) now));
  mret match r with Err e => fails e | Ok _ => finish done_ end.

Definition user_finalizers (f : list string → string → list string) (user : RiakUser) : RiakUser :=
  us_with_meta user (with_finalizers (us_Meta user)
    (f (om_Finalizers (us_Meta user)) riakUserFinalizerName)).

Definition ReconcileUser (req : ObjectKey) : M outcome :=
  r ← Get KUser req;
  match r with
  | Err e => mret (done_, IgnoreNotFound (Some e))
  | Ok user =>
      let has := ContainsFinalizer (om_Finalizers (us_Meta user)) riakUserFinalizerName in
      match om_DeletionTimestamp (us_Meta user) with
      | Some deletion =>
          if has then
            e ← deleteRiakUser user deletion;
            match e with
            | Some _ => mret (finish (requeue (10 * second)))
            | None =>
                u ← Update KUser (user_finalizers RemoveFinalizer user);
                mret (done_, res_err u)
            end
          else mret (finish done_)
      | None =>
          u ← (if has then mret (Ok user) else Update KUser (user_finalizers AddFinalizer user));
          match u with
          | Err e => mret (fails e)
          | Ok user =>
              u ← (if String.eqb (ust_Phase (us_Status user)) ""
                   then StatusUpdate KUser (us_with_status user (ust_set_Phase (us_Status user) UserPhaseCreating))
                   else mret (Ok user));
              match u with
              | Err e => mret (fails e)
              | Ok user =>
                  match us_CertificateRef (us_Spec user) with
                  | None => fail_without_certificate user
                  | Some certRef => user_with_cluster user certRef
                  end
              end
          end
      end
  end.
End user.
