(* ===== verification/StatefulSet.v ===== *)
(** * The StatefulSet and the Services of a cluster
    ([internal/controller/riakcluster_controller.go])

    The builders of [reconcileStatefulSet] and [reconcileService], and the two operations. *)
From S2P Require Import Prelude GoLib Effects Types KubeTypes Kube KubeLib Status Executor Tls Monitoring Rollout.

Definition riakClusterFinalizerName : string := "riak.openriak.io/cluster-finalizer".
Definition defaultRiakImage : string := "ghcr.io/marthydavid/riak:3.2.6".
Definition defaultStorageSize : string := "10Gi".

Definition tls_enabled (cluster : RiakCluster) : bool :=
  match cs_TLS (cl_Spec cluster) with Some tls => tls_Enabled tls | None => false end.
Definition headless_name (cluster : RiakCluster) : string := cl_Name cluster +:+ "-headless".

(** ** Pieces of the pod template *)
Definition PullIfNotPresent : string := "IfNotPresent".
Definition riak_image (DefaultImage : string) (cluster : RiakCluster) : string :=
  let image := cs_Image (cl_Spec cluster) in
  let image := if String.eqb image "" then DefaultImage else image in
  if String.eqb image "" then defaultRiakImage else image.
Definition pull_policy (cluster : RiakCluster) : string :=
  if String.eqb (cs_ImagePullPolicy (cl_Spec cluster)) "" then PullIfNotPresent
  else cs_ImagePullPolicy (cl_Spec cluster).

Definition field_env (name path : string) : EnvVar := mkEnvVar name "" (Some path).
Definition value_env (name value : string) : EnvVar := mkEnvVar name value None.
Definition base_env (cluster : RiakCluster) : list EnvVar :=
  [field_env "POD_NAME" "metadata.name";
   field_env "POD_IP" "status.podIP";
   field_env "POD_NAMESPACE" "metadata.namespace";
   value_env "RIAK_CLUSTER_NAME" (cl_Name cluster)].
(** The name of the variable that carries a riak.conf key. *)
Definition config_env_name (key : string) : string :=
  "RIAK_CONFIG_" +:+ ToUpper (ReplaceByte key "." "__").
(** [range_order]: the keys of [spec.riakConfig] as Go's [range] yields them. *)
Definition config_env (range_order : list string) (cfg : gmap string string) : list EnvVar :=
  (λ key, value_env (config_env_name key) (default "" (cfg !! key))) <$> SortStrings range_order.
Definition tls_env (cluster : RiakCluster) : list EnvVar :=
  if tls_enabled cluster then
    [value_env "RIAK_CONFIG_SSL__CERTFILE" riakTLSCertFile;
     value_env "RIAK_CONFIG_SSL__KEYFILE" riakTLSKeyFile;
     value_env "RIAK_CONFIG_SSL__CACERTFILE" riakTLSCACertFile;
     value_env "RIAK_CONFIG_LISTENER__HTTPS__INTERNAL" "0.0.0.0:8443";
     value_env "RIAK_CONFIG_CHECK_CRL" "off"]
  else [].
Definition riak_env_vars (range_order : list string) (cluster : RiakCluster) : list EnvVar :=
  base_env cluster ++ config_env range_order (cs_RiakConfig (cl_Spec cluster)) ++ tls_env cluster.

Definition riak_resources (cluster : RiakCluster) : ResourceRequirements :=
  default (mkResourceRequirements {["cpu" := "1"; "memory" := "2Gi"]} ∅) (cs_Resources (cl_Spec cluster)).

(** Pairs of volume and path. *)
Definition readOnlyScratchPaths : list (string * string) :=
  [("riak-etc", "/etc/riak"); ("riak-log", "/var/log/riak"); ("riak-run", "/var/run/riak");
   ("riak-tmp", "/tmp")].
Definition scratch_mounts (cluster : RiakCluster) : list VolumeMount :=
  if cs_ReadOnlyRootFilesystem (cl_Spec cluster)
  then (λ w, mkVolumeMount w.1 w.2 false) <$> readOnlyScratchPaths else [].
Definition tls_mounts (cluster : RiakCluster) : list VolumeMount :=
  if tls_enabled cluster then [mkVolumeMount riakTLSVolumeName riakTLSMountPath true] else [].
Definition riak_mounts (cluster : RiakCluster) : list VolumeMount :=
  mkVolumeMount "data" "/var/lib/riak" false :: scratch_mounts cluster ++ tls_mounts cluster.
Definition riak_ports (cluster : RiakCluster) : list ContainerPort :=
  [mkContainerPort "protobuf" 8087 ""; mkContainerPort "http" 8098 ""] ++
  (if tls_enabled cluster then [mkContainerPort riakTLSPortName riakTLSPort ""] else []).
Definition pod_volumes (cluster : RiakCluster) : list Volume :=
  (if tls_enabled cluster then [tlsVolume cluster] else []) ++
  (if monitoringEnabled cluster then [exporterConfigVolume cluster] else []) ++
  (if cs_EphemeralStorage (cl_Spec cluster) then [mkVolume "data" VolEmptyDir] else []) ++
  (if cs_ReadOnlyRootFilesystem (cl_Spec cluster)
   then (λ w, mkVolume w.1 VolEmptyDir) <$> readOnlyScratchPaths else []).

Definition RuntimeDefault : string := "RuntimeDefault".
Definition riakPodSecurityContext (cluster : RiakCluster) : PodSecurityContext :=
  let sc := default (mkPodSecurityContext None None None None) (cs_PodSecurityContext (cl_Spec cluster)) in
  match psc_SeccompProfile sc with
  | None => mkPodSecurityContext (Some RuntimeDefault) (psc_RunAsUser sc) (psc_RunAsGroup sc) (psc_FSGroup sc)
  | Some _ => sc
  end.
Definition riakContainerSecurityContext (readOnlyRoot : bool) : SecurityContext :=
  mkSecurityContext (Some false) ["ALL"] (if readOnlyRoot then Some true else None).

Definition seedEtcRiakContainer (image pullPolicy : string) : Container :=
  {| ct_Name := "seed-etc-riak";
     ct_Image := image;
     ct_ImagePullPolicy := pullPolicy;
     ct_Command := ["sh"; "-c"; "cp -R /etc/riak/. /seed/"];
     ct_Args := [];
     ct_Stdin := false;
     ct_TTY := false;
     ct_Ports := [];
     ct_Env := [];
     ct_Resources := mkResourceRequirements ∅ ∅;
     ct_VolumeMounts := [mkVolumeMount "riak-etc" "/seed" false];
     ct_SecurityContext := Some (riakContainerSecurityContext true);
     ct_LivenessProbe := None;
     ct_ReadinessProbe := None |}.
Definition init_containers (DefaultImage : string) (cluster : RiakCluster) : list Container :=
  if cs_ReadOnlyRootFilesystem (cl_Spec cluster)
  then [seedEtcRiakContainer (riak_image DefaultImage cluster) (pull_policy cluster)] else [].
Definition riak_container (DefaultImage : string) (range_order : list string) (cluster : RiakCluster)
    : Container :=
  {| ct_Name := "riak";
     ct_Image := riak_image DefaultImage cluster;
     ct_ImagePullPolicy := pull_policy cluster;
     ct_Command := [];
     ct_Args := [];
     ct_Stdin := true;
     ct_TTY := true;
     ct_Ports := riak_ports cluster;
     ct_Env := riak_env_vars range_order cluster;
     ct_Resources := riak_resources cluster;
     ct_VolumeMounts := riak_mounts cluster;
     ct_SecurityContext := Some (riakContainerSecurityContext (cs_ReadOnlyRootFilesystem (cl_Spec cluster)));
     ct_LivenessProbe := Some (mkProbe (FromString "protobuf") 60 10 5 6);
     ct_ReadinessProbe := Some (mkProbe (FromString "protobuf") 20 10 5 2) |}.

Definition terminationGracePeriod (cluster : RiakCluster) : Z :=
  default 300%Z (cs_TerminationGracePeriodSeconds (cl_Spec cluster)).
Definition riakAffinity (cluster : RiakCluster) : option PodAntiAffinity :=
  let term := mkPodAffinityTerm (cluster_labels cluster) "kubernetes.io/hostname" in
  let mode := cs_PodAntiAffinity (cl_Spec cluster) in
  if String.eqb mode PodAntiAffinityNone then None
  else if String.eqb mode PodAntiAffinityPreferred then Some (mkPodAntiAffinity [] [(100%Z, term)])
  else Some (mkPodAntiAffinity [term] []).

Definition pod_template (DefaultImage : string) (range_order : list string) (cluster : RiakCluster)
    : PodTemplate :=
  mkPodTemplate (cluster_labels cluster)
    {| ps_NodeSelector := cs_NodeSelector (cl_Spec cluster);
       ps_SecurityContext := Some (riakPodSecurityContext cluster);
       ps_Volumes := pod_volumes cluster;
       ps_InitContainers := init_containers DefaultImage cluster;
       ps_Containers := riak_container DefaultImage range_order cluster :: monitoringSidecars cluster;
       ps_TerminationGracePeriodSeconds := Some (terminationGracePeriod cluster);
       ps_Affinity := riakAffinity cluster |}.

(** ** Storage *)
Definition storage_size (cluster : RiakCluster) : string :=
  default defaultStorageSize (cs_StorageSize (cl_Spec cluster)).
Definition ReadWriteOnce : string := "ReadWriteOnce".
Definition volume_claims (cluster : RiakCluster) : list VolumeClaimTemplate :=
  if cs_EphemeralStorage (cl_Spec cluster) then []
  else [mkVolumeClaimTemplate "data" [ReadWriteOnce] (Some (cs_StorageClassName (cl_Spec cluster)))
          (storage_size cluster)].
Fixpoint hasDataVolumeClaim (templates : list VolumeClaimTemplate) : bool :=
  match templates with
  | [] => false
  | t :: templates' => if String.eqb (vct_Name t) "data" then true else hasDataVolumeClaim templates'
  end.
Definition storage_mode_error (cluster : RiakCluster) (existingEphemeral : bool) : error :=
  Errorf ("storage mode is immutable: StatefulSet " +:+ Quote (cl_Name cluster) +:+
          " was created with ephemeralStorage=" +:+ fmt_bool existingEphemeral +:+
          " and cannot be switched to " +:+ fmt_bool (cs_EphemeralStorage (cl_Spec cluster)) +:+
          " (StatefulSet volumeClaimTemplates are immutable); " +:+
          "delete and recreate the cluster to change storage modes").

Section reconcile.
Context `{L : KubeLib}.
(** The reconciler's fallback image, and the iteration order of [spec.riakConfig]. *)
Context (DefaultImage : string) (range_order : gmap string string → list string).

Definition RollingUpdate : string := "RollingUpdate".
Definition sts_spec (cluster : RiakCluster) (live : StatefulSet) : StatefulSetSpec :=
  {| ss_UpdateStrategyType := RollingUpdate;
     ss_Partition := Some (stsPartition live (cl_Size cluster));
     ss_ServiceName := headless_name cluster;
     ss_Replicas := Some (cl_Size cluster);
     ss_Selector := cluster_labels cluster;
     ss_Template := pod_template DefaultImage (range_order (cs_RiakConfig (cl_Spec cluster))) cluster;
     ss_VolumeClaimTemplates := volume_claims cluster |}.
Definition sts_mutate (cluster : RiakCluster) (sts : StatefulSet) : res StatefulSet :=
  m ← SetControllerReference "RiakCluster" (cl_Meta cluster) (sts_Meta sts);
  mret (mkStatefulSet m (sts_spec cluster sts) (sts_Status sts)).

Definition sts_key (cluster : RiakCluster) : ObjectKey := mkKey (cl_Namespace cluster) (cl_Name cluster).
Definition reconcileStatefulSet (cluster : RiakCluster) : M (option error) :=
  r ← Get KStatefulSet (sts_key cluster);
  let refused :=
    match r with
    | Ok existing =>
        let existingEphemeral := negb (hasDataVolumeClaim (ss_VolumeClaimTemplates (sts_Spec existing))) in
        if negb (Bool.eqb existingEphemeral (cs_EphemeralStorage (cl_Spec cluster)))
        then Some (storage_mode_error cluster existingEphemeral) else None
    | Err e => if negb (IsNotFound e) then Some e else None
    end in
  match refused with
  | Some e => mret (Some e)
  | None => CreateOrUpdate KStatefulSet (sts_key cluster) (sts_mutate cluster)
  end.

(** ** Services *)
Definition service_port (cluster : RiakCluster) : Z :=
  if negb (cs_ServicePort (cl_Spec cluster) =? 0)%Z then cs_ServicePort (cl_Spec cluster) else 8087.
Definition basePorts (cluster : RiakCluster) : list ServicePort :=
  [mkServicePort "protobuf" (service_port cluster) (FromString "protobuf");
   mkServicePort "http" 8098 (FromString "http")] ++
  (if tls_enabled cluster
   then [mkServicePort riakTLSPortName riakTLSPort (FromString riakTLSPortName)] else []) ++
  (if monitoringEnabled cluster
   then [mkServicePort riakMetricsPortName riakMetricsPort (FromString riakMetricsPortName)] else []).
Definition headless_mutate (cluster : RiakCluster) (svc : Service) : res Service :=
  m ← SetControllerReference "RiakCluster" (cl_Meta cluster) (svc_Meta svc);
  mret (mkService m (mkServiceSpec "" ClusterIPNone (cluster_labels cluster) (basePorts cluster) true)).
Definition client_mutate (cluster : RiakCluster) (svc : Service) : res Service :=
  let labels := <["cluster" := cl_Name cluster]> (<["app" := "riak"]> (om_Labels (svc_Meta svc))) in
  m ← SetControllerReference "RiakCluster" (cl_Meta cluster) (with_labels (svc_Meta svc) labels);
  mret (mkService m (mkServiceSpec ServiceTypeClusterIP "" (cluster_labels cluster) (basePorts cluster) false)).
Definition reconcileService (cluster : RiakCluster) : M (option error) :=
  e ← CreateOrUpdate KService (mkKey (cl_Namespace cluster) (headless_name cluster)) (headless_mutate cluster);
  match e with
  | Some e => mret (Some e)
  | None => CreateOrUpdate KService (mkKey (cl_Namespace cluster) (cl_Name cluster)) (client_mutate cluster)
  end.
End reconcile.
