(* ===== verification/StatefulSetFacts.v ===== *)
(** * The StatefulSet and the Services: properties

    The pod template is well formed, does not depend on the iteration order of a Go map,
    and a riak.conf key survives the trip through the environment to the image's
    entrypoint ([images/riak/scripts/entrypoint.sh]). *)
From S2P Require Import Prelude GoLib Effects Types Samples KubeTypes Kube KubeLib Status Executor Tls Monitoring Rollout StatefulSet.

(** ** riak.conf keys in the environment *)
(** [${config_key//__/.}]: left to right, without overlap. *)
Fixpoint undo_dots (s : string) : string :=
  match s with
  | EmptyString => ""
  | String a s1 =>
      match s1 with
      | String b s2 =>
          if is_byte "_" a && is_byte "_" b then String "." (undo_dots s2) else String a (undo_dots s1)
      | EmptyString => String a ""
      end
  end.
(** The entrypoint's loop body: the riak.conf key set by a variable. *)
Definition entrypoint_key (name : string) : string :=
  undo_dots (ToLower (if HasPrefix name "RIAK_CONFIG_"
                      then String.substring 12 (String.length name - 12) name else name)).

(** Keys the scheme carries faithfully: no capitals, and no underscore next to a dot or
    another underscore. *)
Definition is_upper (a : ascii) : bool := let n := nat_of_ascii a in (65 <=? n)%nat && (n <=? 90)%nat.
Definition dot_or_underscore (a : ascii) : bool := is_byte "." a || is_byte "_" a.
Fixpoint conf_key (s : string) : bool :=
  match s with
  | EmptyString => true
  | String a s1 =>
      negb (is_upper a) &&
      match s1 with
      | String b _ =>
          negb (is_byte "_" a && dot_or_underscore b) && negb (is_byte "." a && is_byte "_" b)
      | EmptyString => true
      end && conf_key s1
  end.

Lemma lower_upper_byte a : is_upper a = false → lower_byte (upper_byte a) = a.
Proof. destruct a as [[] [] [] [] [] [] [] []]; by vm_compute. Qed.
Lemma lower_upper s : Str.all (λ a, negb (is_upper a)) s = true → ToLower (ToUpper s) = s.
Proof.
  induction s as [|a s IH]; [done|]. cbn. rewrite andb_true_iff, negb_true_iff. intros [Ha Hs].
  unfold ToLower, ToUpper in IH. by rewrite lower_upper_byte, IH.
Qed.
Lemma replace_lower s :
  Str.all (λ a, negb (is_upper a)) s = true → Str.all (λ a, negb (is_upper a)) (ReplaceByte s "." "__") = true.
Proof.
  induction s as [|a s IH]; [done|]. cbn [Str.all ReplaceByte]. rewrite andb_true_iff. intros [Ha Hs].
  rewrite Str.all_app, IH, andb_true_r by done. destruct (is_byte "." a); [done|]. cbn. by rewrite Ha.
Qed.
Lemma conf_key_lower s : conf_key s = true → Str.all (λ a, negb (is_upper a)) s = true.
Proof.
  induction s as [|a s IH]; [done|]. cbn [conf_key Str.all]. rewrite !andb_true_iff.
  intros [[Ha _] Hs]. by rewrite IH.
Qed.
Lemma undo_dots_plain a s :
  is_byte "_" a = false → undo_dots (String a s) = String a (undo_dots s).
Proof. intros Ha. destruct s; [done|]. cbn [undo_dots]. by rewrite Ha. Qed.
Lemma undo_replace s : conf_key s = true → undo_dots (ReplaceByte s "." "__") = s.
Proof.
  induction s as [|a s IH]; [done|]. cbn [conf_key ReplaceByte]. rewrite !andb_true_iff.
  intros [[_ Hadj] Hs]. specialize (IH Hs). destruct (is_byte "." a) eqn:Hdot.
  - unfold is_byte in Hdot. apply Ascii.eqb_eq in Hdot as ->. rewrite !Str.app_cons, Str.app_nil_l.
    cbn [undo_dots]. replace (is_byte "_" "_") with true by done. cbn [andb]. by rewrite IH.
  - rewrite Str.app_cons, Str.app_nil_l. destruct (is_byte "_" a) eqn:Hus.
    + destruct s as [|b s']; [done|]. unfold dot_or_underscore in Hadj. cbn [andb] in Hadj.
      rewrite andb_true_iff, negb_true_iff, orb_false_iff in Hadj. destruct Hadj as [[Hb1 Hb2] _].
      revert IH. cbn [ReplaceByte]. rewrite Hb1, Str.app_cons, Str.app_nil_l. intros IH.
      change (undo_dots (String a (String b (ReplaceByte s' "." "__")))) with
        (if is_byte "_" a && is_byte "_" b then String "." (undo_dots (ReplaceByte s' "." "__"))
         else String a (undo_dots (String b (ReplaceByte s' "." "__")))).
      by rewrite Hb2, andb_false_r, IH.
    + by rewrite undo_dots_plain, IH.
Qed.
Lemma substring_all s : String.substring 0 (String.length s) s = s.
Proof. induction s; cbn; congruence. Qed.
Lemma config_key_read key : conf_key key = true → entrypoint_key (config_env_name key) = key.
Proof.
  intros Hk. unfold entrypoint_key, config_env_name.
  rewrite (proj2 (HasPrefix_spec _ _)) by by eexists.
  set (t := ToUpper _). replace (String.substring 12 _ _) with t.
  2: { symmetry. change (String.substring 0 (String.length t - 0) t = t). by rewrite Nat.sub_0_r, substring_all. }
  unfold t. rewrite lower_upper by by apply replace_lower, conf_key_lower. by apply undo_replace.
Qed.

(** ** Sorting the keys *)
Lemma SortStrings_order l1 l2 : NoDup l1 → l1 ≡ₚ l2 → SortStrings l1 = SortStrings l2.
Proof. intros. apply SortBy_unique; [by rewrite list_fmap_id|done]. Qed.

(** What [for key := range m] may do: visit every key of the map once. *)
Definition ranges (o : gmap string string → list string) : Prop :=
  ∀ m, NoDup (o m) ∧ ∀ k, k ∈ o m ↔ is_Some (m !! k).
Lemma ranges_perm o1 o2 m : ranges o1 → ranges o2 → o1 m ≡ₚ o2 m.
Proof.
  intros H1 H2. apply NoDup_Permutation; [apply H1|apply H2|]. intros k.
  by rewrite (proj2 (H1 m) k), (proj2 (H2 m) k).
Qed.
Lemma config_env_order o1 o2 m : ranges o1 → ranges o2 → config_env (o1 m) m = config_env (o2 m) m.
Proof.
  intros H1 H2. unfold config_env. by rewrite (SortStrings_order (o1 m) (o2 m)) by (apply H1 || by apply ranges_perm).
Qed.
Definition go_range (m : gmap string string) : list string := (map_to_list m).*1.
Lemma go_range_ranges : ranges go_range.
Proof.
  intros m. split; [apply NoDup_fst_map_to_list|]. intros k. unfold go_range.
  rewrite list_elem_of_fmap. split.
  - intros ([k' v] & -> & Hv%elem_of_map_to_list). by exists v.
  - intros [v Hv]. exists (k, v). by rewrite elem_of_map_to_list.
Qed.

(** ** References inside the pod template *)
Definition containers (t : PodTemplate) : list Container :=
  ps_InitContainers (pt_Spec t) ++ ps_Containers (pt_Spec t).
(** The volumes a pod of the StatefulSet gets. *)
Definition volumes (s : StatefulSetSpec) : list string :=
  (vol_Name <$> ps_Volumes (pt_Spec (ss_Template s))) ++ (vct_Name <$> ss_VolumeClaimTemplates s).
Definition port_names (t : PodTemplate) : list string :=
  ps_Containers (pt_Spec t) ≫= λ c, cp_Name <$> ct_Ports c.
Definition port_numbers (t : PodTemplate) : list Z :=
  ps_Containers (pt_Spec t) ≫= λ c, cp_ContainerPort <$> ct_Ports c.
Definition pod_ports (t : PodTemplate) : list ContainerPort := ps_Containers (pt_Spec t) ≫= ct_Ports.
(** The declared TCP port a reference is to, by its number or by its name; a container port
    without a protocol is TCP. *)
Definition port_referred (p : IntOrString) (cp : ContainerPort) : bool :=
  (String.eqb (cp_Protocol cp) "" || String.eqb (cp_Protocol cp) "TCP") &&
  match p with FromInt n => (cp_ContainerPort cp =? n)%Z | FromString n => String.eqb (cp_Name cp) n end.
Definition resolve (ports : list ContainerPort) (p : IntOrString) : option ContainerPort :=
  List.find (port_referred p) ports.
Definition probe_ports (c : Container) : list IntOrString :=
  pr_TCPPort <$> (option_list (ct_LivenessProbe c) ++ option_list (ct_ReadinessProbe c)).

Record well_formed (s : StatefulSetSpec) : Prop := {
  wf_volumes : NoDup (volumes s);
  wf_mounts c m : c ∈ containers (ss_Template s) → m ∈ ct_VolumeMounts c → vm_Name m ∈ volumes s;
  wf_paths c : c ∈ containers (ss_Template s) → NoDup (vm_MountPath <$> ct_VolumeMounts c);
  wf_containers : NoDup (ct_Name <$> containers (ss_Template s));
  wf_ports : NoDup (port_names (ss_Template s)) ∧ NoDup (port_numbers (ss_Template s));
  wf_probes c p : c ∈ containers (ss_Template s) → p ∈ probe_ports c →
    is_Some (resolve (ct_Ports c) p);
  wf_selector : ss_Selector s ⊆ pt_Labels (ss_Template s)
}.

(** Everything the clauses look at is determined by four switches. *)
Lemma monitoring_sidecars cluster :
  if monitoringEnabled cluster
  then ∃ mon, monitoringSidecars cluster = [exporterContainer mon]
  else monitoringSidecars cluster = [].
Proof.
  unfold monitoringEnabled, monitoringSidecars. destruct (cs_Monitoring _) as [mon|]; [|done].
  destruct (mon_Enabled mon); [by exists mon|done].
Qed.
Lemma tls_volume_name cluster : vol_Name (tlsVolume cluster) = riakTLSVolumeName.
Proof. unfold tlsVolume. by destruct (negb _). Qed.

Section wf.
Context (DefaultImage : string) (range_order : gmap string string → list string).
Context (cluster : RiakCluster) (live : StatefulSet).
Let s := sts_spec DefaultImage range_order cluster live.

Definition sidecar_names : list string := if monitoringEnabled cluster then [exporterContainerName] else [].
Lemma volumes_eq :
  volumes s =
  (if tls_enabled cluster then [riakTLSVolumeName] else []) ++
  (if monitoringEnabled cluster then ["metrics-exporter-config"] else []) ++
  (if cs_EphemeralStorage (cl_Spec cluster) then ["data"] else []) ++
  (if cs_ReadOnlyRootFilesystem (cl_Spec cluster) then readOnlyScratchPaths.*1 else []) ++
  (if cs_EphemeralStorage (cl_Spec cluster) then [] else ["data"]).
Proof.
  unfold volumes, s. cbn [sts_spec ss_Template pod_template pt_Spec ps_Volumes ss_VolumeClaimTemplates].
  unfold pod_volumes, volume_claims.
  destruct (tls_enabled cluster), (monitoringEnabled cluster), (cs_EphemeralStorage (cl_Spec cluster)),
    (cs_ReadOnlyRootFilesystem (cl_Spec cluster)); cbn; rewrite ?tls_volume_name; done.
Qed.
Lemma containers_in c :
  c ∈ containers (ss_Template s) →
  (cs_ReadOnlyRootFilesystem (cl_Spec cluster) = true ∧
   c = seedEtcRiakContainer (riak_image DefaultImage cluster) (pull_policy cluster)) ∨
  c = riak_container DefaultImage (range_order (cs_RiakConfig (cl_Spec cluster))) cluster ∨
  (monitoringEnabled cluster = true ∧ ∃ mon, c = exporterContainer mon).
Proof.
  unfold containers, s. cbn [sts_spec ss_Template pod_template pt_Spec ps_InitContainers ps_Containers].
  unfold init_containers. pose proof (monitoring_sidecars cluster) as Hm.
  rewrite elem_of_app, elem_of_cons. intros [H|[->|H]]; [|by right; left|].
  - destruct (cs_ReadOnlyRootFilesystem _); [|by apply elem_of_nil in H].
    apply list_elem_of_singleton in H as ->. by left.
  - destruct (monitoringEnabled cluster); [|rewrite Hm in H; by apply elem_of_nil in H].
    destruct Hm as [mon Hm]. rewrite Hm in H. apply list_elem_of_singleton in H as ->. right. right. eauto.
Qed.
(** Decide a goal about concrete names once the switches are known. *)
Ltac by_switches :=
  destruct (tls_enabled cluster), (monitoringEnabled cluster), (cs_EphemeralStorage (cl_Spec cluster)),
    (cs_ReadOnlyRootFilesystem (cl_Spec cluster)); try done;
  apply (bool_decide_unpack _); by vm_compute.

Lemma mounts_declared c m :
  c ∈ containers (ss_Template s) → m ∈ ct_VolumeMounts c → vm_Name m ∈ volumes s.
Proof.
  rewrite volumes_eq. intros [[Hr ->]|[->|[Hm [mon ->]]]]%containers_in Hin.
  - apply list_elem_of_singleton in Hin as ->. cbn [vm_Name]. revert Hr. by_switches.
  - apply (list_elem_of_fmap_2 vm_Name) in Hin. revert Hin. generalize (vm_Name m). intros n.
    cbn [ct_VolumeMounts riak_container]. unfold riak_mounts, scratch_mounts, tls_mounts.
    destruct (tls_enabled cluster), (monitoringEnabled cluster), (cs_EphemeralStorage (cl_Spec cluster)),
      (cs_ReadOnlyRootFilesystem (cl_Spec cluster)); cbn; set_solver.
  - apply list_elem_of_singleton in Hin as ->. cbn [vm_Name]. revert Hm. by_switches.
Qed.
Lemma template_well_formed : well_formed s.
Proof.
  split.
  - rewrite volumes_eq. by_switches.
  - apply mounts_declared.
  - intros c [[_ ->]|[->|[_ [mon ->]]]]%containers_in; [apply NoDup_singleton| |apply NoDup_singleton].
    cbn [ct_VolumeMounts riak_container]. unfold riak_mounts, scratch_mounts, tls_mounts. by_switches.
  - unfold containers, s. cbn [sts_spec ss_Template pod_template pt_Spec ps_InitContainers ps_Containers].
    unfold init_containers. pose proof (monitoring_sidecars cluster) as Hm.
    destruct (cs_ReadOnlyRootFilesystem _), (monitoringEnabled cluster);
      [destruct Hm as [mon Hm]| |destruct Hm as [mon Hm]|]; rewrite Hm; cbn;
      apply (bool_decide_unpack _); by vm_compute.
  - unfold port_names, port_numbers, s. cbn [sts_spec ss_Template pod_template pt_Spec ps_Containers].
    pose proof (monitoring_sidecars cluster) as Hm. unfold riak_container, riak_ports.
    destruct (tls_enabled cluster), (monitoringEnabled cluster);
      [destruct Hm as [mon Hm]| |destruct Hm as [mon Hm]|]; rewrite Hm; cbn;
      split; apply (bool_decide_unpack _); by vm_compute.
  - intros c p [[_ ->]|[->|[_ [mon ->]]]]%containers_in Hp.
    + by apply elem_of_nil in Hp.
    + cbn in Hp. rewrite !elem_of_cons, elem_of_nil in Hp. by destruct Hp as [->|[->|[]]]; eexists.
    + cbn in Hp. apply list_elem_of_singleton in Hp as ->. by eexists.
  - done.
Qed.
(** A port of the Service reaches the declared container port of its name: protobuf under the
    number the spec chose, every other under its own number. *)
Definition routed (t : PodTemplate) (p : ServicePort) : Prop :=
  ∃ cp, resolve (pod_ports t) (sp_TargetPort p) = Some cp ∧ cp_Name cp = sp_Name p ∧
    cp_ContainerPort cp = if String.eqb (sp_Name p) "protobuf" then 8087%Z else sp_Port p.
Lemma ports_routed p : p ∈ basePorts cluster → routed (ss_Template s) p.
Proof.
  unfold basePorts, routed, pod_ports, s. cbn [sts_spec ss_Template pod_template pt_Spec ps_Containers].
  pose proof (monitoring_sidecars cluster) as Hm. unfold riak_container, riak_ports.
  rewrite !elem_of_app, !elem_of_cons, elem_of_nil.
  destruct (tls_enabled cluster), (monitoringEnabled cluster);
    [destruct Hm as [mon Hm]| |destruct Hm as [mon Hm]|]; rewrite Hm; cbn;
    rewrite ?list_elem_of_singleton, ?elem_of_nil; intros Hp;
    destruct_or? Hp; try done; subst p; by eexists.
Qed.
End wf.

(** ** Reapplying the spec *)
Lemma stsPartition_again live live' replicas :
  om_UID (sts_Meta live) ≠ "" → om_UID (sts_Meta live') = om_UID (sts_Meta live) →
  sts_Status live' = sts_Status live → livePartition live' = stsPartition live replicas →
  stsPartition live' replicas = stsPartition live replicas.
Proof.
  intros Hu Hu' Hst Hp. unfold stsPartition in *. rewrite Hu', (proj2 (String.eqb_neq _ _) Hu) in *.
  assert (rolloutInProgress live' = rolloutInProgress live) as -> by (unfold rolloutInProgress; by rewrite Hst).
  destruct (rolloutInProgress live); [|done]. rewrite Hp. lia.
Qed.

(** ** The storage mode *)
Definition ephemeral_sts (sts : StatefulSet) : bool :=
  negb (hasDataVolumeClaim (ss_VolumeClaimTemplates (sts_Spec sts))).
Definition same_mode (cluster : RiakCluster) (sts : StatefulSet) : Prop :=
  ephemeral_sts sts = cs_EphemeralStorage (cl_Spec cluster).

Section storage.
Context `{L : KubeLib} `{HL : !KubeLibLaws L}.
Context (DefaultImage : string) (range_order : gmap string string → list string) (cluster : RiakCluster).

(** The StatefulSet is written once, after it was read with the storage mode of the spec or
    reported missing, and with the operator's mutation. *)
Definition sts_ok (h : list event) (a : api) : Prop :=
  match a with
  | AGet Cached KStatefulSet key => key = sts_key cluster ∧ h = []
  | ACreateOrUpdate k key f =>
      key = sts_key cluster ∧
      (match k return (obj k → res (obj k)) → Prop with
       | KStatefulSet => λ f, f = sts_mutate DefaultImage range_order cluster
       | _ => λ _, False
       end f) ∧
      ∃ r, h = [existT (AGet Cached KStatefulSet (sts_key cluster)) r] ∧
        match r with Ok sts => same_mode cluster sts | Err e => IsNotFound e = true end
  | _ => False
  end.
(** What it reports: the refusal, the failed read, or what the write said. *)
Definition sts_result (e : option error) (h : list event) : Prop :=
  ∃ r h', h = h' ++ [existT (AGet Cached KStatefulSet (sts_key cluster)) r] ∧
  match r with
  | Ok sts => (¬ same_mode cluster sts → h' = [] ∧ e = Some (storage_mode_error cluster (ephemeral_sts sts))) ∧
              (same_mode cluster sts → length h' = 1)
  | Err e' => if IsNotFound e' then length h' = 1 else h' = [] ∧ e = Some e'
  end.
Lemma reconcileStatefulSet_wp :
  wp (trace_env sts_ok) (reconcileStatefulSet DefaultImage range_order cluster) sts_result [].
Proof.
  unfold reconcileStatefulSet, Get. apply wp_trace; [done|]. intros r. cbv zeta.
  unfold sts_result. destruct r as [sts|e].
  - destruct (Bool.eqb _ _) eqn:Hm.
    + cbn [negb]. apply eqb_prop in Hm. apply wp_trace_last.
      { split; [done|]. split; [done|]. by exists (Ok sts). }
      intros e. exists (Ok sts), [existT (ACreateOrUpdate KStatefulSet (sts_key cluster)
        (sts_mutate DefaultImage range_order cluster)) e]. by split; [|split; [intros []|]].
    + cbn [negb]. apply eqb_false_iff in Hm. apply wp_ret. by exists (Ok sts), [].
  - destruct (IsNotFound e) eqn:Hn; cbn [negb].
    + apply wp_trace_last; [split; [done|]; split; [done|]; by exists (Err e)|].
      intros e'. eexists (Err e), [_]. split; [done|]. by rewrite Hn.
    + apply wp_ret. exists (Err e), []. split; [done|]. by rewrite Hn.
Qed.
Lemma sts_mutate_mode sts sts' :
  sts_mutate DefaultImage range_order cluster sts = Ok sts' → same_mode cluster sts'.
Proof.
  unfold sts_mutate. intros H. destruct (SetControllerReference _ _ _) as [m|e]; [|done].
  injection H as <-. unfold same_mode, ephemeral_sts. cbn. unfold volume_claims.
  by destruct (cs_EphemeralStorage _).
Qed.
End storage.

(** ** Properties *)

(** C16: once the StatefulSet exists (it has a UID), re-applying the spec does not change it
    again, in whatever order Go iterates over [spec.riakConfig]: with the rollout status
    unchanged, a second application computes the spec the first one stored. The application
    that creates the set is not covered: it sets the partition to 0, and the next one raises
    it to the replica count. *)
Theorem statefulset_stable (o1 o2 : gmap string string → list string) (DefaultImage : string)
    (cluster : RiakCluster) (live applied : StatefulSet) :
  ranges o1 → ranges o2 →
  om_UID (sts_Meta live) ≠ "" → om_UID (sts_Meta applied) = om_UID (sts_Meta live) →
  sts_Status applied = sts_Status live → sts_Spec applied = sts_spec DefaultImage o1 cluster live →
  sts_spec DefaultImage o2 cluster applied = sts_Spec applied.
Proof.
  intros H1 H2 Hu Hu' Hst Hsp. rewrite Hsp. unfold sts_spec. f_equal.
  - f_equal. apply stsPartition_again; [done..|]. unfold livePartition. by rewrite Hsp.
  - unfold pod_template, riak_container, riak_env_vars. by rewrite (config_env_order o2 o1).
Qed.
Definition config_cluster : RiakCluster :=
  let s := sample_spec in
  mkRiakCluster (new_meta "c" "db")
    (mkRiakClusterSpec (cs_Size s) (cs_Image s) (cs_ImagePullPolicy s) (cs_Resources s)
       (cs_StorageClassName s) (cs_StorageSize s) false {["ring_size" := "64"; "storage_backend" := "leveldb"]}
       (Some sample_tls) (Some (mkMonitoringConfig true "" None "")) 0 (cs_NodeSelector s) (cs_PodAntiAffinity s)
       None true None None None) no_RiakClusterStatus.
Definition created_sts : StatefulSet :=
  mkStatefulSet (mkObjectMeta "c" "db" "uid" 1 None [] ∅ [])
    (ss_with_partition (sts_spec "" go_range config_cluster
       (mkStatefulSet (new_meta "c" "db")
          (mkStatefulSetSpec "" None "" None ∅ (mkPodTemplate ∅ (mkPodSpec ∅ None [] [] [] None None)) [])
          (mkStatefulSetStatus "" ""))) 2) (mkStatefulSetStatus "a" "b").
Lemma statefulset_stable_witness :
  let applied := mkStatefulSet (sts_Meta created_sts) (sts_spec "" go_range config_cluster created_sts)
                   (sts_Status created_sts) in
  ss_Partition (sts_Spec applied) = Some 2%Z ∧
  sts_spec "" (λ m, reverse (go_range m)) config_cluster applied = sts_Spec applied.
Proof.
  intros applied. split; [done|].
  apply (statefulset_stable go_range (λ m, reverse (go_range m)) "" config_cluster created_sts applied).
  - apply go_range_ranges.
  - intros m. destruct (go_range_ranges m) as [H1 H2]. split; [by rewrite reverse_Permutation|].
    intros k. by rewrite elem_of_reverse.
  - done.
  - done.
  - done.
  - done.
Defined.

(** C22: the pod template the operator applies is well formed for every spec: volume,
    container and port names and port numbers are distinct, every mount names a volume or a
    volume claim of the pod, no container mounts two volumes at one path, every probe targets,
    by name or by number, a TCP port its container declares, and the selector matches the pods. *)
Theorem statefulset_well_formed (DefaultImage : string) (range_order : gmap string string → list string)
    (cluster : RiakCluster) (live : StatefulSet) :
  well_formed (sts_spec DefaultImage range_order cluster live).
Proof. apply template_well_formed. Qed.

(** C23: both Services reach the pods: they select them by their labels, every port they
    expose targets the TCP port of its name that a container of the pod declares (protobuf the
    port 8087, every other the port of the Service's own number), and port names are distinct;
    the port numbers clash only if [spec.servicePort] takes a fixed one. The headless
    Service is the one the StatefulSet names. *)
Theorem services_reach_pods (L : KubeLib) (DefaultImage : string)
    (range_order : gmap string string → list string) (cluster : RiakCluster) (live : StatefulSet)
    (svc svc' : Service) :
  headless_mutate cluster svc = Ok svc' ∨ client_mutate cluster svc = Ok svc' →
  let s := sts_spec DefaultImage range_order cluster live in
  let ports := svs_Ports (svc_Spec svc') in
  ss_ServiceName s = headless_name cluster ∧
  svs_Selector (svc_Spec svc') ⊆ pt_Labels (ss_Template s) ∧
  (∀ p, p ∈ ports → routed (ss_Template s) p) ∧
  NoDup (sp_Name <$> ports) ∧
  (NoDup (sp_Port <$> ports) ↔ service_port cluster ∉ sp_Port <$> tail ports).
Proof.
  intros Hm s ports. assert (ports = basePorts cluster ∧
    svs_Selector (svc_Spec svc') = cluster_labels cluster) as [-> ->].
  { unfold ports. destruct Hm as [Hm|Hm]; unfold headless_mutate, client_mutate in Hm;
      destruct (SetControllerReference _ _ _); try done; by injection Hm as <-. }
  split; [done|]. split; [done|]. split; [apply ports_routed|]. unfold basePorts.
  generalize (service_port cluster). intros n.
  destruct (tls_enabled cluster), (monitoringEnabled cluster); cbn;
    (split; [apply (bool_decide_unpack _); by vm_compute|]); rewrite NoDup_cons;
    (split; [by intros [? _]|intros ?; split; [done|]; apply (bool_decide_unpack _); by vm_compute]).
Qed.
Definition demo_headless : Service :=
  mkService (mkObjectMeta "c-headless" "db" "" 0 None [] ∅ [mkOwnerReference "RiakCluster" "c" "" true])
    (mkServiceSpec "" ClusterIPNone (cluster_labels config_cluster) (basePorts config_cluster) true).
Lemma services_reach_pods_witness :
  let s := sts_spec "" go_range config_cluster created_sts in
  let ports := svs_Ports (svc_Spec demo_headless) in
  length ports = 4 ∧ ss_ServiceName s = "c-headless" ∧
  svs_Selector (svc_Spec demo_headless) ⊆ pt_Labels (ss_Template s) ∧
  (∀ p, p ∈ ports → routed (ss_Template s) p) ∧
  NoDup (sp_Name <$> ports) ∧ (NoDup (sp_Port <$> ports) ↔ service_port config_cluster ∉ sp_Port <$> tail ports).
Proof.
  split; [done|].
  apply (services_reach_pods refLib "" go_range config_cluster created_sts
           (mkService (new_meta "c-headless" "db") (mkServiceSpec "" "" ∅ [] false)) demo_headless).
  left. reflexivity.
Defined.

(** C37: a key of [spec.riakConfig] reaches riak.conf under its own name: the entrypoint
    reads back from the variable's name the key it was made from, for every key without
    capitals in which no underscore touches a dot or another underscore; two such keys
    never share a variable. *)
Theorem riak_config_roundtrip (key key' : string) :
  conf_key key = true → conf_key key' = true →
  entrypoint_key (config_env_name key) = key ∧
  (config_env_name key = config_env_name key' → key = key').
Proof.
  intros H1 H2. split; [by apply config_key_read|]. intros Heq.
  by rewrite <-(config_key_read key), <-(config_key_read key'), Heq.
Qed.
(** With an underscore next to a dot two keys do share a variable, and the entrypoint's own
    first example maps to a dot. *)
Lemma riak_config_roundtrip_witness :
  config_env_name "a_.b" = config_env_name "a._b" ∧ config_env_name "a.b" = config_env_name "a__b" ∧
  entrypoint_key "RIAK_CONFIG_TRANSFER__LIMIT" = "transfer.limit" ∧
  entrypoint_key "RIAK_CONFIG_MULTI_BACKEND__FAST__STORAGE_BACKEND" = "multi_backend.fast.storage_backend" ∧
  (config_env_name "transfer_limit" = config_env_name "leveldb.data_root" → "transfer_limit" = "leveldb.data_root").
Proof.
  split; [done|]. split; [done|]. split; [by vm_compute|]. split.
  - apply (riak_config_roundtrip "multi_backend.fast.storage_backend" "ring_size"); by vm_compute.
  - apply (riak_config_roundtrip "transfer_limit" "leveldb.data_root"); by vm_compute.
Defined.

(** C15: the storage mode of a cluster is fixed by its StatefulSet: the StatefulSet is only
    written after it was read with the mode of the spec or reported missing, a mismatch is
    refused with a message naming both modes before anything is written, and what the
    mutation stores has the mode of the spec. *)
Theorem storage_mode_kept (L : KubeLib) (DefaultImage : string)
    (range_order : gmap string string → list string) (cluster : RiakCluster) :
  wp (trace_env (sts_ok DefaultImage range_order cluster))
    (reconcileStatefulSet DefaultImage range_order cluster) (sts_result cluster) [] ∧
  (∀ sts sts', sts_mutate DefaultImage range_order cluster sts = Ok sts' → same_mode cluster sts').
Proof. split; [apply reconcileStatefulSet_wp|apply sts_mutate_mode]. Qed.
