(* ===== verification/ClusterController.v ===== *)
(** * The RiakCluster controller ([internal/controller/riakcluster_controller.go])

    Status reporting, the TLS certificate, deletion and [Reconcile]; the StatefulSet and the
    Services are in [StatefulSet.v], the other steps in the files of their components. *)
From S2P Require Import Prelude GoLib Effects Types KubeTypes Kube KubeLib Status Executor Manager Tls Trust Monitoring Rollout BucketController StatefulSet.

(** ** Storage *)
Definition clusterStorage (cluster : RiakCluster) : string * string :=
  if cs_EphemeralStorage (cl_Spec cluster) then ("", "")
  else (cs_StorageClassName (cl_Spec cluster), storage_size cluster).
Definition nodeStorageReady (cluster : RiakCluster) (pod : Pod) : M bool :=
  if cs_EphemeralStorage (cl_Spec cluster) then mret (String.eqb (pod_Phase pod) PodRunning)
  else
    r ← Get KPVC (mkKey (om_Namespace (pod_Meta pod)) ("data-" +:+ pod_Name pod));
    mret match (r : res PersistentVolumeClaim) with
         | Err _ => false
         | Ok pvc => String.eqb (pvc_Phase pvc) ClaimBound
         end.

(** ** References to the cluster's buckets and users *)
Definition bucketRefs (cluster : RiakCluster) : M (res (list RiakBucketRef)) :=
  r ← List_ KBucket (cl_Namespace cluster) ∅;
  mret match (r : res (list RiakBucket)) with
       | Err e => Err e
       | Ok items =>
           Ok (SortBy br_Name
                 ((λ b, mkRiakBucketRef (om_Name (bk_Meta b)) (String.eqb (bst_Phase (bk_Status b)) BucketPhaseReady))
                    <$> filter (λ b, bs_ClusterName (bk_Spec b) = cl_Name cluster) items))
       end.
Definition userRefs (cluster : RiakCluster) : M (res (list RiakUserRef)) :=
  r ← List_ KUser (cl_Namespace cluster) ∅;
  mret match (r : res (list RiakUser)) with
       | Err e => Err e
       | Ok items =>
           Ok (SortBy ur_Name
                 ((λ u, mkRiakUserRef (om_Name (us_Meta u)) (String.eqb (ust_Phase (us_Status u)) UserPhaseReady))
                    <$> filter (λ u, us_ClusterName (us_Spec u) = cl_Name cluster) items))
       end.

(** ** Monitoring *)
(** The loop over the pods: readiness and error of the exporter. *)
Fixpoint exporter_loop (pods : list Pod) : bool * string :=
  match pods with
  | [] => (true, "")
  | pod :: pods' =>
      let '(ready, reason) := containerReady pod exporterContainerName in
      if ready then exporter_loop pods'
      else (false, "pod " +:+ pod_Name pod +:+ ": " +:+ reason)
  end.
Definition exporter_state (pods : list Pod) : bool * string :=
  match pods with [] => (false, "no Riak pods exist yet") | _ => exporter_loop pods end.
Definition scrape_gvk (kind : string) : option GVK :=
  if String.eqb kind ScrapeKindServiceMonitor then Some serviceMonitorGVK
  else if String.eqb kind ScrapeKindPodMonitor then Some podMonitorGVK else None.
Definition monitoringStatus (cluster : RiakCluster) (pods : list Pod) : M MonitoringStatus :=
  if negb (monitoringEnabled cluster) then mret no_MonitoringStatus
  else
    let '(ready, why) := exporter_state pods in
    let kind := scrapeKind cluster in
    match scrape_gvk kind with
    | None => mret (mkMonitoringStatus true ready kind false false why)
    | Some gvk =>
        r ← Get (KUnstructured gvk) (scrape_key cluster);
        let found := is_ok (r : res Unstructured) in
        mret (mkMonitoringStatus true ready kind found
                (found && bool_decide (gvk = serviceMonitorGVK)) why)
    end.

Section cluster.
Context `{L : KubeLib} `{X : GoX509}.
Context (apiReader : bool) (DefaultImage : string) (range_order : gmap string string → list string).

Definition tlsStatus (cluster : RiakCluster) (allNodesReady : bool) : M TLSStatus :=
  if negb (tls_enabled cluster) then mret no_TLSStatus
  else
    c ← fetchCertificateReadiness (clusterCertName (cl_Name cluster)) (cl_Namespace cluster);
    t ← trustStatus apiReader cluster;
    let '(ready, reason) := (c : bool * string) in
    let '(count, bundleError) := (t : Z * string) in
    mret (mkTLSStatus true ready reason (ready && allNodesReady) (ready && allNodesReady) count bundleError).

(** ** The status *)
(** One iteration of the loop over the pods. *)
Definition node_row (cluster : RiakCluster) (previous : gmap string (list Condition)) (pod : Pod)
    : M (RiakNodeMember * NodeCondition) :=
  let ready := podIsReady pod in
  let health := podHealth pod ready in
  let '(className, size) := clusterStorage cluster in
  storageReady ← nodeStorageReady cluster pod;
  now1 ← Now;
  let conds := default [] (previous !! pod_Name pod) in
  let conds := (if ready
    then setCondition now1 conds conditionReady true (cl_Generation cluster) "PodReady" "Riak node is ready"
    else setCondition now1 conds conditionReady false (cl_Generation cluster) "PodNotReady"
           ("pod " +:+ pod_Name pod +:+ " is in phase " +:+ pod_Phase pod +:+ " and not ready")).1 in
  now2 ← Now;
  let conds := (if storageReady : bool
    then setCondition now2 conds conditionStorageReady true (cl_Generation cluster) "StorageBound"
           "the node's data volume is available"
    else setCondition now2 conds conditionStorageReady false (cl_Generation cluster) "StorageUnavailable"
           "the node's data volume is not available yet").1 in
  mret (mkRiakNodeMember (pod_Name pod) (pod_Name pod) ready health (pod_Phase pod) storageReady conds,
        mkNodeCondition (pod_Name pod) ready health (pod_Phase pod) (pod_Name pod) storageReady
          className size conds).
Fixpoint node_rows (cluster : RiakCluster) (previous : gmap string (list Condition)) (pods : list Pod)
    : M (list (RiakNodeMember * NodeCondition)) :=
  match pods with
  | [] => mret []
  | pod :: pods' =>
      row ← node_row cluster previous pod;
      rows ← node_rows cluster previous pods';
      mret (row :: rows)
  end.
Definition previous_conditions (cluster : RiakCluster) : gmap string (list Condition) :=
  foldl (λ m nc, <[nc_Name nc := nc_Conditions nc]> m) ∅ (cst_NodeConditions (cl_Status cluster)).
Definition ready_count (pods : list Pod) : Z :=
  foldl (λ n pod, if podIsReady pod then wrap32 (n + 1) else n) 0%Z pods.
(** Have the nodes been joined into one ring? *)
Definition ring_formed (cluster : RiakCluster) (allReady : bool) (pods : list Pod) : M bool :=
  if allReady && (1 <? cl_Size cluster)%Z then
    r ← ReconcileMembership cluster ((λ p, pod_Name p) <$> pods);
    mret match (r : res bool) with Ok formed => formed | Err _ => false end
  else mret true.
Definition cluster_labels_only (cluster : RiakCluster) : gmap string string :=
  {["cluster" := cl_Name cluster]}.
(** Phase, status of the Ready condition, reason and message. *)
Definition phase_outcome (cluster : RiakCluster) (allReady formed : bool) (readyCount : Z)
    : string * bool * string * string :=
  if allReady && formed then (PhaseReady, true, "ClusterReady", "Riak cluster is ready")
  else if allReady
  then (PhaseCreating, false, "FormingCluster", "Waiting for all Riak nodes to join the ring")
  else (PhaseCreating, false, "AwaitingPods",
        "Waiting for " +:+ Itoa (wrap32 (cl_Size cluster - readyCount)) +:+ " pods").

Definition updateClusterStatus (cluster : RiakCluster) : M (option error) :=
  r ← List_ KPod (cl_Namespace cluster) (cluster_labels_only cluster);
  match (r : res (list Pod)) with
  | Err e => mret (Some e)
  | Ok items =>
  let pods := SortBy (λ p, pod_Name p) items in
  rows ← node_rows cluster (previous_conditions cluster) pods;
  bs ← bucketRefs cluster;
  match (bs : res (list RiakBucketRef)) with
  | Err e => mret (Some e)
  | Ok buckets =>
  us ← userRefs cluster;
  match (us : res (list RiakUserRef)) with
  | Err e => mret (Some e)
  | Ok users =>
  let readyCount := ready_count pods in
  let allReady := (readyCount =? cl_Size cluster)%Z in
  formed ← ring_formed cluster allReady pods;
  tls ← tlsStatus cluster allReady;
  mon ← monitoringStatus cluster pods;
  let '(className, size) := clusterStorage cluster in
  let '(phase, ok, reason, message) := phase_outcome cluster allReady formed readyCount in
  now1 ← Now;
  let conds := (setCondition now1 (cst_Conditions (cl_Status cluster)) conditionReady ok
                  (cl_Generation cluster) reason message).1 in
  now2 ← Now;
  u ← StatusUpdate KCluster (cl_with_status cluster
        {| cst_Phase := phase;
           cst_ReadyNodes := readyCount;
           cst_TotalNodes := cl_Size cluster;
           cst_Conditions := conds;
           cst_LastUpdateTime := Some now2;
           cst_Members := rows.*1;
           cst_SecurityEnabled := cst_SecurityEnabled (cl_Status cluster);
           cst_StorageClassName := className;
           cst_StorageSize := size;
           cst_EphemeralStorage := cs_EphemeralStorage (cl_Spec cluster);
           cst_TLSStatus := tls;
           cst_MonitoringStatus := mon;
           cst_Buckets := buckets;
           cst_Users := users;
           cst_NodeConditions := rows.*2 |});
  mret (res_err u)
  end end end.

(** ** The cluster's certificate *)
Definition reconcileTLSCertificate (cluster : RiakCluster) : M (option error) :=
  match cs_TLS (cl_Spec cluster) with
  | None => mret None
  | Some tls =>
      if negb (tls_Enabled tls) then mret None
      else
        match tls_CertManager tls with
        | None => mret (Some (Errorf "spec.tls.certManager.issuerName must be set when tls.enabled is true"))
        | Some cm =>
            if String.eqb (cm_IssuerName cm) ""
            then mret (Some (Errorf "spec.tls.certManager.issuerName must be set when tls.enabled is true"))
            else
              let cert := buildClusterCertificate cluster cm in
              match SetControllerReference "RiakCluster" (cl_Meta cluster) (un_Meta cert) with
              | Err e => mret (Some (Wrapf "setting controller reference on TLS certificate: " e ""))
              | Ok m =>
                  let cert := mkUnstructured (un_GVK cert) m (un_Fields cert) in
                  r ← Get (KUnstructured certificateGVK)
                        (mkKey (om_Namespace (un_Meta cert)) (om_Name (un_Meta cert)));
                  match r with
                  | Ok _ => mret None
                  | Err e => if IsNotFound e then Create (KUnstructured certificateGVK) cert
                             else mret (Some e)
                  end
              end
        end
  end.

(** ** Reconcile *)
Definition cluster_finalizers (f : list string → string → list string) (cluster : RiakCluster) : RiakCluster :=
  cl_with_meta cluster (with_finalizers (cl_Meta cluster)
    (f (om_Finalizers (cl_Meta cluster)) riakClusterFinalizerName)).
Definition handleDeletion (cluster : RiakCluster) : M outcome :=
  if ContainsFinalizer (om_Finalizers (cl_Meta cluster)) riakClusterFinalizerName then
    u ← Update KCluster (cluster_finalizers RemoveFinalizer cluster);
    mret (done_, res_err u)
  else mret (finish done_).

(** [if err := step; err != nil { Phase = Failed; Status().Update; return err }] *)
Definition fail_cluster (cluster : RiakCluster) (e : error) : M outcome :=
  _ ← StatusUpdate KCluster (cl_set_Phase cluster PhaseFailed);
  mret (fails e).
(** [if err := step; err != nil { return err }] *)
Definition stop_on (p : M (option error)) (next : M outcome) : M outcome :=
  e ← p;
  match e with Some e => mret (fails e) | None => next end.
Definition when_monitored (cluster : RiakCluster) (p : M (option error)) : M (option error) :=
  if monitoringEnabled cluster then p else mret None.

(** From the rollout on. [reconcileRollout] edits the conditions of [cluster]. *)
Definition finish_cluster (cluster : RiakCluster) : M outcome :=
  ro ← reconcileRollout cluster;
  let cluster := (ro : RiakCluster * option error).1 in
  stop_on (when_monitored cluster (reconcileScrapeObject cluster))
    (_ ← updateClusterStatus cluster; mret (finish (requeue (10 * second)))).
Definition reconcile_objects (cluster : RiakCluster) : M outcome :=
  e ← reconcileTLSCertificate cluster;
  match e with
  | Some e => fail_cluster cluster e
  | None =>
      _ ← reconcileTrustBundle apiReader cluster;
      stop_on (when_monitored cluster (reconcileMonitoringConfigMap cluster))
      (e ← reconcileStatefulSet DefaultImage range_order cluster;
       match e with
       | Some e => fail_cluster cluster e
       | None => stop_on (reconcileService cluster)
                   (stop_on (reconcilePodDisruptionBudget cluster) (finish_cluster cluster))
       end)
  end.
Definition ReconcileCluster (req : ObjectKey) : M outcome :=
  r ← Get KCluster req;
  match r with
  | Err e => mret (done_, IgnoreNotFound (Some e))
  | Ok cluster =>
      if bool_decide (is_Some (om_DeletionTimestamp (cl_Meta cluster))) then handleDeletion cluster
      else
        u ← (if ContainsFinalizer (om_Finalizers (cl_Meta cluster)) riakClusterFinalizerName
             then mret (Ok cluster) else Update KCluster (cluster_finalizers AddFinalizer cluster));
        match u with
        | Err e => mret (fails e)
        | Ok cluster =>
            u ← (if String.eqb (cst_Phase (cl_Status cluster)) ""
                 then StatusUpdate KCluster (cl_set_Phase cluster PhaseCreating)
                 else mret (Ok cluster));
            match u with
            | Err e => mret (fails e)
            | Ok cluster => reconcile_objects cluster
            end
        end
  end.
End cluster.

(** [controllerOptions]: [MaxConcurrentReconciles], 0 leaving the default. *)
Definition controllerOptions (maxConcurrent : Z) : Z :=
  if (0 <? maxConcurrent)%Z then maxConcurrent else 0.
