(* ===== verification/Footprints.v ===== *)
(** * The footprints of the components

    What the helpers shared by the controllers may call. *)
From S2P Require Import Prelude GoLib Effects Types KubeTypes Kube KubeLib Footprint Status Executor Manager Tls Trust Monitoring Rollout BucketController StatefulSet ClusterController.

(** ** Certificates and trust *)
Section trust.
Context `{X : GoX509}.
Lemma readTrustedCA_fp rd ns src : footprint side_reads (readTrustedCA rd ns src) (λ _, True).
Proof. unfold readTrustedCA, get_from. fp. Qed.
Lemma trusted_input_fp rd ns src inputs : footprint side_reads (trusted_input rd ns src inputs) (λ _, True).
Proof. unfold trusted_input. eapply fp_bind; [apply readTrustedCA_fp|]. intros. fp. Qed.
Lemma buildTrustBundle_fp rd cluster : footprint side_reads (buildTrustBundle rd cluster) (λ _, True).
Proof.
  unfold buildTrustBundle, get_from.
  fp; (eapply fp_bind; [apply fp_for_each; intros; apply trusted_input_fp|intros; fp]).
Qed.
Lemma trustStatus_fp apiReader cluster : footprint side_reads (trustStatus apiReader cluster) (λ _, True).
Proof. unfold trustStatus. fp. eapply fp_bind; [apply buildTrustBundle_fp|]. intros. fp. Qed.
Lemma fetchCertificateReadiness_fp name ns :
  footprint side_reads (fetchCertificateReadiness name ns) (λ _, True).
Proof. unfold fetchCertificateReadiness. fp. Qed.
Lemma externalCertificateReadiness_fp rd u name cluster now :
  footprint side_reads (externalCertificateReadiness rd u name cluster now) (λ _, True).
Proof.
  unfold externalCertificateReadiness, get_from. fp.
  eapply fp_bind; [apply buildTrustBundle_fp|]. intros. fp.
Qed.
End trust.

(** ** Membership and the rollout *)
Definition runs (a : api) : Prop := match a with ARun _ _ => True | _ => False end.
Lemma admin_fp {A} ns pod c args (k : string * option error → M A) C (Q : A → Prop) :
  (∀ n full, C (ARun n full)) → (∀ r, footprint C (k r) Q) →
  footprint C (ExecuteRiakAdmin ns pod c args ≫= k) Q.
Proof.
  intros HC Hk. unfold ExecuteRiakAdmin. eapply (fp_bind _ _ _ (λ _, True)); [|intros; apply Hk].
  by apply fp_call; [apply HC|]; intros; apply fp_ret.
Qed.
Lemma fp_bind_call {A B} C (a : api) (k : reply a → M B) (f : B → M A) (Q : A → Prop) :
  C a → (∀ r, footprint C (k r ≫= f) Q) → footprint C ((call a ≫= k) ≫= f) Q.
Proof. intros Ha Hk. split; [done|]. intros r [] _. apply Hk. Qed.
Lemma MemberStatus_fp ns pod c : footprint runs (MemberStatus ns pod c) (λ _, True).
Proof. unfold MemberStatus. apply admin_fp; [done|]. intros. fp. Qed.
(** Commands that only look at the ring. *)
Definition asks (ns : string) (name : string) (full : list string) : Prop :=
  ∃ pod args, name = "kubectl" ∧ full = kubectl_args ns pod "riak" args ∧
    (args = ["member-status"] ∨ args = ["transfers"]).
Lemma join_pod_fp cluster seed sc pod joined : footprint runs (join_pod cluster seed sc pod joined) (λ _, True).
Proof.
  unfold join_pod. case_match; [fp|]. eapply fp_bind; [apply MemberStatus_fp|]. intros r _.
  fp.
Qed.
Lemma ReconcileMembership_fp cluster pods : footprint runs (ReconcileMembership cluster pods) (λ _, True).
Proof.
  unfold ReconcileMembership. eapply fp_bind; [apply MemberStatus_fp|]. intros r _. fp.
  eapply fp_bind; [apply fp_for_each; intros; apply join_pod_fp|]. intros o _. fp.
  apply admin_fp; [done|]. intros. fp.
Qed.

Definition rollout_calls (c : RiakCluster) (a : api) : Prop :=
  match a with
  | AGet _ KStatefulSet _ => True
  | AList KPod ns labels => ns = cl_Namespace c ∧ labels = cluster_labels c
  | APatch KStatefulSet _ _ => True
  | ANow => True
  | ARun name full => asks (cl_Namespace c) name full
  | _ => False
  end.
(** Only conditions differ. *)
Definition same_cluster (c c' : RiakCluster) : Prop :=
  cl_with_status c' (cst_set_Conditions (cl_Status c') (cst_Conditions (cl_Status c))) = c.
#[global] Instance same_cluster_refl : Reflexive same_cluster.
Proof. intros [? ? []]. done. Qed.
Lemma same_cluster_conditions c c' conds : same_cluster c c' → same_cluster c (cl_set_Conditions c' conds).
Proof. intros H. exact H. Qed.
Lemma same_cluster_spec c c' : same_cluster c c' → cl_Meta c' = cl_Meta c ∧ cl_Spec c' = cl_Spec c.
Proof. intros <-. by destruct c'. Qed.
Lemma same_cluster_security c c' :
  same_cluster c c' → cst_SecurityEnabled (cl_Status c') = cst_SecurityEnabled (cl_Status c).
Proof. intros <-. by destruct c'. Qed.
#[export] Hint Resolve same_cluster_conditions same_cluster_refl : operator.

Section rollout.
Context `{L : KubeLib}.
Lemma setClusterCondition_fp c c' t ok reason msg :
  same_cluster c c' → footprint (rollout_calls c) (setClusterCondition c' t ok reason msg) (same_cluster c).
Proof. intros. unfold setClusterCondition. fp. Qed.
Lemma clearBlocked_same c c' : same_cluster c c' → same_cluster c (clearBlocked c').
Proof. intros. by do 2 apply same_cluster_conditions. Qed.
Lemma markBlocked_fp c c' reason msg canStall :
  same_cluster c c' → footprint (rollout_calls c) (markBlocked c' reason msg canStall) (same_cluster c).
Proof.
  intros Hc. unfold markBlocked. eapply fp_bind; [by apply setClusterCondition_fp|]. intros c1 H1.
  eapply fp_bind; [by apply setClusterCondition_fp|]. intros c2 H2.
  eapply (fp_bind _ _ _ (λ _, True)); [fp|]. intros b _. case_match; by apply setClusterCondition_fp.
Qed.
Lemma clusterSettled_fp c pods : footprint (rollout_calls c) (clusterSettled c pods) (λ _, True).
Proof.
  assert (∀ pod args, args = ["member-status"] ∨ args = ["transfers"] →
    rollout_calls c (ARun "kubectl" (kubectl_args (cl_Namespace c) pod "riak" args))) as Hasks.
  { intros pod args Hargs. by exists pod, args. }
  unfold clusterSettled, MemberStatus, TransfersIdle, ExecuteRiakAdmin.
  destruct (_ <? _)%Z; [by apply fp_ret|]. destruct (settled_loop pods "") as [why|probe]; [by apply fp_ret|].
  destruct (_ || _); [by apply fp_ret|].
  eapply (fp_bind _ _ _ (λ _, True)); [apply fp_bind_call; [by apply Hasks; left|intros; fp]|].
  intros [members|e] _; [|by apply fp_ret]. destruct (_ || _); [by apply fp_ret|].
  destruct (wait_for_transfers c); [|by apply fp_ret].
  eapply (fp_bind _ _ _ (λ _, True)); [apply fp_bind_call; [by apply Hasks; right|intros; fp]|]. intros. fp.
Qed.
Lemma reconcileRollout_fp c : footprint (rollout_calls c) (reconcileRollout c) (λ r, same_cluster c r.1).
Proof.
  assert (same_cluster c (clearRolloutConditions c)) as Hclear
    by by do 3 apply same_cluster_conditions.
  unfold reconcileRollout, Get. apply fp_call; [done|]. intros [sts|e]; [|by apply fp_ret; cbn].
  destruct (negb (rolloutInProgress sts)); [by apply fp_ret|].
  eapply (fp_bind _ _ _ (λ _, True)); [unfold rolloutPods; fp|]. intros [pods|e] _; [|by apply fp_ret; cbn].
  destruct (rolloutNext _ _ _ _) as [next blocked].
  destruct (_ <=? 0)%Z.
  { eapply fp_bind; [by apply (setClusterCondition_fp c)|]. intros c' Hc'. apply fp_ret. by apply clearBlocked_same. }
  destruct (rollout_paused c).
  { eapply fp_bind; [by apply (markBlocked_fp c)|]. intros c' Hc'. by apply fp_ret. }
  eapply (fp_bind _ _ _ (λ _, True)).
  { destruct (String.eqb blocked ""); [|fp]. eapply fp_bind; [apply clusterSettled_fp|]. intros. fp. }
  intros b _. destruct (negb _).
  { eapply fp_bind; [by apply (markBlocked_fp c)|]. intros c' Hc'. by apply fp_ret. }
  apply fp_call; [done|]. intros [sts'|e]; [|by apply fp_ret; cbn].
  eapply fp_bind; [by apply (setClusterCondition_fp c)|]. intros c' Hc'. apply fp_ret. by apply clearBlocked_same.
Qed.
End rollout.

(** ** Users and bucket types *)
Lemma on_first_pod_fp cluster (f : string → M (option error)) :
  (∀ pod, footprint runs (f pod) (λ _, True)) →
  footprint runs (match first_pod cluster with None => mret (Some no_members) | Some pod => f pod end) (λ _, True).
Proof. intros Hf. destruct (first_pod cluster); [apply Hf|by apply fp_ret]. Qed.
Lemma CreateUserForCert_fp cluster username : footprint runs (CreateUserForCert cluster username) (λ _, True).
Proof. apply on_first_pod_fp. intros. unfold CreateUserForCert_ex. fp. Qed.
Lemma AddSecuritySource_fp cluster username : footprint runs (AddSecuritySource cluster username) (λ _, True).
Proof. apply on_first_pod_fp. intros. unfold AddSecuritySource_ex. fp. Qed.
Lemma EnableSecurity_fp cluster : footprint runs (EnableSecurity cluster) (λ _, True).
Proof. apply on_first_pod_fp. intros. unfold EnableSecurity_ex. fp. Qed.
Lemma DeleteUser_fp cluster username : footprint runs (DeleteUser cluster username) (λ _, True).
Proof. apply on_first_pod_fp. intros. unfold DeleteUser_ex. fp. Qed.
Lemma GrantUserPermissions_fp cluster username grants :
  footprint runs (GrantUserPermissions cluster username grants) (λ _, True).
Proof.
  unfold GrantUserPermissions. destruct (first_pod cluster) as [pod|]; [|by apply fp_ret].
  destruct (group_grants grants) as [order perms]. eapply fp_bind.
  { apply fp_for_each. intros t b _. unfold apply_target, GrantPermissions. fp. }
  intros [e|desired] _; [by apply fp_ret|]. eapply (fp_bind _ _ _ (λ _, True)); [unfold GetUserGrants; fp|].
  intros [es|e] _; [|by apply fp_ret]. eapply fp_bind.
  { apply fp_for_each. intros t b _. unfold revoke_entry, RevokePermissions. fp. }
  intros [e|u] _; by apply fp_ret.
Qed.
Lemma CreateBucket_fp `{J : GoJson} ns pod c t props : footprint runs (CreateBucket ns pod c t props) (λ _, True).
Proof.
  unfold CreateBucket. destruct (json_MarshalProps _); [|by apply fp_ret].
  apply admin_fp; [done|]. intros r. destruct r.2 as [e|].
  - destruct (_ || _); [|by apply fp_ret]. destruct (bool_decide _); [by apply fp_ret|]. fp.
  - apply admin_fp; [done|]. intros. by apply fp_ret.
Qed.
Lemma CreateBucketType_fp `{J : GoJson} cluster t props : footprint runs (CreateBucketType cluster t props) (λ _, True).
Proof. apply on_first_pod_fp. intros. apply CreateBucket_fp. Qed.
