(* ===== verification/UserFacts.v ===== *)
(** * The RiakUser controller: provisioning, reporting and deletion

    [user_env]: what the API server last returned, the identity Riak holds for one user
    name (existence, certificate source, grants), and the effect of the security commands
    on it. Every call may fail; a failed command may still have taken effect. *)
From S2P Require Import Prelude GoLib Effects Types Samples KubeTypes Kube KubeLib Footprint Status Executor ExecutorFacts Manager RiakEnv Grants Tls Trust TrustFacts BucketController UserController StatefulSet ClusterController Footprints.

(** ** The world of a user *)
Record identity := mkIdentity {
  id_exists : bool; id_source : bool; id_secure : bool; id_grants : grants_state }.
Record user_world := mkUserWorld {
  uw_id : identity;
  uw_seen : option RiakUser;
  uw_cluster : option (res RiakCluster);
  uw_clock : time }.
Definition with_id (s : user_world) (i : identity) : user_world :=
  mkUserWorld i (uw_seen s) (uw_cluster s) (uw_clock s).
Definition with_seen (s : user_world) (u : RiakUser) : user_world :=
  mkUserWorld (uw_id s) (Some u) (uw_cluster s) (uw_clock s).
Definition with_cluster (s : user_world) (c : res RiakCluster) : user_world :=
  mkUserWorld (uw_id s) (uw_seen s) (Some c) (uw_clock s).
Definition with_clock (s : user_world) (t : time) : user_world :=
  mkUserWorld (uw_id s) (uw_seen s) (uw_cluster s) t.
Definition set_grants (i : identity) (g : grants_state) : identity :=
  mkIdentity (id_exists i) (id_source i) (id_secure i) g.

Definition add_user_args (name : string) : list string := ["security"; "add-user"; name].
Definition add_source_args (name : string) : list string :=
  ["security"; "add-source"; name; "0.0.0.0/0"; "certificate"].
Definition enable_args : list string := ["security"; "enable"].
Definition del_user_args (name : string) : list string := ["security"; "del-user"; name].

(** ** Riak's side *)
Section riak.
Context (flaky : bool) (username : string).
Definition err_says (err : option error) (w : string) : Prop :=
  ∃ e, err = Some e ∧ Contains (err_msg e) w = true.
(** Success applies [f]; an error leaves the state or applies [f], and an error that says
    [w] means the effect of [f] was there already. *)
Definition applies (f : identity → identity) (w : string) (i : identity) (err : option error)
    (i' : identity) : Prop :=
  (err = None → i' = f i) ∧ (i' = i ∨ i' = f i) ∧ (err_says err w → i' = f i') ∧
  (flaky = false → err = None ∨ err_says err w).
Definition add_user_eff (i : identity) : identity := mkIdentity true (id_source i) (id_secure i) (id_grants i).
Definition add_source_eff (i : identity) : identity := mkIdentity (id_exists i) true (id_secure i) (id_grants i).
Definition enable_eff (i : identity) : identity := mkIdentity (id_exists i) (id_source i) true (id_grants i).
Definition del_user_eff (i : identity) : identity := mkIdentity false false (id_secure i) ∅.

Definition id_step (i : identity) (pod : string) (args : list string) (r : res string) (i' : identity) : Prop :=
  let err := (admin_reply args r).2 in
  if decide (args = add_user_args username) then applies add_user_eff "role_exists" i err i'
  else if decide (args = add_source_args username)
  then (err = None → i' = add_source_eff i) ∧ (i' = i ∨ i' = add_source_eff i) ∧ (flaky = false → err = None)
  else if decide (args = enable_args) then applies enable_eff "already" i err i'
  else if decide (args = del_user_args username) then applies del_user_eff "unknown_user" i err i'
  else ∃ g, i' = set_grants i g ∧ sec_step flaky username (id_grants i) pod args r g.
(** Riak alone, asked the commands [ok]. *)
Definition id_env (ok : identity → list string → Prop) (ns : string) : Env reply identity :=
  riak_env ns (λ i _, ok i) id_step.

(** What a provisioning step leaves: [f] done or not, done when it reports success, and
    success when commands are carried out. *)
Definition did (f : identity → identity) (cluster : RiakCluster) (i : identity) (e : option error)
    (i' : identity) : Prop :=
  (e = None → i' = f i) ∧ (i' = i ∨ i' = f i) ∧ (flaky = false → is_Some (first_pod cluster) → e = None).
Lemma did_no_pod f cluster i e : first_pod cluster = None → did f cluster i (Some e) i.
Proof. intros Hn. split_and!; [done|by left|]. rewrite Hn. by intros _ [? ?]. Qed.
(** An error that says the work was done already counts as success. *)
Lemma did_applies f w cluster i err i' :
  (∀ i, f (f i) = f i) → applies f w i err i' →
  did f cluster i (match err with
                   | Some e => if Contains (err_msg e) w then None else Some e
                   | None => None
                   end) i'.
Proof.
  intros Hff (H1 & H2 & H3 & H4). split_and!; [|done|].
  - destruct err as [e|]; [|done]. destruct (Contains (err_msg e) w) eqn:Hc; [|done]. intros _.
    destruct H2 as [-> | ->]; [|done]. apply H3. by exists e.
  - intros Hf _. destruct (H4 Hf) as [-> |(e & -> & ->)]; done.
Qed.

Context (ok : identity → list string → Prop).
Lemma CreateUserForCert_id cluster i :
  ok i (add_user_args username) →
  wp (id_env ok (cl_Namespace cluster)) (CreateUserForCert cluster username) (did add_user_eff cluster i) i.
Proof.
  intros Hok. unfold CreateUserForCert. destruct (first_pod cluster) as [pod|] eqn:Hpod.
  2: by apply wp_ret, did_no_pod.
  unfold CreateUserForCert_ex. apply wp_admin; [done|]. intros r i' Hi. apply wp_ret.
  unfold id_step in Hi. rewrite decide_True in Hi by done. by apply did_applies.
Qed.
Lemma AddSecuritySource_id cluster i :
  ok i (add_source_args username) →
  wp (id_env ok (cl_Namespace cluster)) (AddSecuritySource cluster username) (did add_source_eff cluster i) i.
Proof.
  intros Hok. unfold AddSecuritySource. destruct (first_pod cluster) as [pod|] eqn:Hpod.
  2: by apply wp_ret, did_no_pod.
  apply wp_admin_fmap; [done|]. intros r i' Hi. unfold id_step in Hi.
  rewrite decide_False in Hi by done. rewrite decide_True in Hi by done.
  destruct Hi as (H1 & H2 & H3). split_and!; [done..|]. intros Hf _. by apply H3.
Qed.
Lemma EnableSecurity_id cluster i :
  ok i enable_args →
  wp (id_env ok (cl_Namespace cluster)) (EnableSecurity cluster) (did enable_eff cluster i) i.
Proof.
  intros Hok. unfold EnableSecurity. destruct (first_pod cluster) as [pod|] eqn:Hpod.
  2: by apply wp_ret, did_no_pod.
  unfold EnableSecurity_ex. apply wp_admin; [done|]. intros r i' Hi. apply wp_ret.
  unfold id_step in Hi. rewrite 2!decide_False in Hi by done. rewrite decide_True in Hi by done.
  by apply did_applies.
Qed.

(** The security commands on the grants are none of the others. *)
Lemma sec_ok_other P s pod p args :
  sec_ok_at P username pod s p args →
  args ≠ add_user_args username ∧ args ≠ add_source_args username ∧ args ≠ enable_args ∧
  args ≠ del_user_args username.
Proof.
  by intros [_ [[-> _]|(op & toks & tgt & kw & -> & [[-> _]|[-> _]])]].
Qed.
Lemma Grants_id P cluster grants i :
  (∀ i' pod args, id_exists i' = id_exists i → sec_ok_at P username pod (id_grants i') pod args → ok i' args) →
  state_ok (id_grants i) → Forall grant_unreserved grants → P (id_grants i ∪ spec_grants grants) →
  wp (id_env ok (cl_Namespace cluster)) (GrantUserPermissions cluster username grants)
    (λ e i', ∃ g, i' = set_grants i g ∧ (e = None → g = spec_grants grants) ∧
       (flaky = false → is_Some (first_pod cluster) → Forall grant_known grants → e = None)) i.
Proof.
  intros Hok Hst Hg HP. destruct (first_pod cluster) as [pod|] eqn:Hpod.
  2: { unfold GrantUserPermissions. rewrite Hpod. apply wp_ret. exists (id_grants i). split; [by destruct i|].
       split; [done|]. by intros _ [? ?]. }
  eapply wp_mono.
  - apply (wp_map (sec_env_at P flaky (cl_Namespace cluster) username pod) (id_env ok (cl_Namespace cluster))
             id_grants (λ i', ∃ g, i' = set_grants i g));
      [| |exists (id_grants i); by destruct i|by apply GrantUserPermissions_wp].
    + intros i1 a [g ->] (p & args & -> & Hargs). exists p, args. split; [done|].
      apply (Hok _ p); [done|]. by destruct Hargs.
    + intros i1 a r i2 [g ->] (p & args & -> & Hargs) Hi. cbn [id_env riak_env step] in Hi |- *.
      change (exec_args (kubectl_args (cl_Namespace cluster) p "riak" args)) with args in *.
      apply sec_ok_other in Hargs as (H1 & H2 & H3 & H4). unfold id_step in Hi.
      rewrite !decide_False in Hi by done. destruct Hi as (g1 & -> & Hg1). split; [exact Hg1|]. by exists g1.
  - intros e i' [(_ & _ & H1 & H2) [g ->]]. exists g. split; [done|]. split; [exact H1|]. intros Hf _. by apply H2.
Qed.
End riak.

Section world.
Context `{L : KubeLib} `{HL : !KubeLibLaws L} `{X : GoX509}.
Context (username : string).

(** *** What may be asked and written *)
Definition user_live (u : RiakUser) : Prop :=
  om_DeletionTimestamp (us_Meta u) = None ∧
  ContainsFinalizer (om_Finalizers (us_Meta u)) riakUserFinalizerName = true.
Definition ready (c : RiakCluster) : Prop := cst_Phase (cl_Status c) = PhaseReady.

(** Provisioning: for a live user, on a cluster last seen Ready. *)
Definition may_provision (s : user_world) : Prop :=
  (∃ u, uw_seen s = Some u ∧ user_live u) ∧ ∃ c, uw_cluster s = Some (Ok c).
Inductive user_cmd_ok (s : user_world) : list string → Prop :=
| uc_add_user : may_provision s → user_cmd_ok s (add_user_args username)
| uc_add_source : may_provision s → id_exists (uw_id s) = true → user_cmd_ok s (add_source_args username)
| uc_grants pod args : may_provision s → id_exists (uw_id s) = true →
    sec_ok username pod (id_grants (uw_id s)) pod args → user_cmd_ok s args
| uc_enable c : may_provision s → uw_cluster s = Some (Ok c) → ready c →
    cst_SecurityEnabled (cl_Status c) = false → user_cmd_ok s enable_args
| uc_delete u c : uw_seen s = Some u → is_Some (om_DeletionTimestamp (us_Meta u)) →
    ust_Created (us_Status u) = true → uw_cluster s = Some (Ok c) → ready c →
    om_DeletionTimestamp (cl_Meta c) = None → user_cmd_ok s (del_user_args username).

(** A Ready status claims a complete identity with exactly the spec's grants, unless it is
    the status last read with its Ready condition set to False. *)
Definition user_claim (s : user_world) (u : RiakUser) : Prop :=
  ready_reads (ust_Conditions (us_Status u)) true (om_Generation (us_Meta u)) ∧
  id_exists (uw_id s) = true ∧ id_source (uw_id s) = true ∧
  id_grants (uw_id s) = spec_grants (ust_Grants (us_Status u)) ∧
  ust_Grants (us_Status u) = us_Grants (us_Spec u) ∧ ust_Username (us_Status u) = username.
Definition user_only_conditions (s : user_world) (u : RiakUser) : Prop :=
  ∃ u0, uw_seen s = Some u0 ∧
    us_with_status u (ust_set_Conditions (us_Status u) (ust_Conditions (us_Status u0))) = u0.
Definition user_status_ok (s : user_world) (u : RiakUser) : Prop :=
  ust_Phase (us_Status u) = UserPhaseReady →
  user_claim s u ∨
  user_only_conditions s u ∧ ready_reads (ust_Conditions (us_Status u)) false (om_Generation (us_Meta u)).

(** [status.created] is recorded for a complete identity, or kept from the version last read. *)
Definition identity_complete (i : identity) (u : RiakUser) : Prop :=
  id_exists i = true ∧ id_source i = true ∧ id_grants i = spec_grants (us_Grants (us_Spec u)).
Definition created_kept (s : user_world) (u : RiakUser) : Prop :=
  ust_Created (us_Status u) = true → ∃ u0, uw_seen s = Some u0 ∧ ust_Created (us_Status u0) = true.
Definition created_ok (s : user_world) (u : RiakUser) : Prop :=
  created_kept s u ∨ identity_complete (uw_id s) u.

(** When a user being deleted may lose its finalizer: it was never recorded as created, the
    cluster cannot be asked, Riak does not have the user any more, or the grace is over. *)
Definition may_release (s : user_world) (u : RiakUser) : Prop :=
  ust_Created (us_Status u) = false ∨
  (∃ e, uw_cluster s = Some (Err e) ∧ IsNotFound e = true) ∨
  (∃ c, uw_cluster s = Some (Ok c) ∧
     (is_Some (om_DeletionTimestamp (cl_Meta c)) ∨ ¬ ready c ∨ cst_Members (cl_Status c) = [])) ∨
  id_exists (uw_id s) = false ∨
  (∃ t, om_DeletionTimestamp (us_Meta u) = Some t ∧ (userDeleteGracePeriod < uw_clock s - t)%Z).
Definition user_update_ok (s : user_world) (u : RiakUser) : Prop :=
  is_Some (om_DeletionTimestamp (us_Meta u)) → may_release s u.
(** The flag is recorded after security was enabled, on the cluster as last read. *)
Definition flag_ok (s : user_world) (c : RiakCluster) : Prop :=
  id_secure (uw_id s) = true ∧ ∃ c0, uw_cluster s = Some (Ok c0) ∧ c = set_security_enabled c0.

Definition user_ok (s : user_world) (a : api) : Prop :=
  match a with
  | AGet _ _ _ => True
  | ANow => True
  | ACreate k _ => k = KUnstructured certificateGVK
  | AUpdate k o => match k return obj k → Prop with KUser => user_update_ok s | _ => λ _, False end o
  | AStatusUpdate k o =>
      match k return obj k → Prop with
      | KUser => λ u, user_status_ok s u ∧ created_ok s u
      | KCluster => flag_ok s
      | _ => λ _, False
      end o
  | ARun name full => ∃ ns pod args,
      ARun name full = ARun "kubectl" (kubectl_args ns pod "riak" args) ∧ user_cmd_ok s args
  | _ => False
  end.

(** *** The replies *)
(** The user that is read has this name and unreserved grants; writes keep what was written. *)
Definition user_read (s : user_world) (r : res RiakUser) (s' : user_world) : Prop :=
  match r with
  | Ok u => s' = with_seen s u ∧ us_Username (us_Spec u) = username ∧
            Forall grant_unreserved (us_Grants (us_Spec u))
  | Err _ => s' = s
  end.
Definition user_written (s : user_world) (u : RiakUser) (r : res RiakUser) (s' : user_world) : Prop :=
  match r with
  | Ok u' => s' = with_seen s u' ∧ us_Spec u' = us_Spec u ∧ us_Meta u' = us_Meta u
  | Err _ => s' = s
  end.
Definition user_step (s : user_world) (a : api) : reply a → user_world → Prop :=
  match a as a' return reply a' → user_world → Prop with
  | AGet _ k _ =>
      match k return res (obj k) → user_world → Prop with
      | KUser => user_read s
      | KCluster => λ r s', s' = with_cluster s r
      | _ => λ _ s', s' = s
      end
  | AUpdate k o =>
      match k return obj k → res (obj k) → user_world → Prop with
      | KUser => user_written s
      | _ => λ _ _ s', s' = s
      end o
  | AStatusUpdate k o =>
      match k return obj k → res (obj k) → user_world → Prop with
      | KUser => user_written s
      | KCluster => λ _ r s', s' = match r with Ok _ => with_cluster s r | Err _ => s end
      | _ => λ _ _ s', s' = s
      end o
  | ANow => λ t s', s' = with_clock s t
  | ARun _ full => λ r s', ∃ i, s' = with_id s i ∧
      id_step true username (uw_id s) (exec_pod full) (exec_args full) r i
  | _ => λ _ s', s' = s
  end.
Definition user_env : Env reply user_world := {| allowed := user_ok; step := user_step |}.

(** *** The pieces *)
Lemma wp_user_admin {A} ns pod args (k : string * option error → M A) Q s :
  user_cmd_ok s args →
  (∀ r i, id_step true username (uw_id s) pod args r i → wp user_env (k (admin_reply args r)) Q (with_id s i)) →
  wp user_env (ExecuteRiakAdmin ns pod "riak" args ≫= k) Q s.
Proof.
  intros Hok Hk. unfold ExecuteRiakAdmin. apply wp_bind, wp_call; [by exists ns, pod, args|].
  intros r s' (i & -> & Hi). by apply wp_ret, Hk.
Qed.
Lemma wp_user_status {A} u (k : res RiakUser → M A) Q s :
  user_status_ok s u → created_ok s u → (∀ r s', wp user_env (k r) Q s') →
  wp user_env (StatusUpdate KUser u ≫= k) Q s.
Proof. intros Hc Hd Hk. apply wp_call; [by split|]. intros r s' _. apply Hk. Qed.
Lemma created_seen s u : uw_seen s = Some u → created_kept s u.
Proof. intros Hs Hc. by exists u. Qed.
Lemma user_not_ready_ok s u : ust_Phase (us_Status u) ≠ UserPhaseReady → user_status_ok s u.
Proof. by intros Hn ?. Qed.

Lemma failUser_wp u reason msg s : created_kept s u → wp user_env (failUser u reason msg) (λ _ _, True) s.
Proof.
  intros Hk. unfold failUser, Now. apply wp_call; [done|]. intros now s' ->.
  destruct (setCondition _ _ _ _ _ _ _) as [conds changed].
  destruct (_ && negb changed); [by apply wp_ret|].
  apply wp_call; [done|]. intros now' s' ->.
  apply wp_user_status; [by apply user_not_ready_ok|by left|]. intros. by apply wp_ret.
Qed.
Lemma fail_and_requeue_wp u reason msg d s :
  created_kept s u → wp user_env (fail_and_requeue u reason msg d) (λ _ _, True) s.
Proof. intros Hk. eapply wp_bind_2; [by apply failUser_wp|]. intros. by apply wp_ret. Qed.

Lemma markUserReady_wp u cluster_name certReady why s :
  us_Username (us_Spec u) = username →
  id_exists (uw_id s) = true → id_source (uw_id s) = true →
  id_grants (uw_id s) = spec_grants (us_Grants (us_Spec u)) →
  wp user_env (markUserReady u cluster_name certReady why) (λ _ _, True) s.
Proof.
  intros Hu He Hs Hg. unfold markUserReady, Now.
  destruct (if certReady then _ else _) as [condReason condMessage].
  apply wp_call; [done|]. intros n1 s1 ->. destruct (setCondition _ _ _ _ _ _ _) as [c1 ch1].
  apply wp_call; [done|]. intros n2 s2 ->. destruct (setCondition _ _ _ _ _ _ _) as [c2 ch2] eqn:Hc2.
  destruct (_ && negb ch2); [by apply wp_ret|].
  apply wp_call; [done|]. intros n3 s3 ->.
  apply wp_user_status; [|by right; split_and!|intros; by apply wp_ret]. intros _. left. split; [|by split_and!].
  cbn. rewrite (fst_is _ _ _ Hc2). apply setCondition_reads.
Qed.

(** What every step of provisioning keeps: the view of the API objects. *)
Definition same_view (s s' : user_world) : Prop := uw_seen s' = uw_seen s ∧ uw_cluster s' = uw_cluster s.
Lemma created_kept_view s s' u : same_view s s' → created_kept s u → created_kept s' u.
Proof. unfold created_kept. by intros [-> _]. Qed.
Lemma may_provision_view s s' : same_view s s' → may_provision s → may_provision s'.
Proof. unfold may_provision. by intros [-> ->]. Qed.

(** What is shown against Riak alone holds here. *)
Lemma wp_identity {A} ok ns (p : M A) Q s :
  (∀ s' args, same_view s s' → ok (uw_id s') args → user_cmd_ok s' args) →
  wp (id_env true username ok ns) p Q (uw_id s) →
  wp user_env p (λ a s', Q a (uw_id s') ∧ same_view s s') s.
Proof.
  intros Hok. apply (wp_map (id_env true username ok ns) user_env uw_id (same_view s)); [| |done].
  - intros s1 a Hv (pod & args & -> & Ha). exists ns, pod, args. split; [done|]. by apply Hok.
  - intros s1 a r s2 Hv (pod & args & -> & Ha) (i & -> & Hi). by split.
Qed.
Lemma CreateUserForCert_wp cluster s :
  may_provision s →
  wp user_env (CreateUserForCert cluster username)
    (λ e s', did true add_user_eff cluster (uw_id s) e (uw_id s') ∧ same_view s s') s.
Proof.
  intros Hp. eapply (wp_identity (λ _ a, a = add_user_args username)); [|by apply CreateUserForCert_id].
  intros s' args Hv ->. constructor. by eapply may_provision_view.
Qed.
Lemma AddSecuritySource_wp cluster s :
  may_provision s → id_exists (uw_id s) = true →
  wp user_env (AddSecuritySource cluster username)
    (λ e s', did true add_source_eff cluster (uw_id s) e (uw_id s') ∧ same_view s s') s.
Proof.
  intros Hp He.
  eapply (wp_identity (λ i a, id_exists i = true ∧ a = add_source_args username)); [|by apply AddSecuritySource_id].
  intros s' args Hv [Hs' ->]. constructor; [by eapply may_provision_view|done].
Qed.
Lemma EnableSecurity_wp cluster s :
  may_provision s → uw_cluster s = Some (Ok cluster) → ready cluster →
  cst_SecurityEnabled (cl_Status cluster) = false →
  wp user_env (EnableSecurity cluster)
    (λ e s', did true enable_eff cluster (uw_id s) e (uw_id s') ∧ same_view s s') s.
Proof.
  intros Hp Hc Hr Hs. eapply (wp_identity (λ _ a, a = enable_args)); [|by apply EnableSecurity_id].
  intros s' args Hv ->. apply (uc_enable _ cluster); [by eapply may_provision_view| |done..].
  destruct Hv as [_ ->]. done.
Qed.
Lemma Grants_world cluster grants s :
  may_provision s → id_exists (uw_id s) = true →
  state_ok (id_grants (uw_id s)) → Forall grant_unreserved grants →
  wp user_env (GrantUserPermissions cluster username grants)
    (λ e s', (∃ g, uw_id s' = set_grants (uw_id s) g ∧ (e = None → g = spec_grants grants)) ∧ same_view s s') s.
Proof.
  intros Hp He Hst Hg. eapply wp_mono.
  - apply (wp_identity (λ i a, id_exists i = true ∧ ∃ pod, sec_ok username pod (id_grants i) pod a)
             (cl_Namespace cluster)).
    2: { apply (Grants_id _ _ _ (λ _, True)); [|done..]. intros i' pod args Hi Hok. rewrite Hi.
    split; [done|by exists pod]. }
    intros s' args Hv [He' [pod Hok]]. apply (uc_grants s' pod); [by eapply may_provision_view|done..].
  - intros e s' [(g & H1 & H2 & _) Hv]. split; [by exists g|done].
Qed.

(** Certificate readiness only reads. *)
Lemma userCertificateReadiness_fp apiReader u certRef cluster :
  footprint side_reads (userCertificateReadiness apiReader u certRef cluster) (λ _, True).
Proof.
  unfold userCertificateReadiness. destruct (ucr_IssuerRef certRef).
  - eapply fp_bind; [apply fetchCertificateReadiness_fp|]. intros. fp.
  - apply fp_call; [done|]. intros now. apply externalCertificateReadiness_fp.
Qed.
Lemma wp_side_reads {A} (p : M A) s :
  footprint side_reads p (λ _, True) →
  wp user_env p (λ _ s', same_view s s' ∧ uw_id s' = uw_id s) s.
Proof.
  intros Hp. eapply wp_mono.
  - apply (wp_footprint user_env side_reads (λ s', same_view s s' ∧ uw_id s' = uw_id s) _ _ _ Hp); [| |done].
    + intros s1 a _ Ha. by destruct a as [src k key| | | | | | | | |].
    + intros s1 a r s2 [[Hv1 Hv2] Hi] Ha Hst. destruct a as [src k key| | | | | | | | |]; try done.
      * destruct k; try done; cbn in Hst; by rewrite Hst.
      * by rewrite Hst.
  - by intros a s' [_ ?].
Qed.

(** ** Provisioning *)
Lemma provision_user_wp apiReader u certRef cluster s :
  us_Username (us_Spec u) = username → Forall grant_unreserved (us_Grants (us_Spec u)) →
  may_provision s → created_kept s u → state_ok (id_grants (uw_id s)) →
  wp user_env (provision_user apiReader u certRef cluster) (λ _ _, True) s.
Proof.
  intros Hu Hg Hp Hk Hst. unfold provision_user. rewrite Hu.
  eapply wp_bind_2; [by apply CreateUserForCert_wp|].
  intros [e|] s1 [(Hi1 & _) Hv1]; pose proof (created_kept_view _ _ u Hv1 Hk) as Hk1;
    [by apply fail_and_requeue_wp|]. specialize (Hi1 eq_refl).
  pose proof (may_provision_view _ _ Hv1 Hp) as Hp1.
  eapply wp_bind_2; [apply AddSecuritySource_wp; [done|by rewrite Hi1]|].
  intros [e|] s2 [(Hi2 & _) Hv2]; pose proof (created_kept_view _ _ u Hv2 Hk1) as Hk2;
    [by apply fail_and_requeue_wp|]. specialize (Hi2 eq_refl).
  pose proof (may_provision_view _ _ Hv2 Hp1) as Hp2.
  eapply wp_bind_2; [apply Grants_world; [done|by rewrite Hi2, Hi1|by rewrite Hi2, Hi1|done]|].
  intros [e|] s3 [(g & Hi3 & Hg3) Hv3];
    [apply fail_and_requeue_wp; by eapply created_kept_view|]. specialize (Hg3 eq_refl).
  eapply wp_bind_2; [apply wp_side_reads, userCertificateReadiness_fp|].
  intros [[certReady why] notAfter] s4 [Hv4 Hi4]. rewrite Hi3, Hi2, Hi1 in Hi4.
  eapply wp_bind_2; [apply markUserReady_wp; by rewrite ?Hi4|].
  intros [e|] s5 _; [by apply wp_ret|]. unfold Now. apply wp_call; [done|]. intros. by apply wp_ret.
Qed.
Lemma secure_and_provision_wp apiReader u certRef cluster s :
  us_Username (us_Spec u) = username → Forall grant_unreserved (us_Grants (us_Spec u)) →
  may_provision s → created_kept s u → uw_cluster s = Some (Ok cluster) → ready cluster →
  state_ok (id_grants (uw_id s)) →
  wp user_env (secure_and_provision apiReader u certRef cluster) (λ _ _, True) s.
Proof.
  intros Hu Hg Hp Hk Hc Hr Hst. unfold secure_and_provision.
  destruct (cst_SecurityEnabled (cl_Status cluster)) eqn:Hsec; [by apply provision_user_wp|].
  eapply wp_bind_2; [by apply EnableSecurity_wp|].
  intros [e|] s1 [(Hi1 & _) [Hv1 Hv2]];
    [apply fail_and_requeue_wp; by apply (created_kept_view s)|]. specialize (Hi1 eq_refl).
  apply wp_call.
  { split; [by rewrite Hi1|]. exists cluster. by rewrite Hv2. }
  intros [c'|e] s2; cbn; intros ->; [|by apply wp_ret].
  apply provision_user_wp; [done|done| |unfold created_kept; cbn; by rewrite Hv1|cbn; by rewrite Hi1].
  destruct Hp as [(u0 & Hu0 & Hl) _]. split; [|by exists c'].
  exists u0. cbn. by rewrite Hv1.
Qed.

Lemma reconcileUserCertificate_wp u certRef s :
  wp user_env (reconcileUserCertificate u certRef) (λ _ s', s' = s) s.
Proof.
  unfold reconcileUserCertificate. destruct (ucr_IssuerRef certRef); [|by apply wp_ret].
  destruct (SetControllerReference _ _ _); [|by apply wp_ret].
  unfold Get. apply wp_call; [done|]. intros [c'|e'] s' ->; [by apply wp_ret|].
  destruct (IsNotFound e'); [|by apply wp_ret]. split; [done|]. by intros r s' ->.
Qed.

Lemma user_with_cluster_wp apiReader u certRef s :
  us_Username (us_Spec u) = username → Forall grant_unreserved (us_Grants (us_Spec u)) →
  uw_seen s = Some u → user_live u → state_ok (id_grants (uw_id s)) →
  wp user_env (user_with_cluster apiReader u certRef) (λ _ _, True) s.
Proof.
  intros Hu Hg Hseen Hlive Hst. unfold user_with_cluster, Get. apply wp_call; [done|].
  intros [cluster|e] s'; cbn; intros ->.
  2: { destruct (negb _); [by apply wp_ret|apply fail_and_requeue_wp; by apply created_seen]. }
  destruct (String.eqb_spec (cst_Phase (cl_Status cluster)) PhaseReady) as [Hr|Hr]; cbn [negb].
  - eapply wp_bind_2; [apply reconcileUserCertificate_wp|]. intros [e|] s2 ->.
    { unfold Now. apply wp_call; [done|]. intros now s3 ->.
      refine (fail_and_requeue_wp (us_with_status u (ust_set_certificate (us_Status u) false (err_msg e)
               (setCondition now (ust_Conditions (us_Status u)) conditionCertificateReady false
                  (om_Generation (us_Meta u)) "CertificateRequestFailed" (err_msg e)).1)) _ _ _ _ _);
                    exact (created_seen s u Hseen). }
    apply secure_and_provision_wp; [done|done| |by apply (created_seen s)|done|done|done].
    split; [by exists u|by exists cluster].
  - unfold Now. apply wp_call; [done|]. intros now s' ->.
    destruct (setCondition _ _ _ _ _ _ _) as [conds changed] eqn:Hconds.
    apply wp_bind_2 with (Q1 := λ _ _, True); [|intros; by apply wp_ret].
    destruct changed; [|by apply wp_ret].
    apply wp_user_status; [|left; exact (created_seen s u Hseen)|intros; by apply wp_ret].
    intros _. right. split; [exists u; split; [done|by destruct u as [? ? []]]|].
    cbn. rewrite (fst_is _ _ _ Hconds). apply setCondition_reads.
Qed.

(** ** Deletion *)
Lemma deleteRiakUser_wp u t s :
  us_Username (us_Spec u) = username → uw_seen s = Some u → om_DeletionTimestamp (us_Meta u) = Some t →
  wp user_env (deleteRiakUser u t) (λ e s', e = None → may_release s' u) s.
Proof.
  intros Hu Hseen Hdel. unfold deleteRiakUser.
  destruct (ust_Created (us_Status u)) eqn:Hcr; cbn [negb]; [|apply wp_ret; intros _; by left].
  unfold Get. apply wp_call; [done|]. intros [cluster|e] s'; cbn; intros ->.
  2: { apply wp_ret. destruct (IsNotFound e) eqn:Hnf; [|done]. intros _. right. left. by exists e. }
  destruct (bool_decide _ || _ || _) eqn:Hc.
  { apply wp_ret. intros _. right. right. left. exists cluster. split; [done|].
    rewrite !orb_true_iff, !bool_decide_eq_true, negb_true_iff, String.eqb_neq in Hc. unfold ready. tauto. }
  rewrite !orb_false_iff, !bool_decide_eq_false, negb_false_iff, String.eqb_eq in Hc.
  destruct Hc as ((Hc1 & Hc2) & Hc3).
  assert (om_DeletionTimestamp (cl_Meta cluster) = None) as Hc4 by (apply eq_None_not_Some, Hc1).
  apply wp_bind. unfold DeleteUser. destruct (first_pod cluster) as [pod|] eqn:Hpod.
  2: { exfalso. apply Hc3. unfold first_pod in Hpod. by destruct (cst_Members _). }
  rewrite Hu. unfold DeleteUser_ex. apply wp_user_admin.
  { by eapply (uc_delete _ _ cluster). }
  intros r i Hi. apply wp_ret. unfold id_step in Hi. rewrite 3!decide_False in Hi by done.
  rewrite decide_True in Hi by done. destruct Hi as (H1 & H2 & H3 & _).
  destruct (admin_reply _ r).2 as [e|] eqn:He.
  - destruct (Contains (err_msg e) "unknown_user") eqn:Hcon.
    + apply wp_ret. intros _. right. right. right. left. cbn. rewrite H3; [done|]. by exists e.
    + unfold Now. apply wp_call; [done|]. intros now s2; cbn; intros ->.
      destruct (Z.ltb_spec userDeleteGracePeriod (now - t)); apply wp_ret; [|done].
      intros _. right. right. right. right. exists t. by split.
  - apply wp_ret. intros _. right. right. right. left. cbn. by rewrite H1.
Qed.

(** ** The reconcile *)
Lemma ReconcileUser_wp apiReader req s :
  state_ok (id_grants (uw_id s)) →
  wp user_env (ReconcileUser apiReader req) (λ _ _, True) s.
Proof.
  intros Hst. unfold ReconcileUser, Get. apply wp_call; [done|]. intros [u|e] s'; [|by intros ->; apply wp_ret].
  intros (-> & Hu & Hg). destruct (om_DeletionTimestamp (us_Meta u)) as [t|] eqn:Hdel.
  { destruct (ContainsFinalizer _ _); [|by apply wp_ret].
    eapply wp_bind_2; [by apply deleteRiakUser_wp|]. intros [e|] s2 Hrel; [by apply wp_ret|].
    apply wp_call; [|intros; by apply wp_ret]. intros _. by apply Hrel. }
  set (Q1 := λ (x : res RiakUser) s', uw_id s' = uw_id s ∧
    match x with
    | Ok u' => uw_seen s' = Some u' ∧ user_live u' ∧ us_Spec u' = us_Spec u
    | Err _ => True
    end).
  apply wp_bind_2 with (Q1 := Q1).
  { destruct (ContainsFinalizer _ _) eqn:Hf; [by apply wp_ret|].
    split; [intros [? Hd]; cbn in Hd; congruence|]. intros [u'|e] s2; [|by intros ->; apply wp_ret].
    intros (-> & Hs & Hm). apply wp_ret. split; [done|]. split; [done|]. split; [|done].
    split; rewrite Hm; [done|]. cbn. apply finalizer_contains, finalizer_add. by left. }
  intros [u1|e] s1 [Hi1 H1]; [|by apply wp_ret]. destruct H1 as (Hseen1 & Hlive1 & Hsp1).
  apply wp_bind_2 with (Q1 := Q1).
  { destruct (String.eqb _ _); [|by apply wp_ret].
    split; [split; [by apply user_not_ready_ok|left; exact (created_seen s1 u1 Hseen1)]|].
    intros [u'|e] s2; [|by intros ->; apply wp_ret].
    intros (-> & Hs & Hm). apply wp_ret. split; [done|]. split; [done|]. split; [|by rewrite Hs].
    unfold user_live. by rewrite Hm. }
  intros [u2|e] s2 [Hi2 H2]; [|by apply wp_ret]. destruct H2 as (Hseen2 & Hlive2 & Hsp2).
  destruct (us_CertificateRef (us_Spec u2)) as [certRef|].
  - apply user_with_cluster_wp; rewrite ?Hsp2, ?Hi2; done.
  - unfold fail_without_certificate, Now. apply wp_call; [done|]. intros n1 s3 ->.
    apply wp_call; [done|]. intros n2 s4 ->.
    apply wp_user_status; [by apply user_not_ready_ok|left; exact (created_seen s2 u2 Hseen2)|].
    intros. by apply wp_ret.
Qed.
End world.

(** ** A run *)
(** A server holding one user and one cluster, and a Riak whose security subsystem works;
    the state is the user, the grants, and the commands run, most recent first. *)
Definition user_sim (c : RiakCluster) (name : string) (a : api)
    (w : RiakUser * grants_state * list (list string)) : reply a * (RiakUser * grants_state * list (list string)) :=
  match a as a' return reply a' * (RiakUser * grants_state * list (list string)) with
  | AGet rd k key =>
      (match k as k return res (obj k) with
       | KUser => Ok w.1.1
       | KCluster => Ok c
       | k => refuse (AGet rd k key)
       end, w)
  | AUpdate k o =>
      match k as k return obj k → res (obj k) * (RiakUser * grants_state * list (list string)) with
      | KUser => λ u, (Ok u, (u, w.1.2, w.2))
      | k => λ o, (refuse (AUpdate k o), w)
      end o
  | AStatusUpdate k o =>
      match k as k return obj k → res (obj k) * (RiakUser * grants_state * list (list string)) with
      | KUser => λ u, (Ok u, (u, w.1.2, w.2))
      | KCluster => λ c, (Ok c, w)
      | k => λ o, (refuse (AStatusUpdate k o), w)
      end o
  | ARun cmd full =>
      let args := exec_args full in
      if decide (args = print_args name ∨ is_Some (sec_effect name args w.1.2))
      then let '(r, g) := sec_sim name (ARun cmd full) w.1.2 in (r, (w.1.1, g, args :: w.2))
      else (Ok "", (w.1.1, w.1.2, args :: w.2))
  | a => (refuse a, w)
  end.
Definition granted_user : RiakUser :=
  mkRiakUser (us_Meta sample_user)
    (mkRiakUserSpec "c" "alice" sample_grants (us_CertificateRef (us_Spec sample_user))) no_RiakUserStatus.

(** ** Properties *)

(** C6: a RiakUser is reported Ready (phase Ready and Ready condition True for its generation)
    only when Riak holds the identity with its certificate source and exactly the grants of the
    spec, which are the ones the status lists. Any other status written with the phase Ready is
    the one that was read with nothing but its conditions changed, its Ready condition being
    False for the current generation: a user that was Ready keeps the phase, but not the
    condition, while its cluster is not ready. Two conditions limit this to names that
    print-grants and the command line can tell from keywords: no grant Riak holds is on a
    bucket type named "any" or "type", or on the type "*" with a bucket ([state_ok]), and no
    grant of the spec names "*", "any" or "type" ([grant_unreserved]).
    Riak is changed only for a live user carrying the finalizer, or to remove the user of a RiakUser
    being deleted; security is recorded as enabled only after it was; and a RiakUser being
    deleted loses its finalizer only in the cases of [may_release]. Every call to the API
    server or to Riak may fail, and a failed command may have taken effect. *)
Theorem user_reconcile_sound (L : KubeLib) (HL : KubeLibLaws L) (X : GoX509) (apiReader : bool)
    (username : string) (req : ObjectKey) (s : user_world) :
  state_ok (id_grants (uw_id s)) →
  wp (user_env username) (ReconcileUser apiReader req) (λ _ _, True) s.
Proof. apply ReconcileUser_wp. Qed.
Lemma user_reconcile_sound_witness :
  let r := run (user_sim ready_cluster "alice") (@ReconcileUser refLib demo_x509 false (mkKey "db" "alice"))
             (granted_user, stale_state, []) in
  r.1 = finish (requeue (30 * second)) ∧ ust_Phase (us_Status r.2.1.1) = UserPhaseReady ∧
  r.2.1.2 = spec_grants sample_grants ∧ length r.2.2 = 8 ∧
  wp (user_env "alice") (@ReconcileUser refLib demo_x509 false (mkKey "db" "alice")) (λ _ _, True)
    (mkUserWorld (mkIdentity false false false stale_state) None None 0).
Proof.
  intros r. split; [by vm_compute|]. split; [by vm_compute|].
  split; [by apply (bool_decide_unpack _); vm_compute|]. split; [by vm_compute|].
  apply (user_reconcile_sound refLib refLib_laws demo_x509 false "alice" (mkKey "db" "alice")).
  by apply (bool_decide_unpack _); vm_compute.
Defined.

(** The API server as the deletion of [u] sees it: [u] is what it returns, no command may
    run, and the only write is the one that drops the finalizer; the state says whether that
    write went through. *)
Definition release_env `{L : KubeLib} (u : RiakUser) : Env reply bool := {|
  allowed := λ _ a,
    match a with
    | AGet _ _ _ => True
    | AUpdate k o => match k return obj k → Prop with
                     | KUser => λ o, o = user_finalizers RemoveFinalizer u
                     | _ => λ _, False
                     end o
    | _ => False
    end;
  step := λ s a,
    match a as a' return reply a' → bool → Prop with
    | AGet _ k _ => match k return res (obj k) → bool → Prop with
                    | KUser => λ r s', r = Ok u ∧ s' = s
                    | _ => λ _ s', s' = s
                    end
    | AUpdate _ _ => λ r s', s' = is_ok r
    | _ => λ _ s', s' = s
    end
|}.

(** The world of a RiakUser with the identity it is given in Riak; a status may only be written
    with [created] set as [created_ok] says. *)
Definition created_env `{L : KubeLib} (username : string) : Env reply user_world := {|
  allowed := λ s a,
    match a with
    | AStatusUpdate k o => match k return obj k → Prop with KUser => created_ok s | _ => λ _, True end o
    | _ => True
    end;
  step := step (user_env username)
|}.
Lemma created_recorded `{L : KubeLib} `{HL : !KubeLibLaws L} `{X : GoX509} apiReader username req s :
  state_ok (id_grants (uw_id s)) →
  wp (created_env username) (ReconcileUser apiReader req) (λ _ _, True) s.
Proof.
  intros Hs. eapply wp_mono; [eapply (wp_map (user_env username) _ (λ s, s) (λ _, True))|done].
  - intros s1 a _ Ha. destruct a as [| | | |k o| | | | |]; try done. destruct k; try done. by destruct Ha.
  - done.
  - done.
  - by apply ReconcileUser_wp.
Qed.

(** C26: an identity that an unfinished provisioning put in Riak can stay there. (1) A RiakUser
    deleted before [status.created] was recorded is released without asking Riak anything: no
    command runs, and its finalizer is removed. (2) [created] is recorded only when the
    identity is complete in Riak (it exists, has its source and exactly the grants of the
    spec), or kept from the version read: a user whose source or grants failed is not
    recorded, so deleting it leaves what the earlier steps made. (2) is under the conditions
    on names of [user_reconcile_sound]. *)
Theorem unrecorded_user_left (L : KubeLib) (HL : KubeLibLaws L) (X : GoX509) (apiReader : bool)
    (req : ObjectKey) (u : RiakUser) (username : string) (s : user_world) :
  is_Some (om_DeletionTimestamp (us_Meta u)) → riakUserFinalizerName ∈ om_Finalizers (us_Meta u) →
  ust_Created (us_Status u) = false → state_ok (id_grants (uw_id s)) →
  wp (release_env u) (ReconcileUser apiReader req) (λ r released, r.2 = None → released = true) false ∧
  wp (created_env username) (ReconcileUser apiReader req) (λ _ _, True) s.
Proof.
  intros [t Ht] Hf Hc Hs. split; [|by apply created_recorded]. unfold ReconcileUser, Get.
  apply wp_call; [done|]. intros r s' [-> ->].
  rewrite Ht, (proj2 (finalizer_contains _ _) Hf). unfold deleteRiakUser. rewrite Hc. cbn [negb].
  apply wp_call; [done|]. by intros [u'|e] s'; cbn; intros ->; apply wp_ret.
Qed.
(** The scenario: granting fails on the first reconcile, the user is then deleted. *)
Definition half_provisioned : RiakUser :=
  mkRiakUser (mkObjectMeta "alice" "db" "" 1 (Some 7%Z) [riakUserFinalizerName] ∅ [])
    (us_Spec granted_user) (ust_failed no_RiakUserStatus "failed to grant permissions" []).
Definition failing_grants (w : RiakUser * list (list string)) (a : api) : reply a :=
  match a as a' return reply a' with
  | AGet rd k key => match k as k return res (obj k) with
                     | KUser => Ok w.1
                     | KCluster => Ok ready_cluster
                     | k => refuse (AGet rd k key)
                     end
  | AUpdate k o => match k as k return obj k → res (obj k) with
                   | KUser => λ u, Ok u
                   | k => λ o, refuse (AUpdate k o)
                   end o
  | AStatusUpdate k o => match k as k return obj k → res (obj k) with
                         | KCluster => λ c, Ok c
                         | KUser => λ u, Ok u
                         | k => λ o, refuse (AStatusUpdate k o)
                         end o
  | ARun _ full => if decide (exec_args full !! 1 = Some "grant") then Ok "error" else Ok ""
  | a => refuse a
  end.
Definition failing_sim (a : api) (w : RiakUser * list (list string)) : reply a * (RiakUser * list (list string)) :=
  let r := failing_grants w a in
  let stored k : res (obj k) → RiakUser * list (list string) :=
    match k as k return res (obj k) → RiakUser * list (list string) with
    | KUser => λ r, match r with Ok u => (u, w.2) | Err _ => w end
    | _ => λ _, w
    end in
  (r, match a as a' return reply a' → RiakUser * list (list string) with
      | AUpdate k _ => stored k
      | AStatusUpdate k _ => stored k
      | ARun _ full => λ _, (w.1, exec_args full :: w.2)
      | _ => λ _, w
      end r).
Lemma unrecorded_user_left_witness :
  let w := (run failing_sim (@ReconcileUser refLib demo_x509 false (mkKey "db" "alice")) (granted_user, [])).2 in
  add_user_args "alice" ∈ w.2 ∧ ust_Phase (us_Status w.1) = UserPhaseFailed ∧
  ust_Created (us_Status w.1) = false ∧
  wp (@release_env refLib half_provisioned) (@ReconcileUser refLib demo_x509 false (mkKey "db" "alice"))
    (λ r released, r.2 = None → released = true) false ∧
  wp (created_env "alice") (@ReconcileUser refLib demo_x509 false (mkKey "db" "alice")) (λ _ _, True)
    (mkUserWorld (mkIdentity true true false stale_state) None None 0).
Proof.
  intros w. split; [by apply (bool_decide_unpack _); vm_compute|]. split; [by vm_compute|].
  split; [by vm_compute|].
  apply (unrecorded_user_left refLib refLib_laws demo_x509 false (mkKey "db" "alice") half_provisioned "alice").
  - by exists 7%Z.
  - by left.
  - done.
  - by apply (bool_decide_unpack _); vm_compute.
Defined.

(** Once [markUserReady] has recorded a provisioned user, recording the same outcome
    again, at any later time, makes no call but reading the clock. *)
Lemma markUserReady_quiet (L : KubeLib) (HL : KubeLibLaws L) (u : RiakUser) (clusterName : string)
    (certReady : bool) (certReason : string) (now1 now2 t : time) :
  let gen := om_Generation (us_Meta u) in
  let cert := if certReady then ("CertificateIssued", "the client certificate has been issued")
              else ("CertificatePending", certReason) in
  let conds1 := (setCondition now1 (ust_Conditions (us_Status u)) conditionCertificateReady certReady
                   gen cert.1 cert.2).1 in
  let conds2 := (setCondition now2 conds1 conditionReady true gen "UserProvisioned"
                   ("Riak user " +:+ Quote (us_Username (us_Spec u)) +:+ " is provisioned on cluster " +:+ clusterName)).1 in
  let u' := us_with_status u (mkRiakUserStatus UserPhaseReady true (Some t) "" (us_Username (us_Spec u))
              certReady certReason clusterName (us_Grants (us_Spec u)) conds2) in
  footprint (λ a, a = ANow) (markUserReady u' clusterName certReady certReason) (λ e, e = None).
Proof.
  intros gen cert conds1 conds2 u'. unfold markUserReady, Now.
  change (ust_Conditions (us_Status u')) with conds2. change (us_Meta u') with (us_Meta u). fold gen.
  change (us_Spec u') with (us_Spec u). fold cert. destruct cert as [condReason condMessage] eqn:Hcert.
  apply fp_call; [done|]. intros n1.
  rewrite (setCondition_keep now1 (FindStatusCondition (ust_Conditions (us_Status u)) conditionCertificateReady)).
  2: { unfold conds2. rewrite setCondition_other by done. apply setCondition_find. }
  apply fp_call; [done|]. intros n2. unfold conds2 at 1. rewrite setCondition_again. fold conds2.
  cbn. rewrite !String.eqb_refl, eqb_reflx. unfold equalGrants. rewrite bool_decide_true by done. by apply fp_ret.
Qed.
