(* ===== verification/ClusterFacts.v ===== *)
(** * The RiakCluster controller: properties

    What a status write may claim ([reported]), and the order in which a reconcile touches
    the cluster's objects ([cluster_env]). *)
From S2P Require Import Prelude GoLib Effects Types Samples KubeTypes Kube KubeLib Footprint Status Executor Manager RiakEnv Membership Tls Trust TrustFacts Monitoring Rollout BucketController StatefulSet StatefulSetFacts ClusterController Footprints.

(** ** Reporting *)
(** The riak-admin commands among the calls of a trace. *)
Definition command_of (e : event) : option command :=
  match projT1 e as a return reply a → option command with
  | ARun _ full => λ r, Some (mkCommand (exec_pod full) (exec_args full) r)
  | _ => λ _, None
  end (projT2 e).
Definition commands (h : list event) : list command := omap (M:=list) command_of h.

Definition sorted_pods (items : list Pod) : list Pod := SortBy (λ p, pod_Name p) items.
Definition pod_names (pods : list Pod) : list string := (λ p, pod_Name p) <$> pods.

Lemma ready_count_spec pods :
  (Z.of_nat (length pods) ≤ int32_max)%Z →
  ready_count pods = Z.of_nat (length (filter (λ p, podIsReady p = true) pods)).
Proof.
  unfold ready_count. intros Hl.
  assert (∀ n : nat, (Z.of_nat (n + length pods) ≤ int32_max)%Z →
    foldl (λ n pod, if podIsReady pod then wrap32 (n + 1) else n) (Z.of_nat n) pods =
    Z.of_nat (n + length (filter (λ p, podIsReady p = true) pods))) as Hgen; [|by apply (Hgen 0)].
  clear Hl. induction pods as [|p pods IH]; intros n Hn; cbn [foldl].
  { by rewrite Nat.add_0_r. }
  cbn [length] in Hn. rewrite filter_cons. destruct (podIsReady p).
  - replace (wrap32 (Z.of_nat n + 1)) with (Z.of_nat (S n)).
    2: { rewrite wrap32_id; [lia|]. unfold in_int32, int32_min, int32_max in *. lia. }
    rewrite IH by lia. rewrite decide_True by done. cbn [length]. lia.
  - rewrite IH by lia. by rewrite decide_False.
Qed.

Section status.
Context `{L : KubeLib} `{HL : !KubeLibLaws L} `{X : GoX509}.
Context (apiReader : bool) (cluster : RiakCluster).

(** The pods of the cluster were listed in [h] as [items]. *)
Definition pods_read (h : list event) (items : list Pod) : Prop :=
  existT (AList KPod (cl_Namespace cluster) (cluster_labels_only cluster)) (Ok items) ∈ h.
Definition cert_key : ObjectKey := mkKey (cl_Namespace cluster) (clusterCertName (cl_Name cluster)).
Definition cert_issued (h : list event) : Prop :=
  ∃ cert : Unstructured, existT (AGet Cached (KUnstructured certificateGVK) cert_key) (Ok cert) ∈ h ∧
    (certificateReady cert).1 = true.
Definition seed_pod : string := cl_Name cluster +:+ "-0".
(** The seed listed as many valid members as there are pods, no other pod was alone in a ring the
    seed does not list, and nothing was changed since. *)
Definition ring_complete (names : list string) (h : list event) : Prop :=
  ring_checked seed_pod names (commands h).

Record reported (h : list event) (o : RiakCluster) : Prop := {
  rep_same : cl_Meta o = cl_Meta cluster ∧ cl_Spec o = cl_Spec cluster ∧
    cst_SecurityEnabled (cl_Status o) = cst_SecurityEnabled (cl_Status cluster);
  rep_pods : ∃ items, pods_read h items ∧
    let pods := sorted_pods items in
    let st := cl_Status o in
    nm_Pod <$> cst_Members st = pod_names pods ∧
    nm_Ready <$> cst_Members st = podIsReady <$> pods ∧
    cst_TotalNodes st = cl_Size cluster ∧ cst_ReadyNodes st = ready_count pods ∧
    (cst_Phase st = PhaseReady ∨ cst_Phase st = PhaseCreating) ∧
    (cst_Phase st = PhaseReady →
       ready_count pods = cl_Size cluster ∧ ((cl_Size cluster ≤ 1)%Z ∨ ring_complete (pod_names pods) h)) ∧
    (ts_ClientReady (cst_TLSStatus st) = true → cert_issued h ∧ ready_count pods = cl_Size cluster);
  rep_condition : ∃ c, FindStatusCondition (cst_Conditions (cl_Status o)) conditionReady = Some c ∧
    (cd_Status c = ConditionTrue ↔ cst_Phase (cl_Status o) = PhaseReady) ∧
    cd_ObservedGeneration c = cl_Generation cluster
}.

Definition status_call_ok (h : list event) (a : api) : Prop :=
  match a with
  | AGet _ _ _ => True
  | AList _ _ _ => True
  | ANow => True
  | ARun name full => ∃ items pod args, pods_read h items ∧
      ARun name full = ARun "kubectl" (kubectl_args (cl_Namespace cluster) pod "riak" args) ∧
      membership_ok seed_pod (pod_names (sorted_pods items)) (commands h) pod args
  | AStatusUpdate k o => match k return obj k → Prop with
                         | KCluster => reported h
                         | _ => λ _, False
                         end o
  | _ => False
  end.
Definition status_env : Env reply (list event) := trace_env status_call_ok.

(** Reading extends the trace and runs no command. *)
Definition extends (h h' : list event) : Prop := ∃ h0, h' = h0 ++ h.
Definition after_reads (h h' : list event) : Prop := extends h h' ∧ commands h' = commands h.
#[local] Instance extends_refl : Reflexive extends.
Proof. intros h. by exists []. Qed.
#[local] Instance extends_trans : Transitive extends.
Proof. intros h1 h2 h3 [g1 ->] [g2 ->]. exists (g2 ++ g1). by rewrite app_assoc. Qed.
Lemma extends_elem h h' (e : event) : extends h h' → e ∈ h → e ∈ h'.
Proof. intros [h0 ->] ?. apply elem_of_app. by right. Qed.
Lemma wp_status_reads {A} (p : M A) Q h :
  footprint reads p Q → wp status_env p (λ a h', Q a ∧ after_reads h h') h.
Proof.
  intros Hp. apply (wp_footprint _ reads); [done| | |by split].
  - intros h1 a _ Ha. by destruct a.
  - intros h1 a r h2 [[h0 ->] H2] Ha ->. split; [by eexists (_ :: h0)|]. rewrite <-H2. by destruct a.
Qed.

Lemma node_row_fp prev pod :
  footprint reads (node_row cluster prev pod) (λ r, nm_Pod r.1 = pod_Name pod ∧ nm_Ready r.1 = podIsReady pod).
Proof. unfold node_row, nodeStorageReady. destruct (clusterStorage cluster). fp; by cbn. Qed.
Lemma node_rows_fp prev pods :
  footprint reads (node_rows cluster prev pods)
    (λ rows, nm_Pod <$> rows.*1 = pod_names pods ∧ nm_Ready <$> rows.*1 = podIsReady <$> pods).
Proof.
  induction pods as [|pod pods IH]; [by apply fp_ret|]. cbn [node_rows].
  eapply fp_bind; [apply node_row_fp|]. intros row [H1 H2].
  eapply fp_bind; [apply IH|]. intros rows [H3 H4]. apply fp_ret. cbn. by rewrite H1, H2, H3, H4.
Qed.

Lemma bucketRefs_fp : footprint reads (bucketRefs cluster) (λ _, True).
Proof. unfold bucketRefs. fp. Qed.
Lemma userRefs_fp : footprint reads (userRefs cluster) (λ _, True).
Proof. unfold userRefs. fp. Qed.
Lemma monitoringStatus_fp pods : footprint reads (monitoringStatus cluster pods) (λ _, True).
Proof. unfold monitoringStatus. destruct (exporter_state pods). fp. Qed.
Lemma side_reads_reads a : side_reads a → reads a.
Proof. by destruct a as [? [] ?| | | | | | | | |]. Qed.

Lemma ring_formed_wp items allReady h :
  pods_read h items → commands h = [] →
  wp status_env (ring_formed cluster allReady (sorted_pods items))
    (λ formed h', extends h h' ∧
       (formed = true → allReady = true →
        (cl_Size cluster ≤ 1)%Z ∨ ring_complete (pod_names (sorted_pods items)) h')) h.
Proof.
  intros Hp Hc. unfold ring_formed.
  destruct (allReady && (1 <? cl_Size cluster)%Z) eqn:Hb.
  2: { apply wp_ret. split; [done|]. intros _ ->. left. by apply Z.ltb_ge in Hb. }
  eapply wp_bind_2.
  - apply (wp_map (history_env (cl_Namespace cluster) (membership_ok seed_pod (pod_names (sorted_pods items))))
             status_env commands (extends h)); [| |done|rewrite Hc; apply ReconcileMembership_wp].
    + intros h1 a Hx (pod & args & -> & Hok). exists items, pod, args.
      split; [by eapply extends_elem|done].
    + intros h1 a r h2 Hx (pod & args & -> & Hok) ->. split; [done|].
      etrans; [exact Hx|]. by eexists [_].
  - intros r h' [Hr Hx]. apply wp_ret. split; [done|]. intros Hf _. right.
    by destruct r as [[]|].
Qed.
Lemma tlsStatus_wp allReady h :
  wp status_env (tlsStatus apiReader cluster allReady)
    (λ t h', after_reads h h' ∧
       (ts_ClientReady t = true → cert_issued h' ∧ allReady = true)) h.
Proof.
  unfold tlsStatus. destruct (negb (tls_enabled cluster)); [by apply wp_ret|].
  eapply (wp_bind_2 _ _ _ (λ c h', after_reads h h' ∧ (c.1 = true → cert_issued h'))).
  { unfold fetchCertificateReadiness, Get. apply wp_trace; [done|]. intros r. apply wp_ret. split.
    - split; [by eexists [_]|done].
    - destruct r as [cert|e]; [|by repeat case_match]. intros Hr. exists cert. split; [by left|done]. }
  intros [ready reason] h1 [[Hx1 Hc1] Hcert]. eapply wp_bind_2.
  { eapply wp_status_reads, fp_weaken; [apply side_reads_reads|apply trustStatus_fp]. }
  intros [count err] h2 [_ [Hx2 Hc2]]. apply wp_ret. split; [split; [by etrans|by rewrite Hc2]|]. cbn.
  intros [Hr Ha]%andb_true_iff. split; [|done]. destruct (Hcert Hr) as (cert & Hin & Hcr).
  exists cert. split; [by eapply extends_elem|done].
Qed.

Lemma phase_outcome_spec allReady formed n :
  let '(phase, ok, _, _) := phase_outcome cluster allReady formed n in
  (phase = PhaseReady ∨ phase = PhaseCreating) ∧ (ok = true ↔ phase = PhaseReady) ∧
  (phase = PhaseReady → allReady = true ∧ formed = true).
Proof. unfold phase_outcome. destruct allReady, formed; cbn; naive_solver. Qed.
Lemma ring_complete_reads names h h' : after_reads h h' → ring_complete names h → ring_complete names h'.
Proof. unfold ring_complete. by intros [_ ->]. Qed.

(** What a pass that reported success has written. *)
Definition status_written (h : list event) : Prop :=
  ∃ o u, existT (AStatusUpdate KCluster o) (Ok u) ∈ h.
Lemma updateClusterStatus_wp :
  wp status_env (updateClusterStatus apiReader cluster) (λ e h, e = None → status_written h) [].
Proof.
  unfold updateClusterStatus, List_. apply wp_trace; [done|]. intros [items|e]; [|by apply wp_ret].
  fold (sorted_pods items). set (h0 := _ :: _).
  assert (pods_read h0 items) as Hp by by left.
  eapply wp_bind_2; [eapply wp_status_reads, node_rows_fp|]. intros rows h1 [[Hn Hr] [Hx1 Hc1]].
  eapply wp_bind_2; [eapply wp_status_reads, bucketRefs_fp|]. intros [buckets|e] h2 [_ [Hx2 Hc2]]; [|by apply wp_ret].
  eapply wp_bind_2; [eapply wp_status_reads, userRefs_fp|]. intros [users|e] h3 [_ [Hx3 Hc3]]; [|by apply wp_ret].
  assert (extends h0 h3) as Hx by by do 2 (etrans; [|done]).
  eapply wp_bind_2.
  { apply (ring_formed_wp items); [by eapply extends_elem|by rewrite Hc3, Hc2, Hc1]. }
  intros formed h4 [Hx4 Hring]. eapply wp_bind_2; [apply tlsStatus_wp|]. intros tls h5 [Ha5 Htls].
  eapply wp_bind_2; [eapply wp_status_reads, monitoringStatus_fp|]. intros mon h6 [_ Ha6].
  destruct (clusterStorage cluster) as [className size].
  pose proof (phase_outcome_spec (ready_count (sorted_pods items) =? cl_Size cluster)%Z formed
                (ready_count (sorted_pods items))) as Hph.
  destruct (phase_outcome _ _ _ _) as [[[phase ok] reason] msg]. destruct Hph as (Hph1 & Hph2 & Hph3).
  unfold Now. apply wp_trace; [done|]. intros now1. apply wp_trace; [done|]. intros now2. cbv zeta.
  match goal with |- wp _ _ _ ?h => set (h8 := h) end.
  assert (after_reads h6 h8) as Ha8 by (split; [by eexists [_; _]|done]).
  assert (after_reads h4 h8) as Ha.
  { destruct Ha5 as [? E5], Ha6 as [? E6], Ha8 as [? E8]. split; [by do 2 (etrans; [|done])|congruence]. }
  apply wp_trace; [|intros [u|e]; apply wp_ret; [|done]; intros _; do 2 eexists; by left].
  split.
  - done.
  - exists items. split; [eapply extends_elem, Hp; destruct Ha as [? _]; by do 2 (etrans; [|done])|].
    cbn. split; [done|]. split; [done|]. split; [done|]. split; [done|]. split; [done|]. split.
    + intros H. destruct (Hph3 H) as [Hall Hf]. split; [by apply Z.eqb_eq|].
      destruct (Hring Hf Hall) as [?|Hrc]; [by left|]. right. by eapply ring_complete_reads.
    + intros H. destruct (Htls H) as [(cert & Hin & Hcr) Hall]. split; [|by apply Z.eqb_eq].
      exists cert. split; [|done]. eapply extends_elem; [|exact Hin].
      destruct Ha6 as [? _], Ha8 as [? _]. by etrans.
  - cbn. eexists. split; [apply setCondition_find|]. unfold stored_condition, wanted_condition. cbn.
    split; [|done]. rewrite <-Hph2. by destruct ok.
Qed.
End status.

(** ** The order of a reconcile *)
(** The steps a reconcile completes, and when a call completes one. *)
Inductive stage := SCert | SConfig | SStatefulSet | SHeadless | SClient | SBudget.
#[global] Instance stage_eq_dec : EqDecision stage.
Proof. solve_decision. Defined.
Record cluster_world := mkClusterWorld { cw_seen : option RiakCluster; cw_steps : list stage }.

Definition live_cluster `{L : KubeLib} (c : RiakCluster) : Prop :=
  om_DeletionTimestamp (cl_Meta c) = None ∧
  ContainsFinalizer (om_Finalizers (cl_Meta c)) riakClusterFinalizerName = true.
Definition before_sts (c : RiakCluster) : list stage :=
  (if tls_enabled c then [SCert] else []) ++ (if monitoringEnabled c then [SConfig] else []).
Definition all_stages (c : RiakCluster) : list stage :=
  [SBudget; SClient; SHeadless; SStatefulSet] ++ before_sts c.

Section order.
Context `{L : KubeLib} `{HL : !KubeLibLaws L} `{X : GoX509}.
Context (apiReader : bool) (DefaultImage : string) (range_order : gmap string string → list string).

Definition done_if (b : bool) (st : stage) : list stage := if b then [st] else [].
Definition completes (c : RiakCluster) (a : api) : reply a → list stage :=
  match a as a' return reply a' → list stage with
  | AGet _ k key => match k return res (obj k) → list stage with
                    | KUnstructured g => λ r, done_if (is_ok r && bool_decide (key = cert_key c)) SCert
                    | _ => λ _, []
                    end
  | ACreate k _ => match k with KUnstructured _ => λ e, done_if (bool_decide (e = None)) SCert | _ => λ _, [] end
  | ADelete k _ => match k with
                   | KConfigMap => λ e, done_if (bool_decide (IgnoreNotFound e = None)) SConfig
                   | KPDB => λ e, done_if (bool_decide (IgnoreNotFound e = None)) SBudget
                   | _ => λ _, []
                   end
  | ACreateOrUpdate k key _ =>
      match k with
      | KConfigMap => λ e, done_if (bool_decide (e = None)) SConfig
      | KStatefulSet => λ e, done_if (bool_decide (e = None)) SStatefulSet
      | KService => λ e, done_if (bool_decide (e = None))
                           (if decide (key_Name key = headless_name c) then SHeadless else SClient)
      | KPDB => λ e, done_if (bool_decide (e = None)) SBudget
      | _ => λ _, []
      end
  | _ => λ _, []
  end.

(** What must have been completed before a call, for the cluster [c] being reconciled. *)
Definition exporter_cm_key (c : RiakCluster) : ObjectKey :=
  mkKey (cl_Namespace c) (exporterConfigMapName (cl_Name c)).
Definition call_needs (c : RiakCluster) (steps : list stage) (a : api) : Prop :=
  match a with
  | ACreate k o => match k return obj k → Prop with
                   | KUnstructured g => λ _, tls_enabled c = true
                   | KSecret => λ _, hasAdditionalClientCAs c = true ∧ SCert ∈ steps
                   | _ => λ _, False
                   end o
  | AUpdate k _ => match k with KSecret => hasAdditionalClientCAs c = true ∧ SCert ∈ steps | _ => False end
  | AStatusUpdate k o =>
      match k return obj k → Prop with
      | KCluster => λ o, cl_Meta o = cl_Meta c ∧ cl_Spec o = cl_Spec c ∧
                         (cst_Phase (cl_Status o) = PhaseReady → all_stages c ⊆ steps)
      | _ => λ _, False
      end o
  | ACreateOrUpdate k key f =>
      match k return (obj k → res (obj k)) → Prop with
      | KConfigMap => λ _, monitoringEnabled c = true ∧ key = exporter_cm_key c
      | KStatefulSet => λ f, key = sts_key c ∧ f = sts_mutate DefaultImage range_order c ∧ before_sts c ⊆ steps
      | KService => λ f, (key = mkKey (cl_Namespace c) (headless_name c) ∧ f = headless_mutate c ∧
                          SStatefulSet ∈ steps) ∨
                         (key = mkKey (cl_Namespace c) (cl_Name c) ∧ f = client_mutate c ∧ SHeadless ∈ steps)
      | KPDB => λ f, key = sts_key c ∧ f = pdb_mutate c ∧ SClient ∈ steps
      | KUnstructured g => λ _, key = scrape_key c ∧ all_stages c ⊆ steps
      | _ => λ _, False
      end f
  | ADelete k key => match k with
                     | KConfigMap => monitoringEnabled c = true ∧ key = exporter_cm_key c
                     | KPDB => key = sts_key c ∧ SClient ∈ steps
                     | KUnstructured g => key = scrape_key c ∧ all_stages c ⊆ steps
                     | _ => False
                     end
  | APatch k _ _ => match k with KStatefulSet => all_stages c ⊆ steps | _ => False end
  | ARun _ _ => all_stages c ⊆ steps
  | _ => True
  end.
Definition cluster_ok (s : cluster_world) (a : api) : Prop :=
  match a with
  | AGet _ _ _ => True
  | AList _ _ _ => True
  | ANow => True
  | AUpdate KCluster o => ∃ c, cw_seen s = Some c ∧
      o = cluster_finalizers (if bool_decide (is_Some (om_DeletionTimestamp (cl_Meta c)))
                              then RemoveFinalizer else AddFinalizer) c
  | a => ∃ c, cw_seen s = Some c ∧ live_cluster c ∧ call_needs c (cw_steps s) a
  end.

(** A read cluster is the one being reconciled from then on; a write keeps what was written. *)
Definition cluster_written (s : cluster_world) (o : RiakCluster) (r : res RiakCluster) (s' : cluster_world) : Prop :=
  match r with
  | Ok c' => s' = mkClusterWorld (Some c') (cw_steps s) ∧ cl_Spec c' = cl_Spec o ∧ cl_Meta c' = cl_Meta o
  | Err _ => s' = s
  end.
Definition advance (s : cluster_world) (a : api) (r : reply a) : cluster_world :=
  mkClusterWorld (cw_seen s)
    (match cw_seen s with Some c => completes c a r | None => [] end ++ cw_steps s).
Definition cluster_step (s : cluster_world) (a : api) : reply a → cluster_world → Prop :=
  match a as a' return reply a' → cluster_world → Prop with
  | AGet src k key =>
      match k as k return res (obj k) → cluster_world → Prop with
      | KCluster => λ r s', s' = match r with Ok c => mkClusterWorld (Some c) (cw_steps s) | Err _ => s end
      | k => λ r s', s' = advance s (AGet src k key) r
      end
  | AUpdate k o => match k return obj k → res (obj k) → cluster_world → Prop with
                   | KCluster => cluster_written s
                   | _ => λ _ _ s', s' = s
                   end o
  | AStatusUpdate k o => match k return obj k → res (obj k) → cluster_world → Prop with
                         | KCluster => cluster_written s
                         | _ => λ _ _ s', s' = s
                         end o
  | a => λ r s', s' = advance s a r
  end.
Definition cluster_env : Env reply cluster_world := {| allowed := cluster_ok; step := cluster_step |}.

(** *** The world while [c] is reconciled: at least [steps] are done *)
Definition at_least (c : RiakCluster) (steps : list stage) (s : cluster_world) : Prop :=
  cw_seen s = Some c ∧ steps ⊆ cw_steps s.
Lemma at_least_advance c steps s a r : at_least c steps s → at_least c steps (advance s a r).
Proof. intros [H1 H2]. split; [done|]. cbn. set_solver. Qed.
Lemma at_least_completes c steps s a r st :
  at_least c steps s → st ∈ completes c a r → at_least c (st :: steps) (advance s a r).
Proof. intros [H1 H2] Hst. split; [done|]. cbn. rewrite H1. set_solver. Qed.
Lemma at_least_mono c steps steps' s : steps' ⊆ steps → at_least c steps s → at_least c steps' s.
Proof. intros ? []. split; [done|]. set_solver. Qed.
Lemma call_needs_mono c steps steps' a : steps ⊆ steps' → call_needs c steps a → call_needs c steps' a.
Proof.
  intros Hs. destruct a as [| |k o|k o|k o|k old new|k key|k key f| |]; cbn; try done;
    try (destruct k; cbn; try done); try set_solver; naive_solver set_solver.
Qed.

(** A call made while [c] is being reconciled. *)
Lemma wp_cluster_call {A} c steps a (k : reply a → M A) Q s :
  live_cluster c → at_least c steps s →
  match a with AUpdate KCluster _ | AStatusUpdate KCluster _ | AGet _ KCluster _ => False | _ => True end →
  call_needs c steps a →
  (∀ r s', at_least c steps s' → (∀ st, st ∈ completes c a r → at_least c (st :: steps) s') →
     wp cluster_env (k r) Q s') →
  wp cluster_env (call a ≫= k) Q s.
Proof.
  intros Hl Hs Hk Hn HQ. pose proof Hs as [Hseen Hsub].
  apply wp_call.
  { pose proof (call_needs_mono c steps _ a Hsub Hn) as Hn'.
    destruct a as [| |k0 o|k0 o|k0 o|k0 old new|k0 key|k0 key f| |]; try done;
      try (destruct k0); try done; by exists c. }
  intros r s' Hst. assert (s' = advance s a r ∨ (s' = s ∧ completes c a r = [])) as Hs'.
  { destruct a as [? k0 key| |k0 o|k0 o|k0 o|k0 old new|k0 key|k0 key f| |]; try (by left);
      destruct k0; try done; (by left) || (by right). }
  destruct Hs' as [-> | [-> Hc]]; apply HQ.
  - by apply at_least_advance.
  - intros st Hin. by apply at_least_completes.
  - done.
  - intros st Hin. rewrite Hc in Hin. by apply elem_of_nil in Hin.
Qed.

Definition simple_call (a : api) : Prop :=
  match a with AUpdate KCluster _ | AStatusUpdate KCluster _ | AGet _ KCluster _ => False | _ => True end.
Lemma wp_cluster_fp {A} c steps C (p : M A) Q s :
  live_cluster c → at_least c steps s → footprint C p Q →
  (∀ a, C a → simple_call a ∧ call_needs c steps a) →
  wp cluster_env p (λ r s', Q r ∧ at_least c steps s') s.
Proof.
  intros Hl Hs Hp HC. apply (wp_footprint _ C); [done| | |done].
  - intros s1 a H1 Ha. destruct (HC a Ha) as [Hsi Hn].
    pose proof (proj1 (wp_cluster_call c steps a (λ r, mret r) (λ _ _, True) s1 Hl H1 Hsi Hn
                         (λ r s' _ _, wp_ret _ _ _ _ I))) as H. exact H.
  - intros s1 a r s2 H1 Ha Hst. destruct (HC a Ha) as [Hsi _].
    destruct a as [? k0 key| |k0 o|k0 o|k0 o|k0 old new|k0 key|k0 key f| |];
      try (rewrite Hst; by apply at_least_advance); destruct k0; try done; cbn in Hst; subst s2;
      try done; by apply at_least_advance.
Qed.

Lemma wp_cluster_last c steps a (Q : reply a → cluster_world → Prop) s :
  live_cluster c → at_least c steps s → simple_call a → call_needs c steps a →
  (∀ r s', at_least c steps s' → (∀ st, st ∈ completes c a r → at_least c (st :: steps) s') → Q r s') →
  wp cluster_env (call a) Q s.
Proof.
  intros Hl Hs Hsi Hn HQ.
  exact (wp_cluster_call c steps a (λ r, mret r) Q s Hl Hs Hsi Hn
           (λ r s' H1 H2, wp_ret _ _ _ _ (HQ r s' H1 H2))).
Qed.

(** *** The steps *)
Lemma reconcileTLSCertificate_wp c s :
  live_cluster c → at_least c [] s →
  wp cluster_env (reconcileTLSCertificate c)
    (λ e s', at_least c [] s' ∧ (e = None → at_least c (done_if (tls_enabled c) SCert) s')) s.
Proof.
  intros Hl Hs. unfold reconcileTLSCertificate. destruct (cs_TLS (cl_Spec c)) as [tls|] eqn:Htls.
  2: { apply wp_ret. unfold tls_enabled. by rewrite Htls. }
  assert (tls_enabled c = tls_Enabled tls) as Ht by (unfold tls_enabled; by rewrite Htls). rewrite Ht.
  destruct (tls_Enabled tls) eqn:Hen; cbn [negb]; [|by apply wp_ret].
  destruct (tls_CertManager tls) as [cm|]; [|by apply wp_ret].
  destruct (String.eqb _ _); [by apply wp_ret|].
  destruct (SetControllerReference _ _ _) as [m|e] eqn:Hown; [|by apply wp_ret].
  apply owner_set in Hown as (Hn & Hns & _). cbn [un_Meta]. rewrite Hn, Hns.
  unfold Get. apply (wp_cluster_call c []); [done..|]. intros r s1 H1 Hd.
  destruct r as [cert|e].
  - apply wp_ret. split; [done|]. intros _. apply Hd. cbn. unfold cert_key. rewrite bool_decide_true by done. by left.
  - destruct (IsNotFound e); [|by apply wp_ret].
    unfold Create. apply (wp_cluster_last c []); [done..|]. intros e' s2 H2 Hd2.
    split; [done|]. intros ->. apply Hd2. cbn. by left.
Qed.

(** Calls of the trust bundle: reads, and writes of the trust Secret. *)
Definition trust_calls (a : api) : Prop :=
  match a with
  | ACreate k _ => k = KSecret
  | AUpdate k _ => k = KSecret
  | a => side_reads a
  end.
Lemma reconcileTrustBundle_fp c : footprint trust_calls (reconcileTrustBundle apiReader c) (λ _, True).
Proof.
  unfold reconcileTrustBundle. destruct (negb _); [fp|]. eapply fp_bind.
  { eapply fp_weaken; [|apply buildTrustBundle_fp]. by intros []. }
  intros r _. unfold get_from. fp.
Qed.
Lemma hasCAs_tls c : hasAdditionalClientCAs c = true → tls_enabled c = true.
Proof.
  unfold hasAdditionalClientCAs, tls_enabled. destruct (cs_TLS _); [|done]. by intros [? _]%andb_true_iff.
Qed.
Lemma reconcileTrustBundle_order c s :
  live_cluster c → at_least c (done_if (tls_enabled c) SCert) s →
  wp cluster_env (reconcileTrustBundle apiReader c)
    (λ _ s', at_least c (done_if (tls_enabled c) SCert) s') s.
Proof.
  intros Hl Hs. destruct (hasAdditionalClientCAs c) eqn:Hca.
  2: { unfold reconcileTrustBundle. rewrite Hca. by apply wp_ret. }
  rewrite (hasCAs_tls c Hca) in *. eapply wp_mono.
  - apply (wp_cluster_fp c [SCert] trust_calls _ (λ _, True)); [done|done|apply reconcileTrustBundle_fp|].
    intros a Ha. destruct a as [? k0 key| |k0 o|k0 o|k0 o|k0 old new|k0 key|k0 key f| |]; try done;
      cbn in Ha; [by destruct k0|subst k0..]; (split; [done|]; cbn; set_solver).
  - by intros ? ? [_ ?].
Qed.

Lemma reconcileMonitoringConfigMap_wp c s :
  live_cluster c → at_least c (done_if (tls_enabled c) SCert) s →
  wp cluster_env (when_monitored c (reconcileMonitoringConfigMap c))
    (λ e s', e = None → at_least c (before_sts c) s') s.
Proof.
  intros Hl Hs. unfold when_monitored.
  assert (∀ s', at_least c (SConfig :: done_if (tls_enabled c) SCert) s' → monitoringEnabled c = true →
    at_least c (before_sts c) s') as Hdone.
  { intros s' Hs' Hm. eapply at_least_mono, Hs'. unfold before_sts. rewrite Hm.
    destruct (tls_enabled c); cbn; set_solver. }
  destruct (monitoringEnabled c) eqn:Hm.
  2: { apply wp_ret. intros _. unfold before_sts. rewrite Hm, app_nil_r. exact Hs. }
  unfold reconcileMonitoringConfigMap. destruct (customMetricsConfig c) as [ref|].
  - unfold Get. apply (wp_cluster_call c (done_if (tls_enabled c) SCert)); [done..|].
    intros [cm|e] s1 H1 _; [|by apply wp_ret; destruct (IsNotFound e)].
    cbv zeta. destruct (_ && _); [by apply wp_ret|].
    unfold Delete. apply (wp_cluster_call c (done_if (tls_enabled c) SCert)); [done..|].
    intros e s2 H2 Hd. apply wp_ret. intros He. apply Hdone; [|done]. apply Hd.
    cbn. rewrite bool_decide_true by done. by left.
  - unfold CreateOrUpdate. apply (wp_cluster_last c (done_if (tls_enabled c) SCert)); [done..|].
    intros e s2 H2 Hd ->. apply Hdone; [|done]. apply Hd. cbn. by left.
Qed.

Lemma reconcileStatefulSet_order c s :
  live_cluster c → at_least c (before_sts c) s →
  wp cluster_env (reconcileStatefulSet DefaultImage range_order c)
    (λ e s', at_least c (before_sts c) s' ∧ (e = None → at_least c (SStatefulSet :: before_sts c) s')) s.
Proof.
  intros Hl Hs. unfold reconcileStatefulSet, Get.
  apply (wp_cluster_call c (before_sts c)); [done..|]. intros r s1 H1 _. cbv zeta.
  match goal with |- wp _ (match ?x with _ => _ end) _ _ => destruct x as [e|] end; [by apply wp_ret|].
  unfold CreateOrUpdate. apply (wp_cluster_last c (before_sts c)); [done|done|done|by split_and!|].
  intros e s2 H2 Hd. split; [done|]. intros ->. apply Hd. cbn. by left.
Qed.
Lemma headless_not_client c : cl_Name c ≠ headless_name c.
Proof.
  unfold headless_name. intros H. apply (f_equal String.length) in H. rewrite Str.app_length in H. cbn in H. lia.
Qed.
Lemma reconcileService_wp c s :
  live_cluster c → at_least c (SStatefulSet :: before_sts c) s →
  wp cluster_env (reconcileService c)
    (λ e s', e = None → at_least c (SClient :: SHeadless :: SStatefulSet :: before_sts c) s') s.
Proof.
  intros Hl Hs. unfold reconcileService, CreateOrUpdate.
  apply (wp_cluster_call c (SStatefulSet :: before_sts c)); [done|done|done|by left; split_and!; try done; left|].
  intros [e|] s1 H1 Hd; [by apply wp_ret|].
  apply (wp_cluster_last c (SHeadless :: SStatefulSet :: before_sts c)); [done| |done|by right; split_and!;
    try done; left|].
  { apply Hd. cbn. rewrite decide_True by done. by left. }
  intros e s2 H2 Hd2 ->. apply Hd2. cbn. rewrite decide_False by apply headless_not_client. by left.
Qed.
Lemma reconcilePodDisruptionBudget_wp c s :
  live_cluster c → at_least c (SClient :: SHeadless :: SStatefulSet :: before_sts c) s →
  wp cluster_env (reconcilePodDisruptionBudget c) (λ e s', e = None → at_least c (all_stages c) s') s.
Proof.
  intros Hl Hs. unfold reconcilePodDisruptionBudget, Delete, CreateOrUpdate.
  destruct (negb (pdb_enabled c)).
  - apply (wp_cluster_call c (SClient :: SHeadless :: SStatefulSet :: before_sts c)); [done..|by split; [|left]|].
    intros e s1 H1 Hd. apply wp_ret. intros He. apply Hd. cbn. rewrite bool_decide_true by done. by left.
  - apply (wp_cluster_last c (SClient :: SHeadless :: SStatefulSet :: before_sts c)); [done..|by split_and!;
    try done; left|].
    intros e s1 H1 Hd ->. apply Hd. cbn. by left.
Qed.

Definition scrape_calls (c : RiakCluster) (a : api) : Prop :=
  match a with
  | ACreateOrUpdate k key _ => match k with KUnstructured _ => key = scrape_key c | _ => False end
  | ADelete k key => match k with KUnstructured _ => key = scrape_key c | _ => False end
  | _ => False
  end.
Lemma reconcileScrapeObject_fp c : footprint (scrape_calls c) (reconcileScrapeObject c) (λ _, True).
Proof.
  assert (∀ g f, footprint (scrape_calls c) (reconcileMonitor c g f) (λ _, True)) as Hr
    by (intros; unfold reconcileMonitor; fp).
  assert (∀ g, footprint (scrape_calls c) (deleteMonitor c g) (λ _, True)) as Hd
    by (intros; unfold deleteMonitor; fp).
  assert (∀ p q, footprint (scrape_calls c) p (λ _, True) → footprint (scrape_calls c) q (λ _, True) →
            footprint (scrape_calls c) (and_then p q) (λ _, True)) as Ha.
  { intros p q Hp Hq. unfold and_then. eapply fp_bind; [exact Hp|]. intros [e|] _; [by apply fp_ret|done]. }
  unfold reconcileScrapeObject, reconcileServiceMonitor, reconcilePodMonitor.
  repeat case_match; by apply Ha.
Qed.

Definition status_calls (c : RiakCluster) (a : api) : Prop :=
  match a with
  | AStatusUpdate k o => match k return obj k → Prop with
                         | KCluster => λ o, cl_Meta o = cl_Meta c ∧ cl_Spec o = cl_Spec c ∧
                             cst_SecurityEnabled (cl_Status o) = cst_SecurityEnabled (cl_Status c)
                         | _ => λ _, False
                         end o
  | ARun _ _ => True
  | a => reads a
  end.
Lemma reads_status c a : reads a → status_calls c a.
Proof. by destruct a. Qed.
Lemma updateClusterStatus_fp c : footprint (status_calls c) (updateClusterStatus apiReader c) (λ _, True).
Proof.
  assert (∀ A (p : M A) Q, footprint reads p Q → footprint (status_calls c) p (λ _, True)) as Hr.
  { intros A p Q Hp. eapply fp_mono; [eapply fp_weaken, Hp; apply reads_status|done]. }
  unfold updateClusterStatus, List_. apply fp_call; [done|]. intros [items|e]; [|by apply fp_ret].
  eapply fp_bind; [eapply Hr, node_rows_fp|]. intros rows _.
  eapply fp_bind; [eapply Hr, bucketRefs_fp|]. intros [buckets|e] _; [|by apply fp_ret].
  eapply fp_bind; [eapply Hr, userRefs_fp|]. intros [users|e] _; [|by apply fp_ret].
  eapply (fp_bind _ _ _ (λ _, True)).
  { unfold ring_formed. destruct (_ && _); [|by apply fp_ret].
    eapply fp_bind; [eapply fp_weaken; [|apply ReconcileMembership_fp]; by intros []|]. intros. fp. }
  intros formed _. eapply (fp_bind _ _ _ (λ _, True)).
  { unfold tlsStatus. destruct (negb _); [by apply fp_ret|].
    eapply fp_bind; [eapply Hr, fp_weaken; [apply side_reads_reads|apply fetchCertificateReadiness_fp]|].
    intros [? ?] _. eapply fp_bind; [eapply Hr, fp_weaken; [apply side_reads_reads|apply trustStatus_fp]|].
    intros [? ?] _. by apply fp_ret. }
  intros tls _. eapply fp_bind; [eapply Hr, monitoringStatus_fp|]. intros mon _.
  destruct (clusterStorage c). destruct (phase_outcome _ _ _ _) as [[[? ?] ?] ?].
  unfold Now, StatusUpdate. apply fp_call; [done|]. intros n1. apply fp_call; [done|]. intros n2.
  apply fp_call; [done|]. intros. by apply fp_ret.
Qed.

(** What a completed pass leaves: the cluster object has the same spec, and every step is done. *)
Definition all_done (c : RiakCluster) (s : cluster_world) : Prop :=
  ∃ c', cw_seen s = Some c' ∧ cl_Meta c' = cl_Meta c ∧ cl_Spec c' = cl_Spec c ∧
    all_stages c ⊆ cw_steps s.
Lemma same_spec_live c c' : cl_Meta c' = cl_Meta c → live_cluster c → live_cluster c'.
Proof. unfold live_cluster. by intros ->. Qed.
Lemma same_spec_stages c c' : cl_Spec c' = cl_Spec c → all_stages c' = all_stages c.
Proof. intros Hs. unfold all_stages, before_sts, tls_enabled, monitoringEnabled. by rewrite Hs. Qed.

Lemma updateClusterStatus_order c c1 s :
  live_cluster c → all_done c s → cl_Meta c1 = cl_Meta c → cl_Spec c1 = cl_Spec c →
  wp cluster_env (updateClusterStatus apiReader c1) (λ _ s', all_done c s') s.
Proof.
  intros Hl Hs Hm Hsp. eapply wp_mono.
  - apply (wp_footprint cluster_env (status_calls c1) (all_done c) _ _ _ (updateClusterStatus_fp c1)); [| |exact Hs].
    + intros s1 a (c' & Hseen & Hm' & Hsp' & Hst) Ha.
      rewrite <-(same_spec_stages c c') in Hst by done.
      assert (live_cluster c') as Hl' by by eapply same_spec_live.
      destruct a as [? k0 key| |k0 o|k0 o|k0 o|k0 old new|k0 key|k0 key f| |]; try done.
      * destruct k0; try done. exists c'. split; [done|]. split; [done|].
        destruct Ha as (Ha1 & Ha2 & _). unfold call_needs. split; [congruence|]. split; [congruence|]. by intros _.
      * exists c'. split; [done|]. split; [done|]. exact Hst.
    + intros s1 a r s2 (c' & Hseen & Hm' & Hsp' & Hst) Ha Hstep.
      assert (all_done c (advance s1 a r)) as Hadv.
      { exists c'. split; [done|]. split; [done|]. split; [done|]. cbn [advance cw_steps]. set_solver. }
      destruct a as [? k0 key| |k0 o|k0 o|k0 o|k0 old new|k0 key|k0 key f| |]; try done;
        try (by rewrite Hstep).
      * destruct k0; try done; cbn in Hstep; by rewrite Hstep.
      * destruct k0; try done. destruct Ha as (Ha1 & Ha2 & _). cbn in Hstep. destruct r as [c2|e].
        -- destruct Hstep as (-> & H1 & H2). exists c2. split; [done|]. split; [congruence|]. by split; [congruence|].
        -- rewrite Hstep. by exists c'.
  - by intros ? ? [_ ?].
Qed.

Lemma finish_cluster_wp c s :
  live_cluster c → at_least c (all_stages c) s →
  wp cluster_env (finish_cluster apiReader c)
    (λ r s', r.2 = None → r.1 = requeue (10 * second) ∧ all_done c s') s.
Proof.
  intros Hl Hs. unfold finish_cluster. eapply wp_bind_2.
  { apply (wp_cluster_fp c (all_stages c) (rollout_calls c)); [done|done|apply reconcileRollout_fp|].
    intros a Ha. destruct a as [? k0 key| |k0 o|k0 o|k0 o|k0 old new|k0 key|k0 key f| |]; try done;
      try (destruct k0; try done); (split; [done|]); first [exact I | exact (reflexivity (all_stages c))]. }
  intros [c1 e1] s1 [Hsame H1]. cbn [fst] in *. apply same_cluster_spec in Hsame as [Hm Hsp].
  eapply (wp_bind_2 _ _ _ (λ e s', at_least c (all_stages c) s')).
  { unfold when_monitored. destruct (monitoringEnabled c1); [|by apply wp_ret]. eapply wp_mono.
    - apply (wp_cluster_fp c (all_stages c) (scrape_calls c1) _ (λ _, True));
      [done|done|apply reconcileScrapeObject_fp|].
      assert (scrape_key c1 = scrape_key c) as Hk by (unfold scrape_key, scrapeObjectName; by rewrite Hm).
      intros a Ha. destruct a as [? k0 key| |k0 o|k0 o|k0 o|k0 old new|k0 key|k0 key f| |]; try done;
        destruct k0; try done; cbn in Ha; subst key; (split; [done|]); cbn [call_needs]; by rewrite Hk.
    - by intros ? ? [_ ?]. }
  intros [e|] s2 H2; [by apply wp_ret|].
  eapply wp_bind_2.
  - apply (updateClusterStatus_order c c1); [done| |done|done]. destruct H2 as [Hseen Hst]. by exists c.
  - intros e s3 H3. by apply wp_ret.
Qed.
Lemma fail_cluster_wp c e s steps :
  live_cluster c → at_least c steps s →
  wp cluster_env (fail_cluster c e) (λ r _, r.2 ≠ None) s.
Proof.
  intros Hl [Hseen Hst]. unfold fail_cluster, StatusUpdate. apply wp_call.
  - exists c. split; [done|]. split; [done|]. by unfold call_needs.
  - intros. by apply wp_ret.
Qed.
Lemma reconcile_objects_wp c s :
  live_cluster c → at_least c [] s →
  wp cluster_env (reconcile_objects apiReader DefaultImage range_order c)
    (λ r s', r.2 = None → r.1 = requeue (10 * second) ∧ all_done c s') s.
Proof.
  intros Hl Hs. unfold reconcile_objects, stop_on.
  assert (∀ e s1 steps, at_least c steps s1 →
    wp cluster_env (fail_cluster c e) (λ r s', r.2 = None → r.1 = requeue (10 * second) ∧ all_done c s') s1) as Hfail.
  { intros e s1 steps H1. eapply wp_mono; [by eapply fail_cluster_wp|]. by intros. }
  eapply wp_bind_2; [by apply reconcileTLSCertificate_wp|]. intros [e|] s1 [H1 H1']; [by eapply Hfail|].
  eapply wp_bind_2; [by apply reconcileTrustBundle_order, H1'|]. intros e2 s2 H2.
  eapply wp_bind_2; [by apply reconcileMonitoringConfigMap_wp|]. intros [e|] s3 H3; [by apply wp_ret|].
  eapply wp_bind_2; [by apply reconcileStatefulSet_order, H3|]. intros [e|] s4 [H4 H4']; [by eapply Hfail|].
  eapply wp_bind_2; [by apply reconcileService_wp, H4'|]. intros [e|] s5 H5; [by apply wp_ret|].
  eapply wp_bind_2; [by apply reconcilePodDisruptionBudget_wp, H5|]. intros [e|] s6 H6; [by apply wp_ret|].
  by apply finish_cluster_wp, H6.
Qed.

(** What [Reconcile] ensures when it reports no error. *)
Definition pass_complete (r : outcome) (s : cluster_world) : Prop :=
  r.2 = None → ∀ c, cw_seen s = Some c → live_cluster c →
  r.1 = requeue (10 * second) ∧ all_stages c ⊆ cw_steps s.
Lemma all_done_complete c r s :
  (r.2 = None → r.1 = requeue (10 * second) ∧ all_done c s) → pass_complete r s.
Proof.
  intros H He c1 Hc1 _. destruct (H He) as [H1 (c' & Hseen & _ & Hsp & Hst)]. split; [done|].
  rewrite Hseen in Hc1. injection Hc1 as <-. by rewrite (same_spec_stages c c').
Qed.
Lemma ReconcileCluster_wp req :
  wp cluster_env (ReconcileCluster apiReader DefaultImage range_order req) pass_complete
    (mkClusterWorld None []).
Proof.
  unfold ReconcileCluster, Get. apply wp_call; [done|]. intros [c|e] s; cbn; intros ->; [|by apply wp_ret].
  destruct (bool_decide (is_Some _)) eqn:Hdel.
  { apply bool_decide_eq_true in Hdel. unfold handleDeletion.
    assert (∀ c1, om_DeletionTimestamp (cl_Meta c1) = om_DeletionTimestamp (cl_Meta c) → ¬ live_cluster c1) as Hnl.
    { intros c1 H1 [H2 _]. rewrite H1 in H2. rewrite H2 in Hdel. by destruct Hdel. }
    destruct (ContainsFinalizer _ _).
    - apply wp_call; [exists c; by rewrite bool_decide_true|]. intros [c1|e] s1; cbn.
      + intros (-> & _ & Hm). apply wp_ret. intros _ c2 [= <-] Hl. exfalso. eapply Hnl, Hl. by rewrite Hm.
      + intros ->. by apply wp_ret.
    - apply wp_ret. intros _ c2 [= <-] Hl. by destruct (Hnl c). }
  pose proof Hdel as Hdel'. apply bool_decide_eq_false, eq_None_not_Some in Hdel'.
  eapply (wp_bind_2 _ _ _ (λ u s', match u with Ok c' => at_least c' [] s' ∧ live_cluster c' | Err _ => True end)).
  { destruct (ContainsFinalizer _ _) eqn:Hf; [by apply wp_ret|].
    unfold Update. apply wp_call; [exists c; by rewrite Hdel|]. intros [c1|e] s1; cbn; [|intros ->; by apply wp_ret].
    intros (-> & _ & Hm). apply wp_ret. split; [by split|]. split; rewrite Hm; [done|].
    cbn. apply finalizer_contains, finalizer_add. by left. }
  intros [c1|e] s1; [|by intros _; apply wp_ret]. intros [H1 Hl1].
  eapply (wp_bind_2 _ _ _ (λ u s', match u with Ok c' => at_least c' [] s' ∧ live_cluster c' | Err _ => True end)).
  { destruct (String.eqb _ _); [|by apply wp_ret]. unfold StatusUpdate. destruct H1 as [Hseen _].
    apply wp_call; [exists c1; split; [done|]; split; [done|]; by unfold call_needs|].
    intros [c2|e] s2; cbn; [|intros ->; by apply wp_ret].
    intros (-> & _ & Hm). apply wp_ret. split; [split; [done|]; set_solver|]. by eapply same_spec_live. }
  intros [c2|e] s2; [|by intros _; apply wp_ret]. intros [H2 Hl2].
  eapply wp_mono; [by apply reconcile_objects_wp|]. intros r s3. apply all_done_complete.
Qed.
End order.

(** ** A run *)
(** A server holding one cluster whose three pods are Ready and whose ring is complete; the
    state is the cluster. *)
Definition ready_pod (name : string) : Pod :=
  mkPod (new_meta name "db") PodRunning [mkPodCondition PodReady ConditionTrue] [].
Definition cluster_sim (pods : list string) (a : api) (c : RiakCluster) : reply a * RiakCluster :=
  match a as a' return reply a' * RiakCluster with
  | AGet rd k key =>
      (match k as k return res (obj k) with
       | KCluster => Ok c
       | KPVC => Ok (mkPVC (new_meta (key_Name key) "db") ClaimBound)
       | _ => Err (Error ENotFound "not found")
       end, c)
  | AList k ns labels =>
      (match k as k return res (list (obj k)) with
       | KPod => Ok (ready_pod <$> pods)
       | KBucket => Ok [sample_bucket]
       | KUser => Ok []
       | k => refuse (AList k ns labels)
       end, c)
  | ACreate _ _ => (None, c)
  | ACreateOrUpdate _ _ _ => (None, c)
  | ADelete _ _ => (None, c)
  | AUpdate k o =>
      match k as k return obj k → res (obj k) * RiakCluster with
      | KCluster => λ c', (Ok c', c')
      | k => λ o, (refuse (AUpdate k o), c)
      end o
  | AStatusUpdate k o =>
      match k as k return obj k → res (obj k) * RiakCluster with
      | KCluster => λ c', (Ok c', c')
      | k => λ o, (refuse (AStatusUpdate k o), c)
      end o
  | ARun cmd full => ((ring_sim (λ p, "riak@" +:+ p +:+ ".db") (ARun cmd full) (mkRing sample_pods [] false)).1, c)
  | a => (refuse a, c)
  end.
Definition cluster_run (pods : list string) : outcome * RiakCluster :=
  run (cluster_sim pods) (@ReconcileCluster refLib demo_x509 false "" go_range (mkKey "db" "c")) sample_cluster.

(** ** Properties *)

(** C5: whatever the API server and Riak answer, the status that is written reports the pods
    that were listed: Ready only when as many of them are Ready as the spec asks for and, for
    more than one node, the seed listed as many valid members as there are pods, every other pod
    either listed other than one member or was itself listed by the seed (in any state), and no
    change was staged in between. It is the count that is compared: whether the valid members
    are the pods is not looked at. Client TLS is ready only when the certificate was issued as
    well; and the Ready condition agrees with the phase at the current generation. A pass that
    reports success has written it. Below the int32 range the count is exact. *)
Theorem cluster_ready_sound (L : KubeLib) (HL : KubeLibLaws L) (X : GoX509) (apiReader : bool)
    (cluster : RiakCluster) :
  wp (status_env cluster) (updateClusterStatus apiReader cluster) (λ e h, e = None → status_written h) [] ∧
  (∀ pods, (Z.of_nat (length pods) ≤ int32_max)%Z →
     ready_count pods = Z.of_nat (length (filter (λ p, podIsReady p = true) pods))).
Proof. split; [apply updateClusterStatus_wp|apply ready_count_spec]. Qed.
Lemma cluster_ready_sound_witness :
  cst_Phase (cl_Status (cluster_run sample_pods).2) = PhaseReady ∧
  cst_Phase (cl_Status (cluster_run ["c-0"; "c-1"]).2) = PhaseCreating ∧
  nm_Pod <$> cst_Members (cl_Status (cluster_run ["c-2"; "c-0"; "c-1"]).2) = sample_pods ∧
  wp (@status_env refLib sample_cluster) (@updateClusterStatus refLib demo_x509 false sample_cluster)
    (λ e h, e = None → status_written h) [].
Proof.
  split; [by vm_compute|]. split; [by vm_compute|]. split; [by vm_compute|].
  apply (cluster_ready_sound refLib refLib_laws demo_x509 false sample_cluster).
Defined.

(** C7: a reconcile touches the cluster's objects in the order they depend on one another: a
    cluster being deleted only loses its finalizer, and nothing is written for a live one
    before the finalizer is there; the StatefulSet is applied only once the certificate
    exists and the exporter is configured (when they are on), the Services after it, the
    disruption budget after them, and only then are pods restarted, nodes joined, monitors
    written or the cluster reported Ready. A pass without error has done every step and
    comes back in ten seconds. *)
Theorem cluster_reconcile_order (L : KubeLib) (HL : KubeLibLaws L) (X : GoX509) (apiReader : bool)
    (DefaultImage : string) (range_order : gmap string string → list string) (req : ObjectKey) :
  wp (cluster_env DefaultImage range_order) (ReconcileCluster apiReader DefaultImage range_order req)
    pass_complete (mkClusterWorld None []).
Proof. apply ReconcileCluster_wp. Qed.
Lemma cluster_reconcile_order_witness :
  (cluster_run sample_pods).1 = finish (requeue (10 * second)) ∧
  om_Finalizers (cl_Meta (cluster_run sample_pods).2) = [riakClusterFinalizerName] ∧
  wp (@cluster_env refLib "" go_range) (@ReconcileCluster refLib demo_x509 false "" go_range (mkKey "db" "c"))
    (@pass_complete refLib) (mkClusterWorld None []).
Proof.
  split; [by vm_compute|]. split; [by vm_compute|].
  apply (cluster_reconcile_order refLib refLib_laws demo_x509 false "" go_range (mkKey "db" "c")).
Defined.
