(* ===== verification/Metrics.v ===== *)
(** * The custom-resource metrics ([internal/controller/metrics.go])

    [Collect] as the list of gauges it sends. A gauge's value is a [Z]: every value is a
    count or an int32, which a float64 holds exactly below 2^53. Go ranges over the group
    maps in some order; [map_to_list] fixes one. *)
From S2P Require Import Prelude GoLib Effects Types Samples KubeTypes Kube.

Record metric := mkMetric { mt_Desc : string; mt_Value : Z; mt_Labels : list string }.
Definition gauge (d : string) (v : Z) (labels : list string) : metric := mkMetric d v labels.

Definition unsetPhase : string := "Pending".
Definition clusterPhases : list string := [PhaseCreating; PhaseReady; PhaseUpdating; PhaseFailed].
Definition bucketPhases : list string := [BucketPhaseCreating; BucketPhaseReady; BucketPhaseFailed].
Definition userPhases : list string := [UserPhaseCreating; UserPhaseReady; UserPhaseFailed].

Definition descClusterPhase : string := "openriak_riakcluster_phase".
Definition descClusterNodes : string := "openriak_riakcluster_nodes".
Definition descClusterMonitoringReady : string := "openriak_riakcluster_monitoring_ready".
Definition descClusterTLSReady : string := "openriak_riakcluster_tls_ready".
Definition descBuckets : string := "openriak_riakbuckets".
Definition descUsers : string := "openriak_riakusers".
Definition descUserCerts : string := "openriak_riakuser_certificates".
Definition descResources : string := "openriak_resources".

(** The descriptors with the labels [NewDesc] gives them. *)
Definition Describe : list (string * list string) :=
  [(descClusterPhase, ["namespace"; "name"; "phase"]);
   (descClusterNodes, ["namespace"; "name"; "state"]);
   (descClusterMonitoringReady, ["namespace"; "name"]);
   (descClusterTLSReady, ["namespace"; "name"]);
   (descBuckets, ["namespace"; "cluster"; "phase"]);
   (descUsers, ["namespace"; "cluster"; "phase"]);
   (descUserCerts, ["namespace"; "cluster"; "ready"]);
   (descResources, ["kind"; "phase"])].

Definition boolValue (b : bool) : Z := if b then 1 else 0.
Definition phaseOrPending (p : string) : string := if String.eqb p "" then unsetPhase else p.

(** [m[k]++] on a map of counters; [m[k]] is 0 when absent. *)
Definition counter `{Countable K} (m : gmap K Z) (k : K) : Z := default 0%Z (m !! k).
Definition incr `{Countable K} (m : gmap K Z) (k : K) : gmap K Z := <[k := (counter m k + 1)%Z]> m.

(** [groupKey]: namespace, cluster and value. *)
Abbreviation groupKey := (string * string * string)%type.
Definition emitGroups (d : string) (groups : gmap groupKey Z) : list metric :=
  (λ kn, gauge d kn.2 [kn.1.1.1; kn.1.1.2; kn.1.2]) <$> map_to_list groups.
Definition emitKindTotals (kind : string) (byPhase : gmap string Z) (known : list string) : list metric :=
  ((λ p, gauge descResources (counter byPhase p) [kind; p]) <$> known) ++
  (if (0 <? counter byPhase unsetPhase)%Z
   then [gauge descResources (counter byPhase unsetPhase) [kind; unsetPhase]] else []).

Definition cluster_gauges (cl : RiakCluster) : list metric :=
  let ns := cl_Namespace cl in
  let name := cl_Name cl in
  let st := cl_Status cl in
  ((λ p, gauge descClusterPhase (boolValue (String.eqb (cst_Phase st) p)) [ns; name; p]) <$> clusterPhases) ++
  [gauge descClusterNodes (cst_ReadyNodes st) [ns; name; "ready"];
   gauge descClusterNodes (cst_TotalNodes st) [ns; name; "total"];
   gauge descClusterMonitoringReady
     (boolValue (ms_Enabled (cst_MonitoringStatus st) && ms_ExporterReady (cst_MonitoringStatus st))) [ns; name];
   gauge descClusterTLSReady
     (boolValue (ts_Enabled (cst_TLSStatus st) && ts_ClientReady (cst_TLSStatus st))) [ns; name]].
(** One iteration of the loop: the gauges sent so far and the totals. *)
Definition collect_cluster (st : list metric * gmap string Z) (cl : RiakCluster) : list metric * gmap string Z :=
  (st.1 ++ cluster_gauges cl, incr st.2 (phaseOrPending (cst_Phase (cl_Status cl)))).
Definition collectClusters (items : list RiakCluster) : list metric :=
  let '(sent, byPhase) := foldl collect_cluster ([], ∅) items in
  sent ++ emitKindTotals "RiakCluster" byPhase clusterPhases.

Definition collect_bucket (st : gmap groupKey Z * gmap string Z) (b : RiakBucket) : gmap groupKey Z * gmap string Z :=
  let phase := phaseOrPending (bst_Phase (bk_Status b)) in
  (incr st.1 (om_Namespace (bk_Meta b), bs_ClusterName (bk_Spec b), phase), incr st.2 phase).
Definition collectBuckets (items : list RiakBucket) : list metric :=
  let '(groups, byPhase) := foldl collect_bucket (∅, ∅) items in
  emitGroups descBuckets groups ++ emitKindTotals "RiakBucket" byPhase bucketPhases.

Definition collect_user (st : gmap groupKey Z * gmap groupKey Z * gmap string Z) (u : RiakUser)
    : gmap groupKey Z * gmap groupKey Z * gmap string Z :=
  let '(groups, certs, byPhase) := st in
  let phase := phaseOrPending (ust_Phase (us_Status u)) in
  let ready := if ust_CertificateReady (us_Status u) then "true" else "false" in
  let ns := om_Namespace (us_Meta u) in
  let cluster := us_ClusterName (us_Spec u) in
  (incr groups (ns, cluster, phase), incr certs (ns, cluster, ready), incr byPhase phase).
Definition collectUsers (items : list RiakUser) : list metric :=
  let '(groups, certs, byPhase) := foldl collect_user (∅, ∅, ∅) items in
  emitGroups descUsers groups ++ emitGroups descUserCerts certs ++
  emitKindTotals "RiakUser" byPhase userPhases.

(** A list of every namespace; a failed one skips its kind. *)
Definition collect_kind (k : kind) (collect : list (obj k) → list metric) : M (list metric) :=
  r ← List_ k "" ∅;
  mret match r with Ok items => collect items | Err _ => [] end.
Definition Collect : M (list metric) :=
  cs ← collect_kind KCluster collectClusters;
  bs ← collect_kind KBucket collectBuckets;
  us ← collect_kind KUser collectUsers;
  mret (cs ++ bs ++ us).

(** ** Counters *)
Section counters.
Context `{Countable K}.
Definition tally (ks : list K) : gmap K Z := foldl incr ∅ ks.
Definition occurrences (k : K) (ks : list K) : nat := length (filter (λ k', k' = k) ks).
Lemma tally_counter ks k : counter (tally ks) k = Z.of_nat (occurrences k ks).
Proof.
  unfold tally, occurrences. induction ks as [|x ks IH] using rev_ind.
  { unfold counter. cbn [foldl]. by rewrite lookup_empty. }
  rewrite foldl_snoc, filter_app, length_app, filter_cons, filter_nil. unfold incr at 1, counter at 1.
  destruct (decide (x = k)) as [->|Hne].
  - rewrite lookup_insert, IH by done. rewrite ?decide_True by done. cbn. lia.
  - rewrite lookup_insert_ne by done. fold (counter (foldl incr ∅ ks) k). rewrite IH. cbn. lia.
Qed.
Lemma tally_dom ks k : is_Some (tally ks !! k) ↔ k ∈ ks.
Proof.
  unfold tally. induction ks as [|x ks IH] using rev_ind.
  { cbn [foldl]. rewrite lookup_empty. split; [by intros []|by intros ?%elem_of_nil]. }
  rewrite foldl_snoc, elem_of_app, list_elem_of_singleton. unfold incr.
  destruct (decide (x = k)) as [->|Hne].
  - rewrite lookup_insert by done. rewrite ?decide_True by done. split; [tauto|by eexists].
  - rewrite lookup_insert_ne by done. rewrite IH. naive_solver.
Qed.
Lemma tally_lookup ks k : tally ks !! k = if decide (k ∈ ks) then Some (Z.of_nat (occurrences k ks)) else None.
Proof.
  pose proof (tally_counter ks k) as Hc. unfold counter in Hc.
  case_decide as Hin; destruct (tally ks !! k) as [n|] eqn:Hk; cbn in *; try done.
  - by rewrite Hc.
  - exfalso. apply tally_dom in Hin. rewrite Hk in Hin. by destruct Hin.
  - exfalso. apply Hin, tally_dom. by exists n.
Qed.
End counters.

(** ** What is sent *)
Definition cluster_phase (c : RiakCluster) : string := phaseOrPending (cst_Phase (cl_Status c)).
Definition bucket_phase (b : RiakBucket) : string := phaseOrPending (bst_Phase (bk_Status b)).
Definition user_phase (u : RiakUser) : string := phaseOrPending (ust_Phase (us_Status u)).
Definition bucket_group (b : RiakBucket) : groupKey :=
  (om_Namespace (bk_Meta b), bs_ClusterName (bk_Spec b), bucket_phase b).
Definition user_group (u : RiakUser) : groupKey :=
  (om_Namespace (us_Meta u), us_ClusterName (us_Spec u), user_phase u).
Definition cert_group (u : RiakUser) : groupKey :=
  (om_Namespace (us_Meta u), us_ClusterName (us_Spec u),
   if ust_CertificateReady (us_Status u) then "true" else "false").

Lemma collectClusters_eq items :
  collectClusters items =
  (items ≫= cluster_gauges) ++ emitKindTotals "RiakCluster" (tally (cluster_phase <$> items)) clusterPhases.
Proof.
  unfold collectClusters. assert (foldl collect_cluster ([], ∅) items =
    (items ≫= cluster_gauges, tally (cluster_phase <$> items))) as ->; [|done].
  induction items as [|c items IH] using rev_ind; [done|].
  rewrite foldl_snoc, IH, bind_app, fmap_app. unfold tally. rewrite foldl_app.
  cbn [mbind list_bind]. by rewrite app_nil_r.
Qed.
Lemma collectBuckets_eq items :
  collectBuckets items =
  emitGroups descBuckets (tally (bucket_group <$> items)) ++
  emitKindTotals "RiakBucket" (tally (bucket_phase <$> items)) bucketPhases.
Proof.
  unfold collectBuckets. assert (foldl collect_bucket (∅, ∅) items =
    (tally (bucket_group <$> items), tally (bucket_phase <$> items))) as ->; [|done].
  induction items as [|c items IH] using rev_ind; [done|].
  rewrite foldl_snoc, IH, !fmap_app. unfold tally. by rewrite !foldl_app.
Qed.
Lemma collectUsers_eq items :
  collectUsers items =
  emitGroups descUsers (tally (user_group <$> items)) ++
  emitGroups descUserCerts (tally (cert_group <$> items)) ++
  emitKindTotals "RiakUser" (tally (user_phase <$> items)) userPhases.
Proof.
  unfold collectUsers. assert (foldl collect_user (∅, ∅, ∅) items =
    (tally (user_group <$> items), tally (cert_group <$> items), tally (user_phase <$> items))) as ->; [|done].
  induction items as [|c items IH] using rev_ind; [done|].
  rewrite foldl_snoc, IH, !fmap_app. unfold tally. by rewrite !foldl_app.
Qed.

(** The gauges of a list that describe [d]. *)
Definition count {K} `{EqDecision K} (k : K) (ks : list K) : Z := Z.of_nat (length (filter (λ k', k' = k) ks)).
Definition totals_exact (kind : string) (known phases : list string) (ms : list metric) : Prop :=
  ∀ p n, gauge descResources n [kind; p] ∈ ms ↔
         n = count p phases ∧ (p ∈ known ∨ (p = unsetPhase ∧ (0 < n)%Z)).
Definition groups_exact (d : string) (keys : list groupKey) (ms : list metric) : Prop :=
  ∀ ns c v n, gauge d n [ns; c; v] ∈ ms ↔ n = count (ns, c, v) keys ∧ (ns, c, v) ∈ keys.

Lemma emitKindTotals_spec kind phases known d n labels :
  gauge d n labels ∈ emitKindTotals kind (tally phases) known ↔
  d = descResources ∧ ∃ p, labels = [kind; p] ∧ n = count p phases ∧
    (p ∈ known ∨ (p = unsetPhase ∧ (0 < n)%Z)).
Proof.
  assert (∀ p, counter (tally phases) p = count p phases) as Hc by (intros; apply tally_counter).
  unfold emitKindTotals. rewrite elem_of_app, list_elem_of_fmap, !Hc. unfold gauge. split.
  - intros [(p & [= -> -> ->] & Hp)|Hin].
    + split; [done|]. exists p. split; [done|]. split; [apply Hc|by left].
    + destruct (Z.ltb_spec 0 (count unsetPhase phases)); [|by apply elem_of_nil in Hin].
      apply list_elem_of_singleton in Hin as [= -> -> ->]. split; [done|]. exists unsetPhase.
      split; [done|]. split; [done|]. by right.
  - intros (-> & p & -> & -> & [Hp|[-> Hn]]); [left; exists p; by rewrite Hc|right].
    rewrite (proj2 (Z.ltb_lt _ _)) by done. by apply list_elem_of_singleton.
Qed.
Lemma emitGroups_spec d keys d' n labels :
  gauge d' n labels ∈ emitGroups d (tally keys) ↔
  d' = d ∧ ∃ k, labels = [k.1.1; k.1.2; k.2] ∧ n = count k keys ∧ k ∈ keys.
Proof.
  unfold emitGroups. rewrite list_elem_of_fmap. unfold gauge. split.
  - intros ([k m] & [= -> -> ->] & Hin). apply elem_of_map_to_list in Hin. rewrite tally_lookup in Hin.
    case_decide; [|done]. injection Hin as <-. split; [done|]. by exists k.
  - intros (-> & k & -> & -> & Hk). exists (k, count k keys). split; [done|].
    apply elem_of_map_to_list. rewrite tally_lookup. by rewrite decide_True.
Qed.
Lemma cluster_gauges_desc c m :
  m ∈ cluster_gauges c → mt_Desc m ∈ [descClusterPhase; descClusterNodes; descClusterMonitoringReady; descClusterTLSReady].
Proof.
  unfold cluster_gauges. cbn [fmap list_fmap clusterPhases app]. rewrite !elem_of_cons, elem_of_nil.
  intros Hm. destruct_or? Hm; try done; subst m; set_solver.
Qed.
Lemma not_cluster_gauge d n labels items :
  d ∉ [descClusterPhase; descClusterNodes; descClusterMonitoringReady; descClusterTLSReady] →
  gauge d n labels ∉ (items ≫= cluster_gauges : list metric).
Proof. intros Hd (c & Hc & _)%list_elem_of_bind. by apply cluster_gauges_desc in Hc. Qed.

Lemma totals_intro kind known phases (pre : list metric) :
  (∀ n labels, gauge descResources n labels ∉ pre) →
  totals_exact kind known phases (pre ++ emitKindTotals kind (tally phases) known).
Proof.
  intros Hpre p n. rewrite elem_of_app, emitKindTotals_spec. split.
  - intros [Hin|(_ & p' & [= <-] & Hn)]; [by destruct (Hpre _ _ Hin)|done].
  - intros Hn. right. split; [done|]. by exists p.
Qed.
Lemma groups_intro d keys (pre post : list metric) :
  (∀ n labels, gauge d n labels ∉ pre) → (∀ n labels, gauge d n labels ∉ post) →
  groups_exact d keys (pre ++ emitGroups d (tally keys) ++ post).
Proof.
  intros Hpre Hpost ns c v n. rewrite !elem_of_app, emitGroups_spec. split.
  - intros [Hin|[(_ & [[ns' c'] v'] & [= <- <- <-] & Hk)|Hin]];
      [by destruct (Hpre _ _ Hin)|done|by destruct (Hpost _ _ Hin)].
  - intros Hk. right. left. split; [done|]. by exists (ns, c, v).
Qed.
Lemma emitGroups_desc d d' keys n labels : d ≠ d' → gauge d n labels ∉ emitGroups d' (tally keys).
Proof. by intros Hne [? _]%emitGroups_spec. Qed.
Lemma totals_desc d kind phases known n labels :
  d ≠ descResources → gauge d n labels ∉ emitKindTotals kind (tally phases) known.
Proof. by intros Hne [? _]%emitKindTotals_spec. Qed.

(** *** Series are distinct *)
Definition series (m : metric) : string * list string := (mt_Desc m, mt_Labels m).
Lemma emitGroups_series d keys : NoDup (series <$> emitGroups d (tally keys)).
Proof.
  unfold emitGroups. rewrite <-list_fmap_compose.
  apply (NoDup_fmap_1 (λ s, s.2)). rewrite <-list_fmap_compose.
  pose proof (NoDup_fst_map_to_list (tally keys)) as Hnd.
  apply (NoDup_fmap_2_strong (λ k : groupKey, [k.1.1; k.1.2; k.2])) in Hnd; [by rewrite <-list_fmap_compose in Hnd|].
  intros [[a b] c] [[a' b'] c'] _ _. by intros [= -> -> ->].
Qed.
Lemma emitKindTotals_series kind byPhase known :
  NoDup known → unsetPhase ∉ known → NoDup (series <$> emitKindTotals kind byPhase known).
Proof.
  intros Hnd Hun. unfold emitKindTotals. rewrite fmap_app, <-list_fmap_compose.
  apply (NoDup_fmap_2_strong (λ p, (descResources, [kind; p]))) in Hnd; [|by intros ???? [= ->]].
  apply NoDup_app. split; [exact Hnd|]. split.
  - intros s (p & -> & Hp)%list_elem_of_fmap Hin. destruct (0 <? _)%Z; [|by apply elem_of_nil in Hin].
    apply list_elem_of_singleton in Hin. injection Hin as ->. done.
  - destruct (0 <? _)%Z; [apply NoDup_singleton|constructor].
Qed.
Definition object_id (c : RiakCluster) : string * string := (cl_Namespace c, cl_Name c).
Lemma cluster_series c s : s ∈ series <$> cluster_gauges c →
  s.2 !! 0 = Some (cl_Namespace c) ∧ s.2 !! 1 = Some (cl_Name c).
Proof.
  unfold cluster_gauges. cbn [fmap list_fmap clusterPhases app]. rewrite !elem_of_cons, elem_of_nil.
  intros Hs. destruct_or? Hs; try done; by subst s.
Qed.
Lemma clusters_series items :
  NoDup (object_id <$> items) → NoDup (series <$> (items ≫= cluster_gauges)).
Proof.
  induction items as [|c items IH]; [constructor|]. rewrite fmap_cons, NoDup_cons. intros [Hnin Hnd].
  cbn [mbind list_bind]. rewrite fmap_app. apply NoDup_app. split; [|split; [|by apply IH]].
  - unfold cluster_gauges. cbn. repeat (constructor; [set_solver|]). constructor.
  - intros s Hs (m & -> & (c' & Hm & Hc')%list_elem_of_bind)%list_elem_of_fmap. apply Hnin.
    apply cluster_series in Hs as [H1 H2].
    destruct (cluster_series c' (series m)) as [H3 H4]; [by apply list_elem_of_fmap_2|].
    apply list_elem_of_fmap. exists c'. split; [|done]. unfold object_id. congruence.
Qed.
Lemma group_totals_disjoint d keys kind phases known (s : string * list string) :
  d ≠ descResources → s ∈ series <$> emitGroups d (tally keys) →
  s ∉ series <$> emitKindTotals kind (tally phases) known.
Proof.
  intros Hd ([d1 n1 l1] & -> & [H1 _]%emitGroups_spec)%list_elem_of_fmap
    ([d2 n2 l2] & Heq & [H2 _]%emitKindTotals_spec)%list_elem_of_fmap.
  injection Heq as Hd' _. congruence.
Qed.
Lemma kind_totals_labels kind byPhase known (s : string * list string) :
  s ∈ series <$> emitKindTotals kind byPhase known → s.1 = descResources ∧ head s.2 = Some kind.
Proof.
  intros (m & -> & Hm)%list_elem_of_fmap. unfold emitKindTotals in Hm. apply elem_of_app in Hm as [Hm|Hm].
  - by apply list_elem_of_fmap in Hm as (p & -> & _).
  - destruct (0 <? _)%Z; [|by apply elem_of_nil in Hm]. by apply list_elem_of_singleton in Hm as ->.
Qed.
(** Which series a kind may send: its own gauges, and totals labelled with the kind. *)
Definition series_of (kind : string) (descs : list string) (s : string * list string) : Prop :=
  s.1 ∈ descs ∨ (s.1 = descResources ∧ head s.2 = Some kind).
Lemma clusters_sent items :
  NoDup (object_id <$> items) →
  NoDup (series <$> collectClusters items) ∧
  ∀ s, s ∈ series <$> collectClusters items →
    series_of "RiakCluster" [descClusterPhase; descClusterNodes; descClusterMonitoringReady; descClusterTLSReady] s.
Proof.
  intros Hnd. rewrite collectClusters_eq, fmap_app.
  assert (∀ s, s ∈ series <$> (items ≫= cluster_gauges) →
    s.1 ∈ [descClusterPhase; descClusterNodes; descClusterMonitoringReady; descClusterTLSReady]) as Hown.
  { intros s (m & -> & (c & Hm & _)%list_elem_of_bind)%list_elem_of_fmap. by eapply cluster_gauges_desc. }
  split.
  - apply NoDup_app. split; [by apply clusters_series|]. split.
    + intros s H1%Hown [H2 _]%kind_totals_labels. rewrite H2 in H1. set_solver.
    + apply emitKindTotals_series; apply (bool_decide_unpack _); by vm_compute.
  - intros s [Hs|Hs]%elem_of_app; [left; by apply Hown|right; by eapply kind_totals_labels].
Qed.
Lemma groups_own d keys (s : string * list string) : s ∈ series <$> emitGroups d (tally keys) → s.1 = d.
Proof. by intros ([] & -> & [? _]%emitGroups_spec)%list_elem_of_fmap. Qed.
Lemma buckets_sent items :
  NoDup (series <$> collectBuckets items) ∧
  ∀ s, s ∈ series <$> collectBuckets items → series_of "RiakBucket" [descBuckets] s.
Proof.
  rewrite collectBuckets_eq, fmap_app. split.
  - apply NoDup_app. split; [apply emitGroups_series|]. split; [intros s; by apply group_totals_disjoint|].
    apply emitKindTotals_series; apply (bool_decide_unpack _); by vm_compute.
  - intros s [Hs|Hs]%elem_of_app; [left; apply groups_own in Hs as ->; by left|right; by eapply kind_totals_labels].
Qed.
Lemma users_sent items :
  NoDup (series <$> collectUsers items) ∧
  ∀ s, s ∈ series <$> collectUsers items → series_of "RiakUser" [descUsers; descUserCerts] s.
Proof.
  rewrite collectUsers_eq, !fmap_app. split.
  - apply NoDup_app. split; [apply emitGroups_series|]. split; [|apply NoDup_app; split; [apply emitGroups_series|split]].
    + intros s Hs [Hs2|Hs2]%elem_of_app.
      * apply groups_own in Hs, Hs2. by rewrite Hs in Hs2.
      * revert Hs2. by apply (group_totals_disjoint descUsers (user_group <$> items)).
    + intros s. by apply group_totals_disjoint.
    + apply emitKindTotals_series; apply (bool_decide_unpack _); by vm_compute.
  - intros s [Hs|[Hs|Hs]%elem_of_app]%elem_of_app; [left..|right; by eapply kind_totals_labels];
      apply groups_own in Hs as ->; set_solver.
Qed.
Lemma series_of_disjoint k1 k2 ds1 ds2 (s : string * list string) :
  k1 ≠ k2 → (∀ d, d ∈ ds1 → d ∉ ds2) → descResources ∉ ds1 ++ ds2 →
  series_of k1 ds1 s → series_of k2 ds2 s → False.
Proof.
  intros Hk Hd Hr [H1|[H1 H1']] [H2|[H2 H2']]; [by eapply Hd|..]; try (rewrite ?H1, ?H2 in *; set_solver).
Qed.

(** ** Descriptors *)
(** A gauge of a registered descriptor with a value for each of its labels: [MustNewConstMetric]
    panics and the registry rejects the scrape otherwise. *)
Definition described (m : metric) : Prop :=
  ∃ labels, (mt_Desc m, labels) ∈ Describe ∧ length (mt_Labels m) = length labels.
Lemma described_intro m : existsb (λ d, String.eqb d.1 (mt_Desc m) &&
  (length (mt_Labels m) =? length d.2)%nat) Describe = true → described m.
Proof.
  intros ([d labels] & Hin & [Hd%String.eqb_eq Hl%Nat.eqb_eq]%andb_true_iff)%existsb_elem_of. cbn in *. subst d.
  by exists labels.
Qed.
Lemma cluster_gauges_described c : Forall described (cluster_gauges c).
Proof. repeat (apply Forall_cons; split; [by apply described_intro|]). by apply Forall_nil. Qed.
Lemma emitGroups_described d groups :
  d ∈ [descBuckets; descUsers; descUserCerts] → Forall described (emitGroups d groups).
Proof.
  intros Hd. apply Forall_fmap, Forall_forall. intros kn _. apply described_intro. set_unfold in Hd.
  by destruct Hd as [->|[->|[->|[]]]].
Qed.
Lemma emitKindTotals_described kind byPhase known : Forall described (emitKindTotals kind byPhase known).
Proof.
  apply Forall_app. split.
  - apply Forall_fmap, Forall_forall. intros p _. by apply described_intro.
  - destruct (_ <? _)%Z; [|by apply Forall_nil]. apply Forall_singleton. by apply described_intro.
Qed.
Lemma collect_described clusters buckets users :
  Forall described (collectClusters clusters ++ collectBuckets buckets ++ collectUsers users).
Proof.
  rewrite collectClusters_eq, collectBuckets_eq, collectUsers_eq.
  repeat first [ apply emitKindTotals_described
               | apply emitGroups_described; rewrite !elem_of_cons; auto; done
               | apply Forall_app; split ].
  apply Forall_bind, Forall_forall. intros c _. apply cluster_gauges_described.
Qed.

(** ** Properties *)

(** Gauges of a kind whose list succeeded. *)
Definition on_ok {A} (collect : list A → list metric) (r : res (list A)) : list metric :=
  match r with Ok items => collect items | Err _ => [] end.

(** C38: a scrape lists each kind once, across all namespaces, skips exactly the kinds whose
    list failed, and counts exactly: for every kind the total sent for a phase is the number
    of objects in it, every known phase is sent even at zero and the unset one when some
    object has it; each group of buckets, users and certificates present in the list is
    sent with its size, and no other. *)
Theorem metrics_exact :
  wp (trace_env (λ _ a, ∃ k, a = AList k "" ∅)) Collect
    (λ ms h, ∃ rc rb ru,
       h = [existT (AList KUser "" ∅) ru; existT (AList KBucket "" ∅) rb; existT (AList KCluster "" ∅) rc] ∧
       ms = on_ok collectClusters rc ++ on_ok collectBuckets rb ++ on_ok collectUsers ru) [] ∧
  ∀ clusters buckets users,
    totals_exact "RiakCluster" clusterPhases (cluster_phase <$> clusters) (collectClusters clusters) ∧
    totals_exact "RiakBucket" bucketPhases (bucket_phase <$> buckets) (collectBuckets buckets) ∧
    totals_exact "RiakUser" userPhases (user_phase <$> users) (collectUsers users) ∧
    groups_exact descBuckets (bucket_group <$> buckets) (collectBuckets buckets) ∧
    groups_exact descUsers (user_group <$> users) (collectUsers users) ∧
    groups_exact descUserCerts (cert_group <$> users) (collectUsers users).
Proof.
  split.
  - unfold Collect, collect_kind, List_. apply wp_bind, wp_trace; [by eexists|]. intros rc. apply wp_ret.
    apply wp_bind, wp_trace; [by eexists|]. intros rb. apply wp_ret.
    apply wp_bind, wp_trace; [by eexists|]. intros ru. do 2 apply wp_ret. by exists rc, rb, ru.
  - intros. rewrite collectClusters_eq, collectBuckets_eq, collectUsers_eq. split_and!.
    + apply totals_intro. intros. apply not_cluster_gauge. apply (bool_decide_unpack _). by vm_compute.
    + apply totals_intro. intros. by apply emitGroups_desc.
    + rewrite app_assoc. apply totals_intro. intros n labels. rewrite elem_of_app.
      intros [H|H]; by eapply emitGroups_desc in H.
    + apply (groups_intro _ _ []); [intros ?? []%elem_of_nil|intros; by apply totals_desc].
    + apply (groups_intro _ _ []); [intros ?? []%elem_of_nil|]. intros n labels. rewrite elem_of_app.
      intros [H|H]; [by eapply emitGroups_desc in H|by eapply totals_desc in H].
    + apply groups_intro; [intros; by apply emitGroups_desc|intros; by apply totals_desc].
Qed.

(** C39: Prometheus accepts what a scrape sends: no two gauges have one name and the same labels
    (the clusters of a list have distinct names per namespace), and each is of a descriptor
    that [Describe] registered, with a value for each of its labels. *)
Theorem metrics_distinct (clusters : list RiakCluster) (buckets : list RiakBucket) (users : list RiakUser) :
  NoDup (object_id <$> clusters) →
  NoDup (series <$> (collectClusters clusters ++ collectBuckets buckets ++ collectUsers users)) ∧
  Forall described (collectClusters clusters ++ collectBuckets buckets ++ collectUsers users).
Proof.
  intros Hnd. split; [|apply collect_described]. destruct (clusters_sent clusters Hnd) as [Hc1 Hc2].
  destruct (buckets_sent buckets) as [Hb1 Hb2], (users_sent users) as [Hu1 Hu2].
  rewrite !fmap_app. apply NoDup_app. split; [done|]. split; [|apply NoDup_app; split; [done|split; [|done]]].
  - intros s Hs%Hc2 [Hs2%Hb2|Hs2%Hu2]%elem_of_app; (eapply series_of_disjoint; [| | |exact Hs|exact Hs2]); set_solver.
  - intros s Hs%Hb2 Hs2%Hu2. (eapply series_of_disjoint; [| | |exact Hs|exact Hs2]); set_solver.
Qed.
Lemma metrics_distinct_witness :
  length (collectClusters [sample_cluster; tls_cluster]) = 21 ∧
  NoDup (series <$> (collectClusters [sample_cluster] ++ collectBuckets [sample_bucket; sample_bucket] ++
                     collectUsers [sample_user])) ∧
  Forall described (collectClusters [sample_cluster] ++ collectBuckets [sample_bucket; sample_bucket] ++
                    collectUsers [sample_user]).
Proof. split; [by vm_compute|]. apply metrics_distinct. apply NoDup_singleton. Defined.
