(* ===== verification/Conflicts.v ===== *)
(** * Concurrent reconciles of one cluster

    The cluster and user controllers run at the same time and both write the status of a
    RiakCluster: the first all of it, from the object it read, the second the flag
    [status.securityEnabled]. The API server accepts a write only of the version it was
    read at. [system] interleaves any number of reconciles, which may read stale
    versions from the cache and may lose the reply to a write, with spec edits by users. *)
From S2P Require Import Prelude GoLib Effects Types Samples KubeTypes Kube KubeLib Footprint Status Executor Manager Tls Trust TrustFacts Monitoring Rollout BucketController UserController StatefulSet StatefulSetFacts ClusterController Footprints ClusterFacts BucketTypes.

Definition secured (c : RiakCluster) : bool := cst_SecurityEnabled (cl_Status c).

(** ** One reconcile *)
(** A status write keeps the flag of the object last read. *)
Definition keeps_flag (c o : RiakCluster) : Prop := secured c = true → secured o = true.
Definition flag_ok (seen : option RiakCluster) (a : api) : Prop :=
  match a with
  | AStatusUpdate k o => match k return obj k → Prop with
                         | KCluster => λ o, ∃ c, seen = Some c ∧ keeps_flag c o
                         | _ => λ _, True
                         end o
  | _ => True
  end.
Definition flag_step (seen : option RiakCluster) (a : api) : reply a → option RiakCluster → Prop :=
  match a as a' return reply a' → option RiakCluster → Prop with
  | AGet _ k _ => match k return res (obj k) → option RiakCluster → Prop with
                  | KCluster => λ r s', s' = match r with Ok c => Some c | Err _ => seen end
                  | _ => λ _ s', s' = seen
                  end
  | AUpdate k _ => match k return res (obj k) → option RiakCluster → Prop with
                   | KCluster => λ r s', s' = match r with Ok c => Some c | Err _ => seen end
                   | _ => λ _ s', s' = seen
                   end
  | AStatusUpdate k o =>
      match k return obj k → res (obj k) → option RiakCluster → Prop with
      | KCluster => λ o r s', match r with
                              | Ok c => s' = Some c ∧ secured c = secured o
                              | Err _ => s' = seen
                              end
      | _ => λ _ _ s', s' = seen
      end o
  | _ => λ _ s', s' = seen
  end.
Definition flag_env : Env reply (option RiakCluster) := {| allowed := flag_ok; step := flag_step |}.

(** Calls that neither read nor write a RiakCluster. *)
Definition quiet (a : api) : Prop :=
  match a with
  | AGet _ k _ => match k with KCluster => False | _ => True end
  | AUpdate k _ => match k with KCluster => False | _ => True end
  | AStatusUpdate k _ => match k with KCluster => False | _ => True end
  | _ => True
  end.
Lemma wp_quiet {A} (p : M A) Q s : footprint quiet p Q → wp flag_env p (λ a s', Q a ∧ s' = s) s.
Proof.
  intros Hp. apply (wp_footprint _ quiet); [done| | |done].
  - intros s1 a _ Ha. by destruct a as [| |k0 o|k0 o|k0 o|k0 old new| | | |]; try destruct k0.
  - intros s1 a r s2 -> Ha Hst.
    destruct a as [? k0 key| |k0 o|k0 o|k0 o|k0 old new|k0 key|k0 key f| |]; try done; by destruct k0.
Qed.
Lemma side_reads_quiet a : side_reads a → quiet a.
Proof. by destruct a as [? [] ?| | | | | | | | |]. Qed.
Lemma runs_quiet a : runs a → quiet a.
Proof. by destruct a. Qed.
Lemma rollout_quiet c a : rollout_calls c a → quiet a.
Proof. by destruct a as [? [] ?| | | | | | | | |]. Qed.

(** *** The pieces of the cluster controller *)
Section cluster.
Context `{L : KubeLib} `{X : GoX509}.
Context (apiReader : bool) (DefaultImage : string) (range_order : gmap string string → list string).

Lemma reconcileTLSCertificate_quiet c : footprint quiet (reconcileTLSCertificate c) (λ _, True).
Proof. unfold reconcileTLSCertificate. fp. Qed.
Lemma trust_quiet a : trust_calls a → quiet a.
Proof. by destruct a as [? [] ?| | |[]| | | | | |]. Qed.
Lemma reconcileTrustBundle_quiet c : footprint quiet (reconcileTrustBundle apiReader c) (λ _, True).
Proof. eapply fp_weaken, reconcileTrustBundle_fp. apply trust_quiet. Qed.
Lemma reconcileMonitoringConfigMap_quiet c : footprint quiet (reconcileMonitoringConfigMap c) (λ _, True).
Proof. unfold reconcileMonitoringConfigMap. fp. Qed.
Lemma reconcileStatefulSet_quiet c : footprint quiet (reconcileStatefulSet DefaultImage range_order c) (λ _, True).
Proof. unfold reconcileStatefulSet. fp. Qed.
Lemma reconcileService_quiet c : footprint quiet (reconcileService c) (λ _, True).
Proof. unfold reconcileService. fp. Qed.
Lemma reconcilePodDisruptionBudget_quiet c : footprint quiet (reconcilePodDisruptionBudget c) (λ _, True).
Proof. unfold reconcilePodDisruptionBudget. fp. Qed.
Lemma reconcileScrapeObject_quiet c : footprint quiet (reconcileScrapeObject c) (λ _, True).
Proof. eapply fp_weaken, reconcileScrapeObject_fp. by intros []. Qed.
Lemma when_monitored_quiet c p : footprint quiet p (λ _, True) → footprint quiet (when_monitored c p) (λ _, True).
Proof. unfold when_monitored. destruct (monitoringEnabled c); [done|]. intros _. by apply fp_ret. Qed.

(** *** The cluster controller *)
Definition any_end {A} : A → option RiakCluster → Prop := λ _ _, True.
Lemma wp_quiet_bind {A B} (p : M A) (k : A → M B) Q1 Q s :
  footprint quiet p Q1 → (∀ a, Q1 a → wp flag_env (k a) Q s) → wp flag_env (p ≫= k) Q s.
Proof. intros Hp Hk. eapply wp_bind_2; [by apply wp_quiet|]. intros a s' [Ha ->]. by apply Hk. Qed.
Lemma stop_on_flag p next s :
  footprint quiet p (λ _, True) → wp flag_env next any_end s → wp flag_env (stop_on p next) any_end s.
Proof.
  intros Hp Hn. unfold stop_on. eapply wp_quiet_bind; [exact Hp|]. intros [e|] _; [by apply wp_ret|done].
Qed.
Lemma updateClusterStatus_flag c c1 :
  secured c1 = secured c → wp flag_env (updateClusterStatus apiReader c1) any_end (Some c).
Proof.
  intros Hc. eapply wp_mono.
  - apply (wp_footprint flag_env (status_calls c1) (λ s, ∃ c', s = Some c' ∧ secured c' = secured c) _ _ _
             (updateClusterStatus_fp apiReader c1)); [| |by exists c].
    + intros s1 a (c' & -> & Hc') Ha. destruct a as [| |k0 o|k0 o|k0 o|k0 old new| | | |]; try done.
      destruct k0; try done. destruct Ha as (_ & _ & Ha). exists c'. split; [done|].
      unfold keeps_flag, secured in *. congruence.
    + intros s1 a r s2 (c' & -> & Hc') Ha Hst.
      destruct a as [? k0 key| |k0 o|k0 o|k0 o|k0 old new|k0 key|k0 key f| |]; try done;
        try (rewrite Hst; by exists c'); destruct k0; try done; try (rewrite Hst; by exists c').
      destruct Ha as (_ & _ & Ha). cbn in Hst. destruct r as [c2|e].
      * destruct Hst as [-> Hs]. exists c2. split; [done|]. unfold secured in *. congruence.
      * rewrite Hst. by exists c'.
  - done.
Qed.
Lemma fail_cluster_flag c e : wp flag_env (fail_cluster c e) any_end (Some c).
Proof.
  unfold fail_cluster, StatusUpdate. apply wp_call; [exists c; by split; [|intros ?]|]. intros. by apply wp_ret.
Qed.
Lemma reconcile_objects_flag c :
  wp flag_env (reconcile_objects apiReader DefaultImage range_order c) any_end (Some c).
Proof.
  unfold reconcile_objects.
  eapply wp_quiet_bind; [apply reconcileTLSCertificate_quiet|]. intros [e|] _; [apply fail_cluster_flag|].
  eapply wp_quiet_bind; [apply reconcileTrustBundle_quiet|]. intros ? _.
  apply stop_on_flag; [apply when_monitored_quiet, reconcileMonitoringConfigMap_quiet|].
  eapply wp_quiet_bind; [apply reconcileStatefulSet_quiet|]. intros [e|] _; [apply fail_cluster_flag|].
  apply stop_on_flag; [apply reconcileService_quiet|].
  apply stop_on_flag; [apply reconcilePodDisruptionBudget_quiet|].
  unfold finish_cluster. eapply wp_quiet_bind.
  { eapply fp_weaken; [apply rollout_quiet|apply reconcileRollout_fp]. }
  intros [c1 e1] Hsame. cbn [fst] in *.
  apply stop_on_flag; [apply when_monitored_quiet, reconcileScrapeObject_quiet|].
  eapply wp_bind_2; [apply updateClusterStatus_flag|intros; by apply wp_ret].
  rewrite <-Hsame. by destruct c1 as [? ? []].
Qed.
Lemma ReconcileCluster_flag req :
  wp flag_env (ReconcileCluster apiReader DefaultImage range_order req) any_end None.
Proof.
  unfold ReconcileCluster, Get. apply wp_call; [done|]. intros [c|e] s; cbn; intros ->; [|by apply wp_ret].
  destruct (bool_decide _).
  { unfold handleDeletion. destruct (ContainsFinalizer _ _); [|by apply wp_ret].
    apply wp_call; [done|]. intros. by apply wp_ret. }
  set (Q1 := λ (u : res RiakCluster) s, match u with Ok c' => s = Some c' | Err _ => True end).
  apply wp_bind_2 with (Q1 := Q1).
  { destruct (ContainsFinalizer _ _); [by apply wp_ret|].
    unfold Update. apply wp_call; [done|]. intros [c1|e] s1; cbn; intros ->; by apply wp_ret. }
  intros [c1|e] s1; cbn; [intros ->|by intros _; apply wp_ret].
  apply wp_bind_2 with (Q1 := Q1).
  { destruct (String.eqb _ _); [|by apply wp_ret].
    unfold StatusUpdate. apply wp_call; [exists c1; by split; [|intros ?]|]. intros [c2|e] s2; cbn.
    - intros [-> _]. by apply wp_ret.
    - intros ->. by apply wp_ret. }
  intros [c2|e] s2; cbn; [intros ->|by intros _; apply wp_ret]. apply reconcile_objects_flag.
Qed.
End cluster.

(** *** The user controller *)
Section user.
Context `{L : KubeLib} `{X : GoX509}.
Context (apiReader : bool).

Lemma failUser_quiet u reason msg : footprint quiet (failUser u reason msg) (λ _, True).
Proof. unfold failUser. fp. Qed.
Lemma fail_and_requeue_quiet u reason msg d : footprint quiet (fail_and_requeue u reason msg d) (λ _, True).
Proof. unfold fail_and_requeue. eapply fp_bind; [apply failUser_quiet|]. intros. by apply fp_ret. Qed.
Lemma markUserReady_quiet_calls u c ready why : footprint quiet (markUserReady u c ready why) (λ _, True).
Proof. unfold markUserReady. fp. Qed.
Lemma reconcileUserCertificate_quiet u certRef : footprint quiet (reconcileUserCertificate u certRef) (λ _, True).
Proof. unfold reconcileUserCertificate. fp. Qed.
Lemma userCertificateReadiness_quiet u certRef c :
  footprint quiet (userCertificateReadiness apiReader u certRef c) (λ _, True).
Proof.
  unfold userCertificateReadiness. destruct (ucr_IssuerRef certRef).
  - eapply fp_bind; [eapply fp_weaken; [apply side_reads_quiet|apply fetchCertificateReadiness_fp]|]. intros. fp.
  - apply fp_call; [done|]. intros now. eapply fp_weaken; [apply side_reads_quiet|apply externalCertificateReadiness_fp].
Qed.
Lemma runs_quiet_fp {A} (p : M A) Q : footprint runs p Q → footprint quiet p Q.
Proof. apply fp_weaken, runs_quiet. Qed.
Lemma provision_user_quiet u certRef c : footprint quiet (provision_user apiReader u certRef c) (λ _, True).
Proof.
  unfold provision_user.
  eapply fp_bind; [apply runs_quiet_fp, CreateUserForCert_fp|].
  intros [e|] _; [apply fail_and_requeue_quiet|].
  eapply fp_bind; [apply runs_quiet_fp, AddSecuritySource_fp|].
  intros [e|] _; [apply fail_and_requeue_quiet|].
  eapply fp_bind; [apply runs_quiet_fp, GrantUserPermissions_fp|]. intros [e|] _; [apply fail_and_requeue_quiet|].
  eapply fp_bind; [apply userCertificateReadiness_quiet|]. intros [[ready why] notAfter] _.
  eapply fp_bind; [apply markUserReady_quiet_calls|]. intros [e|] _; fp.
Qed.
Lemma quiet_end {A} (p : M A) s : footprint quiet p (λ _, True) → wp flag_env p any_end s.
Proof. intros Hp. eapply wp_mono; [by apply wp_quiet|done]. Qed.
Lemma secure_and_provision_flag u certRef c :
  wp flag_env (secure_and_provision apiReader u certRef c) any_end (Some c).
Proof.
  unfold secure_and_provision. destruct (cst_SecurityEnabled _); [apply quiet_end, provision_user_quiet|].
  eapply wp_quiet_bind; [apply runs_quiet_fp, EnableSecurity_fp|].
  intros [e|] _; [apply quiet_end, fail_and_requeue_quiet|].
  unfold StatusUpdate. apply wp_call; [exists c; by split; [|intros ?]|].
  intros [c1|e] s; cbn; [|intros ->; by apply wp_ret]. intros _. apply quiet_end, provision_user_quiet.
Qed.
Lemma user_with_cluster_flag u certRef s : wp flag_env (user_with_cluster apiReader u certRef) any_end s.
Proof.
  unfold user_with_cluster, Get. apply wp_call; [done|]. intros [c|e] s'; cbn; intros ->.
  2: { destruct (negb _); [by apply wp_ret|apply quiet_end, fail_and_requeue_quiet]. }
  destruct (negb _).
  { apply quiet_end. unfold Now. apply fp_call; [done|]. intros now. destruct (setCondition _ _ _ _ _ _ _) as [conds changed].
    eapply (fp_bind _ _ _ (λ _, True)); [destruct changed; fp|]. intros. by apply fp_ret. }
  eapply wp_quiet_bind; [apply reconcileUserCertificate_quiet|]. intros [e|] _.
  - apply quiet_end. unfold Now. apply fp_call; [done|]. intros now. cbv zeta.
    exact (fail_and_requeue_quiet (us_with_status u (ust_set_certificate (us_Status u) false (err_msg e)
             (setCondition now (ust_Conditions (us_Status u)) conditionCertificateReady false
                (om_Generation (us_Meta u)) "CertificateRequestFailed" (err_msg e)).1)) _ _ _).
  - apply secure_and_provision_flag.
Qed.
Lemma deleteRiakUser_flag u t s : wp flag_env (deleteRiakUser u t) any_end s.
Proof.
  unfold deleteRiakUser. destruct (negb _); [by apply wp_ret|].
  unfold Get. apply wp_call; [done|]. intros [c|e] s'; cbn; intros ->; [|by apply wp_ret].
  destruct (_ || _); [by apply wp_ret|]. apply quiet_end.
  eapply fp_bind; [apply runs_quiet_fp, DeleteUser_fp|].
  intros [e|] _; [|by apply fp_ret]. unfold Now. apply fp_call; [done|]. intros. fp.
Qed.
Lemma ReconcileUser_flag req : wp flag_env (ReconcileUser apiReader req) any_end None.
Proof.
  unfold ReconcileUser, Get. apply wp_call; [done|]. intros [u|e] s; cbn; intros ->; [|by apply wp_ret].
  destruct (om_DeletionTimestamp (us_Meta u)) as [t|].
  { destruct (ContainsFinalizer _ _); [|by apply wp_ret].
    eapply wp_bind_2; [apply deleteRiakUser_flag|]. intros [e|] s' _; [by apply wp_ret|].
    apply quiet_end. fp. }
  eapply (wp_quiet_bind _ _ (λ _, True)); [destruct (ContainsFinalizer _ _); fp|].
  intros [u1|e] _; [|by apply wp_ret].
  eapply (wp_quiet_bind _ _ (λ _, True)); [destruct (String.eqb _ _); fp|].
  intros [u2|e] _; [|by apply wp_ret].
  destruct (us_CertificateRef (us_Spec u2)); [apply user_with_cluster_flag|].
  apply quiet_end. unfold fail_without_certificate. fp.
Qed.
End user.

(** *** The bucket controller *)
Lemma ReconcileBucket_flag `{L : KubeLib} `{J : GoJson} req : wp flag_env (ReconcileBucket req) any_end None.
Proof.
  assert (∀ b reason msg (x : outcome),
    footprint quiet (failBucket b reason msg ≫= λ _, mret x) (λ _, True)) as Hfail.
  { intros. eapply (fp_bind _ _ _ (λ _, True)); [unfold failBucket; fp|]. intros. by apply fp_ret. }
  unfold ReconcileBucket, Get. apply wp_call; [done|]. intros [b|e] s; cbn; intros ->; [|by apply wp_ret].
  destruct (om_DeletionTimestamp (bk_Meta b)).
  { apply quiet_end. destruct (ContainsFinalizer _ _); fp. }
  eapply (wp_quiet_bind _ _ (λ _, True)); [destruct (ContainsFinalizer _ _); fp|].
  intros [b1|e] _; [|by apply wp_ret].
  eapply (wp_quiet_bind _ _ (λ _, True)); [destruct (String.eqb _ _); fp|].
  intros [b2|e] _; [|by apply wp_ret].
  unfold bucket_with_cluster, Get. apply wp_call; [done|]. intros [c|e] s' Hs; cbn in Hs; subst s'.
  2: { apply quiet_end. destruct (negb _); [by apply fp_ret|].
       exact (Hfail b2 "ClusterNotFound" ("cluster not found: " +:+ err_msg e) (finish (requeue (5 * second)))). }
  destruct (negb _); apply quiet_end.
  { unfold Now. apply fp_call; [done|]. intros now. destruct (setCondition _ _ _ _ _ _ _) as [conds changed].
    eapply (fp_bind _ _ _ (λ _, True)); [destruct changed; fp|]. intros. by apply fp_ret. }
  unfold provision_bucket. destruct (effectiveBucketProperties _) as [props n].
  eapply fp_bind; [apply runs_quiet_fp, CreateBucketType_fp|].
  intros [e|] _.
  { exact (Hfail b2 "CreateFailed" ("failed to create bucket: " +:+ err_msg e) (finish (requeue (10 * second)))). }
  unfold Now, StatusUpdate. apply fp_call; [done|]. intros n1. apply fp_call; [done|]. intros n2.
  apply fp_call; [done|]. intros. by apply fp_ret.
Qed.

(** ** The interleaving *)
(** A reconcile in progress: what is left of it, and the version of the cluster it holds. *)
Record thread := mkThread { th_prog : M outcome; th_seen : option nat }.
(** Every version of the cluster the API server has stored, oldest first. *)
Record system := mkSystem { sy_versions : list RiakCluster; sy_threads : list thread }.

(** The server's side of a call on the cluster. A read may be stale; a write is accepted
    only of the latest version, and its reply may be lost. Other calls may answer anything. *)
Definition current (vs : list RiakCluster) (v : nat) : Prop := S v = length vs.
Inductive stored (vs : list RiakCluster) (seen : option nat) (f : RiakCluster → RiakCluster)
    : res RiakCluster → list RiakCluster → option nat → Prop :=
| st_ok v cur : seen = Some v → current vs v → last vs = Some cur →
    stored vs seen f (Ok (f cur)) (vs ++ [f cur]) (Some (length vs))
| st_lost v cur e : seen = Some v → current vs v → last vs = Some cur →
    stored vs seen f (Err e) (vs ++ [f cur]) seen
| st_refused e : stored vs seen f (Err e) vs seen.
Definition serves (vs : list RiakCluster) (seen : option nat) (a : api)
    : reply a → list RiakCluster → option nat → Prop :=
  match a as a' return reply a' → list RiakCluster → option nat → Prop with
  | AGet _ k _ => match k return res (obj k) → list RiakCluster → option nat → Prop with
                  | KCluster => λ r vs' seen', vs' = vs ∧
                      match r with
                      | Ok c => ∃ v, vs !! v = Some c ∧ seen' = Some v
                      | Err _ => seen' = seen
                      end
                  | _ => λ _ vs' seen', vs' = vs ∧ seen' = seen
                  end
  | AUpdate k o =>
      match k return obj k → res (obj k) → list RiakCluster → option nat → Prop with
      | KCluster => λ o, stored vs seen (λ cur, mkRiakCluster (cl_Meta o) (cl_Spec o) (cl_Status cur))
      | _ => λ _ _ vs' seen', vs' = vs ∧ seen' = seen
      end o
  | AStatusUpdate k o =>
      match k return obj k → res (obj k) → list RiakCluster → option nat → Prop with
      | KCluster => λ o, stored vs seen (λ cur, cl_with_status cur (cl_Status o))
      | _ => λ _ _ vs' seen', vs' = vs ∧ seen' = seen
      end o
  | _ => λ _ vs' seen', vs' = vs ∧ seen' = seen
  end.

Section system.
Context `{L : KubeLib} `{X : GoX509} `{J : GoJson}.
Context (apiReader : bool) (DefaultImage : string) (range_order : gmap string string → list string).

Inductive reconciler : M outcome → Prop :=
| rec_cluster req : reconciler (ReconcileCluster apiReader DefaultImage range_order req)
| rec_user req : reconciler (ReconcileUser apiReader req)
| rec_bucket req : reconciler (ReconcileBucket req).
Inductive srv_step : system → system → Prop :=
| srv_spawn vs ts p : reconciler p → srv_step (mkSystem vs ts) (mkSystem vs (ts ++ [mkThread p None]))
| srv_call vs ts i a k seen r vs' seen' :
    ts !! i = Some (mkThread (Act a k) seen) → serves vs seen a r vs' seen' →
    srv_step (mkSystem vs ts) (mkSystem vs' (<[i := mkThread (k r) seen']> ts))
| srv_edit vs ts c spec meta : last vs = Some c →
    srv_step (mkSystem vs ts) (mkSystem (vs ++ [mkRiakCluster meta spec (cl_Status c)]) ts).

Definition flags_kept (vs : list RiakCluster) : Prop :=
  ∀ i j c d, (i ≤ j)%nat → vs !! i = Some c → vs !! j = Some d → secured c = true → secured d = true.
Definition held (vs : list RiakCluster) (seen : option nat) : option RiakCluster :=
  v ← seen; vs !! v.
Record srv_inv (s : system) : Prop := {
  inv_flags : flags_kept (sy_versions s);
  inv_threads t : t ∈ sy_threads s → wp flag_env (th_prog t) any_end (held (sy_versions s) (th_seen t));
  inv_held t v : t ∈ sy_threads s → th_seen t = Some v → (v < length (sy_versions s))%nat
}.

Lemma flags_snoc vs cur c :
  flags_kept vs → last vs = Some cur → keeps_flag cur c → flags_kept (vs ++ [c]).
Proof.
  intros Hf Hl Hk i j c1 d Hij Hi Hj Hs.
  assert (vs !! pred (length vs) = Some cur) as Hcur by by rewrite <-last_lookup.
  apply lookup_app_Some in Hj as [Hj|[Hlen Hj]].
  - eapply (Hf i j); [done| |exact Hj|exact Hs].
    apply lookup_lt_Some in Hj. by rewrite lookup_app_l in Hi by lia.
  - apply list_lookup_singleton_Some in Hj as [Hj <-].
    apply lookup_app_Some in Hi as [Hi|[Hi1 Hi2]].
    + apply Hk. eapply (Hf i); [|exact Hi|exact Hcur|exact Hs]. apply lookup_lt_Some in Hi. lia.
    + apply list_lookup_singleton_Some in Hi2 as [_ <-]. done.
Qed.
Lemma held_app vs vs' seen :
  (∀ v, seen = Some v → (v < length vs)%nat) → held (vs ++ vs') seen = held vs seen.
Proof. destruct seen as [v|]; [|done]. intros Hv. cbn. by rewrite lookup_app_l by auto. Qed.
Lemma held_current vs v cur : current vs v → last vs = Some cur → held vs (Some v) = Some cur.
Proof. unfold current. intros Hv Hl. cbn. rewrite last_lookup, <-Hv in Hl. done. Qed.

(** One served call: the flags stay kept, the thread may go on, and versions only grow. *)
Lemma stored_step vs seen f r vs' seen' :
  stored vs seen f r vs' seen' → (∀ v, seen = Some v → (v < length vs)%nat) →
  flags_kept vs → (∀ cur, held vs seen = Some cur → keeps_flag cur (f cur)) →
  flags_kept vs' ∧ (∃ new, vs' = vs ++ new) ∧ (∀ v, seen' = Some v → (v < length vs')%nat) ∧
  match r with
  | Ok c => held vs' seen' = Some c ∧ ∃ cur, c = f cur
  | Err _ => held vs' seen' = held vs seen
  end.
Proof.
  intros Hst Hv Hf Hk. destruct Hst as [v cur -> Hc Hl|v cur e -> Hc Hl|e].
  - split; [|split; [by eexists|split]].
    + eapply flags_snoc; [done|done|]. by apply Hk, held_current.
    + intros w [= <-]. rewrite length_app. cbn. lia.
    + split; [|by exists cur]. cbn. rewrite lookup_app_r by lia. by rewrite Nat.sub_diag.
  - split; [|split; [by eexists|split]].
    + eapply flags_snoc; [done|done|]. by apply Hk, held_current.
    + intros w Hw. rewrite length_app. specialize (Hv w Hw). lia.
    + by apply held_app.
  - split; [done|]. split; [exists []; by rewrite app_nil_r|]. by split.
Qed.
Lemma serves_step {A} vs seen a (k : reply a → M A) r vs' seen' :
  serves vs seen a r vs' seen' → (∀ v, seen = Some v → (v < length vs)%nat) → flags_kept vs →
  wp flag_env (Act a k) any_end (held vs seen) →
  flags_kept vs' ∧ (∃ new, vs' = vs ++ new) ∧ (∀ v, seen' = Some v → (v < length vs')%nat) ∧
  wp flag_env (k r) any_end (held vs' seen').
Proof.
  intros Hs Hv Hf [Hok Hk].
  assert (vs' = vs ∧ seen' = seen → flag_step (held vs seen) a r (held vs seen) →
    flags_kept vs' ∧ (∃ new, vs' = vs ++ new) ∧ (∀ v, seen' = Some v → (v < length vs')%nat) ∧
    wp flag_env (k r) any_end (held vs' seen')) as Hsame.
  { intros [-> ->] Hst. split; [done|]. split; [exists []; by rewrite app_nil_r|]. split; [done|]. by apply Hk. }
  destruct a as [? k0 key| |k0 o|k0 o|k0 o|k0 old new|k0 key|k0 key f| |]; try (by apply Hsame);
    destruct k0; try (by apply Hsame).
  - destruct Hs as [-> Hr]. split; [done|]. split; [exists []; by rewrite app_nil_r|].
    destruct r as [c|e].
    + destruct Hr as (v & Hlk & ->). split; [|by apply Hk].
      intros w [= <-]. by eapply lookup_lt_Some.
    + subst seen'. split; [done|]. by apply Hk.
  - destruct (stored_step _ _ _ _ _ _ Hs Hv Hf) as (H1 & H2 & H3 & H4); [by intros ? _ ?|].
    split; [done|]. split; [done|]. split; [done|]. apply Hk. cbn. by destruct r as [c|e]; [destruct H4|].
  - destruct (stored_step _ _ _ _ _ _ Hs Hv Hf) as (H1 & H2 & H3 & H4).
    { intros cur Hcur. destruct Hok as (c & Hc & Hkeep). rewrite Hcur in Hc. by injection Hc as <-. }
    split; [done|]. split; [done|]. split; [done|]. apply Hk. cbn.
    destruct r as [c|e]; [|done]. destruct H4 as [H4 [cur ->]]. by split.
Qed.

Lemma reconciler_flag p : reconciler p → wp flag_env p any_end None.
Proof. intros [req|req|req]; [apply ReconcileCluster_flag|apply ReconcileUser_flag|apply ReconcileBucket_flag]. Qed.
Lemma srv_inv_step s s' : srv_step s s' → srv_inv s → srv_inv s'.
Proof.
  intros Hst [Hf Ht Hh].
  destruct Hst as [vs ts p Hp|vs ts i a k seen r vs' seen' Hi Hs|vs ts c spec meta Hl]; cbn in *.
  - split; cbn; [done| |].
    + intros t [Hin|Hin]%elem_of_app; [by apply Ht|].
      apply list_elem_of_singleton in Hin as ->. by apply reconciler_flag.
    + intros t v [Hin|Hin]%elem_of_app; [by apply Hh|]. by apply list_elem_of_singleton in Hin as ->.
  - pose proof (list_elem_of_lookup_2 _ _ _ Hi) as Hin.
    destruct (serves_step _ _ _ _ _ _ _ Hs (λ v, Hh _ v Hin) Hf (Ht _ Hin)) as (H1 & [new ->] & H3 & H4).
    assert (∀ t, t ∈ <[i := mkThread (k r) seen']> ts → t = mkThread (k r) seen' ∨ t ∈ ts) as Hins.
    { intros t Hin'. apply list_elem_of_lookup in Hin' as [j Hj].
      apply list_lookup_insert_Some in Hj as [(_ & -> & _)|[_ Hj]];
        [by left|]. right. by eapply list_elem_of_lookup_2. }
    split; cbn; [done| |].
    + intros t [->|Hin']%Hins; [done|]. rewrite held_app; [by apply Ht|]. intros v. by apply Hh.
    + intros t v [->|Hin']%Hins Hv; [by apply H3|]. rewrite length_app. pose proof (Hh t v Hin' Hv). lia.
  - split; cbn.
    + eapply flags_snoc; [done|done|by intros ?].
    + intros t Hin. rewrite held_app; [by apply Ht|]. intros v. by apply Hh.
    + intros t v Hin Hv. rewrite length_app. pose proof (Hh t v Hin Hv). lia.
Qed.
Lemma srv_inv_start c : srv_inv (mkSystem [c] []).
Proof.
  split; cbn; [|by intros t ?%elem_of_nil|by intros t v ?%elem_of_nil].
  intros i j c1 c2 _ [_ <-]%list_lookup_singleton_Some [_ <-]%list_lookup_singleton_Some. done.
Qed.

(** *** A scheduler, to run interleavings *)
Context (world : ∀ a : api, reply a).
Definition write (vs : list RiakCluster) (seen : option nat) (f : RiakCluster → RiakCluster)
    : res RiakCluster * list RiakCluster * option nat :=
  match seen, last vs with
  | Some v, Some cur =>
      if decide (S v = length vs) then (Ok (f cur), vs ++ [f cur], Some (length vs))
      else (Err (Errorf "conflict"), vs, seen)
  | _, _ => (Err (Errorf "conflict"), vs, seen)
  end.
(** [v]: the version a read of the cluster gets. *)
Definition answer (vs : list RiakCluster) (seen : option nat) (v : nat) (a : api)
    : reply a * list RiakCluster * option nat :=
  match a as a' return reply a' * list RiakCluster * option nat with
  | AGet src k key =>
      match k as k return res (obj k) * list RiakCluster * option nat with
      | KCluster => match vs !! v with
                    | Some c => (Ok c, vs, Some v)
                    | None => (Err (Errorf "unavailable"), vs, seen)
                    end
      | k => (world (AGet src k key), vs, seen)
      end
  | AUpdate k o =>
      match k as k return obj k → res (obj k) * list RiakCluster * option nat with
      | KCluster => λ o, write vs seen (λ cur, mkRiakCluster (cl_Meta o) (cl_Spec o) (cl_Status cur))
      | k => λ o, (world (AUpdate k o), vs, seen)
      end o
  | AStatusUpdate k o =>
      match k as k return obj k → res (obj k) * list RiakCluster * option nat with
      | KCluster => λ o, write vs seen (λ cur, cl_with_status cur (cl_Status o))
      | k => λ o, (world (AStatusUpdate k o), vs, seen)
      end o
  | a => (world a, vs, seen)
  end.
Definition tick (s : system) (iv : nat * nat) : system :=
  match sy_threads s !! iv.1 with
  | Some (mkThread (Act a k) seen) =>
      let '(r, vs', seen') := answer (sy_versions s) seen iv.2 a in
      mkSystem vs' (<[iv.1 := mkThread (k r) seen']> (sy_threads s))
  | _ => s
  end.

Lemma write_stored vs seen f :
  stored vs seen f (write vs seen f).1.1 (write vs seen f).1.2 (write vs seen f).2.
Proof.
  unfold write. destruct seen as [v|]; [|apply st_refused]. destruct (last vs) as [cur|] eqn:Hl; [|apply st_refused].
  destruct (decide _); [by eapply st_ok|apply st_refused].
Qed.
Lemma answer_serves vs seen v a :
  serves vs seen a (answer vs seen v a).1.1 (answer vs seen v a).1.2 (answer vs seen v a).2.
Proof.
  destruct a as [? k0 key| |k0 o|k0 o|k0 o|k0 old new|k0 key|k0 key f| |]; try done; destruct k0; try done;
    try apply write_stored.
  cbn. destruct (vs !! v) as [c|] eqn:Hc; cbn; [|done]. split; [done|]. by exists v.
Qed.
Lemma tick_step s iv : rtc srv_step s (tick s iv).
Proof.
  destruct s as [vs ts], iv as [i v]. unfold tick. cbn [sy_threads sy_versions fst snd].
  destruct (ts !! i) as [[[a|a k] seen]|] eqn:Hi; try done.
  pose proof (answer_serves vs seen v a) as Hs. destruct (answer vs seen v a) as [[r vs'] seen'].
  apply rtc_once. by eapply srv_call.
Qed.
Lemma ticks_step s ivs : rtc srv_step s (foldl tick s ivs).
Proof. revert s. induction ivs as [|iv ivs IH]; intros s; [done|]. etrans; [apply tick_step|apply IH]. Qed.
Lemma spawn_steps vs ps ts :
  Forall reconciler ps → rtc srv_step (mkSystem vs ts) (mkSystem vs (ts ++ ((λ p, mkThread p None) <$> ps))).
Proof.
  intros Hp. revert ts. induction Hp as [|p ps Hp Hps IH]; intros ts; [by rewrite app_nil_r|].
  eapply rtc_l; [by apply srv_spawn|]. specialize (IH (ts ++ [mkThread p None])).
  by rewrite <-app_assoc in IH.
Qed.
End system.

(** ** Properties *)

(** C9: [status.securityEnabled] is never lost. Whatever reconciles of the three controllers
    run at once on a cluster, whatever they read, however stale, whatever writes fail, are
    refused or lose their reply, and whatever users edit meanwhile: once a stored version
    of the cluster has the flag, every later one has it, although the cluster controller
    writes the whole status. *)
Theorem security_flag_kept (L : KubeLib) (X : GoX509) (J : GoJson) (apiReader : bool) (DefaultImage : string)
    (range_order : gmap string string → list string) (c : RiakCluster) (s : system) :
  rtc (srv_step apiReader DefaultImage range_order) (mkSystem [c] []) s →
  flags_kept (sy_versions s).
Proof.
  intros Hs. apply (inv_flags s). revert Hs. apply (rtc_ind_r (λ s, srv_inv s)); [apply srv_inv_start|].
  intros s1 s2 _ Hst. by apply (srv_inv_step _ _ _ _ _ Hst).
Qed.
(** A cluster reconcile reads the first version; a user reconcile then sets the flag; the
    status write of the first is refused, and that of a later one, which has read the
    second version, keeps the flag. *)
Definition demo_world (a : api) : reply a :=
  match a as a' return reply a' with
  | AGet rd k key => match k as k return res (obj k) with
                     | KUser => Ok (mkRiakUser (us_Meta sample_user) (us_Spec sample_user) no_RiakUserStatus)
                     | _ => Err (Error ENotFound "not found")
                     end
  | AList k _ _ => Ok []
  | ACreate _ _ => None
  | AUpdate _ o => Ok o
  | AStatusUpdate _ o => Ok o
  | APatch _ _ new => Ok new
  | ADelete _ _ => None
  | ACreateOrUpdate _ _ _ => None
  | ARun _ _ => Ok ""
  | ANow => 0%Z
  end.
Definition demo_start : RiakCluster :=
  cl_with_meta ready_cluster (with_finalizers (cl_Meta ready_cluster) [riakClusterFinalizerName]).
Definition demo_reconcilers : list (M outcome) :=
  [@ReconcileCluster refLib demo_x509 false "" go_range (mkKey "db" "c");
   @ReconcileUser refLib demo_x509 false (mkKey "db" "alice");
   @ReconcileCluster refLib demo_x509 false "" go_range (mkKey "db" "c")].
Definition demo_schedule : list (nat * nat) :=
  [(0, 0)] ++ replicate 40 (1, 0) ++ replicate 40 (0, 0) ++ replicate 40 (2, 1).
Definition demo_end : system :=
  foldl (tick demo_world) (mkSystem [demo_start] ((λ p, mkThread p None) <$> demo_reconcilers)) demo_schedule.
Lemma demo_reachable :
  rtc (@srv_step refLib demo_x509 demo_json false "" go_range) (mkSystem [demo_start] []) demo_end.
Proof.
  etrans; [apply (spawn_steps false "" go_range _ demo_reconcilers [])|apply ticks_step].
  unfold demo_reconcilers. repeat constructor.
Qed.
Lemma security_flag_kept_witness :
  secured <$> sy_versions demo_end = [false; true; true] ∧ flags_kept (sy_versions demo_end).
Proof.
  split; [by vm_compute|].
  apply (security_flag_kept refLib demo_x509 demo_json false "" go_range demo_start demo_end).
  apply demo_reachable.
Defined.
