(* ===== verification/Wiring.v ===== *)
(** * Start-up ([cmd/main.go]) and what wakes the controllers ([SetupWithManager])

    A controller is a [Builder]: what it watches, which events pass its filter, and the
    [Reconcile] it runs. [main] is a program over the calls it makes to controller-runtime,
    with the exit code as its result. *)
From S2P Require Import Prelude GoLib Effects Types KubeTypes Kube KubeLib Status Executor Manager Tls Trust BucketController UserController StatefulSet ClusterController.

(** ** Watches *)
(** What an informer tells a controller of an object of a watched kind. *)
Inductive watch_event :=
| Created (new : ObjectMeta)
| Updated (old new : ObjectMeta)
| Deleted (old : ObjectMeta).

Inductive predicate := GenerationChangedPredicate.
(** controller-runtime's predicates, with what it documents of them. *)
Class ControllerRuntime := { passes : predicate → watch_event → bool }.
Class ControllerRuntimeLaws (R : ControllerRuntime) : Prop := {
  passes_created m : passes GenerationChangedPredicate (Created m) = true;
  passes_deleted m : passes GenerationChangedPredicate (Deleted m) = true;
  passes_updated old new :
    passes GenerationChangedPredicate (Updated old new) = true ↔ om_Generation new ≠ om_Generation old
}.
#[global] Instance refRuntime : ControllerRuntime := {|
  passes := λ p e, match e with
                   | Updated old new => negb (om_Generation new =? om_Generation old)%Z
                   | _ => true
                   end
|}.
#[global] Instance refRuntime_laws : ControllerRuntimeLaws refRuntime.
Proof. split; [done..|]. intros old new. cbn. by rewrite negb_true_iff, Z.eqb_neq. Qed.

Record Builder := mkBuilder {
  bd_For : kind;
  bd_Owns : list kind;
  bd_EventFilter : predicate;
  bd_MaxConcurrentReconciles : Z;
  bd_Named : string;
  bd_Reconcile : ObjectKey → M outcome }.

Section setup.
Context `{L : KubeLib} `{X : GoX509} `{J : GoJson}.
Context (apiReader : bool) (DefaultImage : string) (range_order : gmap string string → list string).

Definition SetupClusterWithManager (maxConcurrent : Z) : Builder :=
  {| bd_For := KCluster; bd_Owns := [KStatefulSet; KService];
     bd_EventFilter := GenerationChangedPredicate;
     bd_MaxConcurrentReconciles := controllerOptions maxConcurrent;
     bd_Named := "riakcluster";
     bd_Reconcile := ReconcileCluster apiReader DefaultImage range_order |}.
Definition SetupBucketWithManager (maxConcurrent : Z) : Builder :=
  {| bd_For := KBucket; bd_Owns := [];
     bd_EventFilter := GenerationChangedPredicate;
     bd_MaxConcurrentReconciles := controllerOptions maxConcurrent;
     bd_Named := "riakbucket";
     bd_Reconcile := ReconcileBucket |}.
Definition SetupUserWithManager (maxConcurrent : Z) : Builder :=
  {| bd_For := KUser; bd_Owns := [];
     bd_EventFilter := GenerationChangedPredicate;
     bd_MaxConcurrentReconciles := controllerOptions maxConcurrent;
     bd_Named := "riakuser";
     bd_Reconcile := ReconcileUser apiReader |}.
End setup.

(** Does an event on the object itself put its key in the queue? *)
Definition enqueues `{R : ControllerRuntime} (b : Builder) (e : watch_event) : bool :=
  passes (bd_EventFilter b) e.

(** ** The command line *)
Record Flags := mkFlags {
  metricsAddr : string;
  probeAddr : string;
  enableLeaderElection : bool;
  secureMetrics : bool;
  enableHTTP2 : bool;
  riakImage : string;
  maxConcurrentReconciles : Z }.
Definition default_flags : Flags :=
  {| metricsAddr := "0"; probeAddr := ":8081"; enableLeaderElection := false; secureMetrics := true;
     enableHTTP2 := false; riakImage := "ghcr.io/marthydavid/riak:3.2.6"; maxConcurrentReconciles := 1 |}.

(** ** The options of the manager *)
(** [tls.Config]: the field the code sets; a TLSOpt edits a configuration. *)
Record TLSServerConfig := mkTLSServerConfig { NextProtos : list string }.
Definition disableHTTP2 (c : TLSServerConfig) : TLSServerConfig := {| NextProtos := ["http/1.1"] |}.
Definition tlsOpts (f : Flags) : list (TLSServerConfig → TLSServerConfig) :=
  if enableHTTP2 f then [] else [disableHTTP2].
Inductive FilterProvider := WithAuthenticationAndAuthorization.

Record MetricsOptions := mkMetricsOptions {
  mo_BindAddress : string;
  mo_SecureServing : bool;
  mo_TLSOpts : list (TLSServerConfig → TLSServerConfig);
  mo_FilterProvider : option FilterProvider }.
Definition metricsServerOptions (f : Flags) : MetricsOptions :=
  {| mo_BindAddress := metricsAddr f; mo_SecureServing := secureMetrics f; mo_TLSOpts := tlsOpts f;
     mo_FilterProvider := if secureMetrics f then Some WithAuthenticationAndAuthorization else None |}.
Record ManagerOptions := mkManagerOptions {
  mg_Metrics : MetricsOptions;
  mg_WebhookTLSOpts : list (TLSServerConfig → TLSServerConfig);
  mg_HealthProbeBindAddress : string;
  mg_LeaderElection : bool;
  mg_LeaderElectionID : string }.
Definition manager_options (f : Flags) : ManagerOptions :=
  {| mg_Metrics := metricsServerOptions f; mg_WebhookTLSOpts := tlsOpts f;
     mg_HealthProbeBindAddress := probeAddr f; mg_LeaderElection := enableLeaderElection f;
     mg_LeaderElectionID := "8d4788ca.openriak.io" |}.

(** ** main *)
Inductive setup_call :=
| NewManager (o : ManagerOptions)
| Complete (b : Builder)
| RegisterCRStateMetrics
| AddHealthzCheck (name : string)
| AddReadyzCheck (name : string)
| Start.
Definition setup_reply (_ : setup_call) : Type := option error.
Abbreviation Setup := (prog setup_reply).

(** [if err := step; err != nil { os.Exit(1) }] *)
Definition or_exit (c : setup_call) (next : Setup Z) : Setup Z :=
  call c ≫= λ e : setup_reply c, match e with Some _ => mret 1%Z | None => next end.

Section main.
Context `{L : KubeLib} `{X : GoX509} `{J : GoJson}.
Context (range_order : gmap string string → list string).

(** The controllers of the manager, all with its uncached reader. *)
Definition controllers (f : Flags) : list Builder :=
  [SetupClusterWithManager true (riakImage f) range_order (maxConcurrentReconciles f);
   SetupBucketWithManager (maxConcurrentReconciles f);
   SetupUserWithManager true (maxConcurrentReconciles f)].
Definition main (f : Flags) : Setup Z :=
  or_exit (NewManager (manager_options f))
  (or_exit (Complete (SetupClusterWithManager true (riakImage f) range_order (maxConcurrentReconciles f)))
  (or_exit (Complete (SetupBucketWithManager (maxConcurrentReconciles f)))
  (or_exit (Complete (SetupUserWithManager true (maxConcurrentReconciles f)))
  (or_exit RegisterCRStateMetrics
  (or_exit (AddHealthzCheck "healthz")
  (or_exit (AddReadyzCheck "readyz")
  (or_exit Start (mret 0%Z)))))))).

(** The calls made so far with their replies, oldest first. *)
Definition setup_env (ok : list (setup_call * option error) → setup_call → Prop)
    : Env setup_reply (list (setup_call * option error)) :=
  {| allowed := ok; step := λ h c r h', h' = h ++ [(c, r)] |}.
(** Nothing follows a failure, and the manager starts with everything registered. *)
Definition all_succeeded (h : list (setup_call * option error)) : Prop := ∀ c r, (c, r) ∈ h → r = None.
Definition registered (f : Flags) : list setup_call :=
  NewManager (manager_options f) :: (Complete <$> controllers f) ++
  [RegisterCRStateMetrics; AddHealthzCheck "healthz"; AddReadyzCheck "readyz"].
Definition setup_ok (f : Flags) (h : list (setup_call * option error)) (c : setup_call) : Prop :=
  all_succeeded h ∧ (c = Start → h.*1 = registered f).

Lemma all_succeeded_snoc h c : all_succeeded h → all_succeeded (h ++ [(c, None)]).
Proof. intros Hh c' r [Hin|Hin]%elem_of_app; [by eapply Hh|]. apply list_elem_of_singleton in Hin. congruence. Qed.
Lemma wp_or_exit f c next h :
  all_succeeded h → (c = Start → h.*1 = registered f) →
  (all_succeeded (h ++ [(c, None)]) →
   wp (setup_env (setup_ok f)) next
     (λ code h', code = 0%Z ↔ all_succeeded h' ∧ h'.*1 = registered f ++ [Start]) (h ++ [(c, None)])) →
  wp (setup_env (setup_ok f)) (or_exit c next)
    (λ code h', code = 0%Z ↔ all_succeeded h' ∧ h'.*1 = registered f ++ [Start]) h.
Proof.
  intros Hh Hc Hk. unfold or_exit. apply wp_call; [by split|]. intros [e|] h' ->.
  - apply wp_ret. split; [done|]. intros [Hall _].
    assert (Some e = None); [|done]. apply (Hall c), elem_of_app. right. by left.
  - by apply Hk, all_succeeded_snoc.
Qed.
End main.

(** ** Properties *)

(** C40: the manager is started only when every controller, the collector and both checks are
    registered, nothing follows a failed step, and the process exits with 0 only when the
    manager ran and stopped without an error. *)
Theorem main_starts_complete (L : KubeLib) (X : GoX509) (J : GoJson)
    (range_order : gmap string string → list string) (f : Flags) :
  wp (setup_env (setup_ok range_order f)) (main range_order f)
    (λ code h, code = 0%Z ↔ all_succeeded h ∧ h.*1 = registered range_order f ++ [Start]) [].
Proof.
  unfold main. assert (all_succeeded []) by by intros c r ?%elem_of_nil.
  repeat (apply wp_or_exit; [done|done|intros ?]). by apply wp_ret.
Qed.

(** Unless asked for, no server negotiates HTTP/2, whatever its configuration was; and metrics
    served over TLS are only given to authorised clients. *)
Theorem servers_restricted (f : Flags) (c : TLSServerConfig) :
  (enableHTTP2 f = false →
   NextProtos (foldl (λ c o, o c) c (mo_TLSOpts (mg_Metrics (manager_options f)))) = ["http/1.1"] ∧
   NextProtos (foldl (λ c o, o c) c (mg_WebhookTLSOpts (manager_options f))) = ["http/1.1"]) ∧
  (mo_SecureServing (mg_Metrics (manager_options f)) = true →
   mo_FilterProvider (mg_Metrics (manager_options f)) = Some WithAuthenticationAndAuthorization).
Proof. cbn. unfold tlsOpts. split; [by intros ->|by intros ->]. Qed.
