(* ===== verification/Queue.v ===== *)
(** * The work queue of a controller

    A controller learns of its objects through a cache that lags behind the API server, even
    behind the controller's own writes, is woken only by events that pass its filter, runs
    [Reconcile] for one object at a time, and is woken again after an error or a requeue.
    [q_step] is that loop for one object of kind [k]: users edit, remove and recreate the
    object, events are delivered late, writes are refused when the object has moved on or fail
    after they were stored, and the operator may restart at any time. *)
From S2P Require Import Prelude GoLib Effects Types KubeTypes Kube KubeLib Footprint BucketController Footprints Wiring.

(** [Reconcile] asks not to be called again: no error and no requeue. *)
Definition finished (o : outcome) : bool := bool_decide (o.2 = None) && (RequeueAfter o.1 =? 0)%Z.

(** A kind of object with a status subresource. *)
Class Resource (k : kind) := {
  rs_meta : obj k → ObjectMeta;
  rs_with_meta : obj k → ObjectMeta → obj k;
  (** The first with the status of the second. *)
  rs_with_status : obj k → obj k → obj k;
  is_kind : ∀ k', option (k' = k)
}.

Section queue.
Context {k : kind} `{RS : !Resource k}.

Definition deleting (b : obj k) : Prop := is_Some (om_DeletionTimestamp (rs_meta b)).
#[local] Instance deleting_dec b : Decision (deleting b) := is_Some_dec _.

(** ** What one reconcile knows of its object *)
(** [Seen b]: the version last read; [Stored b]: the version last written; [Lost b]: a write of
    it failed, and may have been stored all the same. *)
Inductive view := Unread | Gone | Seen (b : obj k) | Stored (b : obj k) | Lost (b : obj k).
Definition held (v : view) : option (obj k) :=
  match v with Seen b | Stored b | Lost b => Some b | _ => None end.

(** A write touches the finalizers or the status only, and adds no finalizer to an object
    being deleted. *)
Definition finalizers_only (v : view) (o : obj k) : Prop :=
  ∃ b fs, held v = Some b ∧ (deleting b → fs ⊆ om_Finalizers (rs_meta b)) ∧
    o = rs_with_meta b (with_finalizers (rs_meta b) fs).
Definition view_ok (v : view) (a : api) : Prop :=
  match a with
  | AUpdate k' o => match is_kind k' with
                    | Some e => finalizers_only v (eq_rect k' obj o k e)
                    | None => True
                    end
  | AStatusUpdate _ _ | AGet _ _ _ | AList _ _ _ | ARun _ _ | ANow => True
  | ACreate k' _ | APatch k' _ _ | ADelete k' _ | ACreateOrUpdate k' _ _ => is_kind k' = None
  end.
Definition read_step (v : view) (r : res (obj k)) (v' : view) : Prop :=
  match r with
  | Ok b => v' = Seen b
  | Err e => v' = if IsNotFound e then Gone else v
  end.
(** [stored b]: what a write turns the held version into. *)
Definition write_step (v : view) (stored : obj k → obj k) (r : res (obj k)) (v' : view) : Prop :=
  match r with
  | Ok c => ∃ b, held v = Some b ∧ c = stored b ∧ v' = Stored c
  | Err _ => v' = match held v with Some b => Lost b | None => v end
  end.
Definition cast_res {k'} (e : k' = k) (r : res (obj k')) : res (obj k) :=
  eq_rect k' (λ x, res (obj x)) r k e.
Definition view_step (v : view) (a : api) : reply a → view → Prop :=
  match a as a' return reply a' → view → Prop with
  | AGet _ k' _ => λ r v', match is_kind k' with
                           | Some e => read_step v (cast_res e r) v'
                           | None => v' = v
                           end
  | AUpdate k' o => λ r v', match is_kind k' with
                            | Some e => write_step v (λ _, eq_rect k' obj o k e) (cast_res e r) v'
                            | None => v' = v
                            end
  | AStatusUpdate k' o => λ r v', match is_kind k' with
                                  | Some e => write_step v (λ b, rs_with_status b (eq_rect k' obj o k e))
                                                (cast_res e r) v'
                                  | None => v' = v
                                  end
  | _ => λ _ v', v' = v
  end.
Definition view_env : Env reply view := {| allowed := view_ok; step := view_step |}.

(** Calls on other objects. *)
Definition foreign (a : api) : Prop :=
  match a with
  | AGet _ k' _ | AUpdate k' _ | AStatusUpdate k' _ | ACreate k' _ | APatch k' _ _ | ADelete k' _
  | ACreateOrUpdate k' _ _ => is_kind k' = None
  | AList _ _ _ | ARun _ _ | ANow => True
  end.
Lemma wp_foreign {A} (p : M A) Q v : footprint foreign p Q → wp view_env p (λ a v', Q a ∧ v' = v) v.
Proof.
  intros Hp. apply (wp_footprint _ foreign _ _ Q); [done| | |done].
  - intros s a _ Ha. destruct a; cbn in *; try done. by rewrite Ha.
  - intros s a r s' -> Ha Hst. destruct a; cbn in *; try done; by rewrite Ha in Hst.
Qed.
Lemma wp_foreign_bind {A B} (p : M A) (f : A → M B) Q1 Q v :
  footprint foreign p Q1 → (∀ a, Q1 a → wp view_env (f a) Q v) → wp view_env (p ≫= f) Q v.
Proof. intros Hp Hf. eapply wp_bind_2; [by apply wp_foreign|]. intros a v' [Ha ->]. by apply Hf. Qed.

(** Whether a read is only answered once the cache holds the controller's own writes. *)
Context (fresh : bool).
(** [settled]: nothing is left to be done for the object until its spec changes;
    [lasting]: nor by writes of the controller that the cache does not hold yet. *)
Context (settled lasting : obj k → Prop).
Definition settled_view (o : outcome) (v : view) : Prop :=
  finished o = true → match v with
                      | Gone => True
                      | Stored b => settled b
                      | Seen b => lasting b ∨ fresh = true ∧ settled b
                      | _ => False
                      end.
Definition settles (p : M outcome) : Prop := wp view_env p settled_view Unread.
Lemma settled_again (o : outcome) v : finished o = false → settled_view o v.
Proof. intros Ho. unfold settled_view. by rewrite Ho. Qed.

(** The version the reconcile works on, read or written. *)
Definition current (v : view) (b : obj k) : Prop := v = Seen b ∨ v = Stored b.
Lemma current_held v b : current v b → held v = Some b.
Proof. by intros [-> | ->]. Qed.
Lemma stored_current v b (stored : obj k → obj k) c v' :
  current v b → write_step v stored (Ok c) v' → c = stored b ∧ v' = Stored c.
Proof. intros Hv (b' & Hb' & -> & ->). rewrite (current_held _ _ Hv) in Hb'. by simplify_eq. Qed.
Lemma settled_current o v b : current v b → settled b → (lasting b ∨ fresh = true) → settled_view o v.
Proof. intros [-> | ->] Hb Hl _; [|done]. destruct Hl; auto. Qed.
(** A write that succeeded is what the reconcile knows next; it kept the deletion timestamp. *)
Definition kept (b : obj k) (u : res (obj k)) (v : view) : Prop :=
  match u with
  | Ok c => current v c ∧ om_DeletionTimestamp (rs_meta c) = om_DeletionTimestamp (rs_meta b)
  | Err _ => True
  end.

(** Calls allowed whatever is known. *)
Definition polite (a : api) : Prop :=
  match a with
  | AUpdate k' _ | ACreate k' _ | APatch k' _ _ | ADelete k' _ | ACreateOrUpdate k' _ _ => is_kind k' = None
  | AGet _ _ _ | AStatusUpdate _ _ | AList _ _ _ | ARun _ _ | ANow => True
  end.
Lemma wp_polite {A} (p : M A) Q v : footprint polite p Q → wp view_env p (λ a _, Q a) v.
Proof.
  intros Hp. eapply wp_mono; [apply (wp_footprint _ polite (λ _, True) _ Q); [done| |done..]|naive_solver].
  intros s a _ Ha. destruct a; cbn in *; try done. by rewrite Ha.
Qed.
Lemma wp_again (p : M outcome) v :
  footprint polite p (λ o, finished o = false) → wp view_env p settled_view v.
Proof. intros Hp. eapply wp_mono; [by apply wp_polite|]. intros. by apply settled_again. Qed.
Lemma runs_foreign {A} (p : M A) Q : footprint runs p Q → footprint foreign p Q.
Proof. apply fp_weaken. by intros []. Qed.

(** ** The loop *)
(** Finalizers put on an object that is not being deleted, or taken off an object. *)
Lemma added_finalizers v b fs : held v = Some b → om_DeletionTimestamp (rs_meta b) = None →
  finalizers_only v (rs_with_meta b (with_finalizers (rs_meta b) fs)).
Proof. intros Hv Hd. eexists _, _. split_and!; [done| |done]. unfold deleting. rewrite Hd. by intros [? ?]. Qed.
Lemma removed_finalizers `{L : KubeLib} `{HL : !KubeLibLaws L} v b f : held v = Some b →
  finalizers_only v (rs_with_meta b (with_finalizers (rs_meta b) (RemoveFinalizer (om_Finalizers (rs_meta b)) f))).
Proof. intros Hv. eexists _, _. split_and!; [done| |done]. by intros _ g [_ ?]%finalizer_remove. Qed.

Context `{R : ControllerRuntime} (ctl : Builder) (req : ObjectKey).

(** The informer's event for two successive versions of the object, [None] being absence. *)
Definition event_of (x y : option (obj k)) : option watch_event :=
  match x, y with
  | None, None => None
  | None, Some c => Some (Created (rs_meta c))
  | Some b, None => Some (Deleted (rs_meta b))
  | Some b, Some c => Some (Updated (rs_meta b) (rs_meta c))
  end.
Definition wakes (x y : option (obj k)) : bool :=
  match event_of x y with Some e => enqueues ctl e | None => false end.

(** [q_versions]: all the API server has stored, oldest first; [q_cache]: the version in the
    cache; [q_own]: the last version this controller wrote; [q_dirty]: the key is queued;
    [q_timer]: it will be; [q_run]: the rest of the running reconcile, what it knows, and
    the version that is of. *)
Record queue := mkQueue {
  q_versions : list (option (obj k));
  q_cache : nat;
  q_own : nat;
  q_dirty : bool;
  q_timer : bool;
  q_run : option (M outcome * view * nat) }.

(** An edit that keeps the generation changes neither the spec nor the status, and adds no
    finalizer to an object being deleted. *)
Definition quiet_edit (b c : obj k) : Prop :=
  ∃ m, c = rs_with_meta b m ∧ om_Generation m = om_Generation (rs_meta b) ∧
    om_DeletionTimestamp m = om_DeletionTimestamp (rs_meta b) ∧
    (deleting b → om_Finalizers m ⊆ om_Finalizers (rs_meta b)).
Definition changed (b c : obj k) : Prop := om_Generation (rs_meta c) ≠ om_Generation (rs_meta b).
#[local] Instance changed_dec b c : Decision (changed b c).
Proof. unfold changed. apply _. Defined.
(** An object being deleted goes away with its last finalizer. *)
Definition stored_as (b : obj k) : option (obj k) :=
  if decide (deleting b ∧ om_Finalizers (rs_meta b) = []) then None else Some b.

(** A write is accepted of the latest version only; its reply may be lost. *)
Inductive writes (vs : list (option (obj k))) (own : nat) (v : view) (n : nat) (f : obj k → obj k)
    : res (obj k) → list (option (obj k)) → nat → view → nat → Prop :=
| w_ok b : is_Some (held v) → S n = length vs → vs !! n = Some (Some b) →
    writes vs own v n f (Ok (f b)) (vs ++ [stored_as (f b)]) (length vs) (Stored (f b)) (length vs)
| w_lost b e : is_Some (held v) → S n = length vs → vs !! n = Some (Some b) →
    writes vs own v n f (Err e) (vs ++ [stored_as (f b)]) (length vs) (Lost b) n
| w_refused e :
    writes vs own v n f (Err e) vs own (match held v with Some b => Lost b | None => v end) n.
(** A read is answered from the cache, which may be older than the controller's own writes
    unless [fresh]. *)
Inductive reads_cache (vs : list (option (obj k))) (cache own : nat) (v : view) (n : nat)
    : res (obj k) → view → nat → Prop :=
| r_found b : (own ≤ cache)%nat ∨ fresh = false → vs !! cache = Some (Some b) →
    reads_cache vs cache own v n (Ok b) (Seen b) cache
| r_gone e : (own ≤ cache)%nat ∨ fresh = false → vs !! cache = Some None → IsNotFound e = true →
    reads_cache vs cache own v n (Err e) Gone cache
| r_failed e : IsNotFound e = false → reads_cache vs cache own v n (Err e) v n.

Inductive act_step (vs : list (option (obj k))) (cache own : nat) (v : view) (n : nat)
    : ∀ a, reply a → list (option (obj k)) → nat → view → nat → Prop :=
| a_get src k' key e r v' n' : is_kind k' = Some e →
    reads_cache vs cache own v n (cast_res e r) v' n' →
    act_step vs cache own v n (AGet src k' key) r vs own v' n'
| a_update k' o e r vs' own' v' n' : is_kind k' = Some e →
    writes vs own v n (λ _, eq_rect k' obj o k e) (cast_res e r) vs' own' v' n' →
    act_step vs cache own v n (AUpdate k' o) r vs' own' v' n'
| a_status k' o e r vs' own' v' n' : is_kind k' = Some e →
    writes vs own v n (λ b, rs_with_status b (eq_rect k' obj o k e)) (cast_res e r) vs' own' v' n' →
    act_step vs cache own v n (AStatusUpdate k' o) r vs' own' v' n'
| a_other a r : foreign a → act_step vs cache own v n a r vs own v n.

Inductive q_step : queue → queue → Prop :=
| q_edit vs c own d t run b b' : last vs = Some (Some b) → changed b b' ∨ quiet_edit b b' →
    q_step (mkQueue vs c own d t run) (mkQueue (vs ++ [Some b']) c own d t run)
| q_remove vs c own d t run b : last vs = Some (Some b) →
    q_step (mkQueue vs c own d t run) (mkQueue (vs ++ [None]) c own d t run)
| q_create vs c own d t run b : last vs = Some None →
    q_step (mkQueue vs c own d t run) (mkQueue (vs ++ [Some b]) c own d t run)
| q_deliver vs c own d t run x y : vs !! c = Some x → vs !! S c = Some y →
    q_step (mkQueue vs c own d t run) (mkQueue vs (S c) own (d || wakes x y) t run)
| q_fire vs c own d run :
    q_step (mkQueue vs c own d true run) (mkQueue vs c own true false run)
| q_take vs c own t :
    q_step (mkQueue vs c own true t None) (mkQueue vs c own false t (Some (bd_Reconcile ctl req, Unread, 0%nat)))
| q_act vs c own d t a f v n r vs' own' v' n' :
    act_step vs c own v n a r vs' own' v' n' →
    q_step (mkQueue vs c own d t (Some (Act a f, v, n))) (mkQueue vs' c own' d t (Some (f r, v', n')))
| q_return vs c own d t o v n :
    q_step (mkQueue vs c own d t (Some (Ret o, v, n))) (mkQueue vs c own d (t || negb (finished o)) None)
| q_restart vs c own d t run :
    q_step (mkQueue vs c own d t run) (mkQueue vs (pred (length vs)) own true false None).

(** The controller starts: whatever exists is queued. *)
Definition q_start (x : option (obj k)) : queue := mkQueue [x] 0 0 true false None.
(** Nothing runs, is queued or is timed, and every event was delivered. *)
Definition idle (s : queue) : Prop :=
  q_run s = None ∧ q_dirty s = false ∧ q_timer s = false ∧ S (q_cache s) = length (q_versions s).
(** ** Its invariant *)
Definition settled_at (x : option (obj k)) : Prop := match x with Some b => settled b | None => True end.
Definition lasting_at (x : option (obj k)) : Prop := match x with Some b => lasting b | None => True end.
(** No event between the versions [n] and [c] wakes the controller. *)
Definition calm (vs : list (option (obj k))) (n c : nat) : Prop :=
  ∀ i x y, (n ≤ i < c)%nat → vs !! i = Some x → vs !! S i = Some y → wakes x y = false.
Definition known (vs : list (option (obj k))) (v : view) (n : nat) : Prop :=
  match v with
  | Gone => vs !! n = Some None
  | Seen b => vs !! n = Some (Some b)
  | Stored b | Lost b => vs !! n = Some (Some b) ∨ vs !! n = Some None
  | Unread => True
  end.
Record q_inv (s : queue) : Prop := {
  inv_cache : (q_cache s < length (q_versions s))%nat;
  inv_own : (q_own s < length (q_versions s))%nat;
  inv_edits i x y : q_versions s !! i = Some x → q_versions s !! S i = Some y →
    wakes x y = true ∨ (∃ b c, x = Some b ∧ y = Some c ∧ quiet_edit b c) ∨
    (i < q_own s)%nat ∧ (lasting_at x → lasting_at y);
  inv_idle : q_run s = None → q_dirty s = false → q_timer s = false →
    ∃ n x, q_versions s !! n = Some x ∧ ((q_own s ≤ n)%nat ∧ settled_at x ∨ lasting_at x) ∧
      calm (q_versions s) n (q_cache s);
  inv_run p v n : q_run s = Some (p, v, n) →
    wp view_env p settled_view v ∧
    known (q_versions s) v n ∧
    (match v with
     | Unread | Lost _ => True
     | Gone => q_dirty s = false → calm (q_versions s) n (q_cache s)
     | Seen _ => ((q_own s ≤ n)%nat ∨ fresh = false) ∧ (q_dirty s = false → calm (q_versions s) n (q_cache s))
     | Stored _ => (q_own s ≤ n)%nat ∧ (q_dirty s = false → calm (q_versions s) n (q_cache s))
     end)
}.

Lemma calm_snoc vs x n c : (c < length vs)%nat → calm vs n c → calm (vs ++ [x]) n c.
Proof.
  intros Hc Hcalm i y z Hi Hy Hz. apply (Hcalm i); [done|..].
  - by rewrite lookup_app_l in Hy by lia.
  - by rewrite lookup_app_l in Hz by lia.
Qed.
Lemma known_snoc vs x v n : known vs v n → known (vs ++ [x]) v n.
Proof.
  destruct v; cbn; try done; try apply lookup_app_l_Some;
    (intros [Hn|Hn]; [left|right]; by apply lookup_app_l_Some).
Qed.
Lemma stored_known vs b : known (vs ++ [stored_as b]) (Stored b) (length vs).
Proof. cbn. rewrite list_lookup_middle by done. unfold stored_as. case_decide; auto. Qed.

Context `{HR : !ControllerRuntimeLaws R} (Hfilter : bd_EventFilter ctl = GenerationChangedPredicate).
Lemma wakes_changed b c : changed b c → wakes (Some b) (Some c) = true.
Proof. intros Hc. unfold wakes, enqueues. cbn. rewrite Hfilter. by apply passes_updated. Qed.
Lemma wakes_removed b : wakes (Some b) None = true.
Proof. unfold wakes, enqueues. cbn. rewrite Hfilter. apply passes_deleted. Qed.
Lemma wakes_created b : wakes None (Some b) = true.
Proof. unfold wakes, enqueues. cbn. rewrite Hfilter. apply passes_created. Qed.

(** The two last versions after a new one. *)
Lemma lookup_snoc_S (vs : list (option (obj k))) y i x' y' :
  (vs ++ [y]) !! i = Some x' → (vs ++ [y]) !! S i = Some y' →
  vs !! i = Some x' ∧ vs !! S i = Some y' ∨ S i = length vs ∧ last vs = Some x' ∧ y' = y.
Proof.
  intros Hx Hy. pose proof (lookup_lt_Some _ _ _ Hy) as Hlt. rewrite length_app in Hlt. cbn in Hlt.
  rewrite lookup_app_l in Hx by lia. destruct (decide (S i < length vs)%nat).
  - left. by rewrite lookup_app_l in Hy by lia.
  - right. assert (S i = length vs) as Hl by lia. split; [done|]. split; [by rewrite last_lookup, <-Hl|].
    rewrite Hl, list_lookup_middle in Hy by done. by simplify_eq.
Qed.
(** A new version that is not the controller's own. *)
Lemma q_inv_snoc vs c own d t run x y :
  q_inv (mkQueue vs c own d t run) → last vs = Some x →
  (wakes x y = true ∨ ∃ b b', x = Some b ∧ y = Some b' ∧ quiet_edit b b') →
  q_inv (mkQueue (vs ++ [y]) c own d t run).
Proof.
  intros [Hc Ho He Hi Hr] Hl Hy. split; cbn in *; rewrite ?length_app; cbn; try lia.
  - intros i x' y' Hx' Hy'. destruct (lookup_snoc_S _ _ _ _ _ Hx' Hy') as [[? ?]|(? & ? & ->)]; [by eapply He|].
    simplify_eq. destruct Hy; auto.
  - intros H1 H2 H3. destruct (Hi H1 H2 H3) as (n & x' & Hx' & Hs & Hcalm). exists n, x'.
    split; [by apply lookup_app_l_Some|]. split; [done|]. by apply calm_snoc.
  - intros p v n Hrun. destruct (Hr p v n Hrun) as (Hwp & Hk & Hv). split; [done|]. split; [by apply known_snoc|].
    destruct v; try done; [|destruct Hv as [? Hv]; split; [done|]..]; intros Hd; apply calm_snoc; auto.
Qed.
(** Reading and writing. *)
Definition is_lost (v : view) : Prop := ∃ b, v = Lost b.
Lemma known_held vs v n b c : known vs v n → held v = Some b → vs !! n = Some (Some c) → b = c.
Proof. destruct v; cbn; try done; [intros Hb [= ->] Hc|intros [Hb|Hb] [= ->] Hc..]; by simplify_eq. Qed.
(** The views a read leaves. *)
Definition read_at (c own : nat) (v : view) (n : nat) : Prop :=
  n = c ∧ match v with Gone => True | Seen _ => (own ≤ n)%nat ∨ fresh = false | _ => False end.
Lemma reads_cache_view vs c own v n r v' n' :
  reads_cache vs c own v n r v' n' → known vs v n → read_step v r v' ∧ known vs v' n' ∧
  (v' = v ∧ n' = n ∨ read_at c own v' n').
Proof.
  intros [b Hoc Hb|e Hoc Hb He|e He] Hk; cbn; [split_and!; try done; by right|..]; rewrite He; auto.
  split_and!; try done. by right.
Qed.
(** What a write makes of an object: another status, or other finalizers. *)
Definition own_edit (b c : obj k) : Prop :=
  (∃ o, c = rs_with_status b o) ∨
  ∃ fs, (deleting b → fs ⊆ om_Finalizers (rs_meta b)) ∧ c = rs_with_meta b (with_finalizers (rs_meta b) fs).
(** A write appends a version, or leaves the versions as they are. *)
Definition written (edit : obj k → obj k → Prop) (vs : list (option (obj k))) (own : nat) (v : view) (n : nat)
    (vs' : list (option (obj k))) (own' : nat) (v' : view) (n' : nat) : Prop :=
  vs' = vs ∧ own' = own ∧ (v' = v ∧ n' = n ∨ is_lost v') ∨
  ∃ b c, edit b c ∧ last vs = Some (Some b) ∧ vs' = vs ++ [stored_as c] ∧ own' = length vs ∧
    (is_lost v' ∨ n' = length vs ∧ v' = Stored c).
Lemma writes_view edit vs own v n f r vs' own' v' n' :
  writes vs own v n f r vs' own' v' n' → known vs v n → (∀ b, held v = Some b → edit b (f b)) →
  write_step v f r v' ∧ known vs' v' n' ∧ written edit vs own v n vs' own' v' n'.
Proof.
  intros [b [b' Hh] Hn Hb|b e [b' Hh] Hn Hb|e] Hk Hf; cbn.
  - pose proof (known_held _ _ _ _ _ Hk Hh Hb) as ->. split; [by exists b|]. split; [apply stored_known|].
    right. exists b, (f b). rewrite last_lookup, <-Hn. cbn. split_and!; auto.
  - pose proof (known_held _ _ _ _ _ Hk Hh Hb) as ->. rewrite Hh. split; [done|]. split.
    + left. by apply lookup_app_l_Some.
    + right. exists b, (f b). rewrite last_lookup, <-Hn. cbn. split_and!; auto. left. by eexists.
  - split; [done|]. split; [destruct v; cbn in *; auto|]. left. split_and!; try done.
    destruct v; cbn; [by left..|right; by eexists|right; by eexists|right; by eexists].
Qed.
Lemma act_view vs c own v n a r vs' own' v' n' :
  act_step vs c own v n a r vs' own' v' n' → known vs v n → view_ok v a →
  view_step v a r v' ∧ known vs' v' n' ∧
  (vs' = vs ∧ own' = own ∧ (v' = v ∧ n' = n ∨ read_at c own v' n') ∨ written own_edit vs own v n vs' own' v' n').
Proof.
  intros [src k' key e r0 v1 n1 Hi Hr|k' o e r0 vs1 own1 v1 n1 Hi Hw|k' o e r0 vs1 own1 v1 n1 Hi Hw|a0 r0 Hf] Hk Hok;
    cbn in Hok |- *; rewrite ?Hi in *.
  - destruct (reads_cache_view _ _ _ _ _ _ _ _ Hr Hk) as (Hst & Hk' & H).
    naive_solver.
  - destruct (writes_view own_edit _ _ _ _ _ _ _ _ _ _ Hw Hk) as (Hst & Hk' & H); [|auto].
    intros b Hb. destruct Hok as (b' & fs & Hb' & Hfs & ->). right. exists fs. by simplify_eq.
  - destruct (writes_view own_edit _ _ _ _ _ _ _ _ _ _ Hw Hk) as (Hst & Hk' & H); [|auto].
    intros b Hb. left. by eexists.
  - split; [|naive_solver]. destruct a0; cbn in *; try done; by rewrite Hf.
Qed.

(** A lasting object stays so through the controller's own writes and edits it is not woken by. *)
Context (Hown : ∀ b c, lasting b → own_edit b c → lasting c).
Context (Hlasting : ∀ b c, lasting b → quiet_edit b c → lasting c).
Lemma q_inv_act vs c own d t a f v n r vs' own' v' n' :
  q_inv (mkQueue vs c own d t (Some (Act a f, v, n))) → act_step vs c own v n a r vs' own' v' n' →
  q_inv (mkQueue vs' c own' d t (Some (f r, v', n'))).
Proof.
  intros [Hc Ho He Hi Hr] Ha. cbn in *. destruct (Hr _ _ _ eq_refl) as ([Hok Hwp] & Hk & Hv).
  destruct (act_view _ _ _ _ _ _ _ _ _ _ _ Ha Hk Hok) as (Hst & Hk' & Hcase). specialize (Hwp r v' Hst).
  destruct Hcase as [(-> & -> & Hcase)|[(-> & -> & Hcase)|(b & b' & Hedit & Hl & -> & -> & Hcase)]].
  - split; cbn; [done..|]. intros p v1 n1 [= <- <- <-]. split; [done|]. split; [done|].
    destruct Hcase as [[-> ->]|[-> Hat]]; [done|].
    destruct v'; try done; [|split; [done|]]; intros _ i; lia.
  - split; cbn; [done..|]. intros p v1 n1 [= <- <- <-]. split; [done|]. split; [done|].
    by destruct Hcase as [[-> ->]|[b ->]].
  - split; cbn; rewrite ?length_app; cbn; [lia|lia| |done|].
    + intros i x' y' Hx' Hy'. pose proof (lookup_lt_Some _ _ _ Hy') as Hlt. rewrite length_app in Hlt. cbn in Hlt.
      destruct (lookup_snoc_S _ _ _ _ _ Hx' Hy') as [[H1 H2]|(_ & H1 & ->)].
      * pose proof (lookup_lt_Some _ _ _ H2). destruct (He _ _ _ H1 H2) as [?|[?|[? ?]]]; auto.
        right. right. split; [lia|done].
      * right. right. split; [lia|]. simplify_eq. unfold stored_as. cbn. intros Hb.
        case_decide; [done|]. by eapply Hown.
    + intros p v1 n1 [= <- <- <-]. split; [done|]. split; [done|].
      destruct Hcase as [[b1 ->]|[-> ->]]; [done|]. split; [done|]. intros _ i; lia.
Qed.
Lemma calm_step vs n c x y : calm vs n c → vs !! c = Some x → vs !! S c = Some y → wakes x y = false →
  calm vs n (S c).
Proof.
  intros Hcalm Hx Hy Hw i x' y' Hi Hx' Hy'. destruct (decide (i = c)) as [->|]; [by simplify_eq|].
  eapply Hcalm; [|done..]. lia.
Qed.

Context (Hreconcile : settles (bd_Reconcile ctl req)).
Lemma q_inv_deliver vs c own d t run x y :
  q_inv (mkQueue vs c own d t run) → vs !! c = Some x → vs !! S c = Some y →
  q_inv (mkQueue vs (S c) own (d || wakes x y) t run).
Proof.
  intros [Hc Ho He Hi Hr] Hx Hy. split; cbn in *; [by eapply lookup_lt_Some|done|done| |].
  - intros -> [-> Hw]%orb_false_iff ->. destruct (Hi eq_refl eq_refl eq_refl) as (n & x' & ? & ? & ?).
    exists n, x'. split_and!; try done. by eapply calm_step.
  - intros p v n Hrun. destruct (Hr p v n Hrun) as (Hwp & Hk & Hv). split; [done|]. split; [done|].
    destruct v; try done; [|destruct Hv as [? Hv]; split; [done|]..];
      intros [Hd Hw]%orb_false_iff; eapply calm_step; eauto.
Qed.
Lemma q_inv_return vs c own d t o v n :
  q_inv (mkQueue vs c own d t (Some (Ret o, v, n))) → q_inv (mkQueue vs c own d (t || negb (finished o)) None).
Proof.
  intros [Hc Ho He Hi Hr]. split; cbn in *; [done..| |done].
  intros _ -> [-> Hf]%orb_false_iff. apply negb_false_iff in Hf.
  destruct (Hr _ _ _ eq_refl) as (Hq & Hk & Hv). specialize (Hq Hf).
  destruct v as [| |b|b|b]; try done.
  - exists n, None. split_and!; [done|by right|auto].
  - destruct Hv as [H1 H2]. exists n, (Some b). split_and!; [done| |auto].
    destruct Hq as [Hq|[Hfr Hq]]; [by right|left]. split; [|done]. by destruct H1 as [|H1]; [|rewrite Hfr in H1].
  - destruct Hv as [H1 H2].
    destruct Hk as [Hk|Hk]; [exists n, (Some b)|exists n, None]; (split_and!; [done|by left|auto]).
Qed.
Lemma q_inv_step s s' : q_step s s' → q_inv s → q_inv s'.
Proof.
  intros Hst HI. destruct Hst as [vs c own d t run b b' Hl Hb|vs c own d t run b Hl|vs c own d t run b Hl|
    vs c own d t run x y Hx Hy|vs c own d run|vs c own t|vs c own d t a f v n r vs' own' v' n' Ha|
    vs c own d t o v n|vs c own d t run].
  - eapply q_inv_snoc; [done|done|]. destruct Hb as [Hb|Hb]; [left; by apply wakes_changed|right; naive_solver].
  - eapply q_inv_snoc; [done|done|]. left. apply wakes_removed.
  - eapply q_inv_snoc; [done|done|]. left. apply wakes_created.
  - by apply q_inv_deliver.
  - destruct HI as [Hc Ho He Hi Hr]. split; cbn in *; [done..|]. intros p v n Hrun.
    destruct (Hr p v n Hrun) as (Hwp & Hk & Hv). split; [done|]. by destruct v; naive_solver.
  - destruct HI as [Hc Ho He Hi Hr]. split; cbn in *; [done..|]. intros p v n [= <- <- <-]. by split.
  - by eapply q_inv_act.
  - by eapply q_inv_return.
  - destruct HI as [Hc Ho He Hi Hr]. by split; cbn in *; try lia.
Qed.
Lemma q_inv_start x : q_inv (q_start x).
Proof. split; cbn; [lia|lia| |done|done]. by intros [] ? ? _ ?. Qed.

(** Between versions that no event separates, a settled object stays settled. *)
Context (Hsettled : ∀ b, lasting b → settled b).
Context (Hquiet : ∀ b c, settled b → quiet_edit b c → settled c).
Lemma calm_settled vs own n c x y :
  (∀ i x y, vs !! i = Some x → vs !! S i = Some y →
    wakes x y = true ∨ (∃ b c, x = Some b ∧ y = Some c ∧ quiet_edit b c) ∨
    (i < own)%nat ∧ (lasting_at x → lasting_at y)) →
  (n ≤ c)%nat → calm vs n c → vs !! n = Some x → ((own ≤ n)%nat ∧ settled_at x ∨ lasting_at x) →
  vs !! c = Some y → ((own ≤ c)%nat ∧ settled_at y ∨ lasting_at y).
Proof.
  intros He Hnc. revert y. induction Hnc as [|c Hnc IH]; intros y Hcalm Hx Hs Hy; [by simplify_eq|].
  destruct (lookup_lt_is_Some_2 vs c) as [z Hz]. { apply lookup_lt_Some in Hy. lia. }
  assert ((own ≤ c)%nat ∧ settled_at z ∨ lasting_at z) as Hsz.
  { apply IH; try done. intros i x' y' Hi. apply Hcalm. lia. }
  assert (wakes z y = false) as Hw by (eapply Hcalm; [|done..]; lia).
  destruct (He c z y) as [?|[(b & b' & -> & -> & Hq)|[Hlt Hl]]]; [done|done|congruence|..].
  - destruct Hsz as [[Ho Hsz]|Hsz]; [left; split; [lia|]; by eapply Hquiet|right; by eapply Hlasting].
  - destruct Hsz as [[Ho _]|Hsz]; [lia|right; by apply Hl].
Qed.
Lemma idle_settled x s : rtc q_step (q_start x) s → idle s → ∀ b, last (q_versions s) = Some (Some b) → settled b.
Proof.
  intros Hs (Hrun & Hd & Ht & Hcache) b Hb.
  assert (q_inv s) as [Hc Ho He Hi Hr].
  { revert Hs. apply (rtc_ind_r (λ s, q_inv s)); [apply q_inv_start|]. intros. by eapply q_inv_step. }
  destruct (Hi Hrun Hd Ht) as (n & y & Hy & Hs' & Hcalm).
  rewrite last_lookup, <-Hcache in Hb. cbn in Hb.
  assert (n ≤ q_cache s)%nat by (apply lookup_lt_Some in Hy; lia).
  destruct (calm_settled _ _ _ _ _ _ He H Hcalm Hy Hs' Hb) as [[_ ?]|?]; [done|by apply Hsettled].
Qed.

(** ** A scheduler, to run it *)
Section scheduler.
Context (world : ∀ a : api, reply a).
Definition uncast_res {k'} (e : k' = k) (r : res (obj k)) : res (obj k') :=
  eq_rect_r (λ x, res (obj x)) r e.
Lemma cast_uncast {k'} (e : k' = k) r : cast_res e (uncast_res e r) = r.
Proof. exact (rew_opp_r (λ x, res (obj x)) e r). Qed.
Abbreviation after r := (r * list (option (obj k)) * nat * view * nat)%type.
(** Writes that may be accepted are. *)
Definition q_write (vs : list (option (obj k))) (own : nat) (v : view) (n : nat) (f : obj k → obj k)
    : after (res (obj k)) :=
  let refused := (Err (Errorf "conflict"), vs, own, match held v with Some b => Lost b | None => v end, n) in
  match held v, vs !! n with
  | Some _, Some (Some b) =>
      if decide (S n = length vs)
      then (Ok (f b), vs ++ [stored_as (f b)], length vs, Stored (f b), length vs)
      else refused
  | _, _ => refused
  end.
Definition q_read (vs : list (option (obj k))) (cache own : nat) (v : view) (n : nat) : after (res (obj k)) :=
  let failed := (Err (Errorf "unavailable"), vs, own, v, n) in
  if decide ((own ≤ cache)%nat ∨ fresh = false) then
    match vs !! cache with
    | Some (Some b) => (Ok b, vs, own, Seen b, cache)
    | Some None => (Err (Error ENotFound "not found"), vs, own, Gone, cache)
    | None => failed
    end
  else failed.
Definition map_reply {A B} (f : A → B) (x : after A) : after B :=
  let '(r, vs, own, v, n) := x in (f r, vs, own, v, n).
(** Reads and writes of the object; calls on others are answered by [world]. *)
Definition q_answer (vs : list (option (obj k))) (cache own : nat) (v : view) (n : nat) (a : api)
    : option (after (reply a)) :=
  match a as a' return option (after (reply a')) with
  | AGet src k' key =>
      match is_kind k' with
      | Some e => Some (map_reply (uncast_res e) (q_read vs cache own v n))
      | None => Some (world (AGet src k' key), vs, own, v, n)
      end
  | AUpdate k' o =>
      match is_kind k' with
      | Some e => Some (map_reply (uncast_res e) (q_write vs own v n (λ _, eq_rect k' obj o k e)))
      | None => Some (world (AUpdate k' o), vs, own, v, n)
      end
  | AStatusUpdate k' o =>
      match is_kind k' with
      | Some e => Some (map_reply (uncast_res e)
                    (q_write vs own v n (λ b, rs_with_status b (eq_rect k' obj o k e))))
      | None => Some (world (AStatusUpdate k' o), vs, own, v, n)
      end
  | ACreate k' o => match is_kind k' with Some _ => None | None => Some (world (ACreate k' o), vs, own, v, n) end
  | APatch k' o o' => match is_kind k' with Some _ => None | None => Some (world (APatch k' o o'), vs, own, v, n) end
  | ADelete k' key => match is_kind k' with Some _ => None | None => Some (world (ADelete k' key), vs, own, v, n) end
  | ACreateOrUpdate k' key f =>
      match is_kind k' with Some _ => None | None => Some (world (ACreateOrUpdate k' key f), vs, own, v, n) end
  | a => Some (world a, vs, own, v, n)
  end.

Inductive q_move := MTake | MAct | MReturn | MDeliver | MFire | MChange (f : obj k → obj k).
Definition q_tick (s : queue) (m : q_move) : queue :=
  let '(mkQueue vs c own d t run) := s in
  match m, run with
  | MTake, None => if d then mkQueue vs c own false t (Some (bd_Reconcile ctl req, Unread, 0%nat)) else s
  | MAct, Some (Act a f, v, n) =>
      match q_answer vs c own v n a with
      | Some (r, vs', own', v', n') => mkQueue vs' c own' d t (Some (f r, v', n'))
      | None => s
      end
  | MReturn, Some (Ret o, _, _) => mkQueue vs c own d (t || negb (finished o)) None
  | MDeliver, _ => match vs !! c, vs !! S c with
                   | Some x, Some y => mkQueue vs (S c) own (d || wakes x y) t run
                   | _, _ => s
                   end
  | MFire, _ => if t then mkQueue vs c own true false run else s
  | MChange f, _ => match last vs with
                    | Some (Some b) => if decide (changed b (f b))
                                       then mkQueue (vs ++ [Some (f b)]) c own d t run else s
                    | _ => s
                    end
  | _, _ => s
  end.
Lemma q_write_writes vs own v n f r vs' own' v' n' :
  q_write vs own v n f = (r, vs', own', v', n') → writes vs own v n f r vs' own' v' n'.
Proof.
  unfold q_write. intros H. destruct (held v) as [b|] eqn:Hh.
  - destruct (vs !! n) as [[c|]|] eqn:Hn; [case_decide|..]; injection H as <- <- <- <- <-;
      [by apply w_ok|pose proof (w_refused vs own v n f (Errorf "conflict")) as Hw; by rewrite Hh in Hw..].
  - injection H as <- <- <- <- <-.
    pose proof (w_refused vs own v n f (Errorf "conflict")) as Hw. by rewrite Hh in Hw.
Qed.
Lemma q_read_reads vs c own v n r vs' own' v' n' :
  q_read vs c own v n = (r, vs', own', v', n') → vs' = vs ∧ own' = own ∧ reads_cache vs c own v n r v' n'.
Proof.
  unfold q_read. intros H. case_decide; [destruct (vs !! c) as [[b|]|] eqn:Hc|]; injection H as <- <- <- <- <-;
    (split; [done|]; split; [done|]); [by apply r_found|by apply r_gone|by apply r_failed..].
Qed.
Lemma q_answer_step vs c own v n a r vs' own' v' n' :
  q_answer vs c own v n a = Some (r, vs', own', v', n') → act_step vs c own v n a r vs' own' v' n'.
Proof.
  destruct a as [src k' key| |k' o|k' o|k' o|k' old new|k' key|k' key f| |]; cbn; intros H;
    try (injection H as <- <- <- <- <-; by apply a_other);
    destruct (is_kind k') as [e|] eqn:Hk; try done;
    try (injection H as <- <- <- <- <-; by apply a_other).
  - destruct (q_read _ _ _ _ _) as [[[[r0 vs0] own0] v0] n0] eqn:Hr. injection H as <- <- <- <- <-.
    apply q_read_reads in Hr as (-> & -> & Hr). eapply a_get; [done|]. by rewrite cast_uncast.
  - destruct (q_write _ _ _ _ _) as [[[[r0 vs0] own0] v0] n0] eqn:Hw. injection H as <- <- <- <- <-.
    apply q_write_writes in Hw. eapply a_update; [done|]. by rewrite cast_uncast.
  - destruct (q_write _ _ _ _ _) as [[[[r0 vs0] own0] v0] n0] eqn:Hw. injection H as <- <- <- <- <-.
    apply q_write_writes in Hw. eapply a_status; [done|]. by rewrite cast_uncast.
Qed.
Lemma q_tick_step s m : rtc q_step s (q_tick s m).
Proof.
  destruct s as [vs c own d t run], m; cbn; try (by destruct run as [[[[] ?] ?]|]).
  - destruct run as [[[[] ?] ?]|]; [done|done|]. destruct d; [|done]. apply rtc_once, q_take.
  - destruct run as [[[[|a f] v] n]|]; [done| |done].
    destruct (q_answer _ _ _ _ _ _) as [[[[[r vs'] own'] v'] n']|] eqn:Ha; [|done].
    apply rtc_once, q_act. by apply q_answer_step.
  - destruct run as [[[[] ?] ?]|]; [|done..]. apply rtc_once, q_return.
  - destruct (vs !! c) eqn:Hx; [|done]. destruct (vs !! S c) eqn:Hy; [|done]. by apply rtc_once, q_deliver.
  - destruct t; [|done]. apply rtc_once, q_fire.
  - destruct (last vs) as [[b|]|] eqn:Hl; [|done..]. case_decide; [|done].
    apply rtc_once, (q_edit _ _ _ _ _ _ b); [done|by left].
Qed.
Lemma q_ticks_step s ms : rtc q_step s (foldl q_tick s ms).
Proof. revert s. induction ms as [|m ms IH]; intros s; [done|]. etrans; [apply q_tick_step|apply IH]. Qed.
End scheduler.
End queue.
Arguments view k : clear implicits.
Arguments queue k : clear implicits.
#[global] Hint Resolve settled_again : operator.

(** [if cond { write }; if err != nil { return err }], the write being of finalizers or of the
    status of [b]: the goal is [wp view_env write (kept b) v]. *)
Ltac own_write :=
  lazymatch goal with
  | Hv : current ?v ?b, Hd : om_DeletionTimestamp _ = None |- wp _ (if ?x then _ else _) _ ?v =>
      destruct x; first [by apply wp_ret; split | idtac];
      unfold Update, StatusUpdate; apply wp_call;
      [first [done | exact (added_finalizers _ _ _ (current_held _ _ Hv) Hd)]|];
      let c := fresh "c" in let v := fresh "v" in
      intros [c|?] v; [intros [-> ->]%(stored_current _ _ _ _ _ Hv)|intros _]; apply wp_ret;
        first [done | by split; [right|]]
  end.
