(* ===== verification/QueueFacts.v ===== *)
(** * No wake-up is lost

    The three controllers against the work queue of [Queue.v]: a reconcile that asks not to
    be called again has left its object as its spec wants it reported, or released it. *)
From S2P Require Import Prelude GoLib Effects Types Samples KubeTypes Kube KubeLib Footprint Status Executor Manager Tls Trust TrustFacts Rollout BucketController BucketFacts BucketTypes UserController StatefulSet StatefulSetFacts ClusterController Footprints UserFacts ClusterFacts Monitoring Wiring Queue.

#[global] Instance bucket_resource : Resource KBucket := {|
  rs_meta := bk_Meta : obj KBucket → ObjectMeta;
  rs_with_meta := bk_with_meta;
  rs_with_status b c := bk_with_status b (bk_Status c);
  is_kind k' := match k' return option (k' = KBucket) with KBucket => Some eq_refl | _ => None end
|}.
#[global] Instance user_resource : Resource KUser := {|
  rs_meta := us_Meta : obj KUser → ObjectMeta;
  rs_with_meta := us_with_meta;
  rs_with_status u c := us_with_status u (us_Status c);
  is_kind k' := match k' return option (k' = KUser) with KUser => Some eq_refl | _ => None end
|}.
#[global] Instance cluster_resource : Resource KCluster := {|
  rs_meta := cl_Meta : obj KCluster → ObjectMeta;
  rs_with_meta := cl_with_meta;
  rs_with_status c d := cl_with_status c (cl_Status d);
  is_kind k' := match k' return option (k' = KCluster) with KCluster => Some eq_refl | _ => None end
|}.

(** ** What is left when nothing is left to do *)
Section settled.
Context `{L : KubeLib}.
Definition released (m : ObjectMeta) (finalizer : string) : Prop :=
  is_Some (om_DeletionTimestamp m) ∧ ContainsFinalizer (om_Finalizers m) finalizer = false.
(** Ready, with the properties, the type and the name its spec asks for, as of this generation. *)
Definition bucket_reported (b : RiakBucket) : Prop :=
  bst_Phase (bk_Status b) = BucketPhaseReady ∧ bst_Created (bk_Status b) = true ∧
  bst_BucketName (bk_Status b) = bs_BucketName (bk_Spec b) ∧
  bst_BucketType (bk_Status b) = bucket_type (bk_Spec b) ∧
  (bst_Properties (bk_Status b), bst_NVal (bk_Status b)) = effectiveBucketProperties (bk_Spec b) ∧
  ∃ c, FindStatusCondition (bst_Conditions (bk_Status b)) conditionReady = Some c ∧
    cd_Status c = ConditionTrue ∧ cd_ObservedGeneration c = om_Generation (bk_Meta b).
Definition bucket_settled (b : obj KBucket) : Prop :=
  released (bk_Meta b) riakBucketFinalizerName ∨ bucket_reported b.
(** Ready with its grants and its certificate, or rejected for want of a certificate. *)
Definition user_reported (u : RiakUser) : Prop :=
  ust_Phase (us_Status u) = UserPhaseReady ∧ ust_Created (us_Status u) = true ∧
  ust_Username (us_Status u) = us_Username (us_Spec u) ∧ ust_Grants (us_Status u) = us_Grants (us_Spec u) ∧
  ust_CertificateReady (us_Status u) = true.
Definition user_rejected (u : RiakUser) : Prop :=
  us_CertificateRef (us_Spec u) = None ∧ ust_Phase (us_Status u) = UserPhaseFailed ∧
  ust_Error (us_Status u) = certificate_ref_missing.
(** A user reconciled from a cache older than its own writes is only known not to be left half
    deleted: [stale_ready_stays_failed]. *)
Definition user_settled (fresh : bool) (u : obj KUser) : Prop :=
  released (us_Meta u) riakUserFinalizerName ∨
  if fresh then user_reported u ∨ user_rejected u else om_DeletionTimestamp (us_Meta u) = None.
(** What holds of the versions the cache does not hold yet. *)
Definition bucket_lasting (b : obj KBucket) : Prop := released (bk_Meta b) riakBucketFinalizerName.
Definition user_lasting (fresh : bool) (u : obj KUser) : Prop :=
  released (us_Meta u) riakUserFinalizerName ∨ fresh = false ∧ om_DeletionTimestamp (us_Meta u) = None.
Definition cluster_settled (c : obj KCluster) : Prop := released (cl_Meta c) riakClusterFinalizerName.

Context `{HL : !KubeLibLaws L}.
Lemma released_edit m m' f :
  released m f → om_DeletionTimestamp m' = om_DeletionTimestamp m →
  (is_Some (om_DeletionTimestamp m) → om_Finalizers m' ⊆ om_Finalizers m) → released m' f.
Proof.
  intros [Hd Hf] Hd' Hs. split; [by rewrite Hd'|]. specialize (Hs Hd).
  apply not_true_iff_false in Hf. apply not_true_iff_false.
  intros Hc%finalizer_contains. apply Hf, finalizer_contains. by apply Hs.
Qed.
Lemma released_remove m f :
  is_Some (om_DeletionTimestamp m) → released (with_finalizers m (RemoveFinalizer (om_Finalizers m) f)) f.
Proof.
  intros Hd. split; [done|]. apply not_true_iff_false. cbn.
  by intros [Hne _]%finalizer_contains%finalizer_remove.
Qed.
Lemma released_own m fs f :
  released m f → (is_Some (om_DeletionTimestamp m) → fs ⊆ om_Finalizers m) → released (with_finalizers m fs) f.
Proof. intros Hr Hfs. by eapply released_edit. Qed.
Lemma bucket_lasting_own b c : bucket_lasting b → own_edit b c → bucket_lasting c.
Proof. intros Hs [[o ->]|(fs & Hfs & ->)]; [done|by apply released_own]. Qed.
Lemma bucket_lasting_edit b c : bucket_lasting b → quiet_edit b c → bucket_lasting c.
Proof. intros Hs (m & -> & Hg & Hd & Hf). by eapply released_edit. Qed.
Lemma bucket_settled_edit b c : bucket_settled b → quiet_edit b c → bucket_settled c.
Proof.
  intros [Hs|Hs] He; [left; by apply (bucket_lasting_edit b)|right]. destruct He as (m & -> & Hg & _).
  unfold bucket_reported in *. cbn in *. by rewrite Hg.
Qed.
Lemma user_lasting_own fr b c : user_lasting fr b → own_edit b c → user_lasting fr c.
Proof.
  intros [Hs|Hs] [[o ->]|(fs & Hfs & ->)]; [by left|left; by apply released_own|by right..].
Qed.
Lemma user_lasting_edit fr b c : user_lasting fr b → quiet_edit b c → user_lasting fr c.
Proof.
  intros [Hs|[? Hs]] (m & -> & Hg & Hd & Hf); [left; by eapply released_edit|right].
  split; [done|]. cbn in *. by rewrite Hd.
Qed.
Lemma user_settled_edit fr u c : user_settled fr u → quiet_edit u c → user_settled fr c.
Proof.
  intros [Hs|Hs] (m & -> & Hg & Hd & Hf); [left; by eapply released_edit|right].
  destruct fr; [done|]. cbn in *. by rewrite Hd.
Qed.
Lemma cluster_settled_own b c : cluster_settled b → own_edit b c → cluster_settled c.
Proof. intros Hs [[o ->]|(fs & Hfs & ->)]; [done|by apply released_own]. Qed.
Lemma cluster_settled_edit b c : cluster_settled b → quiet_edit b c → cluster_settled c.
Proof. intros Hs (m & -> & Hg & Hd & Hf). by eapply released_edit. Qed.
End settled.

(** ** The bucket controller *)
Section bucket.
Context `{L : KubeLib} `{HL : !KubeLibLaws L} `{J : GoJson} (fresh : bool).
Abbreviation ends p v := (wp view_env p (settled_view fresh bucket_settled bucket_lasting) v).

Lemma failBucket_again b reason msg d :
  (0 < d)%Z → footprint (polite (k:=KBucket)) (failBucket b reason msg ≫= λ _, mret (finish (requeue d)))
    (λ o, finished o = false).
Proof.
  intros Hd. eapply (fp_bind _ _ _ (λ _, True)); [unfold failBucket; fp|]. intros _ _. apply fp_ret.
  unfold finished. cbn. by destruct d.
Qed.
Lemma provision_bucket_settles b cluster v :
  current v (b : obj KBucket) → ends (provision_bucket b cluster) v.
Proof.
  intros Hv. unfold provision_bucket. destruct (effectiveBucketProperties _) as [props n] eqn:Hprops.
  eapply wp_foreign_bind; [apply runs_foreign, CreateBucketType_fp|]. intros [e|] _.
  { by apply wp_again, (failBucket_again b). }
  unfold Now, StatusUpdate. apply wp_call; [done|]. intros now v1 ->. apply wp_call; [done|]. intros tc v1 ->.
  apply wp_call; [done|]. intros [c|e] v1; [|by intros _; apply wp_ret].
  intros [-> ->]%(stored_current _ _ _ _ _ Hv).
  apply wp_ret. intros _. right. unfold bucket_reported. cbn. rewrite Hprops. split_and!; try done.
  eexists. split; [apply setCondition_find|]. done.
Qed.
Lemma bucket_with_cluster_settles b v : current v (b : obj KBucket) → ends (bucket_with_cluster b) v.
Proof.
  intros Hb. unfold bucket_with_cluster, Get. apply wp_call; [done|]. intros [cluster|e] v1 ->.
  - destruct (negb _); [|by apply provision_bucket_settles]. apply wp_again. unfold Now.
    apply fp_call; [done|]. intros now. destruct (setCondition _ _ _ _ _ _ _) as [conds changed].
    eapply (fp_bind _ _ _ (λ _, True)); [destruct changed; fp|]. intros. by apply fp_ret.
  - destruct (negb _); [by apply wp_ret|]. by apply wp_again, (failBucket_again b).
Qed.
Lemma ReconcileBucket_settles req : settles fresh bucket_settled bucket_lasting (ReconcileBucket req).
Proof.
  unfold settles, ReconcileBucket, Get. apply wp_call; [done|]. intros [b|e] v Hv; cbn in Hv; subst v.
  2: { apply wp_ret. unfold settled_view, finished. cbn. by destruct (IsNotFound e). }
  assert (current (Seen (b : obj KBucket)) b) as Hv by by left. revert Hv. generalize (Seen (b : obj KBucket)).
  intros v Hv. destruct (om_DeletionTimestamp (bk_Meta b)) as [t|] eqn:Hd.
  - destruct (ContainsFinalizer _ _) eqn:Hf.
    + unfold Update. apply wp_call; [exact (removed_finalizers (k:=KBucket) v b riakBucketFinalizerName (current_held _ _ Hv))|].
      intros [c|e] v'; [|by intros _; apply wp_ret].
      intros (b' & Hb' & -> & ->). apply wp_ret. intros _. left. by apply released_remove; eexists.
    + apply wp_ret. apply (settled_current _ _ _ _ _ b); [done|left|left]; (split; [by eexists|done]).
  - apply wp_bind_2 with (Q1 := kept (k:=KBucket) b); [own_write|].
    intros [c|e] v1; [intros [Hc Hd1]|by intros _; apply wp_ret].
    apply wp_bind_2 with (Q1 := kept (k:=KBucket) c); [own_write|].
    intros [c'|e] v2; [intros [Hc' _]|by intros _; apply wp_ret]. by apply bucket_with_cluster_settles.
Qed.
End bucket.

(** ** The user controller *)
Section user.
Context `{L : KubeLib} `{HL : !KubeLibLaws L} `{X : GoX509} (apiReader fresh : bool).
Abbreviation wpu := (wp (view_env (k:=KUser))).
Abbreviation ends p v := (wpu p (settled_view fresh (user_settled fresh) (user_lasting fresh)) v).
Abbreviation again p := (footprint (polite (k:=KUser)) p (λ o, finished o = false)).

Lemma fail_and_requeue_again u reason msg d : (0 < d)%Z → again (fail_and_requeue u reason msg d).
Proof.
  intros Hd. unfold fail_and_requeue. eapply (fp_bind _ _ _ (λ _, True)); [unfold failUser; fp|].
  intros _ _. apply fp_ret. unfold finished. cbn. by destruct d.
Qed.
Lemma userCertificateReadiness_foreign u certRef c :
  footprint (foreign (k:=KUser)) (userCertificateReadiness apiReader u certRef c) (λ _, True).
Proof.
  assert (∀ a, side_reads a → foreign (k:=KUser) a) as Hside by (by intros [? [] ?| | | | | | | | |]).
  unfold userCertificateReadiness. destruct (ucr_IssuerRef certRef).
  - eapply fp_bind; [eapply fp_weaken; [exact Hside|apply fetchCertificateReadiness_fp]|]. intros. fp.
  - apply fp_call; [done|]. intros now. eapply fp_weaken; [exact Hside|apply externalCertificateReadiness_fp].
Qed.
(** A user marked Ready is reported as its spec wants, whether or not that took a write. *)
Lemma markUserReady_reported u clusterName ready why v : current v (u : obj KUser) →
  wpu (markUserReady u clusterName ready why)
    (λ r v, r = None → ready = true → ∃ u', current v (u' : obj KUser) ∧ user_reported u' ∧ us_Meta u' = us_Meta u) v.
Proof.
  intros Hv. unfold markUserReady. set (same := _ && equalGrants _ _). destruct (if ready then _ else _) as [cr cm].
  unfold Now, StatusUpdate. apply wp_call; [done|]. intros n1 v1 ->.
  destruct (setCondition _ _ _ _ _ _ _) as [c1 ch1].
  apply wp_call; [done|]. intros n2 v1 ->. destruct (setCondition _ _ _ _ _ _ _) as [c2 ch2].
  destruct (same && negb ch1 && negb ch2) eqn:Hsame.
  - apply wp_ret. intros _ ->. exists u. split; [done|]. split; [|done]. subst same.
    rewrite !andb_true_iff in Hsame. destruct Hsame as [[H _] _]. destruct_and?.
    unfold equalGrants in *. unfold user_reported.
    repeat match goal with
           | H : String.eqb _ _ = true |- _ => apply String.eqb_eq in H
           | H : Bool.eqb _ _ = true |- _ => apply Bool.eqb_prop in H
           | H : bool_decide _ = true |- _ => apply bool_decide_eq_true in H
           end. done.
  - apply wp_call; [done|]. intros now v1 ->. apply wp_call; [done|].
    intros [c|e] v1; [|by intros _; apply wp_ret].
    intros [-> ->]%(stored_current _ _ _ _ _ Hv). apply wp_ret. intros _ ->. eexists. split; [by right|]. by split.
Qed.
Lemma certRequeue_again now certRef ready notAfter :
  finished (finish (certRequeue now certRef ready notAfter)) = true → ready = true.
Proof. by destruct ready. Qed.
(** A user that is not being deleted, reported or rejected. *)
Lemma user_settled_live (o : outcome) v u :
  current v (u : obj KUser) → om_DeletionTimestamp (us_Meta u) = None → user_reported u ∨ user_rejected u →
  settled_view fresh (user_settled fresh) (user_lasting fresh) o v.
Proof.
  intros Hv Hd Hu. apply (settled_current _ _ _ _ _ _ Hv).
  - right. by destruct fresh.
  - destruct fresh; [by right|left; right; done].
Qed.
Lemma provision_user_settles u certRef c v : om_DeletionTimestamp (us_Meta u) = None →
  current v (u : obj KUser) → ends (provision_user apiReader u certRef c) v.
Proof.
  intros Hd Hv. unfold provision_user.
  eapply wp_foreign_bind; [apply runs_foreign, CreateUserForCert_fp|].
  intros [e|] _; [by apply wp_again, fail_and_requeue_again|].
  eapply wp_foreign_bind; [apply runs_foreign, AddSecuritySource_fp|].
  intros [e|] _; [by apply wp_again, fail_and_requeue_again|].
  eapply wp_foreign_bind; [apply runs_foreign, GrantUserPermissions_fp|].
  intros [e|] _; [by apply wp_again, fail_and_requeue_again|].
  eapply wp_foreign_bind; [apply userCertificateReadiness_foreign|]. intros [[ready why] notAfter] _.
  eapply wp_bind_2; [by apply markUserReady_reported|]. intros [e|] v1 Hr; [by apply wp_ret|].
  unfold Now. apply wp_call; [done|]. intros now v' ->. apply wp_ret. intros Hfin.
  destruct (Hr eq_refl (certRequeue_again _ _ _ _ Hfin)) as (u' & Hu' & Hrep & Hm). revert Hfin.
  apply (user_settled_live _ _ u'); [done|by rewrite Hm|by left].
Qed.
Lemma secure_and_provision_settles u certRef c v : om_DeletionTimestamp (us_Meta u) = None →
  current v (u : obj KUser) → ends (secure_and_provision apiReader u certRef c) v.
Proof.
  intros Hd Hv. unfold secure_and_provision. destruct (cst_SecurityEnabled _); [by apply provision_user_settles|].
  eapply wp_foreign_bind; [apply runs_foreign, EnableSecurity_fp|].
  intros [e|] _; [by apply wp_again, fail_and_requeue_again|].
  unfold StatusUpdate. apply wp_call; [done|]. intros [c1|e] v1 ->; [by apply provision_user_settles|by apply wp_ret].
Qed.
Lemma reconcileUserCertificate_foreign u certRef :
  footprint (foreign (k:=KUser)) (reconcileUserCertificate u certRef) (λ _, True).
Proof. unfold reconcileUserCertificate. fp. Qed.
Lemma user_with_cluster_settles u certRef v : om_DeletionTimestamp (us_Meta u) = None →
  current v (u : obj KUser) → ends (user_with_cluster apiReader u certRef) v.
Proof.
  intros Hd Hu. unfold user_with_cluster, Get. apply wp_call; [done|]. intros [c|e] v1 ->.
  2: { destruct (negb _); [by apply wp_ret|]. by apply wp_again, fail_and_requeue_again. }
  destruct (negb _).
  { apply wp_again. unfold Now. apply fp_call; [done|]. intros now.
    destruct (setCondition _ _ _ _ _ _ _) as [conds changed].
    eapply (fp_bind _ _ _ (λ _, True)); [destruct changed; fp|]. intros. by apply fp_ret. }
  eapply wp_foreign_bind; [apply reconcileUserCertificate_foreign|].
  intros [e|] _; [|by apply secure_and_provision_settles].
  apply wp_again. unfold Now. apply fp_call; [done|]. intros now. by apply fail_and_requeue_again.
Qed.
Lemma fail_without_certificate_settles u v : om_DeletionTimestamp (us_Meta u) = None →
  us_CertificateRef (us_Spec u) = None → current v (u : obj KUser) → ends (fail_without_certificate u) v.
Proof.
  intros Hd Hc Hu. unfold fail_without_certificate, Now, StatusUpdate.
  apply wp_call; [done|]. intros n1 v1 ->. apply wp_call; [done|]. intros n2 v1 ->. apply wp_call; [done|].
  intros [c|e] v1; [|by intros _; apply wp_ret].
  intros [-> ->]%(stored_current _ _ _ _ _ Hu). apply wp_ret.
  eapply user_settled_live; [by right|done|by right].
Qed.
Lemma deleteRiakUser_foreign u t : footprint (foreign (k:=KUser)) (deleteRiakUser u t) (λ _, True).
Proof.
  unfold deleteRiakUser. destruct (negb _); [by apply fp_ret|]. unfold Get. apply fp_call; [done|].
  intros [c|e]; [|by apply fp_ret]. destruct (_ || _); [by apply fp_ret|].
  eapply fp_bind; [apply runs_foreign, DeleteUser_fp|]. intros [e|] _; [|by apply fp_ret]. fp.
Qed.
Lemma ReconcileUser_settles req :
  settles fresh (user_settled fresh) (user_lasting fresh) (ReconcileUser apiReader req).
Proof.
  unfold settles, ReconcileUser, Get. apply wp_call; [done|]. intros [u|e] v Hv; cbn in Hv; subst v.
  2: { apply wp_ret. unfold settled_view, finished. cbn. by destruct (IsNotFound e). }
  assert (current (Seen (u : obj KUser)) u) as Hv by by left. revert Hv. generalize (Seen (u : obj KUser)).
  intros v Hv. destruct (om_DeletionTimestamp (us_Meta u)) as [t|] eqn:Hd.
  - destruct (ContainsFinalizer _ _) eqn:Hf.
    + eapply wp_foreign_bind; [apply deleteRiakUser_foreign|]. intros [e|] _; [by apply wp_ret|].
      unfold Update. apply wp_call; [exact (removed_finalizers (k:=KUser) v u riakUserFinalizerName (current_held _ _ Hv))|].
      intros [c|e] v'; [|by intros _; apply wp_ret].
      intros (b' & Hb' & -> & ->). apply wp_ret. intros _. left. by apply released_remove; eexists.
    + apply wp_ret. apply (settled_current _ _ _ _ _ u); [done|left|left; left]; (split; [by eexists|done]).
  - apply wp_bind_2 with (Q1 := kept (k:=KUser) u); [own_write|].
    intros [c|e] v1; [intros [Hc1 Hd1]|by intros _; apply wp_ret]. cbn in Hd1. rewrite Hd in Hd1.
    apply wp_bind_2 with (Q1 := kept (k:=KUser) c); [own_write|].
    intros [c'|e] v2; [intros [Hc2 Hd2]|by intros _; apply wp_ret]. cbn in Hd2. rewrite Hd1 in Hd2.
    destruct (us_CertificateRef (us_Spec c')) eqn:Hc; [by apply user_with_cluster_settles|].
    by apply fail_without_certificate_settles.
Qed.
End user.

(** ** The cluster controller *)
Section cluster.
Context `{L : KubeLib} `{HL : !KubeLibLaws L} `{X : GoX509}.
Context (apiReader : bool) (DefaultImage : string) (range_order : gmap string string → list string).
Abbreviation wpc := (wp (view_env (k:=KCluster))).
Abbreviation again p := (footprint (polite (k:=KCluster)) p (λ o, finished o = false)).
Abbreviation quietly p := (footprint (polite (k:=KCluster)) p (λ _, True)).

Lemma fail_cluster_again c e : again (fail_cluster c e).
Proof. unfold fail_cluster. fp. Qed.
Lemma stop_on_again p next : quietly p → again next → again (stop_on p next).
Proof. intros Hp Hn. unfold stop_on. eapply fp_bind; [exact Hp|]. intros [e|] _; [by apply fp_ret|done]. Qed.
Lemma when_monitored_quietly c p : quietly p → quietly (when_monitored c p).
Proof. unfold when_monitored. destruct (monitoringEnabled c); [done|]. intros _. by apply fp_ret. Qed.
Lemma reconcile_objects_again c : again (reconcile_objects apiReader DefaultImage range_order c).
Proof.
  unfold reconcile_objects.
  eapply (fp_bind _ _ _ (λ _, True)); [unfold reconcileTLSCertificate; fp|].
  intros [e|] _; [apply fail_cluster_again|].
  eapply fp_bind; [eapply fp_weaken; [|apply reconcileTrustBundle_fp]; by intros [? [] ?| |[]|[]| | | | | |]|].
  intros ? _.
  apply stop_on_again; [apply when_monitored_quietly; unfold reconcileMonitoringConfigMap; fp|].
  eapply (fp_bind _ _ _ (λ _, True)); [unfold reconcileStatefulSet; fp|]. intros [e|] _; [apply fail_cluster_again|].
  apply stop_on_again; [unfold reconcileService; fp|].
  apply stop_on_again; [unfold reconcilePodDisruptionBudget; fp|].
  unfold finish_cluster. eapply fp_bind.
  { eapply fp_weaken; [|apply reconcileRollout_fp]. by intros [? [] ?| | | | |[]| | | |]. }
  intros [c1 e1] _.
  apply stop_on_again; [apply when_monitored_quietly; eapply fp_weaken; [|apply reconcileScrapeObject_fp]|].
  { by intros [? [] ?| | |[]|[]|[]|[]|[]|[]|]. }
  eapply fp_bind; [|intros; by apply fp_ret].
  eapply fp_weaken; [|apply updateClusterStatus_fp]. by intros [].
Qed.
Lemma ReconcileCluster_settles fresh req :
  settles fresh cluster_settled cluster_settled (ReconcileCluster apiReader DefaultImage range_order req).
Proof.
  unfold settles, ReconcileCluster, Get. apply wp_call; [done|]. intros [c|e] v Hv; cbn in Hv; subst v.
  2: { apply wp_ret. unfold settled_view, finished. cbn. by destruct (IsNotFound e). }
  assert (current (Seen (c : obj KCluster)) c) as Hv by by left. revert Hv. generalize (Seen (c : obj KCluster)).
  intros v Hv. destruct (bool_decide _) eqn:Hd.
  - apply bool_decide_eq_true in Hd. unfold handleDeletion. destruct (ContainsFinalizer _ _) eqn:Hf.
    + unfold Update. apply wp_call; [exact (removed_finalizers (k:=KCluster) v c riakClusterFinalizerName (current_held _ _ Hv))|].
      intros [c'|e] v'; [|by intros _; apply wp_ret].
      intros (b' & Hb' & -> & ->). apply wp_ret. intros _. by apply released_remove.
    + apply wp_ret. by apply (settled_current _ _ _ _ _ c); [|split|left; split].
  - apply bool_decide_eq_false, eq_None_not_Some in Hd.
    apply wp_bind_2 with (Q1 := kept (k:=KCluster) c); [own_write|].
    intros [c1|e] v1; [intros [Hc1 Hd1]|by intros _; apply wp_ret]. cbn in Hd1. rewrite Hd in Hd1.
    apply wp_bind_2 with (Q1 := kept (k:=KCluster) c1); [own_write|].
    intros [c2|e] v2; [intros [Hc2 _]|by intros _; apply wp_ret]. apply wp_again, reconcile_objects_again.
Qed.
End cluster.

(** ** The three controllers *)
Inductive controller := CCluster | CBucket | CUser.
Definition ctl_kind (c : controller) : kind :=
  match c with CCluster => KCluster | CBucket => KBucket | CUser => KUser end.
#[global] Instance ctl_resource c : Resource (ctl_kind c) :=
  match c with CCluster => cluster_resource | CBucket => bucket_resource | CUser => user_resource end.
Section controllers.
Context `{L : KubeLib} `{X : GoX509} `{J : GoJson}.
Context (apiReader : bool) (DefaultImage : string) (range_order : gmap string string → list string).
Context (maxConcurrent : Z).
Definition ctl_builder (c : controller) : Builder :=
  match c with
  | CCluster => SetupClusterWithManager apiReader DefaultImage range_order maxConcurrent
  | CBucket => SetupBucketWithManager maxConcurrent
  | CUser => SetupUserWithManager apiReader maxConcurrent
  end.
Definition ctl_settled (fresh : bool) (c : controller) : obj (ctl_kind c) → Prop :=
  match c with CCluster => cluster_settled | CBucket => bucket_settled | CUser => user_settled fresh end.
Definition ctl_lasting (fresh : bool) (c : controller) : obj (ctl_kind c) → Prop :=
  match c with CCluster => cluster_settled | CBucket => bucket_lasting | CUser => user_lasting fresh end.
Lemma ctl_filter c : bd_EventFilter (ctl_builder c) = GenerationChangedPredicate.
Proof. by destruct c. Qed.
Lemma ctl_lasting_settled fr c b : ctl_lasting fr c b → ctl_settled fr c b.
Proof. destruct c; cbn; [done|by left|intros [?|[-> ?]]; [by left|by right]]. Qed.
Context `{HL : !KubeLibLaws L}.
Lemma ctl_settles fr c req : settles fr (ctl_settled fr c) (ctl_lasting fr c) (bd_Reconcile (ctl_builder c) req).
Proof. destruct c; [apply ReconcileCluster_settles|apply ReconcileBucket_settles|apply ReconcileUser_settles]. Qed.
Lemma ctl_lasting_own fr c b b' : ctl_lasting fr c b → own_edit b b' → ctl_lasting fr c b'.
Proof. destruct c; [apply cluster_settled_own|apply bucket_lasting_own|apply user_lasting_own]. Qed.
Lemma ctl_lasting_edit fr c b b' : ctl_lasting fr c b → quiet_edit b b' → ctl_lasting fr c b'.
Proof. destruct c; [apply cluster_settled_edit|apply bucket_lasting_edit|apply user_lasting_edit]. Qed.
Lemma ctl_settled_edit fr c b b' : ctl_settled fr c b → quiet_edit b b' → ctl_settled fr c b'.
Proof. destruct c; [apply cluster_settled_edit|apply bucket_settled_edit|apply user_settled_edit]. Qed.
End controllers.

(** ** Repeated outcomes *)
Section repeated.
Context `{L : KubeLib} `{HL : !KubeLibLaws L}.
(** Only the clock is read, and statuses are stored for which [again] only reads the clock. *)
Definition only_clock (a : api) : Prop := a = ANow.
Definition stores_final {k} `{RS : Resource k} {A} (again : obj k → M A) (a : api) : Prop :=
  match a with
  | ANow => True
  | AStatusUpdate k' o => match is_kind k' with
                          | Some e => footprint only_clock (again (eq_rect k' obj o k e)) (λ _, True)
                          | None => False
                          end
  | _ => False
  end.
Ltac store_once :=
  apply fp_call; [cbn|intros; by apply fp_ret].

Lemma failBucket_once b reason msg :
  footprint (stores_final (k:=KBucket) (λ b', failBucket b' reason msg)) (failBucket b reason msg) (λ _, True).
Proof.
  set (again := λ b' : obj KBucket, failBucket b' reason msg). unfold failBucket, Now. apply fp_call; [done|].
  intros t1. destruct (setCondition t1 _ _ _ _ _ _) as [conds changed] eqn:Hc. apply fst_is in Hc as ->.
  destruct (_ && _); [by apply fp_ret|]. apply fp_call; [done|]. intros t2.
  unfold StatusUpdate. store_once. exact (failBucket_quiet L HL b reason msg t1 t2).
Qed.
Lemma failUser_once u reason msg :
  footprint (stores_final (k:=KUser) (λ u', failUser u' reason msg)) (failUser u reason msg) (λ _, True).
Proof.
  set (again := λ u' : obj KUser, failUser u' reason msg). unfold failUser, Now. apply fp_call; [done|].
  intros t1. destruct (setCondition t1 _ _ _ _ _ _) as [conds changed] eqn:Hc. apply fst_is in Hc as ->.
  destruct (_ && _); [by apply fp_ret|]. apply fp_call; [done|]. intros t2.
  unfold StatusUpdate. store_once. subst again. unfold failUser, Now. cbn. apply fp_call; [done|]. intros t3.
  rewrite setCondition_again. cbn. rewrite String.eqb_refl. by apply fp_ret.
Qed.
Lemma markUserReady_once u clusterName ready why :
  footprint (stores_final (k:=KUser) (λ u', markUserReady u' clusterName ready why))
    (markUserReady u clusterName ready why) (λ _, True).
Proof.
  set (again := λ u' : obj KUser, markUserReady u' clusterName ready why). unfold markUserReady, Now.
  destruct (if ready then _ else _) as [cr cm] eqn:Hcert.
  apply fp_call; [done|]. intros t1. destruct (setCondition t1 _ _ _ _ _ _) as [c1 ch1] eqn:H1.
  apply fst_is in H1 as ->.
  apply fp_call; [done|]. intros t2. destruct (setCondition t2 _ _ _ _ _ _) as [c2 ch2] eqn:H2.
  apply fst_is in H2 as ->.
  destruct (_ && negb ch2); [by apply fp_ret|]. apply fp_call; [done|]. intros t3.
  unfold StatusUpdate. store_once. subst again.
  pose proof (markUserReady_quiet L HL u clusterName ready why t1 t2 t3) as Hq. cbn zeta in Hq.
  rewrite Hcert in Hq. by eapply fp_mono.
Qed.
End repeated.

(** ** Properties *)

(** A bucket is created and reported; its n_val is then edited to 5 while the controller is
    idle, which wakes it again. *)
Definition q_demo_world (a : api) : reply a :=
  match a as a' return reply a' with
  | AGet rd k key => match k as k return res (obj k) with
                     | KCluster => Ok ready_cluster
                     | k => refuse (AGet rd k key)
                     end
  | ARun _ _ => Ok ""
  | a => refuse a
  end.
Definition q_demo_edit (b : RiakBucket) : RiakBucket :=
  mkRiakBucket (mkObjectMeta "b" "db" "" 1 None (om_Finalizers (bk_Meta b)) ∅ [])
    (mkRiakBucketSpec "c" "orders" "t" 0 true 5 {["backend" := "bitcask"]}) (bk_Status b).
Definition q_demo_pass : list (q_move (k:=KBucket)) :=
  [MTake] ++ replicate 20 MAct ++ [MReturn] ++ replicate 6 MDeliver.
Definition q_demo : queue KBucket :=
  foldl (@q_tick KBucket bucket_resource false refRuntime
           (@SetupBucketWithManager refLib demo_json 1) (mkKey "db" "b") q_demo_world)
    (q_start (Some (sample_bucket : obj KBucket))) (q_demo_pass ++ [MChange (k:=KBucket) q_demo_edit;
      MDeliver] ++ q_demo_pass).

(** A user of an issuer, whose certificate is issued; the commands of its cluster fail, or not. *)
Definition issued_user : RiakUser :=
  mkRiakUser (us_Meta sample_user)
    (mkRiakUserSpec "c" "alice" [] (Some (mkUserCertificateRef (Some (mkCertIssuerRef "ca" "Issuer")) "" "")))
    no_RiakUserStatus.
Definition issued_certificate : Unstructured :=
  mkUnstructured certificateGVK (new_meta "alice-cert" "db")
    [("status", JMap [("conditions", JList [JMap [("type", JStr "Ready"); ("status", JStr "True")]])])].
Definition issuer_world (up : bool) (a : api) : reply a :=
  match a as a' return reply a' with
  | AGet rd k key => match k as k return res (obj k) with
                     | KCluster => Ok ready_cluster
                     | KUnstructured _ => Ok issued_certificate
                     | k => refuse (AGet rd k key)
                     end
  | ARun _ _ => if up then Ok "" else Err (Errorf "riak admin: node is down")
  | AStatusUpdate k o => Ok o
  | a => refuse a
  end.
Definition stale_ticks (up : bool) : queue KUser → list (q_move (k:=KUser)) → queue KUser :=
  foldl (@q_tick KUser user_resource false refRuntime
           (@SetupUserWithManager refLib demo_x509 false 1) (mkKey "db" "alice") (issuer_world up)).
Definition q_user_pass : list (q_move (k:=KUser)) := [MTake] ++ replicate 30 MAct ++ [MReturn].
(** The user is reconciled to Ready; the operator starts again on it while the cluster's commands
    fail, and the requeue finds them working again, but the older version in the cache. *)
Definition made_ready : option (obj KUser) :=
  mjoin (last (q_versions (stale_ticks true (q_start (Some (issued_user : obj KUser))) q_user_pass))).
Definition left_failed : queue KUser :=
  stale_ticks true (stale_ticks false (q_start made_ready) q_user_pass) ([MFire] ++ q_user_pass ++ [MDeliver]).
(** A user can stay Failed under a cache older than the controller's own writes: the failure is
    stored, the requeue it asks for reads the version before it, which is Ready, succeeds, finds
    nothing to write and asks for no requeue, and the event of the stored failure, a status
    change, wakes nobody. The user is not deleted, its spec is served, and it reports Failed
    until something else changes. *)
Lemma stale_ready_stays_failed :
  ∃ (x : option (obj KUser)) (s : queue KUser), rtc (q_step false (@SetupUserWithManager refLib demo_x509 false 1) (mkKey "db" "alice")) (q_start x) s ∧
    match x with Some u => user_reported u | None => False end ∧ idle s ∧
    match last (q_versions s) with
    | Some (Some u) => ust_Phase (us_Status (u : RiakUser)) = UserPhaseFailed ∧ ¬ @user_settled refLib true u
    | _ => False
    end.
Proof.
  exists made_ready, left_failed. split; [etrans; apply q_ticks_step|].
  split; [by vm_compute|]. split; [by vm_compute|].
  destruct (last (q_versions left_failed)) as [[u|]|] eqn:Hu; vm_compute in Hu; [|done..].
  injection Hu as <-. split; [done|]. by intros [[[? ?] ?]|[(? & _)|(? & _)]].
Qed.

(** A repeated outcome writes nothing. Whatever [failBucket], [failUser] or [markUserReady]
    stores, calling it again on what was stored with the same outcome, at any later time, makes
    no call but reading the clock; so a reconcile that comes to the same conclusion every few
    seconds does not write every few seconds. *)
Lemma outcomes_recorded_once (L : KubeLib) (HL : KubeLibLaws L) (b : RiakBucket) (u : RiakUser)
    (reason message clusterName : string) (certReady : bool) :
  footprint (stores_final (k:=KBucket) (λ b', failBucket b' reason message))
    (failBucket b reason message) (λ _, True) ∧
  footprint (stores_final (k:=KUser) (λ u', failUser u' reason message))
    (failUser u reason message) (λ _, True) ∧
  footprint (stores_final (k:=KUser) (λ u', markUserReady u' clusterName certReady reason))
    (markUserReady u clusterName certReady reason) (λ _, True).
Proof. split_and!; [apply failBucket_once|apply failUser_once|apply markUserReady_once]. Qed.
Lemma outcomes_recorded_once_witness :
  footprint (stores_final (k:=KBucket) (λ b', failBucket b' "ClusterNotFound" "gone"))
    (failBucket sample_bucket "ClusterNotFound" "gone") (λ _, True).
Proof.
  exact (proj1 (outcomes_recorded_once refLib refLib_laws sample_bucket sample_user "ClusterNotFound" "gone" "c" false)).
Defined.
