(* ===== verification/Heap.v ===== *)
(** * Memory: pointers, slices and maps

    The rest of the development treats Go objects as values. This file has what that leaves
    out: a memory of cells, Go values that may point into it, and what a value of a given
    type denotes there. [reads sep m t v tr X]: in memory [m] the value [v] of type [t]
    stands for the tree [tr] and reaches exactly the addresses [X]; with [sep] no address is
    reached twice. *)
From S2P Require Import Prelude.
#[local] Set Warnings "-register-all".

Abbreviation loc := positive.

(** Types: [TScalar] is any type without pointers that is not taken apart. *)
Inductive gty :=
| TScalar
| TPtr (t : gty)
| TSlice (t : gty)
| TMap
| TStruct (fs : list (string * gty)).

(** Values. A slice is an array, an offset and a length; a map is [map[string]string]. *)
Inductive gval :=
| GScalar (s : string)
| GPtr (l : option loc)
| GSlice (a : option (loc * nat * nat))
| GMap (l : option loc)
| GStruct (fs : list (string * gval)).
Inductive cell :=
| CVal (v : gval)
| CArr (vs : list gval)
| CMap (m : gmap string string).
Abbreviation mem := (gmap loc cell).

(** What a value stands for, nil and empty told apart. *)
Inductive tree :=
| NScalar (s : string)
| NNil
| NPtr (t : tree)
| NSlice (ts : list tree)
| NMap (m : gmap string string)
| NStruct (fs : list (string * tree)).

(** A type without pointers. *)
Fixpoint flat (t : gty) : bool :=
  match t with
  | TScalar => true
  | TStruct fs => (fix go (fs : list (string * gty)) : bool :=
                     match fs with [] => true | (_, t) :: fs => flat t && go fs end) fs
  | _ => false
  end.

(** ** Programs on the memory; [None] is a panic *)
Definition heapM (A : Type) : Type := mem → option (A * mem).
#[global] Instance heap_ret : MRet heapM := λ A a m, Some (a, m).
#[global] Instance heap_bind : MBind heapM := λ A B f p m,
  match p m with Some (a, m') => f a m' | None => None end.
Definition panic {A} : heapM A := λ m, None.
Definition alloc (c : cell) : heapM loc := λ m,
  let l := fresh (dom m) in Some (l, <[l := c]> m).
Definition load (l : loc) : heapM cell := λ m, c ← m !! l; Some (c, m).
Definition store (l : loc) (c : cell) : heapM unit := λ m, _ ← m !! l; Some (tt, <[l := c]> m).

(** Assignment to an element or a key, and to a field. *)
Definition load_ptr (l : loc) : heapM gval :=
  c ← load l; match c with CVal v => mret v | _ => panic end.
Definition load_index (l : loc) (i : nat) : heapM gval :=
  c ← load l; match c with CArr vs => λ m, v ← vs !! i; Some (v, m) | _ => panic end.
Definition store_index (l : loc) (i : nat) (v : gval) : heapM unit :=
  c ← load l;
  match c with
  | CArr vs => if decide (i < length vs)%nat then store l (CArr (<[i := v]> vs)) else panic
  | _ => panic
  end.
Definition load_map (l : loc) : heapM (gmap string string) :=
  c ← load l; match c with CMap m => mret m | _ => panic end.
Definition store_key (l : loc) (k v : string) : heapM unit :=
  m ← load_map l; store l (CMap (<[k := v]> m)).

Fixpoint get_field (fs : list (string * gval)) (f : string) : option gval :=
  match fs with
  | [] => None
  | (g, v) :: fs => if String.eqb g f then Some v else get_field fs f
  end.
Fixpoint set_field (fs : list (string * gval)) (f : string) (v : gval) : list (string * gval) :=
  match fs with
  | [] => []
  | (g, w) :: fs => if String.eqb g f then (g, v) :: fs else (g, w) :: set_field fs f v
  end.

(** ** What a value stands for *)
Section reads.
Context (sep : bool) (m : mem).
Definition apart (X Y : gset loc) : Prop := sep = true → X ## Y.
Inductive reads : gty → gval → tree → gset loc → Prop :=
| rd_scalar s : reads TScalar (GScalar s) (NScalar s) ∅
| rd_nil t : reads (TPtr t) (GPtr None) NNil ∅
| rd_ptr t l v tr X : m !! l = Some (CVal v) → reads t v tr X → apart {[l]} X →
    reads (TPtr t) (GPtr (Some l)) (NPtr tr) ({[l]} ∪ X)
| rd_slice_nil t : reads (TSlice t) (GSlice None) NNil ∅
| rd_slice t l off n vs trs X : m !! l = Some (CArr vs) → (off + n ≤ length vs)%nat →
    reads_list t (take n (drop off vs)) trs X → apart {[l]} X →
    reads (TSlice t) (GSlice (Some (l, off, n))) (NSlice trs) ({[l]} ∪ X)
| rd_map_nil : reads TMap (GMap None) NNil ∅
| rd_map l kvs : m !! l = Some (CMap kvs) → reads TMap (GMap (Some l)) (NMap kvs) {[l]}
| rd_struct fs vs trs X : reads_fields fs vs trs X → reads (TStruct fs) (GStruct vs) (NStruct trs) X
with reads_list : gty → list gval → list tree → gset loc → Prop :=
| rl_nil t : reads_list t [] [] ∅
| rl_cons t v vs tr trs X Y : reads t v tr X → reads_list t vs trs Y → apart X Y →
    reads_list t (v :: vs) (tr :: trs) (X ∪ Y)
with reads_fields : list (string * gty) → list (string * gval) → list (string * tree) → gset loc → Prop :=
| rf_nil : reads_fields [] [] [] ∅
| rf_cons f t fs v vs tr trs X Y : reads t v tr X → reads_fields fs vs trs Y → apart X Y →
    reads_fields ((f, t) :: fs) ((f, v) :: vs) ((f, tr) :: trs) (X ∪ Y).
End reads.
Scheme reads_mut := Induction for reads Sort Prop
  with reads_list_mut := Induction for reads_list Sort Prop
  with reads_fields_mut := Induction for reads_fields Sort Prop.
Combined Scheme reads_ind3 from reads_mut, reads_list_mut, reads_fields_mut.
Create HintDb heap.
#[export] Hint Constructors reads reads_list reads_fields : heap.

(** ** Its laws *)
(** Only the memory reached matters. *)
Lemma reads_agree_all sep m m' :
  (∀ t v tr X, reads sep m t v tr X → (∀ l, l ∈ X → m' !! l = m !! l) → reads sep m' t v tr X) ∧
  (∀ t vs trs X, reads_list sep m t vs trs X → (∀ l, l ∈ X → m' !! l = m !! l) → reads_list sep m' t vs trs X) ∧
  (∀ fs vs trs X, reads_fields sep m fs vs trs X → (∀ l, l ∈ X → m' !! l = m !! l) → reads_fields sep m' fs vs trs X).
Proof.
  apply (reads_ind3 sep m
    (λ t v tr X _, (∀ l, l ∈ X → m' !! l = m !! l) → reads sep m' t v tr X)
    (λ t vs trs X _, (∀ l, l ∈ X → m' !! l = m !! l) → reads_list sep m' t vs trs X)
    (λ fs vs trs X _, (∀ l, l ∈ X → m' !! l = m !! l) → reads_fields sep m' fs vs trs X));
    intros; econstructor; eauto with heap;
    try match goal with
        | H : ∀ l, _ → m' !! l = m !! l |- m' !! _ = _ => rewrite H; [done|set_solver]
        | IH : (∀ l, l ∈ ?X → _) → ?P |- ?P => apply IH; set_solver
        end.
Qed.
Lemma reads_agree sep m m' t v tr X :
  reads sep m t v tr X → (∀ l, l ∈ X → m' !! l = m !! l) → reads sep m' t v tr X.
Proof. apply reads_agree_all. Qed.
Lemma reads_list_agree sep m m' t vs trs X :
  reads_list sep m t vs trs X → (∀ l, l ∈ X → m' !! l = m !! l) → reads_list sep m' t vs trs X.
Proof. apply reads_agree_all. Qed.
Lemma reads_fields_agree sep m m' fs vs trs X :
  reads_fields sep m fs vs trs X → (∀ l, l ∈ X → m' !! l = m !! l) → reads_fields sep m' fs vs trs X.
Proof. apply reads_agree_all. Qed.

Lemma reads_dom_all sep m :
  (∀ t v tr X, reads sep m t v tr X → X ⊆ dom m) ∧
  (∀ t vs trs X, reads_list sep m t vs trs X → X ⊆ dom m) ∧
  (∀ fs vs trs X, reads_fields sep m fs vs trs X → X ⊆ dom m).
Proof.
  apply (reads_ind3 sep m (λ _ _ _ X _, X ⊆ dom m) (λ _ _ _ X _, X ⊆ dom m) (λ _ _ _ X _, X ⊆ dom m));
    intros; try match goal with H : m !! _ = Some _ |- _ => apply elem_of_dom_2 in H end; set_solver.
Qed.
Lemma reads_dom sep m t v tr X : reads sep m t v tr X → X ⊆ dom m.
Proof. apply reads_dom_all. Qed.
Lemma reads_list_dom sep m t vs trs X : reads_list sep m t vs trs X → X ⊆ dom m.
Proof. apply reads_dom_all. Qed.
Lemma reads_fields_dom sep m fs vs trs X : reads_fields sep m fs vs trs X → X ⊆ dom m.
Proof. apply reads_dom_all. Qed.

(** A larger memory denotes the same. *)
Lemma reads_mono sep m m' t v tr X : m ⊆ m' → reads sep m t v tr X → reads sep m' t v tr X.
Proof.
  intros Hm Hr. eapply reads_agree; [done|]. intros l Hl%(reads_dom _ _ _ _ _ _ Hr).
  apply elem_of_dom in Hl as [c Hc]. rewrite Hc. by eapply lookup_weaken.
Qed.
Lemma reads_list_mono sep m m' t vs trs X : m ⊆ m' → reads_list sep m t vs trs X → reads_list sep m' t vs trs X.
Proof.
  intros Hm Hr. eapply reads_list_agree; [done|]. intros l Hl%(reads_list_dom _ _ _ _ _ _ Hr).
  apply elem_of_dom in Hl as [c Hc]. rewrite Hc. by eapply lookup_weaken.
Qed.
Lemma reads_fields_mono sep m m' fs vs trs X :
  m ⊆ m' → reads_fields sep m fs vs trs X → reads_fields sep m' fs vs trs X.
Proof.
  intros Hm Hr. eapply reads_fields_agree; [done|]. intros l Hl%(reads_fields_dom _ _ _ _ _ _ Hr).
  apply elem_of_dom in Hl as [c Hc]. rewrite Hc. by eapply lookup_weaken.
Qed.

(** A value of a flat type reaches nothing, and denotes the same everywhere. *)
Lemma flat_reads_all sep m m' :
  (∀ t v tr X, reads sep m t v tr X → flat t = true → X = ∅ ∧ reads true m' t v tr ∅) ∧
  (∀ t vs trs X, reads_list sep m t vs trs X → flat t = true → X = ∅ ∧ reads_list true m' t vs trs ∅) ∧
  (∀ fs vs trs X, reads_fields sep m fs vs trs X → flat (TStruct fs) = true →
     X = ∅ ∧ reads_fields true m' fs vs trs ∅).
Proof.
  apply (reads_ind3 sep m
    (λ t v tr X _, flat t = true → X = ∅ ∧ reads true m' t v tr ∅)
    (λ t vs trs X _, flat t = true → X = ∅ ∧ reads_list true m' t vs trs ∅)
    (λ fs vs trs X _, flat (TStruct fs) = true → X = ∅ ∧ reads_fields true m' fs vs trs ∅));
    try done; try (split; [done|constructor]).
  - intros fs vs trs X Hr IH Hf. destruct (IH Hf) as [-> IH']. split; [done|]. by constructor.
  - intros t v vs tr trs X Y Hr IH1 Hr2 IH2 Hs Hf. destruct (IH1 Hf) as [-> H1], (IH2 Hf) as [-> H2].
    split; [set_solver|]. rewrite <-(union_idemp_L ∅). constructor; [done|done|]. intros _. set_solver.
  - intros f t fs v vs tr trs X Y Hr IH1 Hr2 IH2 Hs [Hf1 Hf2]%andb_true_iff.
    destruct (IH1 Hf1) as [-> H1], (IH2 Hf2) as [-> H2].
    split; [set_solver|]. rewrite <-(union_idemp_L ∅). constructor; [done|done|]. intros _. set_solver.
Qed.
Lemma flat_reads sep m m' t v tr X :
  reads sep m t v tr X → flat t = true → X = ∅ ∧ reads true m' t v tr ∅.
Proof. apply flat_reads_all. Qed.
Lemma flat_reads_list sep m m' t vs trs X :
  reads_list sep m t vs trs X → flat t = true → X = ∅ ∧ reads_list true m' t vs trs ∅.
Proof. apply flat_reads_all. Qed.
