(* ===== verification/DeepCopy.v ===== *)
(** * Deep copies ([src/api/v1/zz_generated.deepcopy.go])

    The generated [DeepCopyInto] and [DeepCopy] methods over the memory of [Heap.v], and the
    types of [src/api/v1] as they are declared, with every pointer, slice and map. The
    client hands each controller a deep copy of what its cache holds, so the controllers
    edit statuses in place: they may only if the copies share nothing. *)
From S2P Require Import Prelude Heap.

(** ** The statements the generator emits *)
(** The zero value a [new] or [make] leaves, overwritten before it is read. *)
Definition uninit : gval := GStruct [].

(** [if in.F != nil]: [new(T)] and [DeepCopyInto] it; also the body of [DeepCopy]. *)
Definition new_into (f : gval → heapM gval) (v : gval) : heapM gval :=
  match v with
  | GPtr None => mret v
  | GPtr (Some l) =>
      out ← alloc (CVal uninit);
      w ← load_ptr l;
      w' ← f w;
      _ ← store out (CVal w');
      mret (GPtr (Some out))
  | _ => panic
  end.
(** [if in.F != nil]: [x := DeepCopy()] and point to [x]. *)
Definition address_of (f : gval → heapM gval) (v : gval) : heapM gval :=
  match v with
  | GPtr None => mret v
  | GPtr (Some l) => w ← load_ptr l; x ← f w; out ← alloc (CVal x); mret (GPtr (Some out))
  | _ => panic
  end.
(** [if in.F != nil]: [make([]T, len)], and [DeepCopyInto] each element in turn; [copy] is the
    same with assignments ([mret]). *)
Fixpoint each (f : gval → heapM gval) (l out : loc) (off i n : nat) : heapM unit :=
  match n with
  | 0 => mret tt
  | S n => v ← load_index l (off + i); w ← f v; _ ← store_index out i w; each f l out off (S i) n
  end.
Definition make_each (f : gval → heapM gval) (v : gval) : heapM gval :=
  match v with
  | GSlice None => mret v
  | GSlice (Some (l, off, n)) =>
      out ← alloc (CArr (replicate n uninit));
      _ ← each f l out off 0 n;
      mret (GSlice (Some (out, 0, n)))
  | _ => panic
  end.
(** [if in.F != nil]: [make(map[string]string)], and assign every key; the keys are distinct, so
    the order of [range] does not matter. *)
Fixpoint store_keys (out : loc) (kvs : list (string * string)) : heapM unit :=
  match kvs with
  | [] => mret tt
  | (k, v) :: kvs => _ ← store_key out k v; store_keys out kvs
  end.
Definition make_map (v : gval) : heapM gval :=
  match v with
  | GMap None => mret v
  | GMap (Some l) =>
      out ← alloc (CMap ∅);
      kvs ← load_map l;
      _ ← store_keys out (map_to_list kvs);
      mret (GMap (Some out))
  | _ => panic
  end.
(** The shallow copy of the struct, then a statement for each field listed, an assignment
    [out.F = in.F] being [mret]. *)
Fixpoint copy_fields (stmts : list (string * (gval → heapM gval))) (inn out : list (string * gval))
    : heapM (list (string * gval)) :=
  match stmts with
  | [] => mret out
  | (f, s) :: stmts =>
      match get_field inn f with
      | Some v => v' ← s v; copy_fields stmts inn (set_field out f v')
      | None => panic
      end
  end.
Definition struct_copy (stmts : list (string * (gval → heapM gval))) (v : gval) : heapM gval :=
  match v with
  | GStruct fs => out ← copy_fields stmts fs fs; mret (GStruct out)
  | _ => panic
  end.
(** [DeepCopyObject]: a nil pointer becomes a nil interface. *)
Definition as_object (f : gval → heapM gval) (v : gval) : heapM (option gval) :=
  c ← f v; mret match c with GPtr None => None | _ => Some c end.

(** ** What a copy must be *)
(** Of a value of type [t], [s] makes one that denotes the same, in cells that did not exist
    before and that it shares with nothing, itself included; no cell is changed. *)
Definition copies (t : gty) (s : gval → heapM gval) : Prop := ∀ m v tr X,
  reads false m t v tr X → ∃ v' m' Y, s v m = Some (v', m') ∧ m ⊆ m' ∧
    reads true m' t v' tr Y ∧ Y ## dom m.

(** ** The types of other packages *)
Inductive lib := LTypeMeta | LObjectMeta | LListMeta | LCondition | LTime | LDuration | LQuantity
| LResourceRequirements | LPodSecurityContext | LSecretKeySelector | LConfigMapKeySelector.
Class GoLibTypes := {
  lib_ty : lib → gty;
  lib_copy : lib → gval → heapM gval
}.
(** Their own methods copy deeply; a [TypeMeta] and a [Duration] hold no pointers. *)
Class GoLibTypesLaws (G : GoLibTypes) : Prop := {
  lib_copies n : copies (lib_ty n) (lib_copy n);
  lib_flat n : n = LTypeMeta ∨ n = LDuration → flat (lib_ty n) = true
}.

Section api.
Context `{G : GoLibTypes}.

(** ** The types *)
Definition CertManagerConfig_ty : gty := TStruct [("IssuerName", TScalar); ("IssuerKind", TScalar)].
Definition TrustedCASource_ty : gty := TStruct [("SecretRef", TPtr (lib_ty LSecretKeySelector));
    ("ConfigMapRef", TPtr (lib_ty LConfigMapKeySelector))].
Definition TLSConfig_ty : gty := TStruct [("Enabled", TScalar); ("CertManager", TPtr CertManagerConfig_ty);
    ("AdditionalClientCAs", TSlice TrustedCASource_ty)].
Definition MetricsConfigSource_ty : gty := TStruct [("ConfigMapKeyRef", lib_ty LConfigMapKeySelector)].
Definition MonitoringConfig_ty : gty := TStruct [("Enabled", TScalar); ("ExporterImage", TScalar);
    ("MetricsConfig", TPtr MetricsConfigSource_ty); ("ScrapeKind", TScalar)].
Definition RolloutConfig_ty : gty := TStruct [("WaitForTransfers", TPtr TScalar); ("Paused", TScalar);
    ("StallTimeout", TPtr (lib_ty LDuration))].
Definition PodDisruptionBudgetConfig_ty : gty := TStruct [("Enabled", TPtr TScalar)].
Definition RiakClusterSpec_ty : gty := TStruct [("Size", TScalar); ("Image", TScalar);
    ("ImagePullPolicy", TScalar); ("Resources", TPtr (lib_ty LResourceRequirements));
    ("StorageClassName", TScalar); ("StorageSize", TPtr (lib_ty LQuantity)); ("EphemeralStorage", TScalar);
    ("RiakConfig", TMap); ("TLS", TPtr TLSConfig_ty); ("Monitoring", TPtr MonitoringConfig_ty);
    ("ServicePort", TScalar); ("NodeSelector", TMap); ("PodAntiAffinity", TScalar);
    ("PodSecurityContext", TPtr (lib_ty LPodSecurityContext)); ("ReadOnlyRootFilesystem", TScalar);
    ("Rollout", TPtr RolloutConfig_ty); ("TerminationGracePeriodSeconds", TPtr TScalar);
    ("PodDisruptionBudget", TPtr PodDisruptionBudgetConfig_ty)].
Definition RiakNodeMember_ty : gty := TStruct [("Name", TScalar); ("Pod", TScalar); ("Ready", TScalar);
    ("Health", TScalar); ("Phase", TScalar); ("StorageReady", TScalar);
    ("Conditions", TSlice (lib_ty LCondition))].
Definition TLSStatus_ty : gty := TStruct [("Enabled", TScalar); ("CertManagerReady", TScalar);
    ("CertManagerError", TScalar); ("InterNodeReady", TScalar); ("ClientReady", TScalar);
    ("TrustedClientCAs", TScalar); ("TrustBundleError", TScalar)].
Definition MonitoringStatus_ty : gty := TStruct [("Enabled", TScalar); ("ExporterReady", TScalar);
    ("ScrapeKind", TScalar); ("ScrapeObjectReady", TScalar); ("ServiceMonitorReady", TScalar);
    ("ExporterError", TScalar)].
Definition RiakBucketRef_ty : gty := TStruct [("Name", TScalar); ("Ready", TScalar)].
Definition RiakUserRef_ty : gty := TStruct [("Name", TScalar); ("Ready", TScalar)].
Definition NodeCondition_ty : gty := TStruct [("Name", TScalar); ("Ready", TScalar); ("Health", TScalar);
    ("Phase", TScalar); ("PodName", TScalar); ("StorageReady", TScalar); ("StorageClassName", TScalar);
    ("StorageSize", TScalar); ("Conditions", TSlice (lib_ty LCondition))].
Definition RiakClusterStatus_ty : gty := TStruct [("Phase", TScalar); ("ReadyNodes", TScalar);
    ("TotalNodes", TScalar); ("Conditions", TSlice (lib_ty LCondition));
    ("LastUpdateTime", TPtr (lib_ty LTime)); ("Members", TSlice RiakNodeMember_ty);
    ("SecurityEnabled", TScalar); ("StorageClassName", TScalar); ("StorageSize", TScalar);
    ("EphemeralStorage", TScalar); ("TLSStatus", TLSStatus_ty); ("MonitoringStatus", MonitoringStatus_ty);
    ("Buckets", TSlice RiakBucketRef_ty); ("Users", TSlice RiakUserRef_ty);
    ("NodeConditions", TSlice NodeCondition_ty)].
Definition RiakCluster_ty : gty := TStruct [("TypeMeta", lib_ty LTypeMeta);
    ("ObjectMeta", lib_ty LObjectMeta); ("Spec", RiakClusterSpec_ty); ("Status", RiakClusterStatus_ty)].
Definition RiakClusterList_ty : gty := TStruct [("TypeMeta", lib_ty LTypeMeta);
    ("ListMeta", lib_ty LListMeta); ("Items", TSlice RiakCluster_ty)].
Definition RiakBucketSpec_ty : gty := TStruct [("ClusterName", TScalar); ("BucketName", TScalar);
    ("BucketType", TScalar); ("ReplicationFactor", TScalar); ("AllowMulti", TScalar); ("NVal", TScalar);
    ("Properties", TMap)].
Definition BucketNodeRef_ty : gty := TStruct [("Name", TScalar); ("Pod", TScalar); ("Ready", TScalar);
    ("Health", TScalar)].
Definition RiakBucketStatus_ty : gty := TStruct [("Phase", TScalar); ("Created", TScalar);
    ("LastUpdateTime", TPtr (lib_ty LTime)); ("Error", TScalar); ("BucketName", TScalar);
    ("BucketType", TScalar); ("ReplicationFactor", TScalar); ("NVal", TScalar); ("Properties", TMap);
    ("Nodes", TSlice BucketNodeRef_ty); ("Conditions", TSlice (lib_ty LCondition))].
Definition RiakBucket_ty : gty := TStruct [("TypeMeta", lib_ty LTypeMeta);
    ("ObjectMeta", lib_ty LObjectMeta); ("Spec", RiakBucketSpec_ty); ("Status", RiakBucketStatus_ty)].
Definition RiakBucketList_ty : gty := TStruct [("TypeMeta", lib_ty LTypeMeta);
    ("ListMeta", lib_ty LListMeta); ("Items", TSlice RiakBucket_ty)].
Definition Grant_ty : gty := TStruct [("Resource", TScalar); ("BucketName", TScalar);
    ("Permission", TScalar)].
Definition CertIssuerRef_ty : gty := TStruct [("Name", TScalar); ("Kind", TScalar)].
Definition UserCertificateRef_ty : gty := TStruct [("IssuerRef", TPtr CertIssuerRef_ty);
    ("SecretName", TScalar); ("ExternalSecretName", TScalar)].
Definition RiakUserSpec_ty : gty := TStruct [("ClusterName", TScalar); ("Username", TScalar);
    ("Grants", TSlice Grant_ty); ("CertificateRef", TPtr UserCertificateRef_ty)].
Definition RiakUserStatus_ty : gty := TStruct [("Phase", TScalar); ("Created", TScalar);
    ("LastUpdateTime", TPtr (lib_ty LTime)); ("Error", TScalar); ("Username", TScalar);
    ("CertificateReady", TScalar); ("CertificateError", TScalar); ("ClusterName", TScalar);
    ("Grants", TSlice Grant_ty); ("Conditions", TSlice (lib_ty LCondition))].
Definition RiakUser_ty : gty := TStruct [("TypeMeta", lib_ty LTypeMeta); ("ObjectMeta", lib_ty LObjectMeta);
    ("Spec", RiakUserSpec_ty); ("Status", RiakUserStatus_ty)].
Definition RiakUserList_ty : gty := TStruct [("TypeMeta", lib_ty LTypeMeta); ("ListMeta", lib_ty LListMeta);
    ("Items", TSlice RiakUser_ty)].

(** ** DeepCopyInto *)
(** [metav1.Time]'s own [DeepCopy]. *)
Definition Time_DeepCopy : gval → heapM gval := new_into (lib_copy LTime).
Definition CertManagerConfig_DeepCopyInto : gval → heapM gval := struct_copy [].
Definition TrustedCASource_DeepCopyInto : gval → heapM gval := struct_copy [
    ("SecretRef", new_into (lib_copy LSecretKeySelector));
    ("ConfigMapRef", new_into (lib_copy LConfigMapKeySelector))].
Definition TLSConfig_DeepCopyInto : gval → heapM gval := struct_copy [("CertManager", new_into mret);
    ("AdditionalClientCAs", make_each TrustedCASource_DeepCopyInto)].
Definition MetricsConfigSource_DeepCopyInto : gval → heapM gval := struct_copy [
    ("ConfigMapKeyRef", lib_copy LConfigMapKeySelector)].
Definition MonitoringConfig_DeepCopyInto : gval → heapM gval := struct_copy [
    ("MetricsConfig", new_into MetricsConfigSource_DeepCopyInto)].
Definition RolloutConfig_DeepCopyInto : gval → heapM gval := struct_copy [
    ("WaitForTransfers", new_into mret); ("StallTimeout", new_into mret)].
Definition PodDisruptionBudgetConfig_DeepCopyInto : gval → heapM gval := struct_copy [
    ("Enabled", new_into mret)].
Definition RiakClusterSpec_DeepCopyInto : gval → heapM gval := struct_copy [
    ("Resources", new_into (lib_copy LResourceRequirements));
    ("StorageSize", address_of (lib_copy LQuantity)); ("RiakConfig", make_map);
    ("TLS", new_into TLSConfig_DeepCopyInto); ("Monitoring", new_into MonitoringConfig_DeepCopyInto);
    ("NodeSelector", make_map); ("PodSecurityContext", new_into (lib_copy LPodSecurityContext));
    ("Rollout", new_into RolloutConfig_DeepCopyInto); ("TerminationGracePeriodSeconds", new_into mret);
    ("PodDisruptionBudget", new_into PodDisruptionBudgetConfig_DeepCopyInto)].
Definition RiakNodeMember_DeepCopyInto : gval → heapM gval := struct_copy [
    ("Conditions", make_each (lib_copy LCondition))].
Definition TLSStatus_DeepCopyInto : gval → heapM gval := struct_copy [].
Definition MonitoringStatus_DeepCopyInto : gval → heapM gval := struct_copy [].
Definition RiakBucketRef_DeepCopyInto : gval → heapM gval := struct_copy [].
Definition RiakUserRef_DeepCopyInto : gval → heapM gval := struct_copy [].
Definition NodeCondition_DeepCopyInto : gval → heapM gval := struct_copy [
    ("Conditions", make_each (lib_copy LCondition))].
Definition RiakClusterStatus_DeepCopyInto : gval → heapM gval := struct_copy [
    ("Conditions", make_each (lib_copy LCondition)); ("LastUpdateTime", Time_DeepCopy);
    ("Members", make_each RiakNodeMember_DeepCopyInto); ("TLSStatus", mret); ("MonitoringStatus", mret);
    ("Buckets", make_each mret); ("Users", make_each mret);
    ("NodeConditions", make_each NodeCondition_DeepCopyInto)].
Definition RiakCluster_DeepCopyInto : gval → heapM gval := struct_copy [("TypeMeta", mret);
    ("ObjectMeta", lib_copy LObjectMeta); ("Spec", RiakClusterSpec_DeepCopyInto);
    ("Status", RiakClusterStatus_DeepCopyInto)].
Definition RiakClusterList_DeepCopyInto : gval → heapM gval := struct_copy [("TypeMeta", mret);
    ("ListMeta", lib_copy LListMeta); ("Items", make_each RiakCluster_DeepCopyInto)].
Definition RiakBucketSpec_DeepCopyInto : gval → heapM gval := struct_copy [("Properties", make_map)].
Definition BucketNodeRef_DeepCopyInto : gval → heapM gval := struct_copy [].
Definition RiakBucketStatus_DeepCopyInto : gval → heapM gval := struct_copy [
    ("LastUpdateTime", Time_DeepCopy); ("Properties", make_map); ("Nodes", make_each mret);
    ("Conditions", make_each (lib_copy LCondition))].
Definition RiakBucket_DeepCopyInto : gval → heapM gval := struct_copy [("TypeMeta", mret);
    ("ObjectMeta", lib_copy LObjectMeta); ("Spec", RiakBucketSpec_DeepCopyInto);
    ("Status", RiakBucketStatus_DeepCopyInto)].
Definition RiakBucketList_DeepCopyInto : gval → heapM gval := struct_copy [("TypeMeta", mret);
    ("ListMeta", lib_copy LListMeta); ("Items", make_each RiakBucket_DeepCopyInto)].
Definition Grant_DeepCopyInto : gval → heapM gval := struct_copy [].
Definition CertIssuerRef_DeepCopyInto : gval → heapM gval := struct_copy [].
Definition UserCertificateRef_DeepCopyInto : gval → heapM gval := struct_copy [("IssuerRef", new_into mret)].
Definition RiakUserSpec_DeepCopyInto : gval → heapM gval := struct_copy [("Grants", make_each mret);
    ("CertificateRef", new_into UserCertificateRef_DeepCopyInto)].
Definition RiakUserStatus_DeepCopyInto : gval → heapM gval := struct_copy [("LastUpdateTime", Time_DeepCopy);
    ("Grants", make_each mret); ("Conditions", make_each (lib_copy LCondition))].
Definition RiakUser_DeepCopyInto : gval → heapM gval := struct_copy [("TypeMeta", mret);
    ("ObjectMeta", lib_copy LObjectMeta); ("Spec", RiakUserSpec_DeepCopyInto);
    ("Status", RiakUserStatus_DeepCopyInto)].
Definition RiakUserList_DeepCopyInto : gval → heapM gval := struct_copy [("TypeMeta", mret);
    ("ListMeta", lib_copy LListMeta); ("Items", make_each RiakUser_DeepCopyInto)].

(** ** DeepCopy *)
Definition CertManagerConfig_DeepCopy : gval → heapM gval := new_into CertManagerConfig_DeepCopyInto.
Definition TrustedCASource_DeepCopy : gval → heapM gval := new_into TrustedCASource_DeepCopyInto.
Definition TLSConfig_DeepCopy : gval → heapM gval := new_into TLSConfig_DeepCopyInto.
Definition MetricsConfigSource_DeepCopy : gval → heapM gval := new_into MetricsConfigSource_DeepCopyInto.
Definition MonitoringConfig_DeepCopy : gval → heapM gval := new_into MonitoringConfig_DeepCopyInto.
Definition RolloutConfig_DeepCopy : gval → heapM gval := new_into RolloutConfig_DeepCopyInto.
Definition PodDisruptionBudgetConfig_DeepCopy : gval → heapM gval :=
  new_into PodDisruptionBudgetConfig_DeepCopyInto.
Definition RiakClusterSpec_DeepCopy : gval → heapM gval := new_into RiakClusterSpec_DeepCopyInto.
Definition RiakNodeMember_DeepCopy : gval → heapM gval := new_into RiakNodeMember_DeepCopyInto.
Definition TLSStatus_DeepCopy : gval → heapM gval := new_into TLSStatus_DeepCopyInto.
Definition MonitoringStatus_DeepCopy : gval → heapM gval := new_into MonitoringStatus_DeepCopyInto.
Definition RiakBucketRef_DeepCopy : gval → heapM gval := new_into RiakBucketRef_DeepCopyInto.
Definition RiakUserRef_DeepCopy : gval → heapM gval := new_into RiakUserRef_DeepCopyInto.
Definition NodeCondition_DeepCopy : gval → heapM gval := new_into NodeCondition_DeepCopyInto.
Definition RiakClusterStatus_DeepCopy : gval → heapM gval := new_into RiakClusterStatus_DeepCopyInto.
Definition RiakCluster_DeepCopy : gval → heapM gval := new_into RiakCluster_DeepCopyInto.
Definition RiakClusterList_DeepCopy : gval → heapM gval := new_into RiakClusterList_DeepCopyInto.
Definition RiakBucketSpec_DeepCopy : gval → heapM gval := new_into RiakBucketSpec_DeepCopyInto.
Definition BucketNodeRef_DeepCopy : gval → heapM gval := new_into BucketNodeRef_DeepCopyInto.
Definition RiakBucketStatus_DeepCopy : gval → heapM gval := new_into RiakBucketStatus_DeepCopyInto.
Definition RiakBucket_DeepCopy : gval → heapM gval := new_into RiakBucket_DeepCopyInto.
Definition RiakBucketList_DeepCopy : gval → heapM gval := new_into RiakBucketList_DeepCopyInto.
Definition Grant_DeepCopy : gval → heapM gval := new_into Grant_DeepCopyInto.
Definition CertIssuerRef_DeepCopy : gval → heapM gval := new_into CertIssuerRef_DeepCopyInto.
Definition UserCertificateRef_DeepCopy : gval → heapM gval := new_into UserCertificateRef_DeepCopyInto.
Definition RiakUserSpec_DeepCopy : gval → heapM gval := new_into RiakUserSpec_DeepCopyInto.
Definition RiakUserStatus_DeepCopy : gval → heapM gval := new_into RiakUserStatus_DeepCopyInto.
Definition RiakUser_DeepCopy : gval → heapM gval := new_into RiakUser_DeepCopyInto.
Definition RiakUserList_DeepCopy : gval → heapM gval := new_into RiakUserList_DeepCopyInto.
Definition RiakCluster_DeepCopyObject : gval → heapM (option gval) := as_object RiakCluster_DeepCopy.
Definition RiakClusterList_DeepCopyObject : gval → heapM (option gval) := as_object RiakClusterList_DeepCopy.
Definition RiakBucket_DeepCopyObject : gval → heapM (option gval) := as_object RiakBucket_DeepCopy.
Definition RiakBucketList_DeepCopyObject : gval → heapM (option gval) := as_object RiakBucketList_DeepCopy.
Definition RiakUser_DeepCopyObject : gval → heapM (option gval) := as_object RiakUser_DeepCopy.
Definition RiakUserList_DeepCopyObject : gval → heapM (option gval) := as_object RiakUserList_DeepCopy.

(** Every type with a [DeepCopy] method. *)
Definition api_types : list (gty * (gval → heapM gval)) := [
    (CertManagerConfig_ty, CertManagerConfig_DeepCopy); (TrustedCASource_ty, TrustedCASource_DeepCopy);
    (TLSConfig_ty, TLSConfig_DeepCopy); (MetricsConfigSource_ty, MetricsConfigSource_DeepCopy);
    (MonitoringConfig_ty, MonitoringConfig_DeepCopy); (RolloutConfig_ty, RolloutConfig_DeepCopy);
    (PodDisruptionBudgetConfig_ty, PodDisruptionBudgetConfig_DeepCopy);
    (RiakClusterSpec_ty, RiakClusterSpec_DeepCopy); (RiakNodeMember_ty, RiakNodeMember_DeepCopy);
    (TLSStatus_ty, TLSStatus_DeepCopy); (MonitoringStatus_ty, MonitoringStatus_DeepCopy);
    (RiakBucketRef_ty, RiakBucketRef_DeepCopy); (RiakUserRef_ty, RiakUserRef_DeepCopy);
    (NodeCondition_ty, NodeCondition_DeepCopy); (RiakClusterStatus_ty, RiakClusterStatus_DeepCopy);
    (RiakCluster_ty, RiakCluster_DeepCopy); (RiakClusterList_ty, RiakClusterList_DeepCopy);
    (RiakBucketSpec_ty, RiakBucketSpec_DeepCopy); (BucketNodeRef_ty, BucketNodeRef_DeepCopy);
    (RiakBucketStatus_ty, RiakBucketStatus_DeepCopy); (RiakBucket_ty, RiakBucket_DeepCopy);
    (RiakBucketList_ty, RiakBucketList_DeepCopy); (Grant_ty, Grant_DeepCopy);
    (CertIssuerRef_ty, CertIssuerRef_DeepCopy); (UserCertificateRef_ty, UserCertificateRef_DeepCopy);
    (RiakUserSpec_ty, RiakUserSpec_DeepCopy); (RiakUserStatus_ty, RiakUserStatus_DeepCopy);
    (RiakUser_ty, RiakUser_DeepCopy); (RiakUserList_ty, RiakUserList_DeepCopy)].
End api.
