(* ===== verification/DeepCopyFacts.v ===== *)
(** * Deep copies share nothing *)
From S2P Require Import Prelude Heap DeepCopy.

(** ** Memory *)
Lemma fresh_dom (m : mem) : fresh (dom m) ∉ dom m.
Proof. apply is_fresh. Qed.
Lemma alloc_subseteq (m : mem) c : m ⊆ <[fresh (dom m) := c]> m.
Proof. apply insert_subseteq, not_elem_of_dom, fresh_dom. Qed.
(** A cell made since [m] may be overwritten. *)
Lemma store_subseteq (m m' : mem) l c : m ⊆ m' → l ∉ dom m → m ⊆ <[l := c]> m'.
Proof. intros Hm Hl. apply insert_subseteq_r; [by apply not_elem_of_dom|done]. Qed.
Lemma dom_subseteq (m m' : mem) : m ⊆ m' → dom m ⊆ dom m'.
Proof. apply subseteq_dom. Qed.

(** *** Running a program *)
Lemma run_call {A B} (f : heapM B) (k : B → heapM A) m b m' : f m = Some (b, m') → (f ≫= k) m = k b m'.
Proof. unfold mbind, heap_bind. by intros ->. Qed.
Lemma load_run l c (m : mem) : m !! l = Some c → load l m = Some (c, m).
Proof. unfold load. by intros ->. Qed.
Lemma store_run l c (m : mem) : is_Some (m !! l) → store l c m = Some (tt, <[l := c]> m).
Proof. unfold store. by intros [c' ->]. Qed.
Section run.
Context {A : Type}.
Lemma run_alloc c (k : loc → heapM A) m :
  (alloc c ≫= k) m = k (fresh (dom m)) (<[fresh (dom m) := c]> m).
Proof. done. Qed.
Lemma run_load_ptr l v (k : gval → heapM A) m : m !! l = Some (CVal v) → (load_ptr l ≫= k) m = k v m.
Proof. intros Hl. apply run_call. unfold load_ptr. by rewrite (run_call _ _ _ _ _ (load_run _ _ _ Hl)). Qed.
Lemma run_load_map l kvs (k : _ → heapM A) m : m !! l = Some (CMap kvs) → (load_map l ≫= k) m = k kvs m.
Proof. intros Hl. apply run_call. unfold load_map. by rewrite (run_call _ _ _ _ _ (load_run _ _ _ Hl)). Qed.
Lemma run_load_index l i vs v (k : gval → heapM A) m :
  m !! l = Some (CArr vs) → vs !! i = Some v → (load_index l i ≫= k) m = k v m.
Proof.
  intros Hl Hv. apply run_call. unfold load_index. rewrite (run_call _ _ _ _ _ (load_run _ _ _ Hl)). cbn.
  by rewrite Hv.
Qed.
Lemma run_store l c (k : unit → heapM A) m : is_Some (m !! l) → (store l c ≫= k) m = k tt (<[l := c]> m).
Proof. intros Hl. by apply run_call, store_run. Qed.
Lemma run_store_index l i v vs (k : unit → heapM A) m :
  m !! l = Some (CArr vs) → (i < length vs)%nat →
  (store_index l i v ≫= k) m = k tt (<[l := CArr (<[i := v]> vs)]> m).
Proof.
  intros Hl Hi. apply run_call. unfold store_index. rewrite (run_call _ _ _ _ _ (load_run _ _ _ Hl)).
  rewrite decide_True by done. apply store_run. by eexists.
Qed.
Lemma run_store_key l key v kvs (k : unit → heapM A) m :
  m !! l = Some (CMap kvs) → (store_key l key v ≫= k) m = k tt (<[l := CMap (<[key := v]> kvs)]> m).
Proof.
  intros Hl. apply run_call. unfold store_key. rewrite (run_call (load_map l) _ m kvs m).
  - apply store_run. by eexists.
  - unfold load_map. by rewrite (run_call _ _ _ _ _ (load_run _ _ _ Hl)).
Qed.
End run.

Lemma copies_flat t : flat t = true → copies t mret.
Proof.
  intros Hf m v tr X Hr. destruct (flat_reads _ _ m _ _ _ _ Hr Hf) as [_ H].
  exists v, m, ∅. split_and!; [done..|set_solver].
Qed.
(** Running [f] on a value that [m] holds, after other cells were made. *)
Lemma copies_run t f m m1 v tr X :
  copies t f → m ⊆ m1 → reads false m t v tr X → ∃ v' m' Y, f v m1 = Some (v', m') ∧ m1 ⊆ m' ∧
    reads true m' t v' tr Y ∧ Y ## dom m1 ∧ Y ## dom m.
Proof.
  intros Hf Hm Hr. destruct (Hf m1 v tr X) as (v' & m' & Y & H1 & H2 & H3 & H4).
  { by eapply reads_mono. }
  exists v', m', Y. split_and!; try done. apply dom_subseteq in Hm. set_solver.
Qed.

(** ** Pointers *)
Lemma copies_new_into t f : copies t f → copies (TPtr t) (new_into f).
Proof.
  intros Hf m v tr X Hr. inversion Hr as [|t' |t' l w tr' X' Hl Hw _| | | | |]; subst.
  { exists (GPtr None), m, ∅. split_and!; [done|done|constructor|set_solver]. }
  set (out := fresh (dom m)). set (m1 := <[out := CVal uninit]> m).
  assert (m ⊆ m1) as Hm1 by apply alloc_subseteq.
  destruct (copies_run t f m m1 w tr' X' Hf Hm1 Hw) as (w' & m2 & Y & Hrun & Hm2 & Hr2 & HY1 & HY).
  assert (out ∈ dom m1) as Hout by (unfold m1; set_solver).
  assert (is_Some (m2 !! out)) as [c Hc]. { apply elem_of_dom. apply dom_subseteq in Hm2. set_solver. }
  exists (GPtr (Some out)), (<[out := CVal w']> m2), ({[out]} ∪ Y). split_and!.
  - unfold new_into. rewrite run_alloc, (run_load_ptr _ w) by by apply (lookup_weaken m).
    rewrite (run_call _ _ _ _ _ Hrun). by rewrite run_store by by eexists.
  - apply store_subseteq; [by etrans|apply fresh_dom].
  - apply (rd_ptr _ _ _ _ w'); [by rewrite lookup_insert_eq| |intros _; set_solver].
    eapply reads_agree; [done|]. intros l' Hl'. rewrite lookup_insert_ne; [done|]. set_solver.
  - pose proof (fresh_dom m). set_solver.
Qed.
Lemma copies_address_of t f : copies t f → copies (TPtr t) (address_of f).
Proof.
  intros Hf m v tr X Hr. inversion Hr as [|t' |t' l w tr' X' Hl Hw _| | | | |]; subst.
  { exists (GPtr None), m, ∅. split_and!; [done|done|constructor|set_solver]. }
  destruct (Hf m w tr' X' Hw) as (w' & m2 & Y & Hrun & Hm2 & Hr2 & HY).
  set (out := fresh (dom m2)).
  assert (out ∉ dom m2) as Hout by apply fresh_dom. pose proof (dom_subseteq _ _ Hm2) as Hd.
  pose proof (reads_dom _ _ _ _ _ _ Hr2) as HYd.
  exists (GPtr (Some out)), (<[out := CVal w']> m2), ({[out]} ∪ Y). split_and!.
  - unfold address_of. by rewrite (run_load_ptr _ w), (run_call _ _ _ _ _ Hrun).
  - apply store_subseteq; [done|]. set_solver.
  - apply (rd_ptr _ _ _ _ w'); [by rewrite lookup_insert_eq| |intros _; set_solver].
    eapply reads_agree; [done|]. intros l' Hl'. rewrite lookup_insert_ne; [done|]. set_solver.
  - set_solver.
Qed.

(** ** Maps *)
Lemma store_keys_run out kvs m kvs' :
  m !! out = Some (CMap kvs') →
  store_keys out kvs m = Some (tt, <[out := CMap (foldl (λ acc kv, <[kv.1 := kv.2]> acc) kvs' kvs)]> m).
Proof.
  revert m kvs'. induction kvs as [|[k v] kvs IH]; intros m kvs' Hm; cbn.
  { by rewrite insert_id. }
  rewrite (run_store_key _ _ _ kvs') by done. erewrite IH by by rewrite lookup_insert_eq.
  by rewrite insert_insert_eq.
Qed.
Lemma foldl_insert_map (l : list (string * string)) (acc : gmap string string) :
  NoDup l.*1 → foldl (λ acc kv, <[kv.1 := kv.2]> acc) acc l = list_to_map l ∪ acc.
Proof.
  revert acc. induction l as [|[k v] l IH]; intros acc; cbn; [by rewrite (left_id_L ∅ _)|].
  intros [Hk Hl]%NoDup_cons. rewrite IH by done.
  rewrite <-insert_union_l, <-insert_union_r; [done|]. by apply not_elem_of_list_to_map_1.
Qed.
Lemma copies_make_map : copies TMap make_map.
Proof.
  intros m v tr X Hr. inversion Hr as [| | | | | |l kvs Hl|]; subst.
  { exists (GMap None), m, ∅. split_and!; [done|done|constructor|set_solver]. }
  set (out := fresh (dom m)). exists (GMap (Some out)), (<[out := CMap kvs]> m), {[out]}.
  assert (out ≠ l) by (intros He; apply (fresh_dom m); fold out; rewrite He; by eapply elem_of_dom_2).
  split_and!.
  - unfold make_map. rewrite run_alloc, (run_load_map _ kvs) by by rewrite lookup_insert_ne.
    erewrite run_call; [|by eapply store_keys_run, lookup_insert_eq].
    rewrite insert_insert_eq, foldl_insert_map by apply NoDup_fst_map_to_list.
    by rewrite list_to_map_to_list, (right_id_L ∅ _).
  - apply alloc_subseteq.
  - apply rd_map. by rewrite lookup_insert_eq.
  - pose proof (fresh_dom m). set_solver.
Qed.

(** ** Slices *)
Lemma insert_middle {A} (l1 l2 : list A) (x y : A) : <[length l1 := y]> (l1 ++ x :: l2) = l1 ++ y :: l2.
Proof. rewrite insert_app_r_alt by done. by rewrite Nat.sub_diag. Qed.
Lemma drop_take_S {A} (vs : list A) i n : (i < length vs)%nat →
  ∃ v, vs !! i = Some v ∧ take (S n) (drop i vs) = v :: take n (drop (S i) vs).
Proof.
  intros Hi. destruct (lookup_lt_is_Some_2 vs i Hi) as [v Hv]. exists v. split; [done|].
  by rewrite (drop_S _ _ _ Hv).
Qed.
(** [m0] is the memory copied from; the first [i] elements are in place. *)
Lemma each_run t f (m0 : mem) l out off vs : copies t f → m0 !! l = Some (CArr vs) → out ∉ dom m0 →
  ∀ n i m ws trs X, m0 ⊆ m → length ws = i → (off + i + n ≤ length vs)%nat →
  m !! out = Some (CArr (ws ++ replicate n uninit)) →
  reads_list false m0 t (take n (drop (off + i) vs)) trs X →
  ∃ m' ws' Y, each f l out off i n m = Some (tt, m') ∧ m0 ⊆ m' ∧
    m' !! out = Some (CArr (ws ++ ws')) ∧ length ws' = n ∧ reads_list true m' t ws' trs Y ∧ Y ## dom m ∧
    ∀ l', l' ∈ dom m → l' ≠ out → m' !! l' = m !! l'.
Proof.
  intros Hf Hl Hout. induction n as [|n IH]; intros i m ws trs X Hm Hws Hn Ho Hr.
  { inversion Hr; subst. exists m, [], ∅. split_and!; try done; first [by constructor|set_solver]. }
  destruct (drop_take_S vs (off + i) n ltac:(lia)) as (v & Hv & Htake).
  rewrite Htake in Hr. inversion Hr as [|? ? ? tr trs' X1 X2 Hr1 Hr2 _]; subst.
  destruct (copies_run t f m0 m v tr X1 Hf Hm Hr1) as (w & m1 & Y1 & Hrun & Hm1 & Hw & HY1 & HY10).
  assert (m1 !! out = Some (CArr (ws ++ uninit :: replicate n uninit))) as Ho1 by by eapply lookup_weaken.
  set (m2 := <[out := CArr (ws ++ w :: replicate n uninit)]> m1).
  assert (m0 ⊆ m2) as Hm2 by (apply store_subseteq; [by etrans|done]).
  replace (S (off + length ws)) with (off + length (ws ++ [w])) in Hr2 by (rewrite length_app; cbn; lia).
  destruct (IH (length (ws ++ [w])) m2 (ws ++ [w]) trs' X2 Hm2 eq_refl) as
    (m' & ws' & Y2 & Heach & Hm' & Ho' & Hlen & Hws' & HY2 & Hkeep).
  { rewrite length_app. cbn. lia. }
  { unfold m2. rewrite lookup_insert_eq. by rewrite <-app_assoc. }
  { exact Hr2. }
  pose proof (dom_subseteq _ _ Hm1) as Hd1. pose proof (reads_dom _ _ _ _ _ _ Hw) as HY1d.
  assert (dom m2 = {[out]} ∪ dom m1) as Hd2 by (unfold m2; set_solver).
  assert (out ∈ dom m) as Hom by by eapply elem_of_dom_2.
  exists m', (w :: ws'), (Y1 ∪ Y2). split_and!.
  - cbn [each]. rewrite (run_load_index _ _ vs v); [|by eapply lookup_weaken|done].
    rewrite (run_call _ _ _ _ _ Hrun), (run_store_index _ _ _ _ _ _ Ho1)
      by (rewrite length_app; cbn; lia).
    rewrite insert_middle. rewrite length_app, Nat.add_comm in Heach. exact Heach.
  - done.
  - by rewrite Ho', <-app_assoc.
  - cbn. by rewrite Hlen.
  - constructor; [|done|intros _; set_solver].
    eapply reads_agree; [exact Hw|]. intros l' Hl'. rewrite Hkeep by set_solver.
    unfold m2. by rewrite lookup_insert_ne by set_solver.
  - set_solver.
  - intros l' Hl' Hne. rewrite Hkeep by set_solver. unfold m2. rewrite lookup_insert_ne by done.
    apply elem_of_dom in Hl' as [c Hc]. rewrite Hc. by eapply lookup_weaken.
Qed.
Lemma copies_make_each t f : copies t f → copies (TSlice t) (make_each f).
Proof.
  intros Hf m v tr X Hr. inversion Hr as [| | |t'|t' l off n vs trs X' Hl Hlen Hvs _| | |]; subst.
  { exists (GSlice None), m, ∅. split_and!; [done|done|constructor|set_solver]. }
  set (out := fresh (dom m)). set (m1 := <[out := CArr (replicate n uninit)]> m).
  assert (out ∉ dom m) as Hout by apply fresh_dom.
  assert (m !! out = None) as Hnone by by apply not_elem_of_dom.
  destruct (each_run t f m l out off vs Hf Hl Hout n 0 m1 [] trs X') as
    (m' & ws & Y & Heach & Hm' & Ho & Hn & Hws & HY & Hkeep).
  { apply alloc_subseteq. } { done. } { lia. } { unfold m1. by rewrite lookup_insert_eq. }
  { by rewrite Nat.add_0_r. }
  assert (dom m1 = {[out]} ∪ dom m) as Hd by (unfold m1; set_solver).
  exists (GSlice (Some (out, 0, n))), m', ({[out]} ∪ Y). split_and!.
  - unfold make_each. rewrite run_alloc. fold out m1. by rewrite (run_call _ _ _ _ _ Heach).
  - done.
  - apply (rd_slice _ _ _ _ _ _ ws); [done|cbn; lia| |intros _; set_solver].
    rewrite drop_0, take_ge by lia. done.
  - set_solver.
Qed.

(** ** Structs *)
(** Statements in the order of the fields, one for each field that is not flat. *)
Inductive covers : list (string * gty) → list (string * (gval → heapM gval)) → Prop :=
| cv_nil : covers [] []
| cv_copy f t s fs ss : copies t s → covers fs ss → covers ((f, t) :: fs) ((f, s) :: ss)
| cv_flat f t fs ss : flat t = true → covers fs ss → covers ((f, t) :: fs) ss.

Lemma get_field_middle pre f v rest : f ∉ pre.*1 → get_field (pre ++ (f, v) :: rest) f = Some v.
Proof.
  induction pre as [|[g w] pre IH]; cbn; [by rewrite String.eqb_refl|].
  intros [Hne Hpre]%not_elem_of_cons. rewrite (proj2 (String.eqb_neq g f)) by done. by apply IH.
Qed.
Lemma set_field_middle pre f v w rest :
  f ∉ pre.*1 → set_field (pre ++ (f, v) :: rest) f w = pre ++ (f, w) :: rest.
Proof.
  induction pre as [|[g x] pre IH]; cbn; [by rewrite String.eqb_refl|].
  intros [Hne Hpre]%not_elem_of_cons. rewrite (proj2 (String.eqb_neq g f)) by done. by rewrite IH.
Qed.
Lemma copy_fields_run (m0 : mem) fs ss : covers fs ss → NoDup fs.*1 → ∀ m pre pre' vs trs X,
  m0 ⊆ m → pre'.*1 = pre.*1 → (∀ f, f ∈ fs.*1 → f ∉ pre.*1) → reads_fields false m0 fs vs trs X →
  ∃ out m' Y, copy_fields ss (pre ++ vs) (pre' ++ vs) m = Some (pre' ++ out, m') ∧ m ⊆ m' ∧
    reads_fields true m' fs out trs Y ∧ Y ## dom m.
Proof.
  induction 1 as [|f t s fs ss Hs Hcov IH|f t fs ss Hf Hcov IH];
    intros Hnd m pre pre' vs trs X Hm Hpre Hfs Hr.
  { inversion Hr; subst. exists [], m, ∅. split_and!; [done|done|constructor|set_solver]. }
  all: inversion Hr as [|? ? ? v vs' tr trs' X1 X2 Hr1 Hr2 _]; subst; clear Hr;
    apply NoDup_cons in Hnd as [Hnot Hnd]; assert (f ∉ pre.*1) as Hf1 by (apply Hfs; by left).
  - destruct (copies_run t s m0 m v tr X1 Hs Hm Hr1) as (w & m1 & Y1 & Hrun & Hm1 & Hw & HY1 & HY10).
    destruct (IH Hnd m1 (pre ++ [(f, v)]) (pre' ++ [(f, w)]) vs' trs' X2) as (out & m' & Y2 & Hc & Hm' & Hout & HY2).
    { by etrans. } { rewrite !fmap_app. by rewrite Hpre. }
    { intros g Hg. rewrite fmap_app. intros [Hg'|Hg']%elem_of_app.
      - eapply Hfs; [by right|done]. - apply list_elem_of_singleton in Hg'. subst g. exact (Hnot Hg). }
    { done. }
    exists ((f, w) :: out), m', (Y1 ∪ Y2). split_and!.
    + cbn [copy_fields]. rewrite get_field_middle by done. rewrite (run_call _ _ _ _ _ Hrun).
      rewrite set_field_middle by by rewrite Hpre. by rewrite <-!app_assoc in Hc.
    + by etrans.
    + constructor; [by eapply reads_mono|done|]. intros _. apply reads_dom in Hw. set_solver.
    + apply dom_subseteq in Hm1. set_solver.
  - destruct (flat_reads _ _ m0 _ _ _ _ Hr1 Hf) as [_ Hv].
    destruct (IH Hnd m (pre ++ [(f, v)]) (pre' ++ [(f, v)]) vs' trs' X2 Hm) as (out & m' & Y2 & Hc & Hm' & Hout & HY2).
    { rewrite !fmap_app. by rewrite Hpre. }
    { intros g Hg. rewrite fmap_app. intros [Hg'|Hg']%elem_of_app.
      - eapply Hfs; [by right|done]. - apply list_elem_of_singleton in Hg'. subst g. exact (Hnot Hg). }
    { done. }
    exists ((f, v) :: out), m', (∅ ∪ Y2). split_and!.
    + by rewrite <-!app_assoc in Hc.
    + done.
    + constructor; [|done|intros _; set_solver]. apply (reads_mono _ m0); [by etrans|done].
    + set_solver.
Qed.
Lemma copies_struct fs ss : covers fs ss → NoDup fs.*1 → copies (TStruct fs) (struct_copy ss).
Proof.
  intros Hc Hnd m v tr X Hr. inversion Hr as [| | | | | | |fs' vs trs X' Hvs]; subst.
  destruct (copy_fields_run m fs ss Hc Hnd m [] [] vs trs X) as (out & m' & Y & Hrun & Hm & Hout & HY); try done.
  { by intros f _ ?%elem_of_nil. }
  exists (GStruct out), m', Y. split_and!; [|done|by constructor|done].
  unfold struct_copy. by rewrite (run_call _ _ _ _ _ Hrun).
Qed.

(** ** The API types *)
Create HintDb copies.
#[export] Hint Constants Opaque : copies.
#[export] Hint Extern 1 (flat _ = true) => reflexivity : copies.
#[export] Hint Resolve copies_flat copies_new_into copies_address_of copies_make_each copies_make_map : copies.
#[export] Hint Resolve lib_copies : copies.

Section api.
Context `{G : GoLibTypes} `{HG : !GoLibTypesLaws G}.
Lemma lib_flat_meta : flat (lib_ty LTypeMeta) = true.
Proof. apply lib_flat. by left. Qed.
Lemma lib_flat_duration : flat (lib_ty LDuration) = true.
Proof. apply lib_flat. by right. Qed.
Lemma Time_copies : copies (TPtr (lib_ty LTime)) Time_DeepCopy.
Proof. apply copies_new_into, lib_copies. Qed.
#[local] Hint Resolve Time_copies : copies.
(** A struct: its statements are found field by field. *)
Ltac copy_field :=
  first [ apply cv_nil
        | apply cv_copy; [eauto using lib_flat_meta, lib_flat_duration with copies; fail|]
        | apply cv_flat; [reflexivity|] ].
Ltac copy_struct :=
  apply copies_struct; [repeat copy_field | apply (bool_decide_unpack _); vm_compute; exact I].

Lemma CertManagerConfig_copies : copies CertManagerConfig_ty CertManagerConfig_DeepCopyInto.
Proof. copy_struct. Qed.
#[local] Hint Extern 0 (copies CertManagerConfig_ty _) => exact CertManagerConfig_copies : copies.
Lemma TrustedCASource_copies : copies TrustedCASource_ty TrustedCASource_DeepCopyInto.
Proof. copy_struct. Qed.
#[local] Hint Extern 0 (copies TrustedCASource_ty _) => exact TrustedCASource_copies : copies.
Lemma TLSConfig_copies : copies TLSConfig_ty TLSConfig_DeepCopyInto.
Proof. copy_struct. Qed.
#[local] Hint Extern 0 (copies TLSConfig_ty _) => exact TLSConfig_copies : copies.
Lemma MetricsConfigSource_copies : copies MetricsConfigSource_ty MetricsConfigSource_DeepCopyInto.
Proof. copy_struct. Qed.
#[local] Hint Extern 0 (copies MetricsConfigSource_ty _) => exact MetricsConfigSource_copies : copies.
Lemma MonitoringConfig_copies : copies MonitoringConfig_ty MonitoringConfig_DeepCopyInto.
Proof. copy_struct. Qed.
#[local] Hint Extern 0 (copies MonitoringConfig_ty _) => exact MonitoringConfig_copies : copies.
Lemma RolloutConfig_copies : copies RolloutConfig_ty RolloutConfig_DeepCopyInto.
Proof. copy_struct. Qed.
#[local] Hint Extern 0 (copies RolloutConfig_ty _) => exact RolloutConfig_copies : copies.
Lemma PodDisruptionBudgetConfig_copies : copies PodDisruptionBudgetConfig_ty PodDisruptionBudgetConfig_DeepCopyInto.
Proof. copy_struct. Qed.
#[local] Hint Extern 0 (copies PodDisruptionBudgetConfig_ty _) => exact PodDisruptionBudgetConfig_copies : copies.
Lemma RiakClusterSpec_copies : copies RiakClusterSpec_ty RiakClusterSpec_DeepCopyInto.
Proof. copy_struct. Qed.
#[local] Hint Extern 0 (copies RiakClusterSpec_ty _) => exact RiakClusterSpec_copies : copies.
Lemma RiakNodeMember_copies : copies RiakNodeMember_ty RiakNodeMember_DeepCopyInto.
Proof. copy_struct. Qed.
#[local] Hint Extern 0 (copies RiakNodeMember_ty _) => exact RiakNodeMember_copies : copies.
Lemma TLSStatus_copies : copies TLSStatus_ty TLSStatus_DeepCopyInto.
Proof. copy_struct. Qed.
#[local] Hint Extern 0 (copies TLSStatus_ty _) => exact TLSStatus_copies : copies.
Lemma MonitoringStatus_copies : copies MonitoringStatus_ty MonitoringStatus_DeepCopyInto.
Proof. copy_struct. Qed.
#[local] Hint Extern 0 (copies MonitoringStatus_ty _) => exact MonitoringStatus_copies : copies.
Lemma RiakBucketRef_copies : copies RiakBucketRef_ty RiakBucketRef_DeepCopyInto.
Proof. copy_struct. Qed.
#[local] Hint Extern 0 (copies RiakBucketRef_ty _) => exact RiakBucketRef_copies : copies.
Lemma RiakUserRef_copies : copies RiakUserRef_ty RiakUserRef_DeepCopyInto.
Proof. copy_struct. Qed.
#[local] Hint Extern 0 (copies RiakUserRef_ty _) => exact RiakUserRef_copies : copies.
Lemma NodeCondition_copies : copies NodeCondition_ty NodeCondition_DeepCopyInto.
Proof. copy_struct. Qed.
#[local] Hint Extern 0 (copies NodeCondition_ty _) => exact NodeCondition_copies : copies.
Lemma RiakClusterStatus_copies : copies RiakClusterStatus_ty RiakClusterStatus_DeepCopyInto.
Proof. copy_struct. Qed.
#[local] Hint Extern 0 (copies RiakClusterStatus_ty _) => exact RiakClusterStatus_copies : copies.
Lemma RiakCluster_copies : copies RiakCluster_ty RiakCluster_DeepCopyInto.
Proof. copy_struct. Qed.
#[local] Hint Extern 0 (copies RiakCluster_ty _) => exact RiakCluster_copies : copies.
Lemma RiakClusterList_copies : copies RiakClusterList_ty RiakClusterList_DeepCopyInto.
Proof. copy_struct. Qed.
#[local] Hint Extern 0 (copies RiakClusterList_ty _) => exact RiakClusterList_copies : copies.
Lemma RiakBucketSpec_copies : copies RiakBucketSpec_ty RiakBucketSpec_DeepCopyInto.
Proof. copy_struct. Qed.
#[local] Hint Extern 0 (copies RiakBucketSpec_ty _) => exact RiakBucketSpec_copies : copies.
Lemma BucketNodeRef_copies : copies BucketNodeRef_ty BucketNodeRef_DeepCopyInto.
Proof. copy_struct. Qed.
#[local] Hint Extern 0 (copies BucketNodeRef_ty _) => exact BucketNodeRef_copies : copies.
Lemma RiakBucketStatus_copies : copies RiakBucketStatus_ty RiakBucketStatus_DeepCopyInto.
Proof. copy_struct. Qed.
#[local] Hint Extern 0 (copies RiakBucketStatus_ty _) => exact RiakBucketStatus_copies : copies.
Lemma RiakBucket_copies : copies RiakBucket_ty RiakBucket_DeepCopyInto.
Proof. copy_struct. Qed.
#[local] Hint Extern 0 (copies RiakBucket_ty _) => exact RiakBucket_copies : copies.
Lemma RiakBucketList_copies : copies RiakBucketList_ty RiakBucketList_DeepCopyInto.
Proof. copy_struct. Qed.
#[local] Hint Extern 0 (copies RiakBucketList_ty _) => exact RiakBucketList_copies : copies.
Lemma Grant_copies : copies Grant_ty Grant_DeepCopyInto.
Proof. copy_struct. Qed.
#[local] Hint Extern 0 (copies Grant_ty _) => exact Grant_copies : copies.
Lemma CertIssuerRef_copies : copies CertIssuerRef_ty CertIssuerRef_DeepCopyInto.
Proof. copy_struct. Qed.
#[local] Hint Extern 0 (copies CertIssuerRef_ty _) => exact CertIssuerRef_copies : copies.
Lemma UserCertificateRef_copies : copies UserCertificateRef_ty UserCertificateRef_DeepCopyInto.
Proof. copy_struct. Qed.
#[local] Hint Extern 0 (copies UserCertificateRef_ty _) => exact UserCertificateRef_copies : copies.
Lemma RiakUserSpec_copies : copies RiakUserSpec_ty RiakUserSpec_DeepCopyInto.
Proof. copy_struct. Qed.
#[local] Hint Extern 0 (copies RiakUserSpec_ty _) => exact RiakUserSpec_copies : copies.
Lemma RiakUserStatus_copies : copies RiakUserStatus_ty RiakUserStatus_DeepCopyInto.
Proof. copy_struct. Qed.
#[local] Hint Extern 0 (copies RiakUserStatus_ty _) => exact RiakUserStatus_copies : copies.
Lemma RiakUser_copies : copies RiakUser_ty RiakUser_DeepCopyInto.
Proof. copy_struct. Qed.
#[local] Hint Extern 0 (copies RiakUser_ty _) => exact RiakUser_copies : copies.
Lemma RiakUserList_copies : copies RiakUserList_ty RiakUserList_DeepCopyInto.
Proof. copy_struct. Qed.
#[local] Hint Extern 0 (copies RiakUserList_ty _) => exact RiakUserList_copies : copies.

Lemma api_types_copied t copy : (t, copy) ∈ api_types → copies (TPtr t) copy.
Proof.
  intros Hin. assert (Forall (λ x, copies (TPtr x.1) x.2) api_types) as Hall.
  { unfold api_types. repeat (apply Forall_cons; split; [cbn [fst snd]; apply copies_new_into; eauto with copies|]).
    by apply Forall_nil. }
  exact (proj1 (Forall_forall _ _) Hall _ Hin).
Qed.
Lemma reads_nil sep m t p tr X : reads sep m (TPtr t) p tr X → p = GPtr None ↔ tr = NNil.
Proof. by inversion 1. Qed.
End api.

(** ** Other packages' types, for a run *)
#[global] Instance refTypes : GoLibTypes := {|
  lib_ty n := match n with
              | LObjectMeta => TStruct [("Name", TScalar); ("DeletionTimestamp", TPtr TScalar);
                                        ("Labels", TMap); ("Finalizers", TSlice TScalar)]
              | LListMeta => TStruct [("ResourceVersion", TScalar); ("RemainingItemCount", TPtr TScalar)]
              | LPodSecurityContext => TStruct [("RunAsUser", TPtr TScalar); ("FSGroup", TPtr TScalar)]
              | _ => TScalar
              end;
  lib_copy n := match n with
                | LObjectMeta => struct_copy [("DeletionTimestamp", new_into mret); ("Labels", make_map);
                                              ("Finalizers", make_each mret)]
                | LListMeta => struct_copy [("RemainingItemCount", new_into mret)]
                | LPodSecurityContext => struct_copy [("RunAsUser", new_into mret); ("FSGroup", new_into mret)]
                | _ => mret
                end
|}.
#[global] Instance refTypes_laws : GoLibTypesLaws refTypes.
Proof.
  split; [|by intros n [->| ->]].
  intros []; cbn; try (by apply copies_flat); apply copies_struct;
    try (apply (bool_decide_unpack _); vm_compute; exact I);
    repeat first [ apply cv_nil | apply cv_copy; [eauto with copies; fail|] | apply cv_flat; [reflexivity|] ].
Qed.

(** ** Properties *)

(** C21: a deep copy is equal and separate. For every type of the API, [DeepCopy] of a pointer
    to a well-formed object, whatever its pointers share, returns without a panic a pointer to
    an object with the same content, nil and empty told apart, which shares no memory with the
    original and none inside itself: whatever is then written through one of the two, the
    other still reads as it did. [DeepCopyObject] returns the same, and a nil interface for a
    nil pointer. *)
Theorem deep_copy_separate (G : GoLibTypes) (HG : GoLibTypesLaws G) (t : gty) (copy : gval → heapM gval)
    (m : mem) (p : gval) (tr : tree) (X : gset loc) :
  (t, copy) ∈ api_types → reads false m (TPtr t) p tr X →
  ∃ p' m' Y, copy p m = Some (p', m') ∧
    as_object copy p m = Some (match tr with NNil => None | _ => Some p' end, m') ∧
    reads true m' (TPtr t) p' tr Y ∧ X ## Y ∧
    (∀ m2, (∀ l, l ∉ Y → m2 !! l = m' !! l) → reads false m2 (TPtr t) p tr X) ∧
    (∀ m2, (∀ l, l ∉ X → m2 !! l = m' !! l) → reads true m2 (TPtr t) p' tr Y).
Proof.
  intros Hin%api_types_copied Hr.
  destruct (Hin m p tr X Hr) as (p' & m' & Y & Hrun & Hm & Hr' & HY).
  pose proof (reads_dom _ _ _ _ _ _ Hr). exists p', m', Y. split_and!; [done| |done|set_solver|..].
  - unfold as_object. rewrite (run_call _ _ _ _ _ Hrun). pose proof (reads_nil _ _ _ _ _ _ Hr') as Hnil.
    by inversion Hr'; subst.
  - intros m2 Hm2. eapply reads_agree; [by eapply reads_mono|]. intros l Hl. apply Hm2. set_solver.
  - intros m2 Hm2. eapply reads_agree; [done|]. intros l Hl. apply Hm2. set_solver.
Qed.
(** A user's spec with a grant and an issuer: four cells in, four more out. *)
Definition demo_mem : mem :=
  {[1%positive := CVal (GStruct [("ClusterName", GScalar "c"); ("Username", GScalar "alice");
                                 ("Grants", GSlice (Some (2%positive, 0%nat, 1%nat)));
                                 ("CertificateRef", GPtr (Some 3%positive))]);
    2%positive := CArr [GStruct [("Resource", GScalar "bucket"); ("BucketName", GScalar "b");
                                 ("Permission", GScalar "read")]];
    3%positive := CVal (GStruct [("IssuerRef", GPtr (Some 4%positive)); ("SecretName", GScalar "s");
                                 ("ExternalSecretName", GScalar "")]);
    4%positive := CVal (GStruct [("Name", GScalar "ca"); ("Kind", GScalar "Issuer")])]}.
Lemma demo_reads : ∃ tr X, reads false demo_mem (TPtr RiakUserSpec_ty) (GPtr (Some 1%positive)) tr X.
Proof.
  do 2 eexists. unfold RiakUserSpec_ty, UserCertificateRef_ty, CertIssuerRef_ty, Grant_ty.
  repeat first [done | econstructor].
Qed.
Lemma deep_copy_separate_witness :
  match RiakUserSpec_DeepCopy (GPtr (Some 1%positive)) demo_mem with
  | Some (GPtr (Some l), m') => size m' = 8
  | _ => False
  end ∧
  ∃ tr X p' m' Y, RiakUserSpec_DeepCopy (GPtr (Some 1%positive)) demo_mem = Some (p', m') ∧
    reads true m' (TPtr RiakUserSpec_ty) p' tr Y ∧ X ## Y.
Proof.
  split; [by vm_compute|]. destruct demo_reads as (tr & X & Hr). exists tr, X.
  destruct (deep_copy_separate refTypes refTypes_laws RiakUserSpec_ty
    RiakUserSpec_DeepCopy demo_mem (GPtr (Some 1%positive)) tr X) as (p' & m' & Y & H1 & _ & H2 & H3 & _);
    [|exact Hr|by exists p', m', Y].
  unfold api_types. repeat (first [by left | right]).
Defined.
