(* ===== verification/Convergence.v ===== *)
(** * A cluster that can become Ready does

    [world]: the RiakCluster, its pods and its ring. [world_env] is an API server that
    answers every call and a Riak that carries out its commands; between the passes of the
    controller pods come and go, and others edit the cluster ([world_step]). *)
From S2P Require Import Prelude GoLib Effects Types Samples KubeTypes Kube KubeLib Footprint Status Executor ExecutorFacts Manager RiakEnv Membership Tls Trust TrustFacts Monitoring Rollout BucketController StatefulSet StatefulSetFacts ClusterController Footprints ClusterFacts.

Record world := mkWorld { wd_cluster : RiakCluster; wd_pods : list Pod; wd_ring : ring }.
Definition wd_with_cluster (s : world) (c : RiakCluster) : world := mkWorld c (wd_pods s) (wd_ring s).
Definition wd_with_ring (s : world) (r : ring) : world := mkWorld (wd_cluster s) (wd_pods s) r.

(** ** The environment *)
(** The metadata of the kinds that are applied with CreateOrUpdate. *)
Definition owned_meta (k : kind) : option (obj k → ObjectMeta) :=
  match k with
  | KConfigMap => Some cfm_Meta
  | KStatefulSet => Some sts_Meta
  | KService => Some svc_Meta
  | KPDB => Some pdb_Meta
  | KUnstructured _ => Some un_Meta
  | _ => None
  end.
(** In the cluster's namespace, and under no other controller. *)
Definition ours (c : RiakCluster) (m : ObjectMeta) : Prop :=
  om_Namespace m = cl_Namespace c ∧
  ∀ r, r ∈ om_OwnerReferences m → or_Controller r = true → controlled_by "RiakCluster" (cl_Meta c) r.
Definition cluster_key (c : RiakCluster) : ObjectKey := mkKey (cl_Namespace c) (cl_Name c).
(** The key of the exporter configuration that the cluster refers to. *)
Definition custom_config (c : RiakCluster) (key : ObjectKey) (ref : KeySelector) : Prop :=
  customMetricsConfig c = Some ref ∧ key = mkKey (cl_Namespace c) (ks_Name ref).

Section world.
Context (node : string → string).

(** What exists: the cluster, a StatefulSet of its storage mode or none yet, and the
    configuration it refers to; anything else may or may not. *)
Definition healthy_get (c : RiakCluster) (k : kind) (key : ObjectKey) : res (obj k) → Prop :=
  match k return res (obj k) → Prop with
  | KCluster => λ r, r = Ok c
  | KStatefulSet => λ r, match r with
      | Ok sts => negb (hasDataVolumeClaim (ss_VolumeClaimTemplates (sts_Spec sts))) = cs_EphemeralStorage (cl_Spec c)
      | Err e => IsNotFound e = true
      end
  | KConfigMap => λ r, match r with
      | Ok cm => ∀ ref, custom_config c key ref →
                   is_Some (cfm_Data cm !! ks_Key ref) ∨ is_Some (cfm_BinaryData cm !! ks_Key ref)
      | Err e => IsNotFound e = true ∧ ∀ ref, ¬ custom_config c key ref
      end
  | _ => λ r, match r with Ok _ => True | Err e => IsNotFound e = true end
  end.
Definition selects (c : RiakCluster) (ns : string) (labels : gmap string string) : Prop :=
  ns = cl_Namespace c ∧ (labels = cluster_labels c ∨ labels = cluster_labels_only c).

Definition world_ok (s : world) (a : api) : Prop :=
  match a with
  | AGet _ KCluster key => key = cluster_key (wd_cluster s)
  | ACreate KCluster _ | APatch KCluster _ _ | ADelete KCluster _ => False
  | ACreateOrUpdate k key _ => is_Some (owned_meta k) ∧ key_Namespace key = cl_Namespace (wd_cluster s)
  | ARun name full => ∃ pod args,
      name = "kubectl" ∧ full = kubectl_args (cl_Namespace (wd_cluster s)) pod "riak" args ∧
      (args = ["transfers"] ∨ ring_ok node (wd_ring s) pod args)
  | _ => True
  end.
(** A write of the cluster leaves its status alone, a write of its status the rest. *)
Definition updated (c c' : RiakCluster) : RiakCluster := cl_with_status c' (cl_Status c).
Definition status_updated (c c' : RiakCluster) : RiakCluster := cl_with_status c (cl_Status c').
Definition writes_cluster (s : world) (c : RiakCluster) (r : res RiakCluster) (s' : world) : Prop :=
  r = Ok c ∧ s' = wd_with_cluster s c.
Definition world_run (s : world) (pod : string) (args : list string) (r : res string) (s' : world) : Prop :=
  ∃ out, r = Ok out ∧ riakAdminFailed out = false ∧
    if decide (args = ["transfers"]) then s' = s
    else ∃ rg, ring_effect node (wd_ring s) pod out args rg ∧ s' = wd_with_ring s rg.
Definition world_answer (s : world) (a : api) : reply a → world → Prop :=
  let c := wd_cluster s in
  match a as a' return reply a' → world → Prop with
  | AGet _ k key => λ r s', healthy_get c k key r ∧ s' = s
  | AList k ns labels =>
      match k as k' return res (list (obj k')) → world → Prop with
      | KPod => λ r s', (∃ items, r = Ok items ∧ (selects c ns labels → items ≡ₚ wd_pods s)) ∧ s' = s
      | _ => λ r s', is_ok r = true ∧ s' = s
      end
  | ACreate _ _ => λ r s', r = None ∧ s' = s
  | AUpdate k o =>
      match k as k' return obj k' → res (obj k') → world → Prop with
      | KCluster => λ o, writes_cluster s (updated c o)
      | _ => λ _ r s', is_ok r = true ∧ s' = s
      end o
  | AStatusUpdate k o =>
      match k as k' return obj k' → res (obj k') → world → Prop with
      | KCluster => λ o, writes_cluster s (status_updated c o)
      | _ => λ _ r s', is_ok r = true ∧ s' = s
      end o
  | APatch _ _ _ => λ r s', is_ok r = true ∧ s' = s
  | ADelete _ _ => λ r s', IgnoreNotFound r = None ∧ s' = s
  | ACreateOrUpdate k _ mutate => λ r s',
      (∃ meta o, owned_meta k = Some meta ∧ ours c (meta o) ∧ r = res_err (mutate o)) ∧ s' = s
  | ARun _ full => λ r s', world_run s (exec_pod full) (exec_args full) r s'
  | ANow => λ _ s', s' = s
  end.
Definition world_env : Env reply world := {| allowed := world_ok; step := world_answer |}.
End world.

(** *** Every permitted call has an answer *)
(** A name that Riak can print in its table. *)
Definition printable (n : string) : Prop := HasPrefix n "riak@" = true ∧ is_word n = true.
Lemma ring_view_printed (node : string → string) r pod :
  (∀ p, printable (node p)) →
  let out := print_members (sim_row <$> ring_view node r pod) in
  parseMemberStatus out = ring_view node r pod ∧ riakAdminFailed out = false.
Proof.
  intros Hn out.
  assert (Forall (λ m, (cmb_Status m = "valid" ∨ cmb_Status m = "joining") ∧ printable (cmb_Node m))
            (ring_view node r pod)) as Hview.
  { unfold ring_view. destruct (bool_decide _).
    - apply Forall_app. split; apply Forall_fmap, Forall_forall; intros p _; (split; [|apply Hn]); [by left|by right].
    - apply Forall_singleton. split; [by left|apply Hn]. }
  assert (Forall (λ r, row_ok r = true ∧ cmb_Status (mr_member r) ≠ "exiting")
    (sim_row <$> ring_view node r pod)) as Hrows.
  { apply Forall_fmap, (Forall_impl _ _ _ Hview). intros m [Hs [Hp Hw]]. unfold row_ok. cbn.
    rewrite Hp, Hw. destruct Hs as [-> | ->]; done. }
  apply Forall_and in Hrows as [Hok Hex]. subst out. split; [|by apply print_members_succeeds].
  rewrite parse_members_roundtrip by done. induction (ring_view node r pod) as [|m l IH]; [done|].
  csimpl. f_equal. inversion Hview; inversion Hok; inversion Hex; subst. by apply IH.
Qed.

(** An object nobody owns. *)
Definition blank (k : kind) (ns : string) : option (obj k) :=
  match k with
  | KConfigMap => Some (mkConfigMap (new_meta "" ns) ∅ ∅)
  | KStatefulSet => Some (mkStatefulSet (new_meta "" ns)
      (mkStatefulSetSpec "" None "" None ∅ (mkPodTemplate ∅ (mkPodSpec ∅ None [] [] [] None None)) [])
      (mkStatefulSetStatus "" ""))
  | KService => Some (mkService (new_meta "" ns) (mkServiceSpec "" "" ∅ [] false))
  | KPDB => Some (mkPDB (new_meta "" ns) None None)
  | KUnstructured g => Some (mkUnstructured g (new_meta "" ns) [])
  | _ => None
  end.
Lemma blank_ours c k meta :
  owned_meta k = Some meta → ∃ o, blank k (cl_Namespace c) = Some o ∧ ours c (meta o).
Proof.
  destruct k; intros [= <-]; (eexists; split; [reflexivity|]); (split; [done|]); by intros r ?%elem_of_nil.
Qed.
Definition not_found : error := Error ENotFound "not found".
Lemma healthy_get_total c k key : ∃ r, healthy_get c k key r.
Proof.
  destruct k; try by exists (Err not_found); cbn.
  - by exists (Ok c).
  - destruct (customMetricsConfig c) as [ref|] eqn:Href.
    2: { exists (Err not_found). split; [done|]. intros ref [H _]. congruence. }
    exists (Ok (mkConfigMap (new_meta "" "") {[ks_Key ref := ""]} ∅)). intros ref' [H _]. left.
    cbn. rewrite Href in H. injection H as <-. rewrite lookup_singleton_eq. by eexists.
Qed.
Lemma world_total node s a :
  (∀ p, printable (node p)) → world_ok node s a → ∃ r s', world_answer node s a r s'.
Proof.
  intros Hn Ha. destruct a as [src k key|k ns labels|k o|k o|k o|k o o'|k key|k key mutate|name full|]; cbn in *.
  - destruct (healthy_get_total (wd_cluster s) k key) as [r Hr]. by exists r, s.
  - destruct k; try by exists (Ok []), s. exists (Ok (wd_pods s)), s. split; [|done]. by exists (wd_pods s).
  - by exists None, s.
  - destruct k; try by exists (Ok o), s. eexists _, _. split; reflexivity.
  - destruct k; try by exists (Ok o), s. eexists _, _. split; reflexivity.
  - by exists (Ok o), s.
  - by exists None, s.
  - destruct Ha as [[meta Hm] _]. destruct (blank_ours (wd_cluster s) k meta Hm) as (o & _ & Ho).
    exists (res_err (mutate o)), s. split; [|done]. by exists meta, o.
  - destruct Ha as (pod & args & -> & -> & Hargs).
    change (exec_pod (kubectl_args _ pod "riak" args)) with pod.
    change (exec_args (kubectl_args _ pod "riak" args)) with args. unfold world_run.
    destruct (decide (args = ["transfers"])) as [->|Hne]; [by exists (Ok ""), s, ""|].
    destruct Hargs as [?|Hok]; [done|]. destruct (ring_view_printed node (wd_ring s) pod Hn) as [Hp Hf].
    destruct Hok; [eexists _, _, _; (split; [reflexivity|]); split; [exact Hf|]; eexists; split;
      [by constructor|done]|..];
      exists (Ok ""); eexists _, ""; (split; [done|]); (split; [done|]); eexists; (split; [constructor|done]).
  - by exists 0%Z, s.
Qed.

(** ** One pass *)
Section pass.
Context `{L : KubeLib} `{HL : !KubeLibLaws L} `{X : GoX509}.
Context (apiReader : bool) (DefaultImage : string) (range_order : gmap string string → list string).
Context (node : string → string).
Abbreviation wpw := (wp (world_env node)).

(** Calls that leave the world as it is. *)
Definition harmless (ns : string) (a : api) : Prop :=
  match a with
  | AGet _ k _ | ACreate k _ | AUpdate k _ | APatch k _ _ => match k with KCluster => False | _ => True end
  | AList _ _ _ | ANow => True
  | ARun name full => asks ns name full
  | _ => False
  end.
Lemma wp_harmless {A} (p : M A) Q s :
  footprint (harmless (cl_Namespace (wd_cluster s))) p Q → wpw p (λ a s', Q a ∧ s' = s) s.
Proof.
  intros Hp. apply (wp_footprint _ _ (λ s', s' = s) _ _ s Hp); [| |done].
  - intros s' a -> Ha. destruct a as [? k ?| |k ?|k ?|k ?|k ? ?|k ?| |name full|]; cbn in *; try done;
    try by destruct k.
    destruct Ha as (pod & args & -> & -> & Hargs). exists pod, args. split_and!; [done..|].
    destruct Hargs as [-> | ->]; [right; constructor|by left].
  - intros s' a r s'' -> Ha Hst. destruct a as [? k ?|k ? ?|k ?|k ?|k ?|k ? ?|k ?| |name full|]; cbn in *;
      try (by destruct k; destruct Hst); try done.
    destruct Ha as (pod & args & -> & -> & Hargs), Hst as (out & -> & _ & Hst).
    change (exec_args (kubectl_args _ pod "riak" args)) with args in Hst.
    destruct Hargs as [-> | ->]; [|done]. rewrite decide_False in Hst by done. destruct Hst as (rg & He & ->).
    inversion He; subst. by destruct s.
Qed.
Lemma wp_harmless_bind {A B} (p : M A) (f : A → M B) Q1 Q s :
  footprint (harmless (cl_Namespace (wd_cluster s))) p Q1 → (∀ a, Q1 a → wpw (f a) Q s) → wpw (p ≫= f) Q s.
Proof. intros Hp Hf. eapply wp_bind_2; [by apply wp_harmless|]. intros a s' [Ha ->]. by apply Hf. Qed.
Lemma reads_harmless ns a : reads a → harmless ns a.
Proof. by destruct a. Qed.
Lemma trust_harmless ns a : trust_calls a → harmless ns a.
Proof. by destruct a as [? [] ?| |[]|[]|[]|[]|[]|[]| |]. Qed.
Lemma rollout_harmless c a : rollout_calls c a → harmless (cl_Namespace c) a.
Proof. by destruct a as [? [] ?| |[]|[]|[]|[]|[]|[]| |]. Qed.

(** Applying an object whose mutation only takes ownership of it. *)
Lemma owned_free c m : ours c m → is_ok (SetControllerReference "RiakCluster" (cl_Meta c) m) = true.
Proof. intros [Hns Ho]. by apply owner_free. Qed.
Lemma wp_apply {A} k key mutate meta (f : option error → M A) Q s :
  owned_meta k = Some meta → key_Namespace key = cl_Namespace (wd_cluster s) →
  (∀ o, ours (wd_cluster s) (meta o) → is_ok (mutate o) = true) →
  wpw (f None) Q s → wpw (CreateOrUpdate k key mutate ≫= f) Q s.
Proof.
  intros Hk Hkey Hm Hf. unfold CreateOrUpdate. apply wp_call; [split; [by eexists|done]|].
  intros r s' [(meta' & o & Hk' & Ho & ->) ->]. rewrite Hk in Hk'. injection Hk' as <-.
  specialize (Hm o Ho). by destruct (mutate o).
Qed.
Lemma wp_apply_last k key mutate meta s :
  owned_meta k = Some meta → key_Namespace key = cl_Namespace (wd_cluster s) →
  (∀ o, ours (wd_cluster s) (meta o) → is_ok (mutate o) = true) →
  wpw (CreateOrUpdate k key mutate) (λ e s', e = None ∧ s' = s) s.
Proof. intros Hk Hkey Hm. apply (wp_apply (A:=option error) k key mutate meta mret); [done..|]. by apply wp_ret. Qed.
Lemma owned_mutate {B} c m (f : ObjectMeta → B) :
  ours c m → is_ok (m' ← SetControllerReference "RiakCluster" (cl_Meta c) m; mret (f m')) = true.
Proof. intros H%owned_free. by destruct (SetControllerReference _ _ _). Qed.
Ltac takes_ownership := let o := fresh in let H := fresh in intros o H; refine (owned_mutate _ _ _ H).

(** What the CRD and the operator's own checks ask of a spec. *)
Definition sane (c : RiakCluster) : Prop :=
  om_DeletionTimestamp (cl_Meta c) = None ∧ (1 ≤ cl_Size c ≤ 999)%Z ∧
  ∀ tls, cs_TLS (cl_Spec c) = Some tls → tls_Enabled tls = true →
    ∃ cm, tls_CertManager tls = Some cm ∧ cm_IssuerName cm ≠ "".

Abbreviation succeeds p s := (wpw p (λ e s', e = None ∧ s' = s) s).
(** *** The objects *)
Section objects.
Context (s : world) (Hsane : sane (wd_cluster s)).
Let c : RiakCluster := wd_cluster s.

Lemma reconcileTLSCertificate_world : succeeds (reconcileTLSCertificate c) s.
Proof.
  destruct Hsane as (_ & _ & Htls). unfold reconcileTLSCertificate. fold c in Htls.
  destruct (cs_TLS _) as [tls|]; [|by apply wp_ret]. destruct (tls_Enabled tls) eqn:He; [|by apply wp_ret].
  destruct (Htls _ eq_refl He) as (cm & -> & Hi). apply String.eqb_neq in Hi as ->. cbn [negb].
  assert (ours c (un_Meta (buildClusterCertificate c cm))) as Ho.
  { split; [done|]. cbn. by intros r ?%elem_of_nil. }
  apply owned_free in Ho. destruct (SetControllerReference _ _ _) as [m|e]; [|done].
  unfold Get. apply wp_call; [done|]. intros [cert|e] s' [Hget ->]; [by apply wp_ret|].
  cbn in Hget. rewrite Hget. split; [done|]. by intros r s' [-> ->].
Qed.
Lemma reconcileTrustBundle_world {A} (f : option error → M A) Q :
  (∀ e, wpw (f e) Q s) → wpw (reconcileTrustBundle apiReader c ≫= f) Q s.
Proof.
  intros Hf. eapply wp_harmless_bind; [|intros e _; apply Hf].
  eapply fp_weaken; [apply trust_harmless|apply reconcileTrustBundle_fp].
Qed.
Lemma reconcileMonitoringConfigMap_world : succeeds (reconcileMonitoringConfigMap c) s.
Proof.
  unfold reconcileMonitoringConfigMap. destruct (customMetricsConfig c) as [ref|] eqn:Href.
  2: { eapply wp_apply_last; [done..|]. takes_ownership. }
  assert (custom_config c (mkKey (cl_Namespace c) (ks_Name ref)) ref) as Hcustom by done.
  unfold Get. apply wp_call; [done|]. intros [cm|e] s' [Hget ->]; [|by destruct (proj2 Hget ref)].
  specialize (Hget _ Hcustom).
  destruct (negb _ && negb _) eqn:Hb.
  { apply andb_true_iff in Hb as [H1%negb_true_iff H2%negb_true_iff].
    apply bool_decide_eq_false in H1, H2. tauto. }
  unfold Delete. apply wp_call; [done|]. intros e s' [He ->]. by apply wp_ret.
Qed.
Lemma reconcileStatefulSet_world : succeeds (reconcileStatefulSet DefaultImage range_order c) s.
Proof.
  unfold reconcileStatefulSet, Get. apply wp_call; [done|]. intros r s' [Hget ->].
  assert (wpw (CreateOrUpdate KStatefulSet (sts_key c) (sts_mutate DefaultImage range_order c))
            (λ e s', e = None ∧ s' = s) s) as Happly.
  { eapply wp_apply_last; [done..|]. takes_ownership. }
  destruct r as [sts|e]; cbn in Hget.
  - fold c in Hget. rewrite Hget, Bool.eqb_reflx. exact Happly.
  - rewrite Hget. exact Happly.
Qed.
Lemma reconcileService_world : succeeds (reconcileService c) s.
Proof.
  unfold reconcileService. eapply wp_apply; [done..| |].
  { takes_ownership. }
  eapply wp_apply_last; [done..|]. intros o Ho. unfold client_mutate.
  assert (ours c (with_labels (svc_Meta o) (<["cluster" := cl_Name c]> (<["app" :=
    "riak"]> (om_Labels (svc_Meta o)))))) as H%owned_free
    by done.
  by destruct (SetControllerReference _ _ _).
Qed.
Lemma reconcilePodDisruptionBudget_world : succeeds (reconcilePodDisruptionBudget c) s.
Proof.
  unfold reconcilePodDisruptionBudget. destruct (negb _).
  - unfold Delete. apply wp_call; [done|]. intros e s' [He ->]. by apply wp_ret.
  - eapply wp_apply_last; [done..|]. takes_ownership.
Qed.
Lemma reconcileMonitor_world gvk field : succeeds (reconcileMonitor c gvk field) s.
Proof.
  unfold reconcileMonitor. eapply wp_apply; [done..| |by apply wp_ret]. takes_ownership.
Qed.
Lemma deleteMonitor_world gvk : succeeds (deleteMonitor c gvk) s.
Proof.
  unfold deleteMonitor, Delete. apply wp_call; [done|]. intros e s' [He ->]. apply wp_ret. split; [|done].
  destruct e as [e|]; [|done]. cbn in He. by destruct (IsNotFound e).
Qed.
Lemma reconcileScrapeObject_world : succeeds (reconcileScrapeObject c) s.
Proof.
  assert (∀ a b, succeeds a s → succeeds b s → succeeds (and_then a b) s) as Hthen.
  { intros a b Ha Hb. eapply wp_bind_2; [exact Ha|]. by intros e s' [-> ->]. }
  unfold reconcileScrapeObject, reconcileServiceMonitor, reconcilePodMonitor.
  repeat case_match; apply Hthen; first [apply reconcileMonitor_world | apply deleteMonitor_world].
Qed.
End objects.

(** *** The status *)
Definition world_up (s : world) : bool :=
  (Z.of_nat (length (filter (λ p, podIsReady p = true) (wd_pods s))) =? cl_Size (wd_cluster s))%Z.
Definition world_names (s : world) : list string := pod_names (wd_pods s).
(** The names the StatefulSet gives its pods. *)
Definition slots (c : RiakCluster) : list string :=
  (λ i : nat, cl_Name c +:+ "-" +:+ Itoa (Z.of_nat i)) <$> seq 0 (Z.to_nat (cl_Size c)).
Record world_inv (s : world) : Prop := {
  wi_sane : sane (wd_cluster s);
  wi_names : NoDup (world_names s) ∧ world_names s ⊆ slots (wd_cluster s);
  wi_ring : NoDup (rg_members (wd_ring s)) ∧ seed_pod (wd_cluster s) ∈ rg_members (wd_ring s) ∧
    rg_staged (wd_ring s) = []
}.
(** Every pod is in the ring, and nothing else. *)
Definition world_complete (s : world) : bool :=
  bool_decide (missing (wd_ring s) (world_names s) = [] ∧
               length (rg_members (wd_ring s)) = length (world_names s)).
Definition joins (s : world) : list string :=
  if world_up s then missing (wd_ring s) (world_names s) else [].
Definition phase_after (s : world) : string :=
  if world_up s && ((cl_Size (wd_cluster s) =? 1)%Z || world_complete s) then PhaseReady else PhaseCreating.

Context `{!Inj (=) (=) node} (Hnode : ∀ p, node p ≠ "").
(** The node names Riak shows begin with the pod's name. *)
Definition names_nodes (c : RiakCluster) : Prop := names_seed (seed_pod c) (node (seed_pod c)) = true.

#[local] Instance missing_proper r : Proper ((≡ₚ) ==> (≡ₚ)) (missing r).
Proof. intros l l' Hl. unfold missing. by rewrite Hl. Qed.
Lemma nil_proper (l l' : list string) : l ≡ₚ l' → l = [] ↔ l' = [].
Proof. intros Hl. split; intros ->; [|symmetry in Hl]; by apply Permutation_nil in Hl. Qed.
Lemma slots_one c : cl_Size c = 1%Z → slots c = [seed_pod c].
Proof. intros Hs. unfold slots. by rewrite Hs. Qed.
Lemma joins_one s : world_inv s → cl_Size (wd_cluster s) = 1%Z → joins s = [].
Proof.
  intros [_ [_ Hn] (_ & Hs & _)] H1. unfold joins. destruct (world_up s); [|done].
  rewrite slots_one in Hn by done. apply elem_of_nil_inv.
  intros p [Hp Hin%Hn%list_elem_of_singleton]%list_elem_of_filter. by subst p.
Qed.

(** The pass over the ring, in the world. *)
Lemma ReconcileMembership_world s c' pods :
  world_inv s → names_nodes (wd_cluster s) → cl_Meta c' = cl_Meta (wd_cluster s) → pods ≡ₚ world_names s →
  wpw (ReconcileMembership c' pods)
    (λ r s', r = Ok (world_complete s) ∧ wd_cluster s' = wd_cluster s ∧ wd_pods s' = wd_pods s ∧
       rg_members (wd_ring s') ≡ₚ rg_members (wd_ring s) ++ missing (wd_ring s) (world_names s) ∧
       rg_staged (wd_ring s') = []) s.
Proof.
  intros [_ [Hnd _] (Hrd & Hseed & Hst)] Hnn Hmeta Hpods. unfold names_nodes, seed_pod in *. rewrite <-Hmeta in *.
  eapply wp_mono.
  - apply (wp_map (ring_env node (cl_Namespace c')) (world_env node) wd_ring
             (λ s', wd_cluster s' = wd_cluster s ∧ wd_pods s' = wd_pods s)); [| |done|].
    + intros s1 a [Hc _] (pod & args & -> & Hok). exists pod, args. rewrite Hc, <-Hmeta. by split_and!; [..|right].
    + intros s1 a r s2 [Hc Hp] (pod & args & -> & Hok) (out & -> & Hf & Hs2).
      change (exec_args (kubectl_args _ pod "riak" args)) with args in Hs2.
      rewrite decide_False in Hs2 by (intros ->; inversion Hok). destruct Hs2 as (rg & He & ->).
      split; [|done]. by exists out.
    + apply ReconcileMembership_ring; [done|done|done|by rewrite Hpods|done|done].
  - intros r s' [(Hm & Hst' & ->) [Hc Hp]]. split_and!; [|done|done|by rewrite Hm, Hpods|done].
    f_equal. apply bool_decide_ext. rewrite (Permutation_length Hpods).
    by rewrite (nil_proper _ _ (missing_proper (wd_ring s) _ _ Hpods)).
Qed.
Lemma ring_formed_world s c' pods :
  world_inv s → names_nodes (wd_cluster s) → cl_Meta c' = cl_Meta (wd_cluster s) →
  cl_Spec c' = cl_Spec (wd_cluster s) → pods ≡ₚ wd_pods s →
  wpw (ring_formed c' (world_up s) pods)
    (λ formed s', wd_cluster s' = wd_cluster s ∧ wd_pods s' = wd_pods s ∧
       rg_members (wd_ring s') ≡ₚ rg_members (wd_ring s) ++ joins s ∧ rg_staged (wd_ring s') = [] ∧
       world_up s && formed = world_up s && ((cl_Size (wd_cluster s) =? 1)%Z || world_complete s)) s.
Proof.
  intros Hi Hnn Hmeta Hspec Hpods. unfold ring_formed. rewrite Hspec.
  pose proof Hi as [(_ & Hsize & _) _ (_ & _ & Hst)].
  destruct (world_up s) eqn:Hup; cbn [andb].
  2: { apply wp_ret. unfold joins. rewrite Hup, app_nil_r. done. }
  destruct (Z.ltb_spec 1 (cl_Size (wd_cluster s))) as [Hs|Hs].
  - eapply wp_bind_2.
    + apply (ReconcileMembership_world s); [done..|]. by apply fmap_Permutation.
    + intros r s' (-> & Hc & Hp & Hm & Hst'). apply wp_ret. unfold joins. rewrite Hup.
      split_and!; try done. by rewrite (proj2 (Z.eqb_neq _ _)) by lia.
  - apply wp_ret. rewrite joins_one by (done || lia). rewrite app_nil_r.
    by rewrite (proj2 (Z.eqb_eq _ _)) by lia.
Qed.

(** *** Reporting *)
(** Only the status and the finalizers differ. *)
Definition alike (c c' : RiakCluster) : Prop :=
  cl_Spec c' = cl_Spec c ∧ ∃ fs, cl_Meta c' = with_finalizers (cl_Meta c) fs.
#[local] Instance alike_refl : Reflexive alike.
Proof. intros [[] ? ?]. split; [done|]. by eexists. Qed.
#[local] Instance alike_trans : Transitive alike.
Proof. intros c1 c2 c3 [H1 [f1 M1]] [H2 [f2 M2]]. split; [congruence|]. exists f2. by rewrite M2, M1. Qed.
Lemma alike_status c st : alike c (cl_with_status c st).
Proof. destruct c as [[] ? ?]. split; [done|]. by eexists. Qed.
Definition is_secured (c : RiakCluster) : bool := cst_SecurityEnabled (cl_Status c).
(** What a pass leaves. *)
Record pass_post (s s' : world) : Prop := {
  pp_cluster : alike (wd_cluster s) (wd_cluster s');
  pp_phase : cst_Phase (cl_Status (wd_cluster s')) = phase_after s;
  pp_pods : wd_pods s' = wd_pods s;
  pp_members : rg_members (wd_ring s') ≡ₚ rg_members (wd_ring s) ++ joins s;
  pp_staged : rg_staged (wd_ring s') = [];
  pp_listed : nm_Pod <$> cst_Members (cl_Status (wd_cluster s')) ≡ₚ world_names s;
  pp_secured : is_secured (wd_cluster s') = is_secured (wd_cluster s)
}.
Lemma slots_length c : (0 ≤ cl_Size c)%Z → Z.of_nat (length (slots c)) = cl_Size c.
Proof. intros Hs. unfold slots. rewrite length_fmap, length_seq. lia. Qed.
Lemma names_bounded s : world_inv s → (Z.of_nat (length (wd_pods s)) ≤ cl_Size (wd_cluster s))%Z.
Proof.
  intros [(_ & Hsize & _) [Hnd Hsub] _]. rewrite <-(slots_length (wd_cluster s)) by lia.
  rewrite <-(length_fmap (λ p, pod_Name p)). apply Nat2Z.inj_le, submseteq_length, NoDup_submseteq; done.
Qed.
Lemma ready_count_world s pods :
  world_inv s → pods ≡ₚ wd_pods s → (ready_count pods =? cl_Size (wd_cluster s))%Z = world_up s.
Proof.
  intros Hi Hp. pose proof (names_bounded s Hi) as Hb. destruct Hi as [(_ & Hsize & _) _ _].
  unfold world_up. rewrite ready_count_spec by (rewrite Hp; unfold int32_max; lia).
  by rewrite (Permutation_length (filter_Permutation _ _ _ Hp)).
Qed.
Lemma phase_outcome_phase c allReady formed n :
  (phase_outcome c allReady formed n).1.1.1 = if allReady && formed then PhaseReady else PhaseCreating.
Proof. by destruct allReady, formed. Qed.
Lemma refs_world {A} ns labels k (f : list (obj k) → A) s :
  (k = KBucket ∨ k = KUser) →
  wpw (r ← List_ k ns labels; mret match r with Ok items => Ok (f items) | Err e => Err e end)
    (λ r s', is_ok r = true ∧ s' = s) s.
Proof.
  intros Hk. unfold List_. apply wp_call; [done|]. intros r s' Hr. apply wp_ret.
  destruct Hk as [-> | ->], Hr as [Hr ->]; by destruct r.
Qed.
Lemma tlsStatus_harmless c ready : footprint (harmless (cl_Namespace c)) (tlsStatus apiReader c ready) (λ _, True).
Proof.
  unfold tlsStatus. destruct (negb _); [by apply fp_ret|].
  eapply fp_bind; [eapply fp_weaken; [|apply fetchCertificateReadiness_fp]; intros;
    by apply reads_harmless, side_reads_reads|].
  intros r1 _.
  eapply fp_bind; [eapply fp_weaken; [|apply trustStatus_fp]; intros; by apply reads_harmless, side_reads_reads|].
  intros r2 _. by destruct r1, r2; apply fp_ret.
Qed.

Lemma updateClusterStatus_world s c' :
  world_inv s → names_nodes (wd_cluster s) → cl_Meta c' = cl_Meta (wd_cluster s) →
  cl_Spec c' = cl_Spec (wd_cluster s) → is_secured c' = is_secured (wd_cluster s) →
  wpw (updateClusterStatus apiReader c') (λ e s', e = None ∧ pass_post s s') s.
Proof.
  intros Hi Hnn Hmeta Hspec Hsec. unfold updateClusterStatus, List_. apply wp_call; [done|].
  intros r s' [(items & -> & Hitems) ->].
  assert (sorted_pods items ≡ₚ wd_pods s) as Hpods.
  { etrans; [apply SortBy_Permutation|]. apply Hitems. unfold selects, cluster_labels_only. rewrite Hmeta. tauto. }
  fold (sorted_pods items). rewrite Hspec, (ready_count_world s _ Hi Hpods).
  eapply wp_harmless_bind; [eapply fp_weaken; [apply reads_harmless|apply node_rows_fp]|]. intros rows [Hrows _].
  eapply wp_bind_2; [apply refs_world; by left|]. intros [buckets|e] s1 [Hok ->]; [|done].
  eapply wp_bind_2; [apply refs_world; by right|]. intros [users|e] s1 [Hok' ->]; [|done].
  eapply wp_bind_2; [by apply (ring_formed_world s)|]. intros formed s1 (Hc & Hp & Hm & Hst & Hf).
  eapply wp_harmless_bind; [rewrite Hc, <-Hmeta; apply tlsStatus_harmless|]. intros tls _.
  eapply wp_harmless_bind; [eapply fp_weaken; [apply reads_harmless|apply monitoringStatus_fp]|]. intros mon _.
  destruct (clusterStorage c') as [className size].
  pose proof (phase_outcome_phase c' (world_up s) formed (ready_count (sorted_pods items))) as Hph.
  destruct (phase_outcome _ _ _ _) as [[[phase ok] reason] msg]. cbn in Hph. rewrite Hf in Hph.
  unfold Now. apply wp_call; [done|]. intros n1 s2 ->. apply wp_call; [done|]. intros n2 s2 ->.
  unfold StatusUpdate. apply wp_call; [done|]. intros u s2 [-> ->]. apply wp_ret. split; [done|].
  split; cbn; rewrite ?Hc; try done; [apply alike_status|]. rewrite Hrows. by apply fmap_Permutation.
Qed.


(** *** The reconcile *)
Lemma inv_alike s c : world_inv s → alike (wd_cluster s) c → world_inv (wd_with_cluster s c).
Proof.
  intros [Hs Hn Hr] [Hspec [fs Hmeta]].
  split; unfold sane, world_names, slots, seed_pod in *; cbn; rewrite ?Hspec, ?Hmeta; done.
Qed.
Lemma pass_alike s c s' :
  alike (wd_cluster s) c → is_secured c = is_secured (wd_cluster s) →
  pass_post (wd_with_cluster s c) s' → pass_post s s'.
Proof.
  intros Hc Hsec [H1 H2 H3 H4 H5 H6 H7]. unfold phase_after, joins, world_up in *. cbn in *. rewrite (proj1 Hc) in *.
  split; try done; by etrans.
Qed.
Abbreviation done_again := (finish (requeue (10 * second))).
Lemma reconcileScrapeObject_same c c' :
  cl_Meta c' = cl_Meta c → cl_Spec c' = cl_Spec c → reconcileScrapeObject c' = reconcileScrapeObject c.
Proof. destruct c, c'. cbn. by intros -> ->. Qed.
Lemma finish_cluster_world s :
  world_inv s → names_nodes (wd_cluster s) →
  wpw (finish_cluster apiReader (wd_cluster s)) (λ o s', o = done_again ∧ pass_post s s') s.
Proof.
  intros Hi Hnn. unfold finish_cluster.
  eapply wp_harmless_bind; [eapply fp_weaken; [apply rollout_harmless|apply reconcileRollout_fp]|].
  intros [c' e] Hsame. cbn in Hsame.
  pose proof (same_cluster_security _ _ Hsame) as Hsec. apply same_cluster_spec in Hsame as [Hmeta Hspec]. cbn [fst].
  rewrite (reconcileScrapeObject_same (wd_cluster s) c') by done.
  unfold stop_on. eapply (wp_bind_2 _ _ _ (λ e s', e = None ∧ s' = s)).
  - unfold when_monitored. destruct (monitoringEnabled c'); [apply reconcileScrapeObject_world|by apply wp_ret].
  - intros e0 s' [-> ->]. eapply wp_bind_2; [by apply updateClusterStatus_world|].
    intros e1 s' [-> Hpost]. by apply wp_ret.
Qed.
Lemma stop_on_world (p : M (option error)) next Q s :
  wpw p (λ e s', e = None ∧ s' = s) s → wpw next Q s → wpw (stop_on p next) Q s.
Proof. intros Hp Hn. unfold stop_on. eapply wp_bind_2; [exact Hp|]. by intros e s' [-> ->]. Qed.
Lemma reconcile_objects_world s :
  world_inv s → names_nodes (wd_cluster s) →
  wpw (reconcile_objects apiReader DefaultImage range_order (wd_cluster s)) (λ o s', o = done_again ∧
    pass_post s s') s.
Proof.
  intros Hi Hnn. pose proof (wi_sane s Hi) as Hsane. unfold reconcile_objects.
  eapply wp_bind_2; [by apply reconcileTLSCertificate_world|]. intros e s' [-> ->].
  apply reconcileTrustBundle_world. intros e'. apply stop_on_world.
  { unfold when_monitored. destruct (monitoringEnabled _);
    [apply reconcileMonitoringConfigMap_world|by apply wp_ret]. }
  eapply wp_bind_2; [apply reconcileStatefulSet_world|]. intros e s' [-> ->].
  apply stop_on_world; [apply reconcileService_world|].
  apply stop_on_world; [apply reconcilePodDisruptionBudget_world|]. by apply finish_cluster_world.
Qed.
(** A write of the cluster that keeps it alike. *)
Lemma own_write_world s c (p : M (res RiakCluster)) f Q :
  alike (wd_cluster s) c → is_secured c = is_secured (wd_cluster s) →
  wpw p (λ r s', r = Ok c ∧ s' = wd_with_cluster s c) s →
  (world_inv (wd_with_cluster s c) → wpw (f (Ok c)) (λ o s', o = done_again ∧ pass_post (wd_with_cluster s c) s')
     (wd_with_cluster s c)) → world_inv s →
  Q = (λ o s', o = done_again ∧ pass_post s s') → wpw (p ≫= f) Q s.
Proof.
  intros Hc Hsec Hp Hf Hi ->. eapply wp_bind_2; [exact Hp|]. intros r s' [-> ->].
  eapply wp_mono; [apply Hf; by apply inv_alike|]. intros o s' [-> Hpost]. split; [done|]. by eapply pass_alike.
Qed.
Lemma reconcile_live_world s :
  world_inv s → names_nodes (wd_cluster s) →
  wpw (u ← (if String.eqb (cst_Phase (cl_Status (wd_cluster s))) ""
            then StatusUpdate KCluster (cl_set_Phase (wd_cluster s) PhaseCreating)
            else mret (Ok (wd_cluster s)));
       match (u : res RiakCluster) with
       | Err e => mret (fails e)
       | Ok cluster => reconcile_objects apiReader DefaultImage range_order cluster
       end) (λ o s', o = done_again ∧ pass_post s s') s.
Proof.
  intros Hi Hnn.
  eapply (own_write_world s (if String.eqb (cst_Phase (cl_Status (wd_cluster s))) ""
                             then status_updated (wd_cluster s) (cl_set_Phase (wd_cluster s) PhaseCreating)
                             else wd_cluster s)); [| | | |done|done].
  { destruct (String.eqb _ _); [apply alike_status|done]. }
  { by destruct (String.eqb _ _). }
  { destruct (String.eqb _ _); [|apply wp_ret; by destruct s]. split; [done|]. by intros r s' [-> ->]. }
  intros Hi2. apply (reconcile_objects_world (wd_with_cluster s _)); [done|]. by destruct (String.eqb _ _).
Qed.
Lemma ReconcileCluster_world s :
  world_inv s → names_nodes (wd_cluster s) →
  wpw (ReconcileCluster apiReader DefaultImage range_order (cluster_key (wd_cluster s)))
    (λ o s', o = done_again ∧ pass_post s s') s.
Proof.
  intros Hi Hnn. unfold ReconcileCluster, Get. apply wp_call; [done|]. intros r s' [-> ->].
  pose proof (wi_sane s Hi) as [Hdel _]. rewrite Hdel, bool_decide_false by by intros [].
  eapply (own_write_world s (if ContainsFinalizer (om_Finalizers (cl_Meta (wd_cluster s))) riakClusterFinalizerName
                             then wd_cluster s else updated (wd_cluster s)
                               (cluster_finalizers AddFinalizer (wd_cluster s))));
    [| | | |done|done].
  { destruct (ContainsFinalizer _ _); [done|]. split; [done|]. by eexists. }
  { by destruct (ContainsFinalizer _ _). }
  { destruct (ContainsFinalizer _ _); [apply wp_ret; by destruct s|]. split; [done|]. by intros r s' [-> ->]. }
  intros Hi1. apply (reconcile_live_world (wd_with_cluster s _)); [done|]. by destruct (ContainsFinalizer _ _).
Qed.
End pass.

(** ** Passes, pods and edits *)
Section system.
Context `{L : KubeLib} `{HL : !KubeLibLaws L} `{X : GoX509}.
Context (apiReader : bool) (DefaultImage : string) (range_order : gmap string string → list string).
Context (node : string → string) `{!Inj (=) (=) node} (Hprint : ∀ p, printable (node p)).

Definition world_pass (s : world) (o : outcome) (s' : world) : Prop :=
  ∃ tr, exec (world_env node) (ReconcileCluster apiReader DefaultImage range_order (cluster_key (wd_cluster s)))
          s tr o s'.
(** An edit within what the operator accepts: the storage mode stays, nodes are only added. *)
Definition edited (c c' : RiakCluster) : Prop :=
  om_Name (cl_Meta c') = om_Name (cl_Meta c) ∧ om_Namespace (cl_Meta c') = om_Namespace (cl_Meta c) ∧
  om_UID (cl_Meta c') = om_UID (cl_Meta c) ∧ sane c' ∧
  cs_EphemeralStorage (cl_Spec c') = cs_EphemeralStorage (cl_Spec c) ∧ (cl_Size c ≤ cl_Size c')%Z.
Inductive world_step : world → world → Prop :=
| ws_edit s c : edited (wd_cluster s) c → world_step s (wd_with_cluster s c)
| ws_pods s ps : NoDup (pod_names ps) → pod_names ps ⊆ slots (wd_cluster s) →
    world_step s (mkWorld (wd_cluster s) ps (wd_ring s))
| ws_pass s o s' : world_pass s o s' → world_step s s'.

(** No node of the ring is one too many. *)
Definition fits (s : world) : Prop := rg_members (wd_ring s) ⊆ slots (wd_cluster s).
Definition pods_ready (s : world) : Prop :=
  Forall (λ p, podIsReady p = true) (wd_pods s) ∧ Z.of_nat (length (wd_pods s)) = cl_Size (wd_cluster s).

(** The ring fits and the pods are those of the StatefulSet. *)
Definition healthy (s : world) : Prop := world_inv s ∧ fits s ∧ names_nodes node (wd_cluster s).

Lemma pass_wp s :
  world_inv s → names_nodes node (wd_cluster s) →
  wp (world_env node) (ReconcileCluster apiReader DefaultImage range_order (cluster_key (wd_cluster s)))
    (λ o s', o = finish (requeue (10 * second)) ∧ pass_post s s') s.
Proof.
  intros Hi Hnn. apply ReconcileCluster_world; try done. intros p Hp.
  pose proof (Hprint p) as [Hpre _]. by rewrite Hp in Hpre.
Qed.
Lemma world_pass_post s o s' :
  world_inv s → names_nodes node (wd_cluster s) → world_pass s o s' →
  o = finish (requeue (10 * second)) ∧ pass_post s s'.
Proof. intros Hi Hnn [tr Hex]. by apply (wp_exec _ _ _ _ _ _ _ (pass_wp s Hi Hnn) Hex). Qed.
Lemma world_pass_exists s :
  world_inv s → names_nodes node (wd_cluster s) → ∃ o s', world_pass s o s'.
Proof.
  intros Hi Hnn. destruct (wp_runs (world_env node) _ _ s (λ s a, world_total node s a Hprint) (pass_wp s Hi Hnn))
    as (tr & o & s' & Hex & _).
  by exists o, s', tr.
Qed.

(** *** The invariant *)
Lemma missing_members r l p : p ∈ missing r l ↔ p ∈ l ∧ p ∉ rg_members r.
Proof. unfold missing. rewrite list_elem_of_filter. tauto. Qed.
Lemma joins_members s p : p ∈ joins s → p ∈ world_names s ∧ p ∉ rg_members (wd_ring s).
Proof. unfold joins. destruct (world_up s); [apply missing_members|]. by intros ?%elem_of_nil. Qed.
Lemma joins_NoDup s : world_inv s → NoDup (rg_members (wd_ring s) ++ joins s).
Proof.
  intros [_ [Hn _] (Hm & _ & _)]. apply NoDup_app. split_and!; [done| |].
  - intros p Hp Hj%joins_members. tauto.
  - unfold joins. destruct (world_up s); [by apply NoDup_filter|constructor].
Qed.
Lemma slots_edited c c' : edited c c' → slots c ⊆ slots c'.
Proof.
  intros (Hname & _ & _ & _ & _ & Hsize) p. unfold slots. rewrite Hname, !list_elem_of_fmap.
  intros (i & -> & Hi). exists i. split; [done|]. rewrite elem_of_seq in *. lia.
Qed.
Lemma alike_names c c' : alike c c' → slots c' = slots c ∧ seed_pod c' = seed_pod c.
Proof. intros [Hspec [fs Hmeta]]. unfold slots, seed_pod. by rewrite Hspec, Hmeta. Qed.
Lemma pass_inv s s' : world_inv s → pass_post s s' → world_inv s'.
Proof.
  intros Hi [Hc _ Hp Hm Hst]. pose proof (joins_NoDup s Hi) as Hnd.
  destruct (inv_alike s _ Hi Hc) as [Hs Hn (_ & Hseed & _)]. unfold world_names in *. cbn in *.
  split; [done|by unfold world_names; rewrite Hp|]. rewrite Hm. split_and!; [done| |done]. apply elem_of_app. by left.
Qed.
Lemma healthy_pass s s' : healthy s → pass_post s s' → healthy s'.
Proof.
  intros (Hi & Hf & Hnn) Hpost. split; [by eapply pass_inv|]. destruct Hpost as [Hc _ _ Hm _ _].
  destruct (alike_names _ _ Hc) as [Hsl Hseed]. destruct Hi as [_ [_ Hsub] _].
  split; [|unfold names_nodes in *; by rewrite Hseed].
  unfold fits in *. rewrite Hsl. intros p. rewrite Hm. intros [Hp|[Hp _]%joins_members]%elem_of_app; auto.
Qed.
Lemma healthy_step s s' : healthy s → world_step s s' → healthy s'.
Proof.
  intros Hh Hst. revert Hh. destruct Hst as [s c He|s ps Hnd Hsub|s o s2 Hpass]; intros (Hi & Hf & Hnn).
  - pose proof (slots_edited _ _ He) as Hslots. destruct He as (Hname & _ & _ & Hsane & _ & _).
    destruct Hi as [_ [H1 H2] Hr].
    split; [split|split]; [done|..]; unfold world_names, fits, names_nodes, seed_pod in *; cbn; rewrite ?Hname.
    + split; [done|]. intros p Hp. by apply Hslots, H2.
    + done.
    + intros p Hp. by apply Hslots, Hf.
    + done.
  - split; [|done]. destruct Hi as [Hs _ Hr]. by split.
  - apply (healthy_pass s); [done|]. by apply (world_pass_post _ _ _ Hi Hnn Hpass).
Qed.
Lemma healthy_steps s s' : healthy s → rtc world_step s s' → healthy s'.
Proof. intros Hh Hs. induction Hs as [s|s1 s2 s3 Hst _ IH]; [done|]. apply IH. by eapply healthy_step. Qed.

(** *** Two passes *)
Lemma list_filter_all {A} (P : A → Prop) `{∀ x, Decision (P x)} l : Forall P l → filter P l = l.
Proof. induction 1 as [|x l Hx _ IH]; [done|]. by rewrite filter_cons_True, IH. Qed.
Lemma ready_up s : pods_ready s → world_up s = true.
Proof.
  intros [Hr Hl]. unfold world_up. apply Z.eqb_eq. rewrite <-Hl. f_equal. f_equal.
  by apply list_filter_all.
Qed.
Lemma ready_names s : world_inv s → pods_ready s → world_names s ≡ₚ slots (wd_cluster s).
Proof.
  intros [(_ & Hsize & _) [Hnd Hsub] _] [_ Hl]. apply submseteq_length_Permutation; [by apply NoDup_submseteq|].
  unfold world_names, pod_names. rewrite length_fmap. pose proof (slots_length (wd_cluster s)). lia.
Qed.
Lemma complete_after s :
  healthy s → pods_ready s → rg_members (wd_ring s) ++ joins s ≡ₚ slots (wd_cluster s).
Proof.
  intros (Hi & Hf & _) Hr. pose proof (ready_names s Hi Hr) as Hn. unfold joins. rewrite ready_up by done.
  destruct Hi as [_ [Hnd _] (Hm & _ & _)]. rewrite missing_complete; [done..|]. intros p Hp. rewrite Hn. by apply Hf.
Qed.
Lemma complete_phase s :
  world_inv s → pods_ready s → rg_members (wd_ring s) ≡ₚ slots (wd_cluster s) →
  joins s = [] ∧ phase_after s = PhaseReady.
Proof.
  intros Hi Hr Hm. pose proof (ready_names s Hi Hr) as Hn.
  assert (missing (wd_ring s) (world_names s) = []) as Hnil.
  { apply elem_of_nil_inv. intros p [Hp Hout]%missing_members. by rewrite Hm, <-Hn in Hout. }
  unfold joins, phase_after, world_complete. rewrite ready_up, Hnil by done. split; [done|].
  rewrite (bool_decide_true (_ ∧ _)); [by rewrite orb_true_r|]. split; [done|]. by rewrite Hm, Hn.
Qed.
Lemma ready_alike s s' : pods_ready s → pass_post s s' → pods_ready s'.
Proof. intros [Hr Hl] [[Hspec _] _ Hp _ _ _]. split; rewrite Hp; [done|]. by rewrite Hspec. Qed.
Lemma two_passes s o1 s1 o2 s2 :
  healthy s → pods_ready s → world_pass s o1 s1 → world_pass s1 o2 s2 →
  cst_Phase (cl_Status (wd_cluster s2)) = PhaseReady ∧
  rg_members (wd_ring s2) ≡ₚ slots (wd_cluster s2) ∧ rg_staged (wd_ring s2) = [] ∧
  nm_Pod <$> cst_Members (cl_Status (wd_cluster s2)) ≡ₚ slots (wd_cluster s2).
Proof.
  intros Hh Hr Hp1 Hp2. pose proof (healthy_step s s1 Hh (ws_pass _ _ _ Hp1)) as (Hi1 & _ & Hnn1).
  pose proof Hh as (Hi & _ & Hnn).
  destruct (world_pass_post _ _ _ Hi Hnn Hp1) as [_ Hpost1], (world_pass_post _ _ _ Hi1 Hnn1 Hp2) as [_ Hpost2].
  pose proof (ready_alike _ _ Hr Hpost1) as Hr1.
  assert (rg_members (wd_ring s1) ≡ₚ slots (wd_cluster s1)) as Hm1.
  { rewrite (pp_members _ _ Hpost1), (proj1 (alike_names _ _ (pp_cluster _ _ Hpost1))). by apply complete_after. }
  destruct (complete_phase s1 Hi1 Hr1 Hm1) as [Hj Hph]. destruct Hpost2 as [Hc2 Hph2 _ Hm2 Hst2 Hl2].
  rewrite Hph2, Hm2, Hl2, Hj, app_nil_r, (proj1 (alike_names _ _ Hc2)). split_and!; [done..|].
  by apply ready_names.
Qed.

(** *** A node too many *)
Definition extra (s : world) (p : string) : Prop :=
  p ∈ rg_members (wd_ring s) ∧ (p ∉ slots (wd_cluster s)).
Lemma extra_incomplete s p :
  world_inv s → extra s p → (1 < cl_Size (wd_cluster s))%Z → phase_after s = PhaseCreating.
Proof.
  intros [_ [Hnd Hsub] (Hm & _ & _)] [Hp Hout] Hsize. unfold phase_after.
  rewrite (proj2 (Z.eqb_neq _ _)) by lia. unfold world_complete. rewrite (bool_decide_false (_ ∧ _)).
  { by rewrite andb_false_r. }
  intros [Hnil Hlen]. assert (submseteq (p :: world_names s) (rg_members (wd_ring s))) as Hle%submseteq_length.
  { apply NoDup_submseteq; [constructor; [by intros ?%Hsub|done]|].
    intros q [->|Hq]%elem_of_cons; [done|]. destruct (decide (q ∈ rg_members (wd_ring s))); [done|].
    assert (q ∈ missing (wd_ring s) (world_names s)) as Hbad by by apply missing_members.
    rewrite Hnil in Hbad. by apply elem_of_nil in Hbad. }
  cbn in Hle. lia.
Qed.
(** What passes from [s] leave of it in [s'], [p] being a node too many: with more than one node
    asked for the cluster is never Ready, with one it is Ready like any other. *)
Definition leaves (s s' : world) (p : string) : Prop :=
  extra s' p ∧
  ((1 < cl_Size (wd_cluster s))%Z → cst_Phase (cl_Status (wd_cluster s')) = PhaseCreating) ∧
  (cl_Size (wd_cluster s) = 1%Z → pods_ready s → cst_Phase (cl_Status (wd_cluster s')) = PhaseReady).
Lemma leaves_trans s s1 s2 p : pass_post s s1 → leaves s1 s2 p → leaves s s2 p.
Proof.
  intros Hpost (He & H1 & H2). split; [done|]. pose proof (ready_alike s s1) as Hr.
  assert (cl_Size (wd_cluster s1) = cl_Size (wd_cluster s)) as Hsz by (unfold cl_Size;
    by rewrite (proj1 (pp_cluster _ _ Hpost))).
  rewrite Hsz in *. auto.
Qed.
Lemma extra_pass s o s' p :
  world_inv s → names_nodes node (wd_cluster s) → extra s p → world_pass s o s' →
  pass_post s s' ∧ leaves s s' p ∧ world_inv s' ∧ names_nodes node (wd_cluster s').
Proof.
  intros Hi Hnn He Hpass. destruct (world_pass_post _ _ _ Hi Hnn Hpass) as [_ Hpost]. split; [done|].
  destruct (alike_names _ _ (pp_cluster _ _ Hpost)) as [Hsl Hseed].
  split; [|split; [by eapply pass_inv|unfold names_nodes in *; by rewrite Hseed]].
  unfold leaves. rewrite (pp_phase _ _ Hpost). split; [|split].
  - destruct He as [Hp Hout]. split; [rewrite (pp_members _ _ Hpost); apply elem_of_app; by left|]. by rewrite Hsl.
  - by apply (extra_incomplete _ p).
  - intros H1 Hr. unfold phase_after. by rewrite ready_up, H1.
Qed.
End system.

(** ** A world to run *)
(** A name that is not a DNS name is encoded. *)
Definition plain_name (p : string) : bool := is_word p && negb (HasPrefix p "%").
Definition demo_node (p : string) : string :=
  if plain_name p then "riak@" +:+ p else "riak@%" +:+ pretty (N.pos (encode p)).
#[local] Instance demo_node_inj : Inj (=) (=) demo_node.
Proof.
  intros p q. unfold demo_node. destruct (plain_name p) eqn:Hp, (plain_name q) eqn:Hq; intros He.
  - by injection He.
  - assert (p = "%" +:+ pretty (N.pos (encode q))) as -> by by injection He.
    unfold plain_name in Hp. rewrite (proj2 (HasPrefix_spec _ "%")), andb_false_r in Hp by by eexists. done.
  - assert (q = "%" +:+ pretty (N.pos (encode p))) as -> by by injection He.
    unfold plain_name in Hq. rewrite (proj2 (HasPrefix_spec _ "%")), andb_false_r in Hq by by eexists. done.
  - assert (pretty (N.pos (encode p)) = pretty (N.pos (encode q))) as He'%(inj pretty) by by injection He.
    injection He' as He'. by apply (inj encode).
Qed.
Lemma printable_app x : Str.all (λ a, negb (is_space a)) x = true → printable ("riak@" +:+ x).
Proof.
  intros Hx. split; [apply HasPrefix_spec; by eexists|]. apply is_word_spec. split; [done|]. by rewrite Str.all_app.
Qed.
Lemma demo_node_printable p : printable (demo_node p).
Proof.
  unfold demo_node. destruct (plain_name p) eqn:Hp.
  - apply printable_app. apply andb_true_iff in Hp as [Hw _]. by apply is_word_spec in Hw as [_ ?].
  - apply (printable_app ("%" +:+ _)). rewrite Str.all_app. apply digits_no_space, pretty_N_spec.
Qed.
Definition demo_world : world :=
  mkWorld sample_cluster (ready_pod <$> ["c-2"; "c-0"; "c-1"]) (mkRing ["c-0"] [] false).
Lemma demo_healthy : healthy demo_node demo_world.
Proof.
  split; [|split].
  - split.
    + split; [done|]. split; [done|]. by intros tls [=].
    + split; apply (bool_decide_unpack _); by vm_compute.
    + split; [|split]; [apply (bool_decide_unpack _); by vm_compute..|done].
  - apply (bool_decide_unpack _); by vm_compute.
  - by vm_compute.
Qed.
(** The same cluster after it was made smaller: the ring has five nodes. *)
Definition shrunk_world : world :=
  mkWorld sample_cluster (ready_pod <$> sample_pods) (mkRing (sample_pods ++ ["c-3"; "c-4"]) [] false).
Lemma shrunk_inv : world_inv shrunk_world.
Proof.
  split.
  - split; [done|]. split; [done|]. by intros tls [=].
  - split; apply (bool_decide_unpack _); by vm_compute.
  - split; [|split]; [apply (bool_decide_unpack _); by vm_compute..|done].
Qed.

(** ** Properties *)

(** C12: a cluster becomes Ready. The API server answers and Riak carries out its commands;
    between the passes of the controller pods come, go and become Ready or not, and users
    edit the spec (keeping the storage mode, and not removing nodes) and anyone the status.
    Whenever that has led, a pass runs to its end; and once every pod is Ready, the second
    pass from then on leaves the cluster Ready, with a ring of exactly its nodes, nothing
    staged, and exactly its nodes listed in the status. *)
Theorem cluster_converges (L : KubeLib) (HL : KubeLibLaws L) (X : GoX509) (apiReader : bool)
    (DefaultImage : string) (range_order : gmap string string → list string)
    (node : string → string) (s0 s : world) :
  Inj (=) (=) node → (∀ p, printable (node p)) → healthy node s0 →
  rtc (world_step apiReader DefaultImage range_order node) s0 s →
  let pass := world_pass apiReader DefaultImage range_order node in
  (∃ o s', pass s o s') ∧
  (pods_ready s → ∀ o1 s1 o2 s2, pass s o1 s1 → pass s1 o2 s2 →
     cst_Phase (cl_Status (wd_cluster s2)) = PhaseReady ∧
     rg_members (wd_ring s2) ≡ₚ slots (wd_cluster s2) ∧ rg_staged (wd_ring s2) = [] ∧
     nm_Pod <$> cst_Members (cl_Status (wd_cluster s2)) ≡ₚ slots (wd_cluster s2)).
Proof.
  intros Hinj Hprint Hh Hs pass.
  pose proof (healthy_steps apiReader DefaultImage range_order node Hprint s0 s Hh Hs) as Hh'. split.
  - destruct Hh' as (Hi & _ & Hnn). by apply world_pass_exists.
  - intros Hr o1 s1 o2 s2. by apply two_passes.
Qed.
Lemma cluster_converges_witness :
  ∃ o1 s1 o2 s2,
    @world_pass refLib demo_x509 false "" go_range demo_node demo_world o1 s1 ∧
    @world_pass refLib demo_x509 false "" go_range demo_node s1 o2 s2 ∧
    cst_Phase (cl_Status (wd_cluster s2)) = PhaseReady ∧ rg_members (wd_ring s2) ≡ₚ slots (wd_cluster s2).
Proof.
  assert (pods_ready demo_world) as Hr by (split; [by repeat constructor|done]).
  pose proof (λ s, cluster_converges refLib refLib_laws demo_x509 false "" go_range demo_node demo_world s
    _ demo_node_printable demo_healthy) as Hconv.
  destruct (proj1 (Hconv demo_world ltac:(constructor))) as (o1 & s1 & H1).
  destruct (proj1 (Hconv s1 ltac:(by eapply rtc_once, ws_pass))) as (o2 & s2 & H2).
  exists o1, s1, o2, s2. split; [exact H1|]. split; [exact H2|].
  destruct (proj2 (Hconv demo_world ltac:(constructor)) Hr o1 s1 o2 s2 H1 H2) as (H3 & H4 & _). by split.
Defined.

(** C27: removing a node is never finished. The operator lowers the replicas but no node leaves
    Riak's ring: while the ring has a node that the spec no longer asks for, passes run to
    their end and keep it, however many are made. If the spec asks for more than one node the
    cluster is reported Creating after every pass; if it asks for one the ring is not looked
    at, and the cluster is reported Ready (its pod being Ready) with the node still there. *)
Theorem removed_node_blocks (L : KubeLib) (HL : KubeLibLaws L) (X : GoX509) (apiReader : bool)
    (DefaultImage : string) (range_order : gmap string string → list string)
    (node : string → string) (s : world) (p : string) (n : nat) :
  Inj (=) (=) node → (∀ p, printable (node p)) → world_inv s → names_nodes node (wd_cluster s) → extra s p →
  let pass s s' := ∃ o, world_pass apiReader DefaultImage range_order node s o s' in
  (∃ s', nsteps pass (S n) s s') ∧ ∀ s', nsteps pass (S n) s s' → leaves s s' p.
Proof.
  intros Hinj Hprint Hi Hnn He pass. revert s Hi Hnn He. induction n as [|n IH]; intros s Hi Hnn He;
    destruct (world_pass_exists apiReader DefaultImage range_order node Hprint s Hi Hnn) as (o & s1 & Hp);
    destruct (extra_pass apiReader DefaultImage range_order node Hprint s o s1 p Hi Hnn He Hp) as (_ & [He1 _] & Hi1 & Hnn1).
  - split; [exists s1; eapply nsteps_l; [by exists o|constructor]|].
    intros s' Hs. inversion Hs as [|? ? s2 ? [o' Hp'] H0]; subst. inversion H0; subst.
    by destruct (extra_pass apiReader DefaultImage range_order node Hprint s o' s' p Hi Hnn He Hp') as (_ & ? & _).
  - destruct (proj1 (IH s1 Hi1 Hnn1 He1)) as [s2 Hs2]. split; [exists s2; eapply nsteps_l; [by exists o|done]|].
    intros s' Hs. inversion Hs as [|? ? s3 ? [o' Hp'] Hrest]; subst.
    destruct (extra_pass apiReader DefaultImage range_order node Hprint s o' s3 p Hi Hnn He Hp') as (Hpost & [He3 _] & Hi3 & Hnn3).
    eapply leaves_trans; [exact Hpost|]. by apply (IH s3 Hi3 Hnn3 He3).
Qed.
Lemma removed_node_blocks_witness :
  extra shrunk_world "c-4" ∧
  ∃ s', nsteps (λ s s', ∃ o, @world_pass refLib demo_x509 false "" go_range demo_node s o s') 8 shrunk_world s' ∧
    cst_Phase (cl_Status (wd_cluster s')) = PhaseCreating.
Proof.
  assert (extra shrunk_world "c-4") as He.
  { split; apply (bool_decide_unpack _); by vm_compute. }
  split; [exact He|].
  destruct (removed_node_blocks refLib refLib_laws demo_x509 false "" go_range demo_node shrunk_world "c-4" 7
    _ demo_node_printable shrunk_inv eq_refl He) as [[s' Hs'] Hall].
  exists s'. split; [exact Hs'|]. exact (proj1 (proj2 (Hall s' Hs')) eq_refl).
Defined.
