(* ===== verification/Provisioning.v ===== *)
(** * Buckets and users of a Ready cluster are provisioned

    [bucket_site]: a cluster, a RiakBucket that names it, and what Riak holds of its bucket
    type; [user_site]: likewise a RiakUser and its identity. [bucket_env] and [user_env] are an
    API server that answers every call and a Riak that carries out its commands; nothing is
    assumed of what Riak held before, nor of the recorded status, nor that the cluster can
    serve anyone. *)
From S2P Require Import Prelude GoLib Effects Types Samples KubeTypes Kube KubeLib Footprint Status Executor ExecutorFacts Manager RiakEnv Grants BucketTypes Tls Trust TrustFacts BucketController BucketFacts UserController StatefulSet ClusterController Footprints UserFacts Convergence.

(** ** What both have in common *)
Definition meta_key (m : ObjectMeta) : ObjectKey := mkKey (om_Namespace m) (om_Name m).
Lemma with_own_finalizers m : m = with_finalizers m (om_Finalizers m).
Proof. by destruct m. Qed.
(** An object that is not being deleted and names the cluster. *)
Definition names_cluster (c : RiakCluster) (m : ObjectMeta) (clusterName : string) : Prop :=
  om_DeletionTimestamp m = None ∧ mkKey (om_Namespace m) clusterName = cluster_key c.
(** A cluster that can serve them: Ready, with a member to run the commands on. *)
Definition hosts (c : RiakCluster) : Prop := ready c ∧ is_Some (first_pod c).
#[export] Instance hosts_dec c : Decision (hosts c) := ltac:(unfold hosts, ready; apply _).
(** The pass asks to be run again after a while. *)
Definition comes_back (o : outcome) : Prop := (0 < RequeueAfter o.1)%Z.
(** The cluster may be recorded as secured. *)
Definition secured (c c' : RiakCluster) : Prop :=
  cl_Meta c' = cl_Meta c ∧ cl_Spec c' = cl_Spec c ∧ cst_Phase (cl_Status c') = cst_Phase (cl_Status c) ∧
  cst_Members (cl_Status c') = cst_Members (cl_Status c).
Lemma hosts_secured c c' : secured c c' → hosts c → hosts c'.
Proof. unfold hosts, ready, first_pod. by intros (_ & _ & -> & ->). Qed.
(** The same object but for its finalizers and its status. *)
Definition bucket_like (b b' : RiakBucket) : Prop :=
  bk_Spec b' = bk_Spec b ∧ ∃ fs, bk_Meta b' = with_finalizers (bk_Meta b) fs.
Definition user_like (u u' : RiakUser) : Prop :=
  us_Spec u' = us_Spec u ∧ ∃ fs, us_Meta u' = with_finalizers (us_Meta u) fs.
Lemma bucket_like_status b st : bucket_like b (bk_with_status b st).
Proof. split; [done|]. eexists. apply with_own_finalizers. Qed.
Lemma user_like_status u st : user_like u (us_with_status u st).
Proof. split; [done|]. eexists. apply with_own_finalizers. Qed.
#[export] Instance bucket_like_preorder : PreOrder bucket_like.
Proof.
  split; [intros []; apply (bucket_like_status (mkRiakBucket _ _ _))|].
  intros b1 b2 b3 [A1 [f A2]] [B1 [g B2]]. split; [congruence|]. exists g. by rewrite B2, A2.
Qed.
#[export] Instance user_like_preorder : PreOrder user_like.
Proof.
  split; [intros []; apply (user_like_status (mkRiakUser _ _ _))|].
  intros u1 u2 u3 [A1 [f A2]] [B1 [g B2]]. split; [congruence|]. exists g. by rewrite B2, A2.
Qed.
Lemma bucket_like_key b b' : bucket_like b b' → meta_key (bk_Meta b') = meta_key (bk_Meta b).
Proof. by intros [_ [fs ->]]. Qed.
Lemma user_like_key u u' : user_like u u' → meta_key (us_Meta u') = meta_key (us_Meta u).
Proof. by intros [_ [fs ->]]. Qed.

(** ** The bucket *)
Section bucket.
Context `{L : KubeLib} `{HL : !KubeLibLaws L} `{J : GoJson} `{HJ : !GoJsonLaws J} (typ : string).

Record bucket_site := mkBucketSite {
  bsi_cluster : RiakCluster;
  bsi_bucket : RiakBucket;
  bsi_type : option (bool * gmap string jvalue) }.
Definition bsi_with_bucket (s : bucket_site) (b : RiakBucket) : bucket_site :=
  mkBucketSite (bsi_cluster s) b (bsi_type s).
Definition bsi_with_type (s : bucket_site) (t : option (bool * gmap string jvalue)) : bucket_site :=
  mkBucketSite (bsi_cluster s) (bsi_bucket s) t.
Definition bsi_key (s : bucket_site) : ObjectKey := meta_key (bk_Meta (bsi_bucket s)).

(** The bucket is the only object that is written. *)
Definition bucket_object (s : bucket_site) (k : kind) : obj k → Prop :=
  match k return obj k → Prop with KBucket => λ o, meta_key (bk_Meta o) = bsi_key s | _ => λ _, False end.
Definition bucket_site_ok (s : bucket_site) (a : api) : Prop :=
  match a with
  | AGet _ KCluster key => key = cluster_key (bsi_cluster s)
  | AGet _ KBucket key => key = bsi_key s
  | AUpdate k o | AStatusUpdate k o => bucket_object s k o
  | ARun name full => ∃ pod args,
      name = "kubectl" ∧ full = kubectl_args (cl_Namespace (bsi_cluster s)) pod "riak" args ∧
      bt_ok typ pod (bsi_type s) pod args
  | ANow => True
  | _ => False
  end.
Definition bucket_get (s : bucket_site) (k : kind) : res (obj k) → Prop :=
  match k return res (obj k) → Prop with
  | KCluster => λ r, r = Ok (bsi_cluster s)
  | KBucket => λ r, r = Ok (bsi_bucket s)
  | _ => λ _, True
  end.
(** A write of an object leaves its status alone, a write of its status the rest. *)
Definition bucket_write (f : RiakBucket → RiakBucket → RiakBucket) (s : bucket_site) (k : kind)
    : obj k → res (obj k) → bucket_site → Prop :=
  match k return obj k → res (obj k) → bucket_site → Prop with
  | KBucket => λ o r s', r = Ok (f (bsi_bucket s) o) ∧ s' = bsi_with_bucket s (f (bsi_bucket s) o)
  | _ => λ _ _ _, True
  end.
Definition bucket_written (b o : RiakBucket) : RiakBucket := bk_with_status o (bk_Status b).
Definition bucket_reported (b o : RiakBucket) : RiakBucket := bk_with_status b (bk_Status o).
Definition bucket_answer (s : bucket_site) (a : api) : reply a → bucket_site → Prop :=
  match a as a' return reply a' → bucket_site → Prop with
  | AGet _ k _ => λ r s', bucket_get s k r ∧ s' = s
  | AUpdate k o => bucket_write bucket_written s k o
  | AStatusUpdate k o => bucket_write bucket_reported s k o
  | ARun _ full => λ r s', ∃ t, let args := exec_args full in
      bt_cmd false typ args (bsi_type s) (admin_reply args r).2 t ∧ s' = bsi_with_type s t
  | _ => λ _ s', s' = s
  end.
Definition bucket_site_env : Env reply bucket_site := {| allowed := bucket_site_ok; step := bucket_answer |}.
Abbreviation wpb := (wp bucket_site_env).

Record bucket_ok (s : bucket_site) : Prop := {
  bo_names : names_cluster (bsi_cluster s) (bk_Meta (bsi_bucket s)) (bs_ClusterName (bk_Spec (bsi_bucket s)));
  bo_type : bucket_type (bk_Spec (bsi_bucket s)) = typ
}.
Lemma bucket_ok_like c b t b' t' : bucket_like b b' → bucket_ok (mkBucketSite c b t) →
  bucket_ok (mkBucketSite c b' t').
Proof. intros [Hs [fs Hm]] [H1 H2]. split; cbn in *; rewrite ?Hs, ?Hm; done. Qed.
(** The properties the spec comes to. *)
Definition wanted_props (b : RiakBucket) : gmap string string := (effectiveBucketProperties (bk_Spec b)).1.
(** The bucket is reported Ready for the spec it has. *)
Definition bucket_said (b : RiakBucket) : Prop :=
  let st := bk_Status b in
  bst_Phase st = BucketPhaseReady ∧ bst_Created st = true ∧ bst_BucketType st = typ ∧
  (bst_Properties st, bst_NVal st) = effectiveBucketProperties (bk_Spec b).
(** Riak has the type active with those properties. *)
Definition type_has (props : gmap string string) (t : option (bool * gmap string jvalue)) : Prop :=
  ∃ p, t = Some (true, p) ∧ native_value <$> props ⊆ p.
Definition bucket_served (s : bucket_site) : Prop :=
  bucket_said (bsi_bucket s) ∧ type_has (wanted_props (bsi_bucket s)) (bsi_type s).
(** A type keeps what one bucket wants when another's properties do not contradict it. *)
Lemma type_has_kept props props' t t' :
  map_agree props props' → type_kept props' t t' → (t' = t ∨ type_has props' t') → type_has props t →
    type_has props t'.
Proof.
  intros Hag Hk Hor (q & Hq & Hsub). destruct Hor as [->|(p & Hp & Hsub')]; [by exists q|].
  destruct (Hk q Hq) as (p' & Hp' & Hkeep). assert (p' = p) as -> by congruence. exists p. split; [done|].
  apply map_subseteq_spec. intros k v Hv. rewrite map_subseteq_spec in Hsub, Hsub'.
  destruct (props' !! k) as [w|] eqn:Hw; [|by rewrite Hkeep; [apply Hsub|]].
  rewrite lookup_fmap in Hv. destruct (props !! k) as [v0|] eqn:Hv0; [|done]. injection Hv as <-.
  rewrite map_agree_spec in Hag. assert (v0 = w) as -> by by eapply Hag. apply Hsub'. by rewrite lookup_fmap, Hw.
Qed.

Lemma CreateBucketType_site properties s :
  is_Some (first_pod (bsi_cluster s)) →
  wpb (CreateBucketType (bsi_cluster s) typ properties)
    (λ e s', e = None ∧ s' = bsi_with_type s (bsi_type s') ∧
       type_kept properties (bsi_type s) (bsi_type s') ∧ type_has properties (bsi_type s')) s.
Proof.
  intros [pod Hpod]. unfold CreateBucketType. rewrite Hpod. eapply wp_mono.
  - apply (wp_map (bt_env false (cl_Namespace (bsi_cluster s)) typ pod) bucket_site_env bsi_type
             (λ s', s' = bsi_with_type s (bsi_type s'))); [| |by destruct s|apply CreateBucket_wp].
    + intros s1 a Hs1 (p & args & -> & Hok). exists p, args. rewrite Hs1. split_and!; [done..|]. by destruct Hok.
    + intros s1 a r s2 Hs1 (p & args & -> & Hok) (t & Ht & ->). split; [exact Ht|]. by rewrite Hs1 at 1.
  - intros e s' [(H0 & H1 & H2) Hs']. specialize (H2 eq_refl) as ->. split_and!; [done..|]. by apply H1.
Qed.
(** What the pass comes to: served if the cluster can serve, tried again if not. *)
Record bucket_outcome (s : bucket_site) (o : outcome) (s' : bucket_site) : Prop := {
  bu_fine : o.2 = None;
  bu_cluster : bsi_cluster s' = bsi_cluster s;
  bu_like : bucket_like (bsi_bucket s) (bsi_bucket s');
  bu_kept : type_kept (wanted_props (bsi_bucket s)) (bsi_type s) (bsi_type s');
  bu_type : bsi_type s' = bsi_type s ∨ type_has (wanted_props (bsi_bucket s)) (bsi_type s');
  bu_served : hosts (bsi_cluster s) → o = finish done_ ∧ bucket_served s';
  bu_again : ¬ hosts (bsi_cluster s) → comes_back o
}.
(** A pass that only wrote to the bucket. *)
Definition only_bucket (s s' : bucket_site) : Prop := ∃ b, s' = bsi_with_bucket s b ∧ bucket_like (bsi_bucket s) b.
Lemma only_bucket_status s st : only_bucket s (bsi_with_bucket s (bk_with_status (bsi_bucket s) st)).
Proof. eexists. split; [done|]. apply bucket_like_status. Qed.
Lemma only_bucket_refl s : only_bucket s s.
Proof. exists (bsi_bucket s). by destruct s. Qed.
Lemma bucket_put_off s o s' :
  only_bucket s s' → o.2 = None → comes_back o → ¬ hosts (bsi_cluster s) → bucket_outcome s o s'.
Proof. intros (b & -> & Hb) Ho Hc Hh. split; cbn; try done; [apply type_kept_refl|by left]. Qed.
Lemma failBucket_site reason message s :
  wpb (failBucket (bsi_bucket s) reason message) (λ _ s', only_bucket s s') s.
Proof.
  unfold failBucket, Now. apply wp_call; [done|]. intros now s' ->.
  destruct (setCondition _ _ _ _ _ _ _) as [conds changed]. destruct (_ && _); [apply wp_ret, only_bucket_refl|].
  apply wp_call; [done|]. intros now' s' ->. unfold StatusUpdate. apply wp_call; [done|]. intros r s' [-> ->].
  apply wp_ret. apply only_bucket_status.
Qed.
Lemma provision_bucket_site s :
  bucket_type (bk_Spec (bsi_bucket s)) = typ → ready (bsi_cluster s) →
  wpb (provision_bucket (bsi_bucket s) (bsi_cluster s)) (bucket_outcome s) s.
Proof.
  intros Htyp Hready. unfold provision_bucket.
  destruct (effectiveBucketProperties (bk_Spec (bsi_bucket s))) as [props n] eqn:Hp. rewrite Htyp.
  assert (wanted_props (bsi_bucket s) = props) as Hw by by unfold wanted_props; rewrite Hp.
  destruct (first_pod (bsi_cluster s)) as [pod|] eqn:Hpod.
  - eapply wp_bind_2; [by apply CreateBucketType_site|]. intros e s1 (-> & -> & Hk & Hhas). cbn in Hk, Hhas.
    unfold Now. apply wp_call; [done|]. intros now s' ->. apply wp_call; [done|]. intros tc s' ->.
    unfold StatusUpdate. apply wp_call; [done|]. intros r s' [-> ->]. apply wp_ret.
    split; rewrite ?Hw; cbn; [done|done|apply bucket_like_status|done|by right| |].
    + intros _. split; [done|]. split; [|by unfold wanted_props; cbn; rewrite Hp]. by split_and!.
    + intros Hh. destruct Hh. split; [done|by exists pod].
  - unfold CreateBucketType. rewrite Hpod.
    apply wp_bind_2 with (Q1 := λ e s', e = Some no_members ∧ s' = s); [by apply wp_ret|]. intros e s1 [-> ->].
    eapply wp_bind_2; [apply failBucket_site|]. intros [] s' Ho. apply wp_ret. apply bucket_put_off; try done.
    intros [_ [? Hm]]; congruence.
Qed.
Lemma bucket_with_cluster_site s : bucket_ok s → wpb (bucket_with_cluster (bsi_bucket s)) (bucket_outcome s) s.
Proof.
  intros [[_ Hkey] Htyp]. unfold bucket_with_cluster, Get. apply wp_call; [exact Hkey|]. intros r s' [-> ->].
  destruct (String.eqb_spec (cst_Phase (cl_Status (bsi_cluster s))) PhaseReady) as [Hr|Hr]; cbn [negb].
  { by apply provision_bucket_site. }
  unfold Now. apply wp_call; [done|]. intros now s' ->. destruct (setCondition _ _ _ _ _ _ _) as [conds changed].
  eapply (wp_bind_2 _ _ _ (λ _ s', only_bucket s s')).
  - destruct changed.
    + unfold StatusUpdate. apply wp_call; [done|]. intros r s' [-> ->]. apply wp_ret, only_bucket_status.
    + apply wp_ret, only_bucket_refl.
  - intros [] s' Ho. apply wp_ret. apply bucket_put_off; try done. by intros [? _].
Qed.
(** The pass up to the cluster's lookup writes the finalizer and the first phase. *)
Lemma bucket_outcome_from s b o s' :
  bucket_like (bsi_bucket s) b → bucket_outcome (bsi_with_bucket s b) o s' → bucket_outcome s o s'.
Proof.
  intros Hb [H1 H2 H3 H4 H5 H6 H7]. cbn in *.
  assert (wanted_props b = wanted_props (bsi_bucket s)) as Hw by (unfold wanted_props; by destruct Hb as [-> _]).
  rewrite Hw in *. split; try done. by etrans.
Qed.
Lemma ReconcileBucket_site s : bucket_ok s → wpb (ReconcileBucket (bsi_key s)) (bucket_outcome s) s.
Proof.
  intros Hi. destruct (bo_names s Hi) as [Hdel _].
  unfold ReconcileBucket, Get. apply wp_call; [done|]. intros r s' [-> ->]. rewrite Hdel.
  apply wp_bind_2 with (Q1 := λ u s', ∃ b, u = Ok b ∧ bucket_like (bsi_bucket s) b ∧ s' = bsi_with_bucket s b).
  { destruct (ContainsFinalizer _ _).
    - apply wp_ret. exists (bsi_bucket s). by destruct s.
    - split; [done|]. intros r s' [-> ->]. eexists. split; [done|]. split; [|done]. split; [done|]. by eexists. }
  intros u s1 (b1 & -> & Hb1 & ->).
  apply wp_bind_2 with (Q1 := λ u s', ∃ b, u = Ok b ∧ bucket_like (bsi_bucket s) b ∧ s' = bsi_with_bucket s b).
  { destruct (String.eqb _ _).
    - split; [done|]. intros r s' [-> ->]. eexists. split; [done|]. split; [|done].
      etrans; [exact Hb1|apply bucket_like_status].
    - apply wp_ret. by exists b1. }
  intros u s2 (b2 & -> & Hb2 & ->).
  eapply wp_mono; [apply (bucket_with_cluster_site (bsi_with_bucket s b2));
    by apply (bucket_ok_like _ (bsi_bucket s) (bsi_type s)); destruct s|].
  intros o s'. by apply bucket_outcome_from.
Qed.
End bucket.

(** ** The user *)
Section user.
Context `{L : KubeLib} `{HL : !KubeLibLaws L} `{X : GoX509} (apiReader : bool) (username : string).

Record user_site := mkUserSite {
  usi_cluster : RiakCluster;
  usi_user : RiakUser;
  usi_id : identity }.
Definition usi_with_cluster (s : user_site) (c : RiakCluster) : user_site := mkUserSite c (usi_user s) (usi_id s).
Definition usi_with_user (s : user_site) (u : RiakUser) : user_site := mkUserSite (usi_cluster s) u (usi_id s).
Definition usi_with_id (s : user_site) (i : identity) : user_site := mkUserSite (usi_cluster s) (usi_user s) i.
Definition usi_key (s : user_site) : ObjectKey := meta_key (us_Meta (usi_user s)).

(** The commands on the user: grants are listed in states that can be printed. *)
Definition user_cmds (i : identity) (args : list string) : Prop :=
  args = add_user_args username ∨ (id_exists i = true ∧ args = add_source_args username) ∨
  args = enable_args ∨
  id_exists i = true ∧ ∃ pod, sec_ok_at printable_state username pod (id_grants i) pod args.
(** The user is written, the cluster's status, and certificates. *)
Definition user_object (s : user_site) (k : kind) : obj k → Prop :=
  match k return obj k → Prop with
  | KUser => λ o, meta_key (us_Meta o) = usi_key s
  | KUnstructured _ => λ _, True
  | _ => λ _, False
  end.
Definition user_status (s : user_site) (k : kind) : obj k → Prop :=
  match k return obj k → Prop with
  | KUser => λ o, meta_key (us_Meta o) = usi_key s
  | KCluster => λ o, cluster_key o = cluster_key (usi_cluster s)
  | _ => λ _, False
  end.
Definition user_site_ok (s : user_site) (a : api) : Prop :=
  match a with
  | AGet _ KCluster key => key = cluster_key (usi_cluster s)
  | AGet _ KUser key => key = usi_key s
  | AGet _ (KSecret | KConfigMap | KUnstructured _) _ => True
  | ACreate (KUnstructured _) _ => True
  | AUpdate k o => user_object s k o
  | AStatusUpdate k o => user_status s k o
  | ARun name full => ∃ pod args,
      name = "kubectl" ∧ full = kubectl_args (cl_Namespace (usi_cluster s)) pod "riak" args ∧
      user_cmds (usi_id s) args
  | ANow => True
  | _ => False
  end.
Definition user_get (s : user_site) (k : kind) : res (obj k) → Prop :=
  match k return res (obj k) → Prop with
  | KCluster => λ r, r = Ok (usi_cluster s)
  | KUser => λ r, r = Ok (usi_user s)
  | _ => λ r, match r with Ok _ => True | Err e => IsNotFound e = true end
  end.
Definition user_written (u o : RiakUser) : RiakUser := us_with_status o (us_Status u).
Definition user_reported (u o : RiakUser) : RiakUser := us_with_status u (us_Status o).
Definition user_update (s : user_site) (k : kind) : obj k → res (obj k) → user_site → Prop :=
  match k return obj k → res (obj k) → user_site → Prop with
  | KUser => λ o r s', let u := user_written (usi_user s) o in r = Ok u ∧ s' = usi_with_user s u
  | _ => λ _ r s', is_ok r = true ∧ s' = s
  end.
Definition user_status_update (s : user_site) (k : kind) : obj k → res (obj k) → user_site → Prop :=
  match k return obj k → res (obj k) → user_site → Prop with
  | KUser => λ o r s', let u := user_reported (usi_user s) o in r = Ok u ∧ s' = usi_with_user s u
  | KCluster => λ o r s', let c := status_updated (usi_cluster s) o in r = Ok c ∧ s' = usi_with_cluster s c
  | _ => λ _ r s', is_ok r = true ∧ s' = s
  end.
Definition user_answer (s : user_site) (a : api) : reply a → user_site → Prop :=
  match a as a' return reply a' → user_site → Prop with
  | AGet _ k _ => λ r s', user_get s k r ∧ s' = s
  | ACreate _ _ => λ r s', r = None ∧ s' = s
  | AUpdate k o => user_update s k o
  | AStatusUpdate k o => user_status_update s k o
  | ARun _ full => λ r s', ∃ i,
      id_step false username (usi_id s) (exec_pod full) (exec_args full) r i ∧ s' = usi_with_id s i
  | _ => λ _ s', s' = s
  end.
Definition user_site_env : Env reply user_site := {| allowed := user_site_ok; step := user_answer |}.
Abbreviation wpu := (wp user_site_env).

Record user_ok (s : user_site) : Prop := {
  uo_names : names_cluster (usi_cluster s) (us_Meta (usi_user s)) (us_ClusterName (us_Spec (usi_user s)));
  uo_username : us_Username (us_Spec (usi_user s)) = username;
  uo_cert : is_Some (us_CertificateRef (us_Spec (usi_user s)));
  uo_grants : Forall (λ g, grant_unreserved g ∧ grant_known g) (us_Grants (us_Spec (usi_user s)));
  uo_listed : state_ok (id_grants (usi_id s)) ∧
              printable_state (id_grants (usi_id s) ∪ spec_grants (us_Grants (us_Spec (usi_user s))))
}.
Lemma user_ok_like c u i c' u' :
  cluster_key c' = cluster_key c → user_like u u' → user_ok (mkUserSite c u i) → user_ok (mkUserSite c' u' i).
Proof.
  intros Hc [Hs [fs Hm]] [H1 H2 H3 H4 H5]. split; unfold names_cluster in *; cbn in *; rewrite ?Hs, ?Hm, ?Hc; done.
Qed.
(** The user is reported Ready for the spec it has. *)
Definition user_said (u : RiakUser) : Prop :=
  let st := us_Status u in
  ust_Phase st = UserPhaseReady ∧ ust_Created st = true ∧ ust_Username st = username ∧
  ust_Grants st = us_Grants (us_Spec u).
(** Riak has it, with exactly those grants. *)
Definition identity_is (grants : list Grant) (i : identity) : Prop :=
  id_exists i = true ∧ id_source i = true ∧ id_grants i = spec_grants grants.
Definition user_served (s : user_site) : Prop :=
  user_said (usi_user s) ∧ is_secured (usi_cluster s) = true ∧
  identity_is (us_Grants (us_Spec (usi_user s))) (usi_id s).

Lemma wpu_identity {A} ok (p : M A) Q s :
  (∀ i args, ok i args → user_cmds i args) →
  wp (id_env false username ok (cl_Namespace (usi_cluster s))) p Q (usi_id s) →
  wpu p (λ a s', ∃ i, s' = usi_with_id s i ∧ Q a i) s.
Proof.
  intros Hok Hp. eapply wp_mono.
  - apply (wp_map (id_env false username ok (cl_Namespace (usi_cluster s))) user_site_env usi_id
             (λ s', s' = usi_with_id s (usi_id s')));
      [| |by destruct s|exact Hp].
    + intros s1 a Hs1 (pod & args & -> & Ha). exists pod, args. rewrite Hs1. split_and!; [done..|]. by apply Hok.
    + intros s1 a r s2 Hs1 (pod & args & -> & Ha) (i & Hi & ->). split; [exact Hi|]. by rewrite Hs1 at 1.
  - intros a s' [HQ Hs']. by exists (usi_id s').
Qed.
(** What only reads beside the cluster changes nothing. *)
Lemma wpu_reads {A} (p : M A) s :
  footprint side_reads p (λ _, True) → wpu p (λ _ s', s' = s) s.
Proof.
  intros Hp. eapply wp_mono; [apply (wp_footprint user_site_env side_reads (λ s', s' = s) _ _ _ Hp); [| |done]|].
  - intros s1 a _ Ha. destruct a as [? [] ?| | | | | | | | |]; done.
  - intros s1 a r s2 -> Ha Hst. destruct a as [? [] ?| | | | | | | | |]; try done; by destruct Hst.
  - by intros a s' [_ ->].
Qed.
Lemma reconcileUserCertificate_site u certRef s :
  wpu (reconcileUserCertificate u certRef) (λ e s', e = None ∧ s' = s) s.
Proof.
  unfold reconcileUserCertificate. destruct (ucr_IssuerRef certRef) as [issuer|]; [|by apply wp_ret].
  set (cert := buildUserCertificate _ _ _ _ _).
  assert (is_ok (SetControllerReference "RiakUser" (us_Meta u) (un_Meta cert)) = true) as Ho.
  { apply owner_free; [done|]. cbn. by intros r ?%elem_of_nil. }
  destruct (SetControllerReference _ _ _) as [m|e]; [|done].
  unfold Get. apply wp_call; [done|]. intros [c|e] s' [Hget ->]; [by apply wp_ret|].
  cbn in Hget. rewrite Hget. split; [done|]. by intros r s' [-> ->].
Qed.
Lemma markUserReady_site name certReady why s :
  us_Username (us_Spec (usi_user s)) = username →
  wpu (markUserReady (usi_user s) name certReady why)
    (λ e s', e = None ∧ ∃ st, user_said (us_with_status (usi_user s) st) ∧
       s' = usi_with_user s (us_with_status (usi_user s) st)) s.
Proof.
  intros Hname. unfold markUserReady, Now. destruct (if certReady then _ else _) as [condReason condMessage].
  apply wp_call; [done|]. intros n1 s' ->. destruct (setCondition _ _ _ _ _ _ _) as [c1 ch1].
  apply wp_call; [done|]. intros n2 s' ->. destruct (setCondition _ _ _ _ _ _ _) as [c2 ch2].
  destruct (_ && negb ch2) eqn:Hsame.
  - apply wp_ret. split; [done|]. exists (us_Status (usi_user s)). split; [|by destruct s as [? [] ?]].
    rewrite !andb_true_iff, !String.eqb_eq in Hsame. unfold equalGrants in Hsame.
    rewrite bool_decide_eq_true in Hsame. unfold user_said. rewrite <-Hname. cbn. tauto.
  - apply wp_call; [done|]. intros n3 s' ->. unfold StatusUpdate. apply wp_call; [done|]. intros r s' [-> ->].
    apply wp_ret. split; [done|]. eexists. split; [|done]. unfold user_said. by rewrite <-Hname.
Qed.
(** All that a pass touches: the user, the identity, and the cluster's security flag. *)
Definition only_user (s s' : user_site) : Prop :=
  secured (usi_cluster s) (usi_cluster s') ∧ user_like (usi_user s) (usi_user s').
#[local] Instance only_user_trans : Transitive only_user.
Proof.
  intros s1 s2 s3 ((A1 & A2 & A3 & A4) & A) ((B1 & B2 & B3 & B4) & B). split; [split_and!; congruence|by etrans].
Qed.
(** What the pass comes to: served, or put off by a cluster that cannot serve. *)
Definition user_outcome (s : user_site) (o : outcome) (s' : user_site) : Prop :=
  o.2 = None ∧ only_user s s' ∧
  (user_served s' ∨
   ¬ hosts (usi_cluster s) ∧ usi_cluster s' = usi_cluster s ∧ usi_id s' = usi_id s ∧ comes_back o).
Lemma user_put_off s o u :
  user_like (usi_user s) u → o.2 = None → comes_back o → ¬ hosts (usi_cluster s) →
  user_outcome s o (usi_with_user s u).
Proof. intros Hu Ho Hb Hh. split; [done|]. split; [by split|]. by right. Qed.
Lemma provision_user_site certRef s :
  hosts (usi_cluster s) → user_ok s → is_secured (usi_cluster s) = true →
  wpu (provision_user apiReader (usi_user s) certRef (usi_cluster s)) (user_outcome s) s.
Proof.
  intros [_ Hpod] Hi Hsec. destruct (uo_listed s Hi) as [Hok Hprint].
  pose proof (uo_grants s Hi) as Hg. apply Forall_and in Hg as [Hg Hk].
  unfold provision_user. rewrite (uo_username s Hi).
  eapply wp_bind_2.
  { apply (wpu_identity (λ _ a, a = add_user_args username)); [by left|by apply CreateUserForCert_id]. }
  intros e s1 (i1 & -> & Hi1 & _ & He). specialize (He eq_refl Hpod) as ->. specialize (Hi1 eq_refl) as ->.
  eapply wp_bind_2.
  { apply (wpu_identity (λ i a, id_exists i = true ∧ a = add_source_args username)).
    - intros i a Ha. by right; left.
    - by apply (AddSecuritySource_id false). }
  intros e s2 (i2 & -> & Hi2 & _ & He). specialize (He eq_refl Hpod) as ->. specialize (Hi2 eq_refl) as ->.
  eapply wp_bind_2.
  { apply (wpu_identity (λ i a, id_exists i = true ∧
             ∃ pod, sec_ok_at printable_state username pod (id_grants i) pod a)).
    - intros i a Ha. by right; right; right.
    - apply (Grants_id false _ _ printable_state); [|done..]. intros i' pod args Hex Hargs. rewrite Hex.
      split; [done|]. by exists pod. }
  intros e s3 (i3 & -> & g & -> & Hgr & He). specialize (He eq_refl Hpod Hk) as ->. specialize (Hgr eq_refl) as ->.
  eapply wp_bind_2; [apply wpu_reads, userCertificateReadiness_fp|].
  intros [[certReady why] notAfter] s4 ->.
  eapply wp_bind_2; [by apply (markUserReady_site _ _ _ (usi_with_id s _)), Hi|].
  intros e s5 (-> & st & Hst & ->). unfold Now. apply wp_call; [done|]. intros now s' ->.
  apply wp_ret. split; [done|]. split; [|by left]. split; [done|]. cbn. apply user_like_status.
Qed.
Lemma own_user_status s : usi_with_user s (us_with_status (usi_user s) (us_Status (usi_user s))) = s.
Proof. by destruct s as [? [] ?]. Qed.
Lemma fail_and_requeue_site reason message after s :
  (0 < after)%Z → ¬ hosts (usi_cluster s) →
  wpu (fail_and_requeue (usi_user s) reason message after) (user_outcome s) s.
Proof.
  intros Ha Hh. unfold fail_and_requeue.
  apply wp_bind_2 with (Q1 := λ _ s', ∃ st, s' = usi_with_user s (us_with_status (usi_user s) st)).
  - unfold failUser, Now. apply wp_call; [done|]. intros now s' ->.
    destruct (setCondition _ _ _ _ _ _ _) as [conds changed]. destruct (_ && _).
    { apply wp_ret. eexists. symmetry. apply own_user_status. }
    apply wp_call; [done|]. intros now' s' ->. unfold StatusUpdate. apply wp_call; [done|]. intros r s' [-> ->].
    apply wp_ret. by eexists.
  - intros [] s' [st ->]. apply wp_ret. apply user_put_off; try done. apply user_like_status.
Qed.
Lemma no_member_wp (p : M (option error)) f s :
  p = mret (Some no_members) → ¬ hosts (usi_cluster s) →
  (∀ e, ∃ reason message after, (0 < after)%Z ∧ f (Some e) = fail_and_requeue (usi_user s) reason message after) →
  wpu (p ≫= f) (user_outcome s) s.
Proof.
  intros -> Hh Hf. destruct (Hf no_members) as (r & m & n & Ha & Hn).
  apply wp_bind_2 with (Q1 := λ e s', e = Some no_members ∧ s' = s); [by apply wp_ret|].
  intros e s' [-> ->]. rewrite Hn. by apply fail_and_requeue_site.
Qed.
Lemma secure_and_provision_site certRef s :
  ready (usi_cluster s) → user_ok s →
  wpu (secure_and_provision apiReader (usi_user s) certRef (usi_cluster s)) (user_outcome s) s.
Proof.
  intros Hr Hi. unfold secure_and_provision. destruct (first_pod (usi_cluster s)) as [pod|] eqn:Hpod.
  - assert (hosts (usi_cluster s)) as Hh by by split; [|exists pod].
    destruct (cst_SecurityEnabled _) eqn:Hsec; [by apply provision_user_site|].
    eapply wp_bind_2.
    { apply (wpu_identity (λ _ a, a = enable_args)); [by right; right; left|by apply EnableSecurity_id]. }
    intros e s1 (i1 & -> & Hi1 & _ & He). specialize (He eq_refl (proj2 Hh)) as ->. specialize (Hi1 eq_refl) as ->.
    unfold StatusUpdate. apply wp_call; [done|]. intros r s' [-> ->]. set (s1 := usi_with_cluster _ _).
    assert (user_ok s1) as Hi1 by by destruct Hi; split.
    eapply wp_mono; [by apply (provision_user_site certRef s1)|].
    intros o s' (Ho & Hs & Hserved). split; [done|]. split; [|by destruct Hserved as [?|[[] _]]; [left|]].
    transitivity s1; [|done]. split; [done|]. cbn. reflexivity.
  - assert (¬ hosts (usi_cluster s)) as Hh by (intros [_ [? ?]]; congruence).
    destruct (cst_SecurityEnabled _); (apply no_member_wp; [|done|intros e; by eexists _, _, (10 * second)%Z]).
    + unfold CreateUserForCert. by rewrite Hpod.
    + unfold EnableSecurity. by rewrite Hpod.
Qed.
Lemma user_with_cluster_site certRef s :
  user_ok s → wpu (user_with_cluster apiReader (usi_user s) certRef) (user_outcome s) s.
Proof.
  intros Hi. destruct (uo_names s Hi) as [_ Hkey].
  unfold user_with_cluster, Get. apply wp_call; [exact Hkey|]. intros r s' [-> ->].
  destruct (String.eqb_spec (cst_Phase (cl_Status (usi_cluster s))) PhaseReady) as [Hr|Hr]; cbn [negb].
  - eapply wp_bind_2; [apply reconcileUserCertificate_site|]. intros e s' [-> ->]. by apply secure_and_provision_site.
  - assert (¬ hosts (usi_cluster s)) as Hh by by intros [? _].
    unfold Now. apply wp_call; [done|]. intros now s' ->. destruct (setCondition _ _ _ _ _ _ _) as [conds changed].
    apply wp_bind_2 with (Q1 := λ _ s', ∃ st, s' = usi_with_user s (us_with_status (usi_user s) st)).
    + destruct changed.
      * unfold StatusUpdate. apply wp_call; [done|]. intros r s' [-> ->]. apply wp_ret. by eexists.
      * apply wp_ret. eexists. symmetry. apply own_user_status.
    + intros [] s' [st ->]. apply wp_ret. apply user_put_off; try done. apply user_like_status.
Qed.
Lemma user_outcome_from s u o s' :
  user_like (usi_user s) u → user_outcome (usi_with_user s u) o s' → user_outcome s o s'.
Proof. intros Hu (Ho & [Hc Hl] & Hs). split; [done|]. split; [|done]. split; [done|]. by etrans. Qed.
Lemma ReconcileUser_site s : user_ok s → wpu (ReconcileUser apiReader (usi_key s)) (user_outcome s) s.
Proof.
  intros Hi. destruct (uo_names s Hi) as [Hdel _].
  unfold ReconcileUser, Get. apply wp_call; [done|]. intros r s' [-> ->]. rewrite Hdel.
  apply wp_bind_2 with (Q1 := λ r s', ∃ u, r = Ok u ∧ user_like (usi_user s) u ∧ s' = usi_with_user s u).
  { destruct (ContainsFinalizer _ _).
    - apply wp_ret. exists (usi_user s). by destruct s.
    - split; [done|]. intros r s' [-> ->]. eexists. split; [done|]. split; [|done]. split; [done|]. by eexists. }
  intros r s1 (u1 & -> & Hu1 & ->).
  apply wp_bind_2 with (Q1 := λ r s', ∃ u, r = Ok u ∧ user_like (usi_user s) u ∧ s' = usi_with_user s u).
  { destruct (String.eqb _ _).
    - split; [done|]. intros r s' [-> ->]. eexists. split; [done|]. split; [|done].
      etrans; [exact Hu1|apply user_like_status].
    - apply wp_ret. by exists u1. }
  intros r s2 (u2 & -> & Hu2 & ->). pose proof Hu2 as [Hsp _].
  destruct (uo_cert s Hi) as [certRef Hcert]. rewrite Hsp, Hcert.
  eapply wp_mono; [apply (user_with_cluster_site certRef (usi_with_user s u2));
    by apply (user_ok_like (usi_cluster s) (usi_user s)); [| |destruct s]|].
  intros o s'. by apply user_outcome_from.
Qed.
End user.
