(* ===== verification/Shared.v ===== *)
(** * One Riak behind many resources

    [system]: the world of the cluster controller ([Convergence]) with the RiakBuckets and
    RiakUsers of the cluster and what Riak holds for them, any number of them over one Riak.
    [sys_env] answers a pass over any bucket or user. What [Provisioning] shows of a pass over
    one of them alone holds with all the others around it, which the pass leaves as they are:
    [bucket_lift], [user_lift]. *)
From S2P Require Import Prelude GoLib Effects Types Samples KubeTypes Kube KubeLib Footprint Status Executor ExecutorFacts Manager RiakEnv Membership Grants BucketTypes Tls Trust TrustFacts BucketController BucketFacts UserController StatefulSet StatefulSetFacts ClusterController Footprints ClusterFacts UserFacts Convergence Provisioning.

#[export] Instance ObjectKey_countable : Countable ObjectKey.
Proof. refine (inj_countable' (λ k, (key_Namespace k, key_Name k)) (λ p, mkKey p.1 p.2) _). by intros []. Defined.

(** The controllers, and the objects the last two run for. *)
Inductive controller := Clusters | Buckets (k : ObjectKey) | Users (k : ObjectKey).
#[export] Instance controller_eq_dec : EqDecision controller.
Proof. solve_decision. Defined.
#[export] Instance controller_countable : Countable controller.
Proof.
  refine (inj_countable' (λ c, match c with Clusters => None | Buckets k => Some (inl k) | Users k => Some (inr k) end)
    (λ o, match o with None => Clusters | Some (inl k) => Buckets k | Some (inr k) => Users k end) _). by intros [].
Defined.

(** ** What Riak is told *)
(** The user a command of [riak-admin security] is about. *)
Definition about (args : list string) : string :=
  match args with
  | "security" :: "add-source" :: u :: _ => u
  | _ => default "" (last args)
  end.
(** The bucket type, of [riak-admin bucket-type]. *)
Definition type_of (args : list string) : string := default "" (args !! 2).
Lemma type_of_ok `{J : GoJson} typ pod t p args : bt_ok typ pod t p args → head args = Some "bucket-type" ∧
  type_of args = typ.
Proof. by intros (_ & [(j & -> & _)|[(-> & _)|(j & -> & _)]]). Qed.
Lemma user_cmds_head u i args : user_cmds u i args → head args ≠ Some "bucket-type".
Proof.
  intros [->|[[_ ->]|[->|(_ & p & _ & [[-> _]|(op & toks & tgt & kw & -> & _)])]]]; by intros [=].
Qed.
Lemma about_cmds u i args : user_cmds u i args → args ≠ enable_args → about args = u.
Proof.
  intros [->|[[_ ->]|[->|(_ & p & _ & [[-> _]|(op & toks & tgt & kw & -> & Hop)])]]] Hne; try done.
  assert (about (["security"; op; toks; "on"] ++ tgt ++ [kw; u]) =
          default "" (last ((["security"; op; toks; "on"] ++ tgt ++ [kw]) ++ [u]))) as ->.
  { rewrite <-!(assoc_L (++)). by destruct Hop as [[-> _]|[-> _]]. }
  by rewrite last_snoc.
Qed.
(** Turning security on is about no user: it is the same for each. *)
Lemma enable_apart flaky w i j err j' :
  id_secure i = id_secure j → applies flaky enable_eff w j err j' →
  applies flaky enable_eff w i err (mkIdentity (id_exists i) (id_source i) (id_secure j') (id_grants i)).
Proof.
  intros Hs (H1 & H2 & H3 & H4). unfold applies, enable_eff in *. split; [|split; [|split]]; cbn in *.
  - intros He. by rewrite (H1 He).
  - destruct H2 as [->| ->]; [left; rewrite <-Hs; by destruct i|by right].
  - intros He. rewrite (H3 He). done.
  - done.
Qed.
Lemma user_cmds_total u i args pod :
  no_byte nl u = true → user_cmds u i args → ∃ r i', id_step false u i pod args r i'.
Proof.
  intros Hu Hargs. unfold id_step.
  destruct (decide (args = add_user_args u)) as [|H1].
  { exists (Ok ""). eexists. split_and!; [done|by right|by intros (? & [=] & _)|by left]. }
  destruct (decide (args = add_source_args u)) as [|H2].
  { exists (Ok ""). eexists. split_and!; [done|by right|done]. }
  destruct (decide (args = enable_args)) as [|H3].
  { exists (Ok ""). eexists. split_and!; [done|by right|by intros (? & [=] & _)|by left]. }
  destruct Hargs as [?|[[_ ?]|[?|(_ & p & Hok)]]]; [done..|].
  pose proof (sec_ok_other _ _ _ _ _ _ Hok) as (_ & _ & _ & H4).
  destruct (decide (args = del_user_args u)) as [|_]; [done|].
  destruct (sec_total _ _ _ p _ Hu Hok) as (r & g & Hg). exists r. eexists. by exists g.
Qed.

Section system.
Context `{L : KubeLib} `{HL : !KubeLibLaws L} `{J : GoJson} `{HJ : !GoJsonLaws J} `{X : GoX509}.

Record system := mkSystem {
  sy_world : world;
  sy_buckets : gmap ObjectKey RiakBucket;
  sy_types : gmap string (bool * gmap string jvalue);
  sy_users : gmap ObjectKey RiakUser;
  sy_ids : gmap string identity;
  sy_secure : bool }.
Definition sy_cluster (y : system) : RiakCluster := wd_cluster (sy_world y).
Definition with_world (y : system) (w : world) : system :=
  mkSystem w (sy_buckets y) (sy_types y) (sy_users y) (sy_ids y) (sy_secure y).
Definition with_cluster (y : system) (c : RiakCluster) : system := with_world y (wd_with_cluster (sy_world y) c).
Definition with_buckets (y : system) (m : gmap ObjectKey RiakBucket) : system :=
  mkSystem (sy_world y) m (sy_types y) (sy_users y) (sy_ids y) (sy_secure y).
Definition with_bucket (y : system) (k : ObjectKey) (b : RiakBucket) : system := with_buckets y (<[k :=
  b]> (sy_buckets y)).
Definition with_type (y : system) (typ : string) (t : option (bool * gmap string jvalue)) : system :=
  mkSystem (sy_world y) (sy_buckets y) (partial_alter (λ _, t) typ (sy_types y)) (sy_users y) (sy_ids y)
    (sy_secure y).
Definition with_users (y : system) (m : gmap ObjectKey RiakUser) : system :=
  mkSystem (sy_world y) (sy_buckets y) (sy_types y) m (sy_ids y) (sy_secure y).
Definition with_user (y : system) (k : ObjectKey) (u : RiakUser) : system := with_users y (<[k := u]> (sy_users y)).
Definition with_ids (y : system) (ids : gmap string identity) (secure : bool) : system :=
  mkSystem (sy_world y) (sy_buckets y) (sy_types y) (sy_users y) ids secure.
(** What Riak holds for a user; whether security is on is the same for all. *)
Definition id_of (y : system) (u : string) : identity :=
  let i := default (mkIdentity false false false ∅) (sy_ids y !! u) in
  mkIdentity (id_exists i) (id_source i) (sy_secure y) (id_grants i).
(** What the controllers see of it, in a pass over one object. *)
Definition bucket_at (y : system) (b : RiakBucket) : bucket_site :=
  mkBucketSite (sy_cluster y) b (sy_types y !! bucket_type (bk_Spec b)).
Definition username (u : RiakUser) : string := us_Username (us_Spec u).
Definition user_at (y : system) (u : RiakUser) : user_site := mkUserSite (sy_cluster y) u (id_of y (username u)).

(** ** The environment of a pass over a bucket or a user *)
Definition sys_object (y : system) (k : kind) : obj k → Prop :=
  match k return obj k → Prop with
  | KBucket => λ o, is_Some (sy_buckets y !! meta_key (bk_Meta o))
  | KUser => λ o, is_Some (sy_users y !! meta_key (us_Meta o))
  | KUnstructured _ => λ _, True
  | _ => λ _, False
  end.
Definition sys_status (y : system) (k : kind) : obj k → Prop :=
  match k return obj k → Prop with
  | KBucket => λ o, is_Some (sy_buckets y !! meta_key (bk_Meta o))
  | KUser => λ o, is_Some (sy_users y !! meta_key (us_Meta o))
  | KCluster => λ o, cluster_key o = cluster_key (sy_cluster y)
  | _ => λ _, False
  end.
Definition sys_ok (y : system) (a : api) : Prop :=
  match a with
  | AGet _ KCluster key => key = cluster_key (sy_cluster y)
  | AGet _ (KBucket | KUser | KSecret | KConfigMap | KUnstructured _) _ => True
  | ACreate (KUnstructured _) _ => True
  | AUpdate k o => sys_object y k o
  | AStatusUpdate k o => sys_status y k o
  | ARun name full => ∃ pod args,
      name = "kubectl" ∧ full = kubectl_args (cl_Namespace (sy_cluster y)) pod "riak" args ∧
      ((∃ typ, bt_ok typ pod (sy_types y !! typ) pod args) ∨
       ∃ u, no_byte nl u = true ∧ user_cmds u (id_of y u) args)
  | ANow => True
  | _ => False
  end.
Definition found {A} (o : option A) : res A := match o with Some x => Ok x | None => Err not_found end.
Definition sys_get (y : system) (k : kind) (key : ObjectKey) : res (obj k) → Prop :=
  match k return res (obj k) → Prop with
  | KCluster => λ r, r = Ok (sy_cluster y)
  | KBucket => λ r, r = found (sy_buckets y !! key)
  | KUser => λ r, r = found (sy_users y !! key)
  | _ => λ r, match r with Ok _ => True | Err e => IsNotFound e = true end
  end.
Definition bucket_stored (f : RiakBucket → RiakBucket → RiakBucket) (y : system) (o : RiakBucket)
    (r : res RiakBucket) (y' : system) : Prop :=
  let k := meta_key (bk_Meta o) in
  ∃ b, sy_buckets y !! k = Some b ∧ r = Ok (f b o) ∧ y' = with_bucket y k (f b o).
Definition user_stored (f : RiakUser → RiakUser → RiakUser) (y : system) (o : RiakUser)
    (r : res RiakUser) (y' : system) : Prop :=
  let k := meta_key (us_Meta o) in
  ∃ u, sy_users y !! k = Some u ∧ r = Ok (f u o) ∧ y' = with_user y k (f u o).
Definition sys_update (y : system) (k : kind) : obj k → res (obj k) → system → Prop :=
  match k return obj k → res (obj k) → system → Prop with
  | KBucket => bucket_stored bucket_written y
  | KUser => user_stored user_written y
  | _ => λ _ r y', is_ok r = true ∧ y' = y
  end.
Definition sys_status_update (y : system) (k : kind) : obj k → res (obj k) → system → Prop :=
  match k return obj k → res (obj k) → system → Prop with
  | KBucket => bucket_stored bucket_reported y
  | KUser => user_stored user_reported y
  | KCluster => λ o r y', let c := status_updated (sy_cluster y) o in r = Ok c ∧ y' = with_cluster y c
  | _ => λ _ r y', is_ok r = true ∧ y' = y
  end.
Definition sys_run (y : system) (pod : string) (args : list string) (r : res string) (y' : system) : Prop :=
  let err := (admin_reply args r).2 in
  if decide (head args = Some "bucket-type")
  then ∃ t, bt_cmd false (type_of args) args (sy_types y !! type_of args) err t ∧ y' = with_type y (type_of args) t
  else if decide (args = enable_args)
  then ∃ i, applies false enable_eff "already" (mkIdentity false false (sy_secure y) ∅) err i ∧
            y' = with_ids y (sy_ids y) (id_secure i)
  else ∃ i, id_step false (about args) (id_of y (about args)) pod args r i ∧
            y' = with_ids y (<[about args := i]> (sy_ids y)) (id_secure i).
Definition sys_answer (y : system) (a : api) : reply a → system → Prop :=
  match a as a' return reply a' → system → Prop with
  | AGet _ k key => λ r y', sys_get y k key r ∧ y' = y
  | ACreate _ _ => λ r y', r = None ∧ y' = y
  | AUpdate k o => sys_update y k o
  | AStatusUpdate k o => sys_status_update y k o
  | ARun _ full => λ r y', sys_run y (exec_pod full) (exec_args full) r y'
  | _ => λ _ y', y' = y
  end.
Definition sys_env : Env reply system := {| allowed := sys_ok; step := sys_answer |}.
Abbreviation wpy := (wp sys_env).

Lemma sys_total y a : sys_ok y a → ∃ r y', sys_answer y a r y'.
Proof.
  intros Ha. destruct a as [src k key|k ns labels|k o|k o|k o|k o o'|k key|k key mutate|name full|]; try done;
    cbn [sys_ok sys_answer] in *.
  - destruct k; first [by exists (Err not_found), y | eexists _, y; split; reflexivity].
  - by exists None, y.
  - destruct k; try done; first [by exists (Ok o), y | destruct Ha as [x Hx]; eexists _, _, x; by split_and!].
  - destruct k; try done; first [by eexists _, _ | destruct Ha as [x Hx]; eexists _, _, x; by split_and!].
  - destruct Ha as (pod & args & -> & -> & Hargs). unfold sys_run.
    change (exec_pod (kubectl_args _ pod "riak" args)) with pod.
    change (exec_args (kubectl_args _ pod "riak" args)) with args.
    destruct Hargs as [[typ Hok]|(u & Hu & Hok)].
    + destruct (type_of_ok _ _ _ _ _ Hok) as [Hh Ht]. destruct (bt_cmd_total _ _ _ _ _ Hok) as (r & t & Hr).
      exists r. eexists. rewrite decide_True, Ht by done. by exists t.
    + pose proof (user_cmds_head _ _ _ Hok) as Hh. destruct (decide (args = enable_args)) as [->|Hne].
      * exists (Ok ""). eexists. rewrite decide_False by done. eexists. split; [|reflexivity].
        split_and!; [done|by right|by intros (? & [=] & _)|by left].
      * destruct (user_cmds_total _ _ _ pod Hu Hok) as (r & i & Hi). exists r. eexists.
        rewrite decide_False, (about_cmds _ _ _ Hok Hne) by done. by exists i.
  - by exists 0%Z, y.
Qed.

(** *** A pass over one bucket, with all the others around it *)
Record bucket_frame (k : ObjectKey) (typ : string) (y y' : system) : Prop := {
  bf_world : sy_world y' = sy_world y;
  bf_users : sy_users y' = sy_users y;
  bf_ids : sy_ids y' = sy_ids y;
  bf_secure : sy_secure y' = sy_secure y;
  bf_buckets k' : k' ≠ k → sy_buckets y' !! k' = sy_buckets y !! k';
  bf_types n : n ≠ typ → sy_types y' !! n = sy_types y !! n
}.
#[local] Instance bucket_frame_preorder k typ : PreOrder (bucket_frame k typ).
Proof.
  split; [done|]. intros y1 y2 y3 [A1 A2 A3 A4 A5 A6] [B1 B2 B3 B4 B5 B6].
  split; try congruence; intros x Hx; [rewrite B5, A5|rewrite B6, A6]; done.
Qed.
Lemma bucket_frame_bucket k typ y b : bucket_frame k typ y (with_bucket y k b).
Proof. split; try done. intros k' Hk. by apply lookup_insert_ne. Qed.
Lemma bucket_frame_type k typ y t : bucket_frame k typ y (with_type y typ t).
Proof. split; try done. intros n Hn. by apply lookup_partial_alter_ne. Qed.
Lemma bucket_lift {A} (p : M A) (Q : A → bucket_site → Prop) y k typ b :
  sy_buckets y !! k = Some b → meta_key (bk_Meta b) = k →
  wp (bucket_site_env typ) p Q (mkBucketSite (sy_cluster y) b (sy_types y !! typ)) →
  wpy p (λ a y', bucket_frame k typ y y' ∧
           ∃ b', sy_buckets y' !! k = Some b' ∧ Q a (mkBucketSite (sy_cluster y) b' (sy_types y' !! typ))) y.
Proof.
  intros Hb Hk Hp. set (f y := mkBucketSite (sy_cluster y) (default b (sy_buckets y !! k)) (sy_types y !! typ)).
  eapply wp_mono; [apply (wp_map (bucket_site_env typ) sys_env f
    (λ y', bucket_frame k typ y y' ∧ ∃ b', sy_buckets y' !! k = Some b' ∧ meta_key (bk_Meta b') = k))|].
  - intros y1 a (Hf & b1 & Hb1 & Hk1) Ha. unfold f in Ha. rewrite Hb1 in Ha.
    destruct a as [? [] ?|? ? ?|? ?|[] o|[] o|? ? ?|? ?|? ? ?|nm full|]; try done; cbn in Ha |- *.
    + unfold bsi_key in Ha. cbn in Ha. rewrite Ha, Hk1. by exists b1.
    + unfold bsi_key in Ha. cbn in Ha. rewrite Ha, Hk1. by exists b1.
    + destruct Ha as (pod & args & -> & -> & Hok). exists pod, args. split; [done|]. split; [done|]. left.
      by exists typ.
  - intros y1 a r y2 (Hf & b1 & Hb1 & Hk1) Ha Hst. unfold f in *. rewrite Hb1 in Ha |- *. cbn [default] in *.
    destruct a as [? [] ?|? ? ?|? ?|[] o|[] o|? ? ?|? ?|? ? ?|nm full|]; try done;
      cbn [allowed bucket_site_env bucket_site_ok bucket_object user_site_env user_site_ok user_object user_status] in Ha;
      cbn [sys_env step sys_answer sys_get sys_update sys_status_update] in Hst.
    + destruct Hst as [-> ->]. rewrite Hb1. split; [done|]. split; [done|]. by exists b1.
    + destruct Hst as [-> ->]. unfold bsi_key in Ha. cbn in Ha. rewrite Ha, Hk1. split; [by cbn; rewrite Hb1|].
      split; [done|]. by exists b1.
    + destruct Hst as (b2 & Hb2 & -> & ->). unfold bsi_key in Ha. cbn in Ha. rewrite Ha, Hk1 in *.
      assert (b2 = b1) as -> by congruence. cbn. rewrite lookup_insert_eq. split; [done|].
      split; [etrans; [exact Hf|apply bucket_frame_bucket]|]. eexists. split; [done|]. exact Ha.
    + destruct Hst as (b2 & Hb2 & -> & ->). unfold bsi_key in Ha. cbn in Ha. rewrite Ha, Hk1 in *.
      assert (b2 = b1) as -> by congruence. cbn. rewrite lookup_insert_eq. split; [done|].
      split; [etrans; [exact Hf|apply bucket_frame_bucket]|]. eexists. split; [done|]. exact Hk1.
    + destruct Ha as (pod & args & -> & -> & Hok). unfold sys_run in Hst.
      change (exec_args (kubectl_args _ pod "riak" args)) with args in Hst.
      destruct (type_of_ok _ _ _ _ _ Hok) as [Hh Ht]. rewrite decide_True, Ht in Hst by done.
      destruct Hst as (t & Ht' & ->). cbn. rewrite Hb1, lookup_partial_alter_eq. split.
      { exists t. split; [exact Ht'|done]. }
      split; [etrans; [exact Hf|apply bucket_frame_type]|]. by exists b1.
    + rewrite Hst, Hb1. split; [done|]. split; [done|]. by exists b1.
  - split; [done|]. by exists b.
  - unfold f. by rewrite Hb.
  - intros a y' (HQ & Hf & b' & Hb' & _). split; [done|]. exists b'. split; [done|].
    unfold f in HQ. rewrite Hb' in HQ. unfold sy_cluster in *. by rewrite (bf_world _ _ _ _ Hf) in HQ.
Qed.
(** The same for a user; the cluster's status may be written. *)
Record user_frame (k : ObjectKey) (name : string) (y y' : system) : Prop := {
  uf_world : sy_world y' = wd_with_cluster (sy_world y) (sy_cluster y');
  uf_key : cluster_key (sy_cluster y') = cluster_key (sy_cluster y);
  uf_buckets : sy_buckets y' = sy_buckets y;
  uf_types : sy_types y' = sy_types y;
  uf_users k' : k' ≠ k → sy_users y' !! k' = sy_users y !! k';
  uf_ids n : n ≠ name → sy_ids y' !! n = sy_ids y !! n
}.
#[local] Instance user_frame_preorder k name : PreOrder (user_frame k name).
Proof.
  split; [intros [[] ? ? ? ? ?]; by split|]. intros y1 y2 y3 [A1 A0 A2 A3 A4 A5] [B1 B0 B2 B3 B4 B5].
  split; try congruence.
  - rewrite B1, A1. by destruct (sy_world y1).
  - intros x Hx. by rewrite B4, A4.
  - intros x Hx. by rewrite B5, A5.
Qed.
Lemma user_frame_user k name y u : user_frame k name y (with_user y k u).
Proof. destruct y as [[] ? ? ? ? ?]. split; try done. intros k' Hk. by apply lookup_insert_ne. Qed.
Lemma user_frame_cluster k name y o : user_frame k name y (with_cluster y (status_updated (sy_cluster y) o)).
Proof. by split. Qed.
Lemma user_frame_secure k name y b : user_frame k name y (with_ids y (sy_ids y) b).
Proof. by destruct y as [[] ? ? ? ? ?]. Qed.
Lemma user_frame_id k name y i b : user_frame k name y (with_ids y (<[name := i]> (sy_ids y)) b).
Proof. destruct y as [[] ? ? ? ? ?]. split; try done. intros n Hn. by apply lookup_insert_ne. Qed.
Lemma id_of_id y name i : id_of (with_ids y (<[name := i]> (sy_ids y)) (id_secure i)) name = i.
Proof. unfold id_of. cbn. rewrite lookup_insert_eq. by destruct i. Qed.
Lemma user_lift {A} (p : M A) (Q : A → user_site → Prop) y k name u :
  no_byte nl name = true → sy_users y !! k = Some u → meta_key (us_Meta u) = k →
  wp (user_site_env name) p Q (mkUserSite (sy_cluster y) u (id_of y name)) →
  wpy p (λ a y', user_frame k name y y' ∧
           ∃ u', sy_users y' !! k = Some u' ∧ Q a (mkUserSite (sy_cluster y') u' (id_of y' name))) y.
Proof.
  intros Hn Hu Hk Hp. set (f y := mkUserSite (sy_cluster y) (default u (sy_users y !! k)) (id_of y name)).
  eapply wp_mono; [apply (wp_map (user_site_env name) sys_env f
    (λ y', user_frame k name y y' ∧ ∃ u', sy_users y' !! k = Some u' ∧ meta_key (us_Meta u') = k))|].
  - intros y1 a (Hf & u1 & Hu1 & Hk1) Ha. unfold f in Ha. rewrite Hu1 in Ha.
    destruct a as [? [] ?|? ? ?|[] ?|[] o|[] o|? ? ?|? ?|? ? ?|nm full|]; try done; cbn in Ha |- *.
    + unfold usi_key in Ha. cbn in Ha. rewrite Ha, Hk1. by exists u1.
    + unfold usi_key in Ha. cbn in Ha. rewrite Ha, Hk1. by exists u1.
    + destruct Ha as (pod & args & -> & -> & Hok). exists pod, args. split; [done|]. split; [done|]. right.
      by exists name.
  - intros y1 a r y2 (Hf & u1 & Hu1 & Hk1) Ha Hst. unfold f in *. rewrite Hu1 in Ha |- *. cbn [default] in *.
    assert (y2 = y1 → mkUserSite (sy_cluster y2) (default u (sy_users y2 !! k)) (id_of y2 name) =
      mkUserSite (sy_cluster y1) u1 (id_of y1 name) ∧
      (user_frame k name y y2 ∧ ∃ u', sy_users y2 !! k = Some u' ∧ meta_key (us_Meta u') = k)) as Hsame.
    { intros ->. rewrite Hu1. split; [done|]. split; [done|]. by exists u1. }
    destruct a as [? [] ?|? ? ?|[] ?|[] o|[] o|? ? ?|? ?|? ? ?|nm full|]; try done;
      cbn [allowed bucket_site_env bucket_site_ok bucket_object user_site_env user_site_ok user_object user_status] in Ha;
      cbn [sys_env step sys_answer sys_get sys_update sys_status_update] in Hst.
    all: try (destruct (Hsame (proj2 Hst)) as [-> ?]; by split; [split; [apply Hst|]|]).
    + destruct Hst as [-> Hst]. destruct (Hsame Hst) as [-> ?]. unfold usi_key in Ha. cbn in Ha.
      split; [|done]. rewrite Ha, Hk1. by cbn; rewrite Hu1.
    + destruct Hst as (u2 & Hu2 & -> & ->). unfold usi_key in Ha. cbn in Ha. rewrite Ha, Hk1 in *.
      assert (u2 = u1) as -> by congruence. cbn. rewrite lookup_insert_eq. split; [done|].
      split; [etrans; [exact Hf|apply user_frame_user]|]. eexists. split; [done|]. exact Ha.
    + destruct Hst as [-> ->]. cbn. rewrite Hu1. split; [done|].
      split; [etrans; [exact Hf|apply user_frame_cluster]|]. by exists u1.
    + destruct Hst as (u2 & Hu2 & -> & ->). unfold usi_key in Ha. cbn in Ha. rewrite Ha, Hk1 in *.
      assert (u2 = u1) as -> by congruence. cbn. rewrite lookup_insert_eq. split; [done|].
      split; [etrans; [exact Hf|apply user_frame_user]|]. eexists. split; [done|]. exact Hk1.
    + destruct Ha as (pod & args & -> & -> & Hok). unfold sys_run in Hst.
      change (exec_args (kubectl_args _ pod "riak" args)) with args in *.
      change (exec_pod (kubectl_args _ pod "riak" args)) with pod in *.
      rewrite decide_False in Hst by by eapply user_cmds_head. destruct (decide (args = enable_args)) as [->|Hne].
      * destruct Hst as (i & Hi & ->). cbn. rewrite Hu1. split.
        { exists (id_of (with_ids y1 (sy_ids y1) (id_secure i)) name). split; [|done].
          unfold id_step. rewrite 2!decide_False, decide_True by done.
          exact (enable_apart _ _ (id_of y1 name) (mkIdentity false false (sy_secure y1) ∅) _ i eq_refl Hi). }
        split; [etrans; [exact Hf|apply user_frame_secure]|]. by exists u1.
      * rewrite (about_cmds _ _ _ Hok Hne) in Hst. destruct Hst as (i & Hi & ->). cbn. rewrite Hu1. split.
        { exists i. split; [done|]. unfold usi_with_id. cbn. by rewrite id_of_id. }
        split; [etrans; [exact Hf|apply user_frame_id]|]. by exists u1.
    + destruct (Hsame Hst) as [-> ?]. done.
  - split; [done|]. by exists u.
  - unfold f. by rewrite Hu.
  - intros a y' (HQ & Hf & u' & Hu' & _). split; [done|]. exists u'. split; [done|].
    unfold f in HQ. by rewrite Hu' in HQ.
Qed.
End system.
