(* ===== verification/System.v ===== *)
(** * The three controllers over one system

    Passes of the three controllers interleave in any order, with each other and with the
    changes others make to a [system]; a controller makes one for an object when its queue has
    the object, which is put there by its own requeue, by an edit of a spec, or by any other
    event ([queued]). *)
From S2P Require Import Prelude GoLib Effects Types Samples KubeTypes Kube KubeLib Footprint Status Executor ExecutorFacts Manager RiakEnv Membership Grants BucketTypes Tls Trust TrustFacts BucketController BucketFacts UserController StatefulSet StatefulSetFacts ClusterController Footprints ClusterFacts UserFacts Convergence Provisioning Shared.

Section system.
Context `{L : KubeLib} `{HL : !KubeLibLaws L} `{J : GoJson} `{HJ : !GoJsonLaws J} `{X : GoX509}.
Context (apiReader : bool) (DefaultImage : string) (range_order : gmap string string → list string).
Context (node : string → string) `{!Inj (=) (=) node} (Hprint : ∀ p, printable (node p)).
Abbreviation wpy := (wp sys_env).

(** ** Passes and queues *)
Inductive sys_pass : controller → system → outcome → system → Prop :=
| sp_cluster y o w :
    world_pass apiReader DefaultImage range_order node (sy_world y) o w → sys_pass Clusters y o (with_world y w)
| sp_bucket k y tr o y' : exec sys_env (ReconcileBucket k) y tr o y' → sys_pass (Buckets k) y o y'
| sp_user k y tr o y' : exec sys_env (ReconcileUser apiReader k) y tr o y' → sys_pass (Users k) y o y'.
Inductive run : list controller → system → system → Prop :=
| run_nil y : run [] y y
| run_cons c l y o y1 y2 : sys_pass c y o y1 → run l y1 y2 → run (c :: l) y y2.
(** *** The queues *)
(** The system, and what the controllers have to do. *)
Record queued := mkQueued { qu_system : system; qu_due : gset controller }.
Definition mark (due : gset controller) (c : controller) (b : bool) : gset controller :=
  if b then {[c]} ∪ due else due ∖ {[c]}.
(** The outcome puts the request back: after a delay, or with an error. *)
Definition again (o : outcome) : bool := (0 <? RequeueAfter o.1)%Z || bool_decide (is_Some o.2).
Inductive q_pass (c : controller) : queued → queued → Prop :=
| qp y due o y' : c ∈ due → sys_pass c y o y' → q_pass c (mkQueued y due) (mkQueued y' (mark due c (again o))).
(** Passes of the controllers listed, each taken from its queue, and events that wake any. *)
Inductive q_run : list controller → queued → queued → Prop :=
| qr_nil q : q_run [] q q
| qr_pass c l q q1 q2 : q_pass c q q1 → q_run l q1 q2 → q_run (c :: l) q q2
| qr_wake c l y due q2 : q_run l (mkQueued y (mark due c true)) q2 → q_run l (mkQueued y due) q2.

(** ** What is asked of the resources *)
(** Bucket types are shared by the buckets that agree on their properties, user names by
    none. *)
Definition agreeable (specs : gmap ObjectKey RiakBucketSpec) : Prop :=
  ∀ k1 k2 s1 s2, specs !! k1 = Some s1 → specs !! k2 = Some s2 → bucket_type s1 = bucket_type s2 →
    map_agree (effectiveBucketProperties s1).1 (effectiveBucketProperties s2).1.
Definition own_names (specs : gmap ObjectKey RiakUserSpec) : Prop :=
  ∀ k1 k2 s1 s2, specs !! k1 = Some s1 → specs !! k2 = Some s2 → us_Username s1 = us_Username s2 → k1 = k2.
Definition bucket_sound (y : system) (k : ObjectKey) (b : RiakBucket) : Prop :=
  meta_key (bk_Meta b) = k ∧ names_cluster (sy_cluster y) (bk_Meta b) (bs_ClusterName (bk_Spec b)).
Definition user_sound (y : system) (k : ObjectKey) (u : RiakUser) : Prop :=
  meta_key (us_Meta u) = k ∧ no_byte nl (username u) = true ∧ user_ok (username u) (user_at y u).
Record resources_ok (y : system) : Prop := {
  ro_bucket k b : sy_buckets y !! k = Some b → bucket_sound y k b;
  ro_agree : agreeable (bk_Spec <$> sy_buckets y);
  ro_user k u : sy_users y !! k = Some u → user_sound y k u;
  ro_names : own_names (us_Spec <$> sy_users y)
}.
Definition sound (y : system) : Prop := healthy node (sy_world y) ∧ resources_ok y.
Definition bucket_done (y : system) (b : RiakBucket) : Prop :=
  bucket_served (bucket_type (bk_Spec b)) (bucket_at y b).
Definition user_done (y : system) (u : RiakUser) : Prop := user_served (username u) (user_at y u).
Definition same_specs (y y' : system) : Prop :=
  cl_Spec (sy_cluster y') = cl_Spec (sy_cluster y) ∧ bk_Spec <$> sy_buckets y' = bk_Spec <$> sy_buckets y ∧
  us_Spec <$> sy_users y' = us_Spec <$> sy_users y.

(** *** What happens *)
(** Passes, and what others do: only a new generation is sure to wake a controller, a created
    object or an edit of the spec. Nobody but the controllers writes the status of a bucket or
    a user, or the cluster's record that security is on. An object that is deleted is released
    and goes; what is then left of a user in Riak is left open. *)
Definition wakes (due due' : gset controller) (c : controller) (same_spec : Prop) : Prop :=
  due' = mark due c true ∨ due' = due ∧ same_spec.
Inductive q_step : queued → queued → Prop :=
| qs_run l q q' : q_run l q q' → q_step q q'
| qs_world y due w : world_step apiReader DefaultImage range_order node (sy_world y) w →
    is_secured (wd_cluster w) = is_secured (sy_cluster y) →
    q_step (mkQueued y due) (mkQueued (with_world y w) due)
| qs_bucket_new y k b due : sy_buckets y !! k = None → resources_ok (with_bucket y k b) →
    q_step (mkQueued y due) (mkQueued (with_bucket y k b) (mark due (Buckets k) true))
| qs_bucket y k b0 b due due' : sy_buckets y !! k = Some b0 → resources_ok (with_bucket y k b) →
    bk_Status b = bk_Status b0 → wakes due due' (Buckets k) (bk_Spec b = bk_Spec b0) →
    q_step (mkQueued y due) (mkQueued (with_bucket y k b) due')
| qs_bucket_gone y k due : q_step (mkQueued y due) (mkQueued (with_buckets y (delete k (sy_buckets y))) due)
| qs_user_new y k u due : sy_users y !! k = None → resources_ok (with_user y k u) →
    q_step (mkQueued y due) (mkQueued (with_user y k u) (mark due (Users k) true))
| qs_user y k u0 u due due' : sy_users y !! k = Some u0 → resources_ok (with_user y k u) →
    us_Status u = us_Status u0 → wakes due due' (Users k) (us_Spec u = us_Spec u0) →
    q_step (mkQueued y due) (mkQueued (with_user y k u) due')
| qs_user_gone y k u oi due : sy_users y !! k = Some u →
    let left := with_users y (delete k (sy_users y)) in
    q_step (mkQueued y due)
      (mkQueued (with_ids left (partial_alter (λ _, oi) (username u) (sy_ids y)) (sy_secure y)) due).

(** ** What each pass leaves *)
Lemma comes_back_again o : comes_back o → again o = true.
Proof. intros Hb. unfold again. by rewrite (proj2 (Z.ltb_lt _ _) Hb). Qed.
(** A pass over an object that is gone does nothing. *)
Definition bucket_result (y : system) (k : ObjectKey) (o : outcome) (y' : system) : Prop :=
  match sy_buckets y !! k with
  | None => o = finish done_ ∧ y' = y
  | Some b => let typ := bucket_type (bk_Spec b) in
      bucket_frame k typ y y' ∧
      ∃ b', sy_buckets y' !! k = Some b' ∧
        bucket_outcome typ (bucket_at y b) o (mkBucketSite (sy_cluster y) b' (sy_types y' !! typ))
  end.
Lemma ReconcileBucket_sys y k :
  (∀ b, sy_buckets y !! k = Some b → bucket_sound y k b) → wpy (ReconcileBucket k) (λ o y', bucket_result y k o y') y.
Proof.
  intros Hs. unfold bucket_result. destruct (sy_buckets y !! k) as [b|] eqn:Hb.
  - destruct (Hs b eq_refl) as [Hk Hn]. apply (bucket_lift _ _ y k _ b Hb Hk).
    rewrite <-Hk. by apply (ReconcileBucket_site _ (bucket_at y b)).
  - unfold ReconcileBucket, Get. apply wp_call; [done|]. intros r y' [Hr ->]. cbn in Hr. rewrite Hb in Hr.
    subst r. by apply wp_ret.
Qed.
Definition user_result (y : system) (k : ObjectKey) (o : outcome) (y' : system) : Prop :=
  match sy_users y !! k with
  | None => o = finish done_ ∧ y' = y
  | Some u => user_frame k (username u) y y' ∧
      ∃ u', sy_users y' !! k = Some u' ∧
        user_outcome (username u) (user_at y u) o (mkUserSite (sy_cluster y') u' (id_of y' (username u)))
  end.
Lemma ReconcileUser_sys y k :
  (∀ u, sy_users y !! k = Some u → user_sound y k u) → wpy (ReconcileUser apiReader k)
    (λ o y', user_result y k o y') y.
Proof.
  intros Hs. unfold user_result. destruct (sy_users y !! k) as [u|] eqn:Hu.
  - destruct (Hs u eq_refl) as (Hk & Hn & Hok). apply (user_lift _ _ y k _ u Hn Hu Hk).
    rewrite <-Hk. by apply (ReconcileUser_site apiReader _ (user_at y u)).
  - unfold ReconcileUser, Get. apply wp_call; [done|]. intros r y' [Hr ->]. cbn in Hr. rewrite Hu in Hr.
    subst r. by apply wp_ret.
Qed.

(** *** What is asked is kept *)
Lemma agreeable_sub m m' :
  (∀ k s, m' !! k = Some s → m !! k = Some s) → agreeable m → agreeable m'.
Proof. intros Hm Ha k1 k2 s1 s2 H1 H2. by apply (Ha k1 k2); apply Hm. Qed.
Lemma own_names_sub m m' : (∀ k s, m' !! k = Some s → m !! k = Some s) → own_names m → own_names m'.
Proof. intros Hm Ha k1 k2 s1 s2 H1 H2. by apply (Ha k1 k2 s1 s2); apply Hm. Qed.
Definition bucket_from (y : system) (k : ObjectKey) (b' : RiakBucket) : Prop :=
  ∃ b, sy_buckets y !! k = Some b ∧ bucket_like b b'.
(** The user is as it was, and its grants are those it had, or those of its spec. *)
Definition user_from (y y' : system) (k : ObjectKey) (u' : RiakUser) : Prop :=
  ∃ u, sy_users y !! k = Some u ∧ user_like u u' ∧
    (id_grants (id_of y' (username u)) = id_grants (id_of y (username u)) ∨
     id_grants (id_of y' (username u)) = spec_grants (us_Grants (us_Spec u))).
Lemma bucket_sound_like y y' k b b' :
  cluster_key (sy_cluster y') = cluster_key (sy_cluster y) → bucket_like b b' → bucket_sound y k b →
    bucket_sound y' k b'.
Proof.
  intros Hc Hl [Hk Hn]. split; [by rewrite (bucket_like_key _ _ Hl)|]. destruct Hl as [Hs [fs Hm]].
  unfold names_cluster in *. by rewrite Hs, Hm, Hc.
Qed.
Lemma user_sound_from y y' k u' :
  cluster_key (sy_cluster y') = cluster_key (sy_cluster y) → user_from y y' k u' →
  (∀ u, sy_users y !! k = Some u → user_sound y k u) → user_sound y' k u'.
Proof.
  intros Hc (u & Hu & Hl & Hg) Hs. destruct (Hs u Hu) as (Hk & Hn & [H1 H2 H3 H4 [H5 H6]]).
  assert (username u' = username u) as Hname by (unfold username; by destruct Hl as [-> _]).
  split; [by rewrite (user_like_key _ _ Hl)|]. rewrite Hname. split; [done|]. destruct Hl as [Hsp [fs Hm]].
  split; unfold names_cluster in *; cbn in *; rewrite ?Hsp, ?Hm, ?Hc, ?Hname; try done.
  destruct Hg as [-> | ->]; [done|]. apply Forall_and in H4 as [H4 _]. split; [by apply spec_grants_ok|].
  intros x Hx. apply H6. set_solver.
Qed.
Lemma resources_ok_from y y' :
  cluster_key (sy_cluster y') = cluster_key (sy_cluster y) →
  (∀ k b', sy_buckets y' !! k = Some b' → bucket_from y k b') →
  (∀ k u', sy_users y' !! k = Some u' → user_from y y' k u') → resources_ok y → resources_ok y'.
Proof.
  intros Hc Hb Hu [H1 H2 H3 H4]. split.
  - intros k b' Hb'. destruct (Hb k b' Hb') as (b & Hb0 & Hl). by apply (bucket_sound_like y y' k b), H1.
  - eapply agreeable_sub; [|exact H2]. intros k s. rewrite !lookup_fmap. intros (b' & Hb' & ->)%fmap_Some.
    destruct (Hb k b' Hb') as (b & -> & [-> _]). done.
  - intros k u' Hu'. apply (user_sound_from y y'); eauto.
  - eapply own_names_sub; [|exact H4]. intros k s. rewrite !lookup_fmap. intros (u' & Hu' & ->)%fmap_Some.
    destruct (Hu k u' Hu') as (u & -> & [-> _] & _). done.
Qed.
Lemma bucket_from_same y k b : sy_buckets y !! k = Some b → bucket_from y k b.
Proof. by exists b. Qed.
Lemma user_from_same y y' k u :
  sy_users y !! k = Some u → sy_ids y' !! username u = sy_ids y !! username u → user_from y y' k u.
Proof. intros Hu Hi. exists u. split; [done|]. split; [done|]. left. unfold id_of. by rewrite Hi. Qed.
Lemma user_name_differs y k k' u u' :
  resources_ok y → sy_users y !! k = Some u → sy_users y !! k' = Some u' → k ≠ k' → username u ≠ username u'.
Proof. intros [_ _ _ Hn] Hu Hu' Hk He. apply Hk. apply (Hn k k' (us_Spec u) (us_Spec u'));
  by rewrite ?lookup_fmap, ?Hu, ?Hu'. Qed.
Lemma healthy_secured w c : healthy node w → secured (wd_cluster w) c → healthy node (wd_with_cluster w c).
Proof.
  intros ([Hs Hn Hr] & Hf & Hnn) (Hm & Hsp & _).
  split; [split|split]; unfold sane, world_names, fits, names_nodes, slots, seed_pod in *; cbn; by rewrite ?Hsp, ?Hm.
Qed.
Lemma world_step_key w w' :
  healthy node w → world_step apiReader DefaultImage range_order node w w' →
  cluster_key (wd_cluster w') = cluster_key (wd_cluster w).
Proof.
  intros (Hi & _ & Hnn) Hst. unfold cluster_key. destruct Hst as [w c (Hn & Hns & _)|w ps _ _|w o w2 Hp]; cbn.
  - by rewrite Hn, Hns.
  - done.
  - destruct (world_pass_post _ _ _ node Hprint _ _ _ Hi Hnn Hp) as [_ [[_ [fs ->]] _ _ _ _ _]]. done.
Qed.
Lemma world_step_sound y w :
  sound y → world_step apiReader DefaultImage range_order node (sy_world y) w → sound (with_world y w).
Proof.
  intros [Hh Hr] Hst. split; [by eapply healthy_step|].
  apply (resources_ok_from y); [by apply world_step_key| | |done]; intros k x Hx;
    [by apply bucket_from_same|by apply user_from_same].
Qed.
(** *** Each pass *)
Lemma cluster_pass_post y o w :
  sound y → world_pass apiReader DefaultImage range_order node (sy_world y) o w →
  o = finish (requeue (10 * second)) ∧ sound (with_world y w) ∧ pass_post (sy_world y) w.
Proof.
  intros Hy Hp. pose proof Hy as [(Hi & _ & Hnn) _].
  destruct (world_pass_post _ _ _ node Hprint _ _ _ Hi Hnn Hp) as [-> Hpost]. split; [done|]. split; [|done].
  eapply world_step_sound; [done|by eapply ws_pass].
Qed.
Lemma bucket_pass_leaves k y :
  (∀ b, sy_buckets y !! k = Some b → bucket_sound y k b) →
  (∃ o y', sys_pass (Buckets k) y o y') ∧ ∀ o y', sys_pass (Buckets k) y o y' → bucket_result y k o y'.
Proof.
  intros Hs. pose proof (ReconcileBucket_sys y k Hs) as Hwp. split.
  - destruct (wp_runs sys_env _ _ y sys_total Hwp) as (tr & o & y' & Hex & _). exists o, y'. by eapply sp_bucket.
  - intros o y' Hp. inversion Hp as [|? ? tr ? ? Hex|]; subst. exact (proj2 (wp_exec _ _ _ _ _ _ _ Hwp Hex)).
Qed.
Lemma user_pass_leaves k y :
  (∀ u, sy_users y !! k = Some u → user_sound y k u) →
  (∃ o y', sys_pass (Users k) y o y') ∧ ∀ o y', sys_pass (Users k) y o y' → user_result y k o y'.
Proof.
  intros Hs. pose proof (ReconcileUser_sys y k Hs) as Hwp. split.
  - destruct (wp_runs sys_env _ _ y sys_total Hwp) as (tr & o & y' & Hex & _). exists o, y'. by eapply sp_user.
  - intros o y' Hp. inversion Hp as [| |? ? tr ? ? Hex]; subst. exact (proj2 (wp_exec _ _ _ _ _ _ _ Hwp Hex)).
Qed.
Lemma bucket_pass_result k y o y' : resources_ok y → sys_pass (Buckets k) y o y' → bucket_result y k o y'.
Proof. intros Hr. by apply bucket_pass_leaves, ro_bucket. Qed.
Lemma user_pass_result k y o y' : resources_ok y → sys_pass (Users k) y o y' → user_result y k o y'.
Proof. intros Hr. by apply user_pass_leaves, ro_user. Qed.
Lemma bucket_result_sound y k o y' :
  sound y → bucket_result y k o y' → o.2 = None ∧ sound y' ∧ same_specs y y'.
Proof.
  intros Hy Hres. unfold bucket_result in Hres. destruct (sy_buckets y !! k) as [b|] eqn:Hb;
    [|by destruct Hres as [-> ->]].
  destruct Hres as ([F1 F2 F3 F4 F5 F6] & b' & Hb' & Hout). destruct Hout as [Ho _ Hl _ _ _ _]. cbn in Hl.
  split; [done|]. split; [split; [rewrite F1; apply Hy|]|].
  - apply (resources_ok_from y); [by unfold sy_cluster; rewrite F1| | |apply Hy].
    + intros k1 b1 Hb1. destruct (decide (k1 = k)) as [->|Hk1].
      * exists b. by assert (b1 = b') as -> by congruence.
      * apply bucket_from_same. by rewrite <-F5.
    + intros k1 u1 Hu1. apply user_from_same; congruence.
  - split; [by unfold sy_cluster; rewrite F1|]. split; [|by rewrite F2]. apply map_eq. intros k1.
    rewrite !lookup_fmap. destruct (decide (k1 = k)) as [->|Hk1]; [|by rewrite F5]. rewrite Hb, Hb'. cbn.
    by destruct Hl as [-> _].
Qed.
Lemma user_result_sound y k o y' :
  sound y → user_result y k o y' → o.2 = None ∧ sound y' ∧ same_specs y y' ∧ secured (sy_cluster y) (sy_cluster y').
Proof.
  intros Hy Hres. unfold user_result in Hres. destruct (sy_users y !! k) as [u|] eqn:Hu;
    [|by destruct Hres as [-> ->]].
  destruct Hres as ([F1 F0 F2 F3 F4 F5] & u' & Hu' & Ho & [Hsec Hl] & Hs). cbn in Hsec, Hl.
  split; [done|]. split; [split; [rewrite F1; by apply healthy_secured; [apply Hy|]|]|split; [|done]].
  - apply (resources_ok_from y); [done| | |apply Hy].
    + intros k1 b1 Hb1. apply bucket_from_same. congruence.
    + intros k1 u1 Hu1. destruct (decide (k1 = k)) as [->|Hk1].
      * exists u. assert (u1 = u') as -> by congruence. split; [done|]. split; [done|].
        destruct Hs as [(_ & _ & _ & _ & Hg)|(_ & _ & Hid & _)]; [right|left; exact (f_equal id_grants Hid)].
        destruct Hl as [Hl _]. rewrite <-Hl. exact Hg.
      * rewrite F4 in Hu1 by done. apply user_from_same; [done|]. apply F5.
        by apply (user_name_differs y k1 k u1 u); [apply Hy|..].
  - destruct Hsec as (_ & Hsp & _). split; [done|]. split; [by rewrite F2|]. apply map_eq. intros k1.
    rewrite !lookup_fmap. destruct (decide (k1 = k)) as [->|Hk1]; [|by rewrite F4]. rewrite Hu, Hu'. cbn.
    by destruct Hl as [-> _].
Qed.
Lemma sys_pass_sound c y o y' : sound y → sys_pass c y o y' → o.2 = None ∧ sound y' ∧ same_specs y y'.
Proof.
  intros Hy Hp. destruct c as [|k|k].
  - inversion Hp as [? ? w Hw| |]; subst.
    destruct (cluster_pass_post y o w Hy Hw) as (-> & Hs & [[Hsp _] _ _ _ _ _ _]). by split_and!.
  - apply (bucket_result_sound y k o y' Hy). apply bucket_pass_result; [apply Hy|done].
  - destruct (user_result_sound y k o y' Hy) as (? & ? & ? & _); [|done]. apply user_pass_result; [apply Hy|done].
Qed.
Lemma sys_pass_exists c y : sound y → ∃ o y', sys_pass c y o y'.
Proof.
  intros [(Hi & _ & Hnn) Hr]. destruct c as [|k|k].
  - destruct (world_pass_exists apiReader DefaultImage range_order node Hprint _ Hi Hnn) as (o & w & Hp).
    eexists _, _. by apply (sp_cluster y o w).
  - by apply bucket_pass_leaves, ro_bucket.
  - by apply user_pass_leaves, ro_user.
Qed.

(** ** Runs *)
#[local] Instance same_specs_trans : Transitive same_specs.
Proof. intros y1 y2 y3 (A1 & A2 & A3) (B1 & B2 & B3). split_and!; congruence. Qed.
Lemma run_sound l y y' : sound y → run l y y' → sound y' ∧ same_specs y y'.
Proof.
  intros Hy Hr. induction Hr as [y|c l y o y1 y2 Hp _ IH]; [done|].
  destruct (sys_pass_sound _ _ _ _ Hy Hp) as (_ & H1 & Hs). destruct (IH H1) as [H2 Hs']. split; [done|]. by etrans.
Qed.
Lemma run_app l1 l2 y y' : run (l1 ++ l2) y y' → ∃ y1, run l1 y y1 ∧ run l2 y1 y'.
Proof.
  revert y. induction l1 as [|c l1 IH]; intros y Hr; [exists y; split; [constructor|done]|].
  inversion Hr as [|? ? ? o y1 ? Hp Hr']; subst. destruct (IH y1 Hr') as (y2 & H1 & H2). exists y2.
  split; [by econstructor|done].
Qed.
(** A stage that no pass leaves, and a controller whose pass takes it to the next. *)
Definition stable (P : system → Prop) : Prop := ∀ c y o y', P y → sys_pass c y o y' → P y'.
Lemma run_stable P l y y' : stable P → run l y y' → P y → P y'.
Proof. intros HP Hr. induction Hr; eauto. Qed.
Lemma run_reaches (P Q : system → Prop) c l y y' :
  stable P → stable Q → (∀ y o y', P y → sys_pass c y o y' → Q y') → c ∈ l → run l y y' → P y → Q y'.
Proof.
  intros HP HQ Hc Hin Hr. induction Hr as [y|c' l y o y1 y2 Hp Hr IH]; intros Hy; [by apply elem_of_nil in Hin|].
  apply elem_of_cons in Hin as [<-|Hin]; [|by eauto]. eapply run_stable; eauto.
Qed.

(** *** The stages *)
Definition up (y : system) : Prop := sound y ∧ pods_ready (sy_world y).
Definition joined (y : system) : Prop := up y ∧ rg_members (wd_ring (sy_world y)) ≡ₚ slots (sy_cluster y).
Definition cluster_served (y : system) : Prop :=
  cst_Phase (cl_Status (sy_cluster y)) = PhaseReady ∧
  rg_members (wd_ring (sy_world y)) ≡ₚ slots (sy_cluster y) ∧ rg_staged (wd_ring (sy_world y)) = [] ∧
  nm_Pod <$> cst_Members (cl_Status (sy_cluster y)) ≡ₚ slots (sy_cluster y).
Definition settled (y : system) : Prop := joined y ∧ cluster_served y.
(** The bucket, or the user, is served if it exists. *)
Definition bucket_well (k : ObjectKey) (y : system) : Prop := ∀ b, sy_buckets y !! k = Some b → bucket_done y b.
Definition user_well (k : ObjectKey) (y : system) : Prop := ∀ u, sy_users y !! k = Some u → user_done y u.

(** The passes of the other controllers leave the cluster's stage alone. *)
Lemma slots_secured c c' : secured c c' → slots c' = slots c.
Proof. intros (Hm & Hsp & _). unfold slots. by rewrite Hm, Hsp. Qed.
Lemma secured_stage y y' :
  sy_world y' = wd_with_cluster (sy_world y) (sy_cluster y') → secured (sy_cluster y) (sy_cluster y') → sound y' →
  (up y → up y') ∧ (joined y → joined y') ∧ (settled y → settled y').
Proof.
  intros Hw Hc Hs. pose proof (slots_secured _ _ Hc) as Hsl.
  assert (wd_ring (sy_world y') = wd_ring (sy_world y)) as Hring by by rewrite Hw.
  assert (up y → up y') as Hup.
  { intros [_ [H1 H2]]. split; [done|]. rewrite Hw. split; cbn; [done|]. unfold sy_cluster in Hc.
    destruct Hc as (_ & Hsp & _).
    rewrite Hw in Hsp. cbn in Hsp. by rewrite Hsp. }
  unfold settled, joined, cluster_served. rewrite Hring, Hsl. destruct Hc as (_ & _ & -> & ->). tauto.
Qed.
Lemma bucket_result_cluster y k o y' : bucket_result y k o y' → sy_world y' = sy_world y.
Proof.
  unfold bucket_result. destruct (sy_buckets y !! k); [|by intros [_ ->]]. by intros [[-> _ _ _ _ _] _].
Qed.
Lemma user_result_world y k o y' :
  user_result y k o y' → sy_world y' = wd_with_cluster (sy_world y) (sy_cluster y').
Proof.
  unfold user_result. destruct (sy_users y !! k); [|intros [_ ->]; by destruct y as [[]]].
  by intros [[? _ _ _ _ _] _].
Qed.
Lemma other_pass_stage c y o y' :
  sound y → c ≠ Clusters → sys_pass c y o y' → (up y → up y') ∧ (joined y → joined y') ∧ (settled y → settled y').
Proof.
  intros Hs Hc Hp. destruct c as [|k|k]; [done|..].
  - pose proof (bucket_pass_result k y o y' (proj2 Hs) Hp) as Hr.
    destruct (bucket_result_sound y k o y' Hs Hr) as (_ & Hs' & _).
    pose proof (bucket_result_cluster _ _ _ _ Hr) as Hw.
    apply secured_stage; [|unfold sy_cluster; by rewrite Hw|done].
    rewrite Hw. unfold sy_cluster. rewrite Hw. by destruct (sy_world y).
  - pose proof (user_pass_result k y o y' (proj2 Hs) Hp) as Hr.
    destruct (user_result_sound y k o y' Hs Hr) as (_ & Hs' & _ & Hsec).
    apply secured_stage; [by eapply user_result_world|done|done].
Qed.
(** Of the cluster's: it joins what is missing, then reports the cluster Ready. *)
Lemma cluster_pass_stage y o y' : sys_pass Clusters y o y' → (up y → joined y') ∧ (joined y → settled y').
Proof.
  intros Hp. inversion Hp as [y0 o0 w Hw| |]; subst. unfold joined at 1, settled, cluster_served, sy_cluster. cbn.
  assert (up y → joined (with_world y w)) as Hjoin.
  { intros [Hs Hr]. destruct (cluster_pass_post y o w Hs Hw) as (_ & Hs' & Hpost).
    split; [split; [done|by eapply ready_alike]|]. unfold sy_cluster. cbn.
    rewrite (pp_members _ _ Hpost), (proj1 (alike_names _ _ (pp_cluster _ _ Hpost))).
    by apply (complete_after node _ (proj1 Hs)). }
  split; [done|]. intros Hj. pose proof Hj as [[Hs Hr] Hm]. split; [by apply Hjoin|].
  destruct (cluster_pass_post y o w Hs Hw) as (_ & _ & [Hc Hph _ Hm' Hst Hl _]).
  pose proof Hs as [(Hi & _) _]. destruct (complete_phase (sy_world y) Hi Hr Hm) as [Hj' Hphase].
  rewrite Hph, Hm', Hl, Hj', app_nil_r, (proj1 (alike_names _ _ Hc)). split_and!; [done..|]. by apply ready_names.
Qed.
Lemma settled_hosts y : settled y → hosts (sy_cluster y).
Proof.
  intros [[[[(Hi & _) _] _] _] (Hph & _ & _ & Hl)]. split; [done|].
  destruct (wi_sane _ Hi) as (_ & Hsize & _). apply Permutation_length in Hl.
  pose proof (slots_length (sy_cluster y)) as Hlen. unfold first_pod, sy_cluster in *.
  rewrite length_fmap in Hl. destruct (cst_Members _) as [|m ms]; [cbn in Hl; lia|by eexists].
Qed.
Lemma stage_stable : stable up ∧ stable joined ∧ stable settled.
Proof.
  assert (∀ c y o y', sound y → sys_pass c y o y' → (up y → up y') ∧ (joined y → joined y') ∧
    (settled y → settled y')) as H.
  { intros c y o y' Hs Hp. destruct (decide (c = Clusters)) as [->|Hc]; [|by eapply other_pass_stage].
    destruct (cluster_pass_stage y o y' Hp) as [H1 H2]. unfold settled, joined in *. tauto. }
  split_and!; intros c y o y' Hy Hp; (assert (sound y) as Hs by apply Hy);
    destruct (H c y o y' Hs Hp) as (H1 & H2 & H3); auto.
Qed.

(** *** The resources *)
(** Of a bucket: done if the cluster can serve it, or to be run again. *)
Lemma bucket_pass_own k y o y' :
  sound y → sys_pass (Buckets k) y o y' → (hosts (sy_cluster y) → bucket_well k y') ∧
    (again o = true ∨ bucket_well k y').
Proof.
  intros Hs Hp. pose proof (bucket_pass_result k y o y' (proj2 Hs) Hp) as Hr. unfold bucket_result in Hr.
  destruct (sy_buckets y !! k) as [b|] eqn:Hb.
  2: { destruct Hr as [-> ->]. assert (bucket_well k y) by (intros b Hb'; congruence). auto. }
  destruct Hr as (Hf & b' & Hb' & [_ _ [Hsp _] _ _ Hdone Hag]). cbn in Hsp, Hdone, Hag.
  assert (hosts (sy_cluster y) → bucket_well k y') as H.
  { intros Hh b1 Hb1. assert (b1 = b') as -> by congruence. destruct (Hdone Hh) as [_ Hd].
    unfold bucket_done, bucket_at. by rewrite Hsp. }
  split; [done|]. destruct (decide (hosts (sy_cluster y))) as [Hh|Hh]; [right; by apply H|left;
    by apply comes_back_again, Hag].
Qed.
(** No other pass undoes it. *)
Lemma bucket_pass_other k c y o y' :
  sound y → c ≠ Buckets k → sys_pass c y o y' → bucket_well k y → bucket_well k y'.
Proof.
  intros Hs Hc Hp Hw b1 Hb1. destruct c as [|k2|k2].
  - inversion Hp; subst. exact (Hw b1 Hb1).
  - pose proof (bucket_pass_result k2 y o y' (proj2 Hs) Hp) as Hr. unfold bucket_result in Hr.
    destruct (sy_buckets y !! k2) as [b|] eqn:Hb; [|destruct Hr as [_ ->]; by apply Hw].
    destruct Hr as ([_ _ _ _ F5 F6] & b' & Hb' & [_ _ _ Hkept Htype _ _]). cbn in Hkept, Htype.
    rewrite F5 in Hb1 by congruence. destruct (Hw b1 Hb1) as [Hsaid Hhas]. split; [done|]. cbn in Hhas |- *.
    destruct (decide (bucket_type (bk_Spec b1) = bucket_type (bk_Spec b))) as [He|Hne]; [|by rewrite F6].
    rewrite He in *. apply (type_has_kept _ (wanted_props b) (sy_types y !! bucket_type (bk_Spec b))); try done.
    apply (ro_agree _ (proj2 Hs) k k2 (bk_Spec b1) (bk_Spec b)); by rewrite ?lookup_fmap, ?Hb1, ?Hb.
  - pose proof (user_pass_result k2 y o y' (proj2 Hs) Hp) as Hr. unfold user_result in Hr.
    destruct (sy_users y !! k2) as [u|]; [|destruct Hr as [_ ->]; by apply Hw].
    destruct Hr as ([_ _ F2 F3 _ _] & _). rewrite F2 in Hb1. unfold bucket_done, bucket_at in *. cbn.
    destruct (Hw b1 Hb1) as [Hsaid Hhas]. split; [done|]. cbn in *. by rewrite F3.
Qed.
Lemma user_pass_own k y o y' :
  sound y → sys_pass (Users k) y o y' → (hosts (sy_cluster y) → user_well k y') ∧ (again o = true ∨ user_well k y').
Proof.
  intros Hs Hp. pose proof (user_pass_result k y o y' (proj2 Hs) Hp) as Hr. unfold user_result in Hr.
  destruct (sy_users y !! k) as [u|] eqn:Hu.
  2: { destruct Hr as [-> ->]. assert (user_well k y) by (intros u Hu'; congruence). auto. }
  destruct Hr as (_ & u' & Hu' & _ & [_ [Hsp _]] & Hdone). cbn in Hsp.
  assert (user_served (username u) (mkUserSite (sy_cluster y') u' (id_of y' (username u))) → user_well k y') as H.
  { intros Hd u1 Hu1. assert (u1 = u') as -> by congruence. unfold user_done, user_at, username. by rewrite Hsp. }
  destruct Hdone as [Hd|(Hh & _ & _ & Hb)]; [by split; [|right]; intros; apply H|].
  split; [done|left; by apply comes_back_again].
Qed.
Lemma user_served_ids y y' u :
  sy_ids y' !! username u = sy_ids y !! username u →
  (is_secured (sy_cluster y) = true → is_secured (sy_cluster y') = true) → user_done y u → user_done y' u.
Proof.
  intros Hi Hsec (H1 & H2 & H3). split; [done|]. split; [by apply Hsec|]. unfold identity_is in *. cbn in *.
  by rewrite Hi.
Qed.
Lemma user_pass_other k c y o y' :
  sound y → c ≠ Users k → sys_pass c y o y' → user_well k y → user_well k y'.
Proof.
  intros Hs Hc Hp Hw u1 Hu1. destruct c as [|k2|k2].
  - inversion Hp as [? ? w Hwp| |]; subst. apply (user_served_ids y); [done| |by apply Hw].
    destruct (cluster_pass_post y o w Hs Hwp) as (_ & _ & Hpost). pose proof (pp_secured _ _ Hpost) as Hsec.
    unfold sy_cluster in *. cbn. by rewrite Hsec.
  - pose proof (bucket_pass_result k2 y o y' (proj2 Hs) Hp) as Hr.
    pose proof (bucket_result_cluster _ _ _ _ Hr) as Hwd.
    unfold bucket_result in Hr. destruct (sy_buckets y !! k2) as [b|]; [|destruct Hr as [_ ->]; by apply Hw].
    destruct Hr as ([_ F2 F3 _ _ _] & _). apply (user_served_ids y); [by rewrite F3|unfold sy_cluster;
      by rewrite Hwd|].
    apply Hw. by rewrite <-F2.
  - pose proof (user_pass_result k2 y o y' (proj2 Hs) Hp) as Hr. unfold user_result in Hr.
    destruct (sy_users y !! k2) as [u|] eqn:Hu; [|destruct Hr as [_ ->]; by apply Hw].
    destruct Hr as ([_ _ _ _ F4 F5] & u' & Hu' & _ & _ & Hdone). rewrite F4 in Hu1 by congruence.
    apply (user_served_ids y); [| |by apply Hw].
    2: { destruct Hdone as [(_ & ? & _)|(_ & Hsame & _)]; [done|]. cbn in Hsame. by rewrite Hsame. }
    apply F5. apply (user_name_differs y k k2); [apply Hs|done|done|congruence].
Qed.
Lemma resource_stable k :
  stable (λ y, settled y ∧ bucket_well k y) ∧ stable (λ y, settled y ∧ user_well k y).
Proof.
  destruct stage_stable as (_ & _ & Hst). split; intros c y o y' [Hy Hw] Hp; (split; [by eapply Hst|]);
    assert (sound y) as Hs by apply Hy.
  - destruct (decide (c = Buckets k)) as [->|Hc]; [|by eapply bucket_pass_other].
    by apply (bucket_pass_own k y o y' Hs Hp), settled_hosts.
  - destruct (decide (c = Users k)) as [->|Hc]; [|by eapply user_pass_other].
    by apply (user_pass_own k y o y' Hs Hp), settled_hosts.
Qed.
Lemma resource_reached k :
  (∀ y o y', settled y → sys_pass (Buckets k) y o y' → settled y' ∧ bucket_well k y') ∧
  (∀ y o y', settled y → sys_pass (Users k) y o y' → settled y' ∧ user_well k y').
Proof.
  destruct stage_stable as (_ & _ & Hst). split; intros y o y' Hy Hp; (split; [by eapply Hst|]);
    assert (sound y) as Hs by apply Hy; pose proof (settled_hosts y Hy) as Hh.
  - by apply (bucket_pass_own k y o y' Hs Hp).
  - by apply (user_pass_own k y o y' Hs Hp).
Qed.
Lemma schedule_settles l1 l2 y y' :
  Clusters ∈ l1 → Clusters ∈ l2 → run (l1 ++ l2) y y' → up y → settled y'.
Proof.
  intros H1 H2 (y1 & Hr1 & Hr2)%run_app Hup. destruct stage_stable as (Hs1 & Hs2 & Hs3).
  apply (run_reaches joined settled Clusters l2 y1 y'); try done; [intros ? ? ? Hj Hp;
    by apply (proj2 (cluster_pass_stage _ _ _ Hp))|].
  apply (run_reaches up joined Clusters l1 y y1); try done.
  intros ? ? ? Hj Hp; by apply (proj1 (cluster_pass_stage _ _ _ Hp)).
Qed.

(** *** The queues *)
Lemma q_run_run l q q' : q_run l q q' → run l (qu_system q) (qu_system q').
Proof. induction 1 as [q|c l q q1 q2 [y due o y' _ Hp] _ IH|c l y due q2 _ IH];
  [constructor|by econstructor|done]. Qed.
Lemma mark_in due c b : c ∈ mark due c b ↔ b = true.
Proof. unfold mark. destruct b; set_solver. Qed.
Lemma mark_other due c c' b : c ≠ c' → c' ∈ mark due c b ↔ c' ∈ due.
Proof. unfold mark. destruct b; set_solver. Qed.
Lemma mark_more due c c' : c' ∈ due → c' ∈ mark due c true.
Proof. unfold mark. set_solver. Qed.
(** What is not served is in a queue; the cluster always is. *)
Record q_inv (q : queued) : Prop := {
  qi_sound : sound (qu_system q);
  qi_cluster : Clusters ∈ qu_due q;
  qi_bucket k : Buckets k ∈ qu_due q ∨ bucket_well k (qu_system q);
  qi_user k : Users k ∈ qu_due q ∨ user_well k (qu_system q)
}.
(** The queues of an operator that has just started hold everything there is. *)
Definition everyone (y : system) : gset controller :=
  {[Clusters]} ∪ set_map Buckets (dom (sy_buckets y)) ∪ set_map Users (dom (sy_users y)).
Lemma q_inv_everyone y : sound y → q_inv (mkQueued y (everyone y)).
Proof.
  intros Hy. unfold everyone. split; cbn; [done|set_solver|..]; intros k; unfold bucket_well, user_well.
  - destruct (sy_buckets y !! k) as [b|] eqn:Hb; [left|by right]. apply elem_of_dom_2 in Hb. set_solver.
  - destruct (sy_users y !! k) as [u|] eqn:Hu; [left|by right]. apply elem_of_dom_2 in Hu. set_solver.
Qed.
Lemma q_inv_wake y due c : q_inv (mkQueued y due) → q_inv (mkQueued y (mark due c true)).
Proof.
  intros [Hs Hc Hb Hu]. split; cbn in *; [done|by apply mark_more|..]; intros k.
  - destruct (Hb k); [left; by apply mark_more|by right].
  - destruct (Hu k); [left; by apply mark_more|by right].
Qed.
Lemma q_inv_pass c q q' : q_inv q → q_pass c q q' → q_inv q'.
Proof.
  intros Hi Hq. revert Hi. destruct Hq as [y due o y' _ Hp]. intros [Hs Hc Hb Hu]. cbn in *.
  split; cbn; [by apply (sys_pass_sound _ _ _ _ Hs Hp)| |intros k..].
  - destruct (decide (c = Clusters)) as [->|Hne]; [|by apply mark_other].
    inversion Hp as [? ? w Hw| |]; subst. by destruct (cluster_pass_post y o w Hs Hw) as (-> & _); apply mark_in.
  - destruct (decide (c = Buckets k)) as [->|Hne].
    + rewrite mark_in. apply (bucket_pass_own k y o y' Hs Hp).
    + rewrite mark_other by done. destruct (Hb k) as [?|Hw]; [by left|right]. by eapply bucket_pass_other.
  - destruct (decide (c = Users k)) as [->|Hne].
    + rewrite mark_in. apply (user_pass_own k y o y' Hs Hp).
    + rewrite mark_other by done. destruct (Hu k) as [?|Hw]; [by left|right]. by eapply user_pass_other.
Qed.
Lemma q_run_inv l q q' : q_inv q → q_run l q q' → q_inv q'.
Proof.
  intros Hi Hr. revert Hi. induction Hr as [q|c l q q1 q2 Hp _ IH|c l y due q2 _ IH]; intros Hi; [done|..]; apply IH.
  - by eapply q_inv_pass.
  - by apply q_inv_wake.
Qed.
(** *** What others do *)
Lemma bucket_well_at k y y' :
  sy_buckets y' !! k = sy_buckets y !! k → sy_types y' = sy_types y → bucket_well k y → bucket_well k y'.
Proof.
  intros Hb Ht Hw b Hb'. rewrite Hb in Hb'. destruct (Hw b Hb') as [H1 H2]. split; [done|]. cbn in *. by rewrite Ht.
Qed.
Lemma user_well_at k y y' :
  sy_users y' !! k = sy_users y !! k →
  (∀ u, sy_users y !! k = Some u → sy_ids y' !! username u = sy_ids y !! username u) →
  is_secured (sy_cluster y') = is_secured (sy_cluster y) → user_well k y → user_well k y'.
Proof.
  intros Hu Hi Hs Hw u Hu'. rewrite Hu in Hu'. apply (user_served_ids y); [by apply Hi|by rewrite Hs|by apply Hw].
Qed.
Lemma bucket_edit_well y k b0 b :
  sy_buckets y !! k = Some b0 → bk_Status b = bk_Status b0 → bk_Spec b = bk_Spec b0 →
  bucket_well k y → bucket_well k (with_bucket y k b).
Proof.
  intros Hb Hst Hsp Hw b1. cbn. rewrite lookup_insert_eq. intros [= <-]. destruct (Hw b0 Hb) as [H1 H2].
  unfold bucket_done, bucket_at, bucket_served, bucket_said, wanted_props in *. cbn in *. by rewrite Hst, Hsp.
Qed.
Lemma user_edit_well y k u0 u :
  sy_users y !! k = Some u0 → us_Status u = us_Status u0 → us_Spec u = us_Spec u0 →
  user_well k y → user_well k (with_user y k u).
Proof.
  intros Hu Hst Hsp Hw u1. cbn. rewrite lookup_insert_eq. intros [= <-]. destruct (Hw u0 Hu) as (H1 & H2 & H3).
  unfold user_done, user_at, user_served, user_said, username in *. cbn in *. by rewrite Hst, Hsp.
Qed.
Lemma bucket_step_inv y due due' k b :
  q_inv (mkQueued y due) → resources_ok (with_bucket y k b) → (∀ c, c ≠ Buckets k → c ∈ due → c ∈ due') →
  Buckets k ∈ due' ∨ bucket_well k (with_bucket y k b) → q_inv (mkQueued (with_bucket y k b) due').
Proof.
  intros [Hs Hc Hb Hu] Hr Hdue Hk. split; cbn in *; [by split; [apply Hs|]|by apply Hdue|intros k1..].
  - destruct (decide (k1 = k)) as [->|Hne]; [done|]. destruct (Hb k1) as [?|Hw]; [left; apply Hdue; congruence|right].
    by apply (bucket_well_at k1 y); [apply lookup_insert_ne|..].
  - destruct (Hu k1) as [?|Hw]; [left; by apply Hdue|by right].
Qed.
Lemma user_step_inv y due due' k u :
  q_inv (mkQueued y due) → resources_ok (with_user y k u) → (∀ c, c ≠ Users k → c ∈ due → c ∈ due') →
  Users k ∈ due' ∨ user_well k (with_user y k u) → q_inv (mkQueued (with_user y k u) due').
Proof.
  intros [Hs Hc Hb Hu] Hr Hdue Hk. split; cbn in *; [by split; [apply Hs|]|by apply Hdue|intros k1..].
  - destruct (Hb k1) as [?|Hw]; [left; by apply Hdue|by right].
  - destruct (decide (k1 = k)) as [->|Hne]; [done|]. destruct (Hu k1) as [?|Hw]; [left; apply Hdue; congruence|right].
    by apply (user_well_at k1 y); [apply lookup_insert_ne|..].
Qed.
Lemma bucket_gone_inv y due k :
  q_inv (mkQueued y due) → q_inv (mkQueued (with_buckets y (delete k (sy_buckets y))) due).
Proof.
  intros [Hs Hc Hb Hu]. cbn in *. split; cbn; [split; [apply Hs|]|done|intros k1..|done].
  - apply (resources_ok_from y); [done| | |apply Hs]; cbn; intros k1 x Hx; [|by apply user_from_same].
    apply bucket_from_same. by apply lookup_delete_Some in Hx as [_ ?].
  - destruct (Hb k1) as [?|Hw]; [by left|right]. intros b Hb'. cbn in Hb'. apply lookup_delete_Some in Hb' as [_ Hb'].
    by apply Hw.
Qed.
Lemma user_gone_inv y due k u oi :
  sy_users y !! k = Some u → q_inv (mkQueued y due) →
  q_inv (mkQueued (with_ids (with_users y (delete k (sy_users y))) (partial_alter (λ _, oi) (username u)
    (sy_ids y)) (sy_secure y)) due).
Proof.
  intros Hu0 [Hs Hc Hb Hu]. cbn in *.
  assert (∀ k1 u1, delete k (sy_users y) !! k1 = Some u1 →
    sy_users y !! k1 = Some u1 ∧ partial_alter (λ _, oi) (username u)
      (sy_ids y) !! username u1 = sy_ids y !! username u1) as H.
  { intros k1 u1 [Hk Hu1]%lookup_delete_Some. split; [done|]. apply lookup_partial_alter_ne.
    by apply (user_name_differs y k k1); [apply Hs|..]. }
  split; cbn; [split; [apply Hs|]|done|done|intros k1].
  - apply (resources_ok_from y); [done| | |apply Hs]; cbn; intros k1 x Hx; [by apply bucket_from_same|].
    destruct (H _ _ Hx). by apply user_from_same.
  - destruct (Hu k1) as [?|Hw]; [by left|right]. intros u1 Hu1. destruct (H _ _ Hu1) as [Hu1' Hi].
    apply (user_served_ids y); [done|done|by apply Hw].
Qed.
Lemma q_step_inv q q' : q_inv q → q_step q q' → q_inv q'.
Proof.
  intros Hi Hst. destruct Hst as [l q q' Hr|y due w Hw Hsec|y k b due Hn Hr|y k b0 b due due' Hb Hr Hst Hwake|y k due
    |y k u due Hn Hr|y k u0 u due due' Hu Hr Hst Hwake|y k u oi due Hu].
  - by eapply q_run_inv.
  - destruct Hi as [Hs Hc Hb Hu]. split; cbn in *; [by apply world_step_sound|done|done|intros k].
    destruct (Hu k) as [?|Hwell]; [by left|right]. by apply (user_well_at k y).
  - apply (bucket_step_inv y due); try done; [intros; by apply mark_more|left; by apply mark_in].
  - destruct Hwake as [->|[-> Hsp]].
    + apply (bucket_step_inv y due); try done; [intros; by apply mark_more|left; by apply mark_in].
    + apply (bucket_step_inv y due); try done. destruct (qi_bucket _ Hi k); [by left|right].
      by eapply bucket_edit_well.
  - by apply bucket_gone_inv.
  - apply (user_step_inv y due); try done; [intros; by apply mark_more|left; by apply mark_in].
  - destruct Hwake as [->|[-> Hsp]].
    + apply (user_step_inv y due); try done; [intros; by apply mark_more|left; by apply mark_in].
    + apply (user_step_inv y due); try done. destruct (qi_user _ Hi k); [by left|right]. by eapply user_edit_well.
  - by apply user_gone_inv.
Qed.
Lemma mark_from due c b c' : c' ∈ mark due c b → c' = c ∨ c' ∈ due.
Proof. unfold mark. destruct b; set_solver. Qed.
(** Passes can be made in any order, and wake nobody else. *)
Lemma q_run_exists l q :
  sound (qu_system q) → ∃ q', q_run l q q' ∧ ∀ c, c ∈ qu_due q' → c ∈ qu_due q ∨ c ∈ l.
Proof.
  revert q. induction l as [|c l IH]; intros [y due] Hs; [eexists; split; [constructor|by left]|].
  destruct (sys_pass_exists c y Hs) as (o & y' & Hp).
  destruct (sys_pass_sound c y o y' Hs Hp) as (_ & Hs1 & _).
  pose proof (qp c y (mark due c true) o y' (proj2 (mark_in due c true) eq_refl) Hp) as Hq.
  destruct (IH (mkQueued y' (mark (mark due c true) c (again o))) Hs1) as (q2 & Hr & Hdue).
  exists q2. split; [apply (qr_wake c); by eapply qr_pass|]. intros c' [Hc'|Hc']%Hdue; [|right; by right].
  apply mark_from in Hc' as [->|Hc']; [right; by left|].
  apply mark_from in Hc' as [->|Hc']; [right; by left|by left].
Qed.
(** After two passes of the cluster, every queue served once. *)
Lemma queues_serve l1 l2 l3 q q1 q2 :
  Clusters ∈ l1 → Clusters ∈ l2 → q_run (l1 ++ l2) q q1 → q_run l3 q1 q2 →
  (∀ c, c ∈ qu_due q1 → c ∈ l3) → q_inv q → pods_ready (sy_world (qu_system q)) →
  settled (qu_system q2) ∧ ∀ k, bucket_well k (qu_system q2) ∧ user_well k (qu_system q2).
Proof.
  intros H1 H2 Hr1 Hr2 Hall Hi Hr. pose proof (q_run_inv _ _ _ Hi Hr1) as [_ _ Hb Hu].
  apply q_run_run in Hr1, Hr2.
  assert (settled (qu_system q1)) as Hs
    by (apply (schedule_settles l1 l2 (qu_system q)); try done; split; [apply Hi|done]).
  destruct stage_stable as (_ & _ & Hst). split; [by eapply run_stable|]. intros k.
  destruct (resource_stable k) as [Hsb Hsu], (resource_reached k) as [Hrb Hru]. split.
  - destruct (Hb k) as [Hd|Hw]; [|by apply (run_stable _ l3 _ _ Hsb Hr2); split].
    by apply (run_reaches settled _ (Buckets k) l3 (qu_system q1) _ Hst Hsb Hrb (Hall _ Hd) Hr2).
  - destruct (Hu k) as [Hd|Hw]; [|by apply (run_stable _ l3 _ _ Hsu Hr2); split].
    by apply (run_reaches settled _ (Users k) l3 (qu_system q1) _ Hst Hsu Hru (Hall _ Hd) Hr2).
Qed.

(** *** Two buckets of one type *)
(** A pass over a bucket of a cluster that can serve it: it is done, and Riak's type has what
    this bucket wants, whatever another one wanted. *)
Lemma bucket_pass_serves k y o y' b :
  hosts (sy_cluster y) → sy_buckets y !! k = Some b → bucket_sound y k b → sys_pass (Buckets k) y o y' →
  let typ := bucket_type (bk_Spec b) in
  o = finish done_ ∧ bucket_frame k typ y y' ∧
  ∃ b', sy_buckets y' !! k = Some b' ∧ bucket_like b b' ∧ bucket_said typ b' ∧
    type_has (wanted_props b) (sy_types y' !! typ).
Proof.
  intros Hh Hb Hs Hp typ. destruct (bucket_pass_leaves k y) as [_ Hres]; [intros; by simplify_eq|].
  specialize (Hres _ _ Hp). unfold bucket_result in Hres. rewrite Hb in Hres.
  destruct Hres as (Hf & b' & Hb' & [_ _ Hl _ _ Hd _]). cbn in Hl, Hd. destruct (Hd Hh) as [-> [Hsaid Hhas]].
  split; [done|]. split; [done|]. exists b'. split; [done|]. split; [done|]. split; [done|]. cbn in Hhas.
  unfold wanted_props in *. by rewrite <-(proj1 Hl).
Qed.
Lemma said_prop typ b p v :
  bucket_said typ b → wanted_props b !! p = Some v → bst_Properties (bk_Status b) !! p = Some v.
Proof. intros (_ & _ & _ & He) Hv. unfold wanted_props in Hv. by rewrite <-He in Hv. Qed.
End system.

(** *** A system to run *)
(** Two buckets that share a bucket type, and two users. *)
#[local] Existing Instance demo_node_inj.
#[local] Existing Instance demo_x509.
Definition demo_second : RiakBucket :=
  mkRiakBucket (new_meta "b2" "db") (mkRiakBucketSpec "c" "invoices" "t" 0 false 3 {["backend" := "bitcask"]})
    no_RiakBucketStatus.
Definition demo_reader : RiakUser :=
  mkRiakUser (new_meta "bob" "db")
    (mkRiakUserSpec "c" "bob" [] (us_CertificateRef (us_Spec sample_user))) no_RiakUserStatus.
Definition demo_system : @system demo_json :=
  mkSystem demo_world {[mkKey "db" "b" := sample_bucket; mkKey "db" "b2" := demo_second]} ∅
    {[mkKey "db" "alice" := granted_user; mkKey "db" "bob" := demo_reader]}
    {["alice" := mkIdentity false false false stale_state]} false.
Lemma lookup_two {A} (k1 k2 k : ObjectKey) (x1 x2 x : A) :
  ({[k1 := x1; k2 := x2]} : gmap ObjectKey A) !! k = Some x → k = k1 ∧ x = x1 ∨ k = k2 ∧ x = x2.
Proof.
  intros [[<- <-]|[_ [<- <-]%lookup_singleton_Some]]%lookup_insert_Some; [by left|by right].
Qed.
Lemma demo_sound : @sound demo_json demo_node demo_system.
Proof.
  split; [apply demo_healthy|]. split.
  - by intros k b [[-> ->]|[-> ->]]%lookup_two.
  - intros k1 k2 s1 s2. unfold demo_system. cbn [sy_buckets]. rewrite !lookup_fmap.
    intros (b1 & [[-> ->]|[-> ->]]%lookup_two & ->)%fmap_Some (b2 & [[-> ->]|[-> ->]]%lookup_two & ->)%fmap_Some _;
      apply (bool_decide_unpack _); by vm_compute.
  - intros k u [[-> ->]|[-> ->]]%lookup_two; (split; [done|]; split; [done|]);
      (split; [done|done|by eexists|apply (bool_decide_unpack _); by vm_compute|split;
        apply (bool_decide_unpack _); by vm_compute]).
  - intros k1 k2 s1 s2. unfold demo_system. cbn [sy_users]. rewrite !lookup_fmap.
    by intros (u1 & [[-> ->]|[-> ->]]%lookup_two & ->)%fmap_Some (u2 & [[-> ->]|[-> ->]]%lookup_two & ->)%fmap_Some.
Qed.

(** ** Properties *)


(** C25: two RiakBuckets of one bucket type that disagree on a property undo each other, and
    nothing notices. A type is the cluster's, [spec.bucketType] is [default] when it is not
    given, and nothing keeps two buckets from naming the same: after a pass over each, both are
    reported Ready, each with the properties of its own spec as those applied, and neither will
    be looked at again until its spec changes; but Riak has the value of the one that came
    last. *)
Theorem shared_type_overwritten (L : KubeLib) (HL : KubeLibLaws L) (J : GoJson) (HJ : GoJsonLaws J) (X : GoX509)
    (apiReader : bool) (DefaultImage : string) (range_order : gmap string string → list string)
    (node : string → string) (y : system) (k1 k2 : ObjectKey) (b1 b2 : RiakBucket) (p v1 v2 : string) :
  hosts (sy_cluster y) →
  sy_buckets y !! k1 = Some b1 → sy_buckets y !! k2 = Some b2 → bucket_sound y k1 b1 → bucket_sound y k2 b2 →
  bucket_type (bk_Spec b1) = bucket_type (bk_Spec b2) →
  wanted_props b1 !! p = Some v1 → wanted_props b2 !! p = Some v2 → native_value v1 ≠ native_value v2 →
  let pass k := sys_pass apiReader DefaultImage range_order node (Buckets k) in
  let typ := bucket_type (bk_Spec b2) in
  (∃ o1 y1 o2 y2, pass k1 y o1 y1 ∧ pass k2 y1 o2 y2) ∧
  ∀ o1 y1 o2 y2, pass k1 y o1 y1 → pass k2 y1 o2 y2 →
    again o1 = false ∧ again o2 = false ∧
    ∃ b1' b2' props, sy_buckets y2 !! k1 = Some b1' ∧ sy_buckets y2 !! k2 = Some b2' ∧
      bucket_said typ b1' ∧ bst_Properties (bk_Status b1') !! p = Some v1 ∧
      bucket_said typ b2' ∧ bst_Properties (bk_Status b2') !! p = Some v2 ∧
      sy_types y2 !! typ = Some (true, props) ∧ props !! p = Some (native_value v2).
Proof.
  intros Hh Hb1 Hb2 Hs1 Hs2 Htyp Hv1 Hv2 Hne pass typ.
  assert (k1 ≠ k2) as Hk by (intros ->; simplify_eq).
  assert (∀ o1 y1, pass k1 y o1 y1 → o1 = finish done_ ∧ sy_world y1 = sy_world y ∧ sy_buckets y1 !! k2 = Some b2 ∧
    ∃ b1', sy_buckets y1 !! k1 = Some b1' ∧ bucket_like b1 b1' ∧ bucket_said typ b1') as H1.
  { intros o1 y1 Hp. destruct (bucket_pass_serves _ _ _ node k1 y o1 y1 b1 Hh Hb1 Hs1 Hp)
      as (-> & [F1 _ _ _ F5 _] & b1' & Hb1' & Hl & Hsaid & _).
    split; [done|]. split; [done|]. split; [by rewrite F5|]. exists b1'. unfold typ. by rewrite <-Htyp. }
  assert (∀ y1, sy_world y1 = sy_world y → bucket_sound y1 k2 b2) as Hs2' by by intros y1 Hw;
    unfold bucket_sound, sy_cluster; rewrite Hw.
  split.
  - destruct (bucket_pass_leaves apiReader DefaultImage range_order node k1 y) as [(o1 & y1 & Hp1) _]; [intros;
    by simplify_eq|].
    destruct (H1 _ _ Hp1) as (_ & Hw & Hb2' & _).
    destruct (bucket_pass_leaves apiReader DefaultImage range_order node k2 y1) as [(o2 & y2 & Hp2) _].
    { intros b Hb. assert (b = b2) as -> by congruence. by apply Hs2'. }
    by exists o1, y1, o2, y2.
  - intros o1 y1 o2 y2 Hp1 Hp2. destruct (H1 _ _ Hp1) as (-> & Hw & Hb2' & b1' & Hb1' & Hl1 & Hsaid1).
    assert (hosts (sy_cluster y1)) as Hh1 by by unfold sy_cluster; rewrite Hw.
    destruct (bucket_pass_serves _ _ _ node k2 y1 o2 y2 b2 Hh1 Hb2' (Hs2' _ Hw) Hp2)
      as (-> & [_ _ _ _ F5 _] & b2' & Hb2'' & Hl2 & Hsaid2 & props & Hprops & Hsub).
    split; [done|]. split; [done|]. exists b1', b2', props. rewrite F5 by done. split_and!; try done.
    + apply (said_prop typ); [done|]. unfold wanted_props in *. by rewrite (proj1 Hl1).
    + apply (said_prop typ); [done|]. unfold wanted_props in *. by rewrite (proj1 Hl2).
    + rewrite map_subseteq_spec in Hsub. apply Hsub. by rewrite lookup_fmap, Hv2.
Qed.
(** Two buckets that name no type, one asking for three replicas and one for two. *)
Definition demo_default (name : string) (n : Z) : RiakBucket :=
  mkRiakBucket (new_meta name "db") (mkRiakBucketSpec "c" name "" 0 false n ∅) no_RiakBucketStatus.
Definition demo_contested : @system demo_json :=
  mkSystem (mkWorld ready_cluster [] (mkRing ["c-0"] [] false))
    {[mkKey "db" "orders" := demo_default "orders" 3; mkKey "db" "cache" := demo_default "cache" 2]} ∅ ∅ ∅ false.
Lemma shared_type_overwritten_witness :
  let pass := @sys_pass refLib demo_json demo_x509 false "" go_range demo_node in
  ∃ o1 y1 o2 y2 b props,
    pass (Buckets (mkKey "db" "orders")) demo_contested o1 y1 ∧ pass (Buckets (mkKey "db" "cache")) y1 o2 y2 ∧
    sy_buckets y2 !! mkKey "db" "orders" = Some b ∧ bst_Phase (bk_Status b) = BucketPhaseReady ∧
    bst_Properties (bk_Status b) !! "n_val" = Some "3" ∧
    sy_types y2 !! "default" = Some (true, props) ∧ props !! "n_val" = Some (@native_value demo_json "2").
Proof.
  intros pass.
  destruct (shared_type_overwritten refLib refLib_laws demo_json demo_json_laws demo_x509 false "" go_range demo_node demo_contested
    (mkKey "db" "orders") (mkKey "db" "cache") (demo_default "orders" 3) (demo_default "cache" 2) "n_val" "3" "2")
    as [(o1 & y1 & o2 & y2 & H1 & H2) Hall]; try done; try by vm_compute.
  destruct (Hall o1 y1 o2 y2 H1 H2) as (_ & _ & b & _ & props & Hb & _ & (Hph & _) & Hv & _ & _ & Ht & Hp).
  exists o1, y1, o2, y2, b, props. split; [exact H1|]. split; [exact H2|]. by split_and!.
Defined.
