(* ===== verification/Deletion.v ===== *)
(** * Deleting a RiakUser comes to an end

    [departure]: a RiakUser that is being deleted, the cluster it names (which may be gone),
    the identity Riak holds for it, and the time. The API server answers; Riak may refuse or
    lose any command ([flaky]). Between the passes the requeue's delay goes by and the cluster
    and the identity change freely. *)
From S2P Require Import Prelude GoLib Effects Types Samples KubeTypes Kube KubeLib Footprint Status Executor ExecutorFacts Manager RiakEnv Grants Tls Trust TrustFacts BucketController UserController StatefulSet ClusterController Footprints UserFacts Provisioning.

Record departure := mkDeparture {
  dp_user : RiakUser;
  dp_cluster : option RiakCluster;
  dp_id : identity;
  dp_now : time }.
Definition dp_with_user (s : departure) (u : RiakUser) : departure := mkDeparture u (dp_cluster s) (dp_id s) (dp_now s).
Definition dp_with_id (s : departure) (i : identity) : departure := mkDeparture (dp_user s) (dp_cluster s) i (dp_now s).
Definition dp_at (s : departure) (t : time) : departure := mkDeparture (dp_user s) (dp_cluster s) (dp_id s) t.

Section deletion.
Context `{L : KubeLib} `{HL : !KubeLibLaws L} `{X : GoX509}.
Context (apiReader flaky : bool).

(** ** The environment *)
Definition dp_name (s : departure) : string := us_Username (us_Spec (dp_user s)).
(** The cluster the user names. *)
Definition dp_key (s : departure) : ObjectKey :=
  mkKey (om_Namespace (us_Meta (dp_user s))) (us_ClusterName (us_Spec (dp_user s))).
(** The only commands and writes are [del-user] and the release of the user. *)
Definition dp_ok (s : departure) (a : api) : Prop :=
  match a with
  | AGet _ KUser key => key = meta_key (us_Meta (dp_user s))
  | AGet _ KCluster key => key = dp_key s
  | AUpdate KUser o => us_Spec o = us_Spec (dp_user s)
  | ARun name full => ∃ c pod, dp_cluster s = Some c ∧ name = "kubectl" ∧
      full = kubectl_args (cl_Namespace c) pod "riak" (del_user_args (dp_name s))
  | ANow => True
  | _ => False
  end.
Definition dp_get (s : departure) (k : kind) : res (obj k) → Prop :=
  match k return res (obj k) → Prop with
  | KUser => λ r, r = Ok (dp_user s)
  | KCluster => λ r, match dp_cluster s with
      | Some c => r = Ok c
      | None => ∃ e, r = Err e ∧ IsNotFound e = true
      end
  | _ => λ _, True
  end.
Definition dp_answer (s : departure) (a : api) : reply a → departure → Prop :=
  match a as a' return reply a' → departure → Prop with
  | AGet _ k _ => λ r s', dp_get s k r ∧ s' = s
  | AUpdate k o =>
      match k as k' return obj k' → res (obj k') → departure → Prop with
      | KUser => λ o r s', let u := us_with_status o (us_Status (dp_user s)) in r = Ok u ∧ s' = dp_with_user s u
      | _ => λ _ _ s', s' = s
      end o
  | ARun _ full => λ r s', ∃ i,
      id_step flaky (dp_name s) (dp_id s) (exec_pod full) (exec_args full) r i ∧ s' = dp_with_id s i
  | ANow => λ t s', (dp_now s ≤ t)%Z ∧ s' = dp_at s t
  | _ => λ _ s', s' = s
  end.
Definition dp_env : Env reply departure := {| allowed := dp_ok; step := dp_answer |}.
Abbreviation wpd := (wp dp_env).
Lemma dp_total s a : dp_ok s a → ∃ r s', dp_answer s a r s'.
Proof.
  intros Ha. destruct a as [src k key|k ns labels|k o|k o|k o|k o o'|k key|k key mutate|name full|]; try done;
    cbn [dp_ok dp_answer] in *.
  - destruct k; try done; cbn.
    + destruct (dp_cluster s) as [c|]; [by exists (Ok c), s|].
      exists (Err (Error ENotFound "not found")), s. split; [by eexists|done].
    + by exists (Ok (dp_user s)), s.
  - destruct k; try done. eexists _, _. split; reflexivity.
  - destruct Ha as (c & pod & _ & -> & ->).
    change (exec_args (kubectl_args _ pod "riak" ?args)) with args. exists (Ok ""). eexists. exists (del_user_eff (dp_id s)).
    split; [|done]. unfold id_step. rewrite 3!decide_False by done. rewrite decide_True by done.
    split_and!; [done|by right| |by left]. by intros (e & [=] & _).
  - by exists (dp_now s), (dp_at s (dp_now s)).
Qed.

(** ** One pass *)
Definition released (s : departure) : Prop := riakUserFinalizerName ∉ om_Finalizers (us_Meta (dp_user s)).
(** The cluster can still be asked to drop the user. *)
Definition reachable (c : RiakCluster) : Prop :=
  om_DeletionTimestamp (cl_Meta c) = None ∧ hosts c.
(** Nothing is left in Riak, where there was something and Riak could be asked. *)
Definition cleaned (s s' : departure) : Prop :=
  ∀ c, flaky = false → ust_Created (us_Status (dp_user s)) = true → dp_cluster s = Some c → reachable c →
    id_exists (dp_id s') = false ∧ id_grants (dp_id s') = ∅.
Definition deleting (u : RiakUser) (t : time) : Prop := om_DeletionTimestamp (us_Meta u) = Some t.

Lemma DeleteUser_dp c s :
  dp_cluster s = Some c →
  wpd (DeleteUser c (dp_name s)) (λ e s', ∃ i, s' = dp_with_id s i ∧ did flaky del_user_eff c (dp_id s) e i) s.
Proof.
  intros Hc. unfold DeleteUser. destruct (first_pod c) as [pod|] eqn:Hpod.
  2: { apply wp_ret. exists (dp_id s). split; [by destruct s|]. by apply did_no_pod. }
  unfold DeleteUser_ex, ExecuteRiakAdmin. apply wp_bind, wp_call; [by exists c, pod|].
  intros r s' (i & Hi & ->). apply wp_ret, wp_ret. exists i. split; [done|].
  change (exec_args _) with (del_user_args (dp_name s)) in Hi.
  unfold id_step in Hi. rewrite 3!decide_False in Hi by done. rewrite decide_True in Hi by done.
  by apply (did_applies flaky del_user_eff "unknown_user").
Qed.
(** What is left to do: nothing, or a try again within the grace period. *)
Definition tried (t : time) (s : departure) (e : option error) (s' : departure) : Prop :=
  dp_user s' = dp_user s ∧ dp_cluster s' = dp_cluster s ∧ (dp_now s ≤ dp_now s')%Z ∧
  match e with
  | None => cleaned s s'
  | Some _ => flaky = true ∧ (dp_now s' ≤ t + userDeleteGracePeriod)%Z
  end.
Lemma tried_nothing t s :
  (∀ c, ust_Created (us_Status (dp_user s)) = true → dp_cluster s = Some c → ¬ reachable c) → tried t s None s.
Proof. intros H. split_and!; [done..|lia|]. intros c _ Hc Hs Hr. by destruct (H c Hc Hs). Qed.
Lemma deleteRiakUser_dp t s : wpd (deleteRiakUser (dp_user s) t) (tried t s) s.
Proof.
  unfold deleteRiakUser. destruct (ust_Created (us_Status (dp_user s))) eqn:Hcr; cbn [negb].
  2: { apply wp_ret, tried_nothing. congruence. }
  unfold Get. apply wp_call; [done|]. intros r s' [Hget ->]. cbn in Hget.
  destruct (dp_cluster s) as [c|] eqn:Hc; [subst r|destruct Hget as (e & -> & He)].
  2: { cbn. rewrite He. apply wp_ret, tried_nothing. congruence. }
  destruct (bool_decide _ || _ || _) eqn:Hout.
  { apply wp_ret, tried_nothing. intros c' _ Hc' [H1 [H2 [pod H3]]].
    assert (c' = c) as -> by congruence.
    rewrite !orb_true_iff, !bool_decide_eq_true, negb_true_iff, String.eqb_neq in Hout. unfold ready in H2.
    destruct Hout as [[Ho|Ho]|Ho]; [rewrite H1 in Ho; by destruct Ho|done|].
    unfold first_pod in H3. by rewrite Ho in H3. }
  rewrite !orb_false_iff, !bool_decide_eq_false in Hout. destruct Hout as [_ Hm].
  assert (is_Some (first_pod c)) as Hpod by (unfold first_pod; destruct (cst_Members _); [done|by eexists]).
  eapply wp_bind_2; [by apply DeleteUser_dp|]. intros e s' (i & -> & H1 & _ & H3). destruct e as [e|].
  - unfold Now. apply wp_call; [done|]. intros now s' [Hnow ->]. cbn in Hnow.
    assert (flaky = true) as Hf by (destruct flaky; [done|]; by specialize (H3 eq_refl Hpod)).
    destruct (Z.ltb_spec userDeleteGracePeriod (now - t)); apply wp_ret; 
      (split; [done|]; split; [done|]; split; [cbn; lia|]).
    + intros c'. by rewrite Hf.
    + split; [done|]. cbn. lia.
  - apply wp_ret. split_and!; [done..|cbn; lia|]. intros c' _ _ _ _. cbn. by rewrite H1.
Qed.
(** A pass over a user that is being deleted. *)
Definition user_left (t : time) (s : departure) (o : outcome) (s' : departure) : Prop :=
  us_Spec (dp_user s') = us_Spec (dp_user s) ∧ deleting (dp_user s') t ∧ dp_cluster s' = dp_cluster s ∧
  (dp_now s ≤ dp_now s')%Z ∧
  (o = finish done_ ∧ released s' ∧ (¬ released s → cleaned s s') ∨
   o = finish (requeue (10 * second)) ∧ dp_user s' = dp_user s ∧ flaky = true ∧
     (dp_now s' ≤ t + userDeleteGracePeriod)%Z).
Lemma ReconcileUser_dp t s :
  deleting (dp_user s) t → wpd (ReconcileUser apiReader (meta_key (us_Meta (dp_user s)))) (user_left t s) s.
Proof.
  intros Hdel. unfold ReconcileUser, Get. apply wp_call; [done|]. intros r s' [-> ->]. rewrite Hdel.
  destruct (ContainsFinalizer _ _) eqn:Hf.
  2: { apply wp_ret. assert (released s) as Hr by by (unfold released; rewrite <-finalizer_contains, Hf).
       split; [done|]. split; [done|]. split; [done|]. split; [lia|]. left. split; [done|]. by split. }
  eapply wp_bind_2; [apply deleteRiakUser_dp|]. intros [e|] s1 (Hu & Hc & Hnow & He).
  - apply wp_ret. split; [by rewrite Hu|]. split; [by rewrite Hu|]. split; [done|]. split; [done|]. right. by destruct He.
  - unfold Update. apply wp_call; [cbn; by rewrite Hu|]. intros r s' [-> ->]. apply wp_ret.
    split; [done|]. split; [done|]. split; [done|]. split; [done|]. left. split; [done|]. split; [|by intros _].
    intros Hin. cbn in Hin. by apply finalizer_remove in Hin as [? _].
Qed.

(** ** Passes *)
Definition departure_pass (s : departure) (o : outcome) (s' : departure) : Prop :=
  ∃ tr, exec dp_env (ReconcileUser apiReader (meta_key (us_Meta (dp_user s)))) s tr o s'.
(** A pass, and the wait it asked for: the cluster and the identity change meanwhile. *)
Inductive departure_round : departure → departure → Prop :=
| dp_round s o s1 s2 :
    departure_pass s o s1 → dp_user s2 = dp_user s1 → (dp_now s1 + RequeueAfter o.1 ≤ dp_now s2)%Z →
    departure_round s s2.
Lemma departure_pass_left t s o s' : deleting (dp_user s) t → departure_pass s o s' → user_left t s o s'.
Proof. intros Hd [tr Hex]. by apply (wp_exec _ _ _ _ _ _ _ (ReconcileUser_dp t s Hd) Hex). Qed.
Lemma departure_pass_exists t s : deleting (dp_user s) t → ∃ o s', departure_pass s o s'.
Proof.
  intros Hd. destruct (wp_runs dp_env _ _ s (λ s a, dp_total s a) (ReconcileUser_dp t s Hd)) as (tr & o & s' & Hex & _).
  by exists o, s', tr.
Qed.
(** Released for good, or ten seconds closer to the end of the grace period. *)
Lemma departure_round_step t s s' :
  deleting (dp_user s) t → departure_round s s' →
  deleting (dp_user s') t ∧
  (released s' ∨ ¬ released s ∧ (dp_now s ≤ t + userDeleteGracePeriod)%Z ∧ (dp_now s + 10 * second ≤ dp_now s')%Z).
Proof.
  intros Hd Hr. destruct Hr as [s o s1 s2 Hp Hu Ht].
  destruct (departure_pass_left t s o s1 Hd Hp) as (_ & Hd1 & _ & Hnow & Hcase). rewrite Hu. split; [done|].
  unfold released at 1. rewrite Hu. destruct Hcase as [(_ & Hrel & _)|(-> & Heq & _ & Hg)]; [by left|].
  destruct (decide (riakUserFinalizerName ∈ om_Finalizers (us_Meta (dp_user s)))) as [Hin|Hout].
  - right. split; [by intros Hrel|]. cbn in Ht. lia.
  - left. by rewrite Heq.
Qed.
Lemma released_stays t s s' : deleting (dp_user s) t → released s → departure_round s s' → released s'.
Proof. intros Hd Hr Hst. by destruct (departure_round_step t s s' Hd Hst) as [_ [?|[? _]]]. Qed.
Lemma departure_rounds t n s s' :
  deleting (dp_user s) t → nsteps departure_round n s s' →
  deleting (dp_user s') t ∧
  (released s' ∨ n = 0 ∨ (dp_now s + 10 * second * (Z.of_nat n - 1) ≤ t + userDeleteGracePeriod)%Z).
Proof.
  intros Hd Hs. revert Hd. induction Hs as [s|n s s1 s' Hst Hs IH]; intros Hd; [split; [done|by right; left]|].
  destruct (departure_round_step t s s1 Hd Hst) as [Hd1 Hc]. destruct (IH Hd1) as [Hd' Hn]. split; [done|].
  destruct Hc as [Hrel|(_ & Hg & Hnow)].
  - left. clear IH Hn Hd' Hst. induction Hs as [|n a b c Hab Hbc IH]; [done|].
    apply IH; [by eapply departure_round_step|by eapply released_stays].
  - destruct Hn as [?|[->|Hn]]; [by left|right; right; lia|right; right]. unfold second in *. lia.
Qed.
Lemma departure_rounds_exist t n s : deleting (dp_user s) t → ∃ s', nsteps departure_round n s s'.
Proof.
  revert s. induction n as [|n IH]; intros s Hd; [exists s; constructor|].
  destruct (departure_pass_exists t s Hd) as (o & s1 & Hp).
  assert (departure_round s (dp_at s1 (dp_now s1 + RequeueAfter o.1))) as Hr by (apply (dp_round s o s1); [done|done|cbn; lia]).
  destruct (IH _ (proj1 (departure_round_step t _ _ Hd Hr))) as [s' Hs]. exists s'. by eapply nsteps_l.
Qed.
End deletion.

(** *** A departure to run *)
(** The user of the samples, recorded as created, deleted at time 0; one hour of patience. *)
Definition leaving_user : RiakUser :=
  mkRiakUser (mkObjectMeta "alice" "db" "u1" 1 (Some 0%Z) [riakUserFinalizerName] ∅ [])
    (us_Spec granted_user)
    (mkRiakUserStatus UserPhaseReady true None "" "alice" true "" "c" [] []).
Definition demo_departure : departure :=
  mkDeparture leaving_user (Some ready_cluster) (mkIdentity true true true stale_state) 0.

(** ** Properties *)

(** C14: a RiakUser that is deleted goes away. Whatever Riak does with the commands, and
    whatever becomes of the cluster and of the identity between the passes, as long as the
    API server answers: a pass runs to its end, and it either removes the finalizer or asks
    to be run again in ten seconds, having written nothing, before two minutes have passed
    since the deletion. So, run when it asks for, the user is released within fourteen passes,
    and stays so. A pass that releases a user recorded as created, on a cluster that is
    Ready, with a member and not itself being deleted, leaves neither identity nor grants in
    a Riak that carries out its commands: it is then the first pass. *)
Theorem user_deletion_ends (L : KubeLib) (HL : KubeLibLaws L) (X : GoX509) (apiReader flaky : bool)
    (t : time) (s : departure) :
  deleting (dp_user s) t → (t ≤ dp_now s)%Z →
  let pass := departure_pass apiReader flaky in
  let round := departure_round apiReader flaky in
  (∃ o s', pass s o s') ∧
  (∀ o s', pass s o s' →
     o = finish done_ ∧ released s' ∧ (¬ released s → cleaned flaky s s') ∨
     o = finish (requeue (10 * second)) ∧ dp_user s' = dp_user s ∧ flaky = true ∧
       (dp_now s' ≤ t + 2 * minute)%Z) ∧
  (∀ n, ∃ s', nsteps round n s s') ∧ (∀ n s', nsteps round n s s' → 14 ≤ n → released s').
Proof.
  intros Hd Ht pass round. split; [by eapply departure_pass_exists|]. split; [|split].
  - intros o s' Hp. by destruct (departure_pass_left apiReader flaky t s o s' Hd Hp) as (_ & _ & _ & _ & Hcase).
  - intros n. by eapply departure_rounds_exist.
  - intros n s' Hs Hn. destruct (departure_rounds apiReader flaky t n s s' Hd Hs) as [_ [?|[->|H]]]; [done|lia|].
    unfold userDeleteGracePeriod, minute, second in H. lia.
Qed.
Lemma user_deletion_ends_witness :
  ∃ o s', @departure_pass refLib demo_x509 false false demo_departure o s' ∧
    released s' ∧ id_exists (dp_id s') = false ∧ id_grants (dp_id s') = ∅.
Proof.
  destruct (user_deletion_ends refLib refLib_laws demo_x509 false false 0 demo_departure eq_refl ltac:(done))
    as ((o & s' & Hp) & Hall & _).
  exists o, s'. split; [exact Hp|]. destruct (Hall o s' Hp) as [(_ & Hrel & Hclean)|(_ & _ & [=] & _)].
  split; [exact Hrel|]. apply (Hclean ltac:(by intros H; apply H; left) ready_cluster); try done.
Defined.
