(* ===== verification/Fleet.v ===== *)
(** * The cluster controller and its StatefulSet

    [fleet]: the world of the cluster controller ([Convergence]) with its StatefulSet. Beside
    what the world's environment promises, the StatefulSet is stored as it is written, and
    Riak has finished its transfers. A pass, the StatefulSet included: it applies the spec and
    then leaves the partition or lowers it by one ([ReconcileCluster_fleet]). *)
From S2P Require Import Prelude GoLib Effects Types Samples KubeTypes Kube KubeLib Footprint Status Executor ExecutorFacts Manager RiakEnv Membership Tls Trust TrustFacts Monitoring Rollout RolloutFacts BucketController StatefulSet StatefulSetFacts ClusterController Footprints ClusterFacts Convergence.

Record fleet := mkFleet { fl_world : world; fl_sts : StatefulSet }.
Definition fl_cluster (f : fleet) : RiakCluster := wd_cluster (fl_world f).

(** ** The environment *)
(** The cluster's StatefulSet, of its storage mode. *)
Definition owned_sts (c : RiakCluster) (sts : StatefulSet) : Prop :=
  ours c (sts_Meta sts) ∧ om_UID (sts_Meta sts) ≠ "" ∧
  negb (hasDataVolumeClaim (ss_VolumeClaimTemplates (sts_Spec sts))) = cs_EphemeralStorage (cl_Spec c).
Definition is_sts (k : kind) : bool := match k with KStatefulSet => true | _ => false end.
(** A patch of the operator changes the partition. *)
Definition sts_answer (c : RiakCluster) (sts : StatefulSet) (a : api) : reply a → StatefulSet → Prop :=
  match a as a' return reply a' → StatefulSet → Prop with
  | AGet _ k _ =>
      match k as k' return res (obj k') → StatefulSet → Prop with
      | KStatefulSet => λ r sts', (owned_sts c sts → r = Ok sts) ∧ sts' = sts
      | _ => λ _ sts', sts' = sts
      end
  | ACreateOrUpdate k _ mutate =>
      match k as k' return (obj k' → res (obj k')) → option error → StatefulSet → Prop with
      | KStatefulSet => λ mutate r sts', owned_sts c sts →
          r = res_err (mutate sts) ∧ sts' = match mutate sts with Ok o => o | Err _ => sts end
      | _ => λ _ _ sts', sts' = sts
      end mutate
  | APatch k _ new =>
      match k as k' return obj k' → res (obj k') → StatefulSet → Prop with
      | KStatefulSet => λ new r sts', sts' = set_partition sts (livePartition new)
      | _ => λ _ _ sts', sts' = sts
      end new
  | ACreate k _ => λ _ sts', is_sts k = false → sts' = sts
  | AUpdate k _ => λ _ sts', is_sts k = false → sts' = sts
  | AStatusUpdate k _ => λ _ sts', is_sts k = false → sts' = sts
  | ADelete k _ => λ _ sts', is_sts k = false → sts' = sts
  | ARun _ full => λ r sts',
      (exec_args full = ["transfers"] → ∃ out, r = Ok out ∧ parseTransfersIdle out = true) ∧ sts' = sts
  | _ => λ _ sts', sts' = sts
  end.

Section fleet.
Context `{L : KubeLib} `{HL : !KubeLibLaws L} `{X : GoX509}.
Context (apiReader : bool) (DefaultImage : string) (range_order : gmap string string → list string).
Context (node : string → string) `{!Inj (=) (=) node} (Hprint : ∀ p, printable (node p)).
Definition fleet_env : Env reply fleet := {|
  allowed := λ f a, world_ok node (fl_world f) a;
  step := λ f a r f', world_answer node (fl_world f) a r (fl_world f') ∧
    sts_answer (fl_cluster f) (fl_sts f) a r (fl_sts f')
|}.
Abbreviation wpf := (wp fleet_env).
Abbreviation wpw := (wp (world_env node)).

#[local] Instance ours_dec c m : Decision (ours c m).
Proof.
  refine (cast_if_and (decide (om_Namespace m = cl_Namespace c))
    (decide (Forall (λ r, or_Controller r = true → controlled_by "RiakCluster" (cl_Meta c) r)
      (om_OwnerReferences m))));
    unfold ours; try rewrite Forall_forall in *; tauto.
Defined.
#[local] Instance owned_sts_dec c sts : Decision (owned_sts c sts).
Proof. unfold owned_sts. apply _. Defined.
Lemma fleet_total f a : world_ok node (fl_world f) a → ∃ r f', step fleet_env f a r f'.
Proof.
  intros Ha. destruct f as [w sts]. cbn [fl_world] in Ha.
  destruct (world_total node w a Hprint Ha) as (r & w' & Hw).
  destruct a as [src k key|k ns labels|k o|k o|k o|k o o'|k key|k key mutate|name full|];
    try (exists r, (mkFleet w' sts); split; [exact Hw|done]).
  - destruct k; try (exists r, (mkFleet w' sts); split; [exact Hw|done]).
    destruct (decide (owned_sts (wd_cluster w) sts)) as [Ho|Ho].
    + exists (Ok sts), (mkFleet w sts). split; [|done]. split; [|done]. apply Ho.
    + exists r, (mkFleet w' sts). split; [exact Hw|]. by split.
  - destruct k; try (exists r, (mkFleet w' sts); split; [exact Hw|done]).
    by exists r, (mkFleet w' (set_partition sts (livePartition o'))).
  - destruct k; try (exists r, (mkFleet w' sts); split; [exact Hw|done]).
    destruct (decide (owned_sts (wd_cluster w) sts)) as [Ho|Ho].
    + exists (res_err (mutate sts)), (mkFleet w (match mutate sts with Ok o => o | Err _ => sts end)). split; [|done].
      split; [|done]. exists sts_Meta, sts. split; [done|]. by split; [apply Ho|].
    + exists r, (mkFleet w' sts). split; [exact Hw|]. by intros ?.
  - destruct (decide (exec_args full = ["transfers"])) as [Ht|Ht].
    + exists (Ok "No transfers active"), (mkFleet w sts). split; [|split; [|done]].
      * exists "No transfers active". split; [done|]. split; [done|]. by rewrite decide_True.
      * intros _. by exists "No transfers active".
    + exists r, (mkFleet w' sts). split; [exact Hw|]. by split.
Qed.

(** ** Parts of a pass that leave the StatefulSet alone *)
Definition no_sts (a : api) : Prop :=
  match a with
  | ACreate k _ | AUpdate k _ | AStatusUpdate k _ | APatch k _ _ | ADelete k _ | ACreateOrUpdate k _ _ => is_sts k = false
  | _ => True
  end.
Lemma no_sts_kept c sts a r sts' : no_sts a → sts_answer c sts a r sts' → sts' = sts.
Proof.
  intros Ha Hs. destruct a as [src k key|k ns labels|k o|k o|k o|k o o'|k key|k key mutate|name full|];
    cbn in *; try done; auto.
  - destruct k; try done. by destruct Hs.
  - by destruct k.
  - by destruct k.
  - by destruct Hs.
Qed.
Lemma wpf_keep {A} (p : M A) Q R f :
  footprint no_sts p R → wpw p Q (fl_world f) →
  wpf p (λ a f', Q a (fl_world f') ∧ R a ∧ fl_sts f' = fl_sts f) f.
Proof.
  revert f. induction p as [a|a k IH]; intros f Hp Hw; [done|].
  destruct Hp as [Ha Hp], Hw as [Hok Hw]. split; [exact Hok|]. intros r f' [Hst Hsts].
  pose proof (no_sts_kept _ _ _ _ _ Ha Hsts) as Heq. rewrite <-Heq. apply IH; [by apply (Hp r tt I)|by apply Hw].
Qed.
(** One such part, which succeeds and leaves the world alone too. *)
Lemma wpf_keep_bind {A B} (p : M A) (g : A → M B) P R Q f :
  footprint no_sts p R → wpw p (λ a w, P a ∧ w = fl_world f) (fl_world f) →
  (∀ a, P a → R a → wpf (g a) Q f) → wpf (p ≫= g) Q f.
Proof.
  intros Hp Hw Hg. eapply wp_bind_2; [by apply wpf_keep|]. intros a f' ([Ha Hf] & HR & Hs).
  assert (f' = f) as -> by (destruct f, f'; cbn in *; congruence). by apply Hg.
Qed.

(** ** The StatefulSet in a pass *)
Lemma wp_and {A} (p : M A) Q1 Q2 f : wpf p Q1 f → wpf p Q2 f → wpf p (λ a f', Q1 a f' ∧ Q2 a f') f.
Proof.
  revert f. induction p as [a|a k IH]; intros f H1 H2; [done|]. destruct H1 as [Ha H1], H2 as [_ H2].
  split; [done|]. intros r f' Hst. apply IH; [by apply H1|by apply H2].
Qed.
Lemma wpf_world {A} (p : M A) Q f : wpw p Q (fl_world f) → wpf p (λ a f', Q a (fl_world f')) f.
Proof.
  intros Hp. eapply wp_mono; [apply (wp_map (world_env node) fleet_env fl_world (λ _, True));
    [done| |done|exact Hp]|].
  - by intros f1 a r f2 _ _ [Hst _].
  - by intros a f' [HQ _].
Qed.
(** What only looks at the clock changes nothing. *)
Lemma wpf_clock {A} (p : M A) R f : footprint (λ a, a = ANow) p R → wpf p (λ a f', R a ∧ f' = f) f.
Proof.
  intros Hp. eapply wp_mono; [apply (wp_footprint fleet_env (λ a, a = ANow) (λ f', f' = f) _ _ _ Hp);
    [| |done]|by intros a f' []].
  - by intros f1 a -> ->.
  - intros f1 a r f2 -> -> [Hw Ht]. cbn in Hw, Ht. destruct f, f2; cbn in *; congruence.
Qed.
Lemma setClusterCondition_clock c t ok reason msg :
  footprint (λ a, a = ANow) (setClusterCondition c t ok reason msg) (λ _, True).
Proof. unfold setClusterCondition. fp. Qed.
Lemma markBlocked_clock c reason msg stall : footprint (λ a, a = ANow) (markBlocked c reason msg stall) (λ _, True).
Proof.
  unfold markBlocked. eapply fp_bind; [apply setClusterCondition_clock|]. intros c1 _.
  eapply fp_bind; [apply setClusterCondition_clock|]. intros c2 _.
  eapply (fp_bind _ _ _ (λ _, True)); [fp|]. intros b _. destruct b; apply setClusterCondition_clock.
Qed.

(** *** Applying the spec *)
Lemma sts_spec_alike c c' sts :
  alike c c' → sts_spec DefaultImage range_order c' sts = sts_spec DefaultImage range_order c sts.
Proof. destruct c as [[] ? ?], c' as [m ? ?]. intros [Hs [fs Hm]]. cbn in Hs, Hm. by subst. Qed.
Lemma owned_alike c c' sts : alike c c' → owned_sts c sts → owned_sts c' sts.
Proof.
  destruct c as [[] ? ?], c' as [m ? ?]. intros [Hs [fs Hm]]. cbn in Hs, Hm. subst. done.
Qed.
(** [o] is [sts] after the spec of [c] has been applied to it. *)
Definition applied (c : RiakCluster) (sts o : StatefulSet) : Prop :=
  sts_Spec o = sts_spec DefaultImage range_order c sts ∧ sts_Status o = sts_Status sts ∧ owned_sts c o.
Lemma sts_mutate_applied c sts :
  owned_sts c sts → ∃ o, sts_mutate DefaultImage range_order c sts = Ok o ∧ applied c sts o.
Proof.
  intros (Ho & Hu & Hm). unfold sts_mutate. pose proof (owned_free c _ Ho) as Hok.
  destruct (SetControllerReference _ _ _) as [m|e] eqn:Hset; [|done]. eexists. split; [done|].
  split; [done|]. split; [done|]. destruct (owner_set _ _ _ _ Hset) as (_ & Hns & Huid & _).
  destruct Ho as [Hns' Href].
  split; [split|split]; cbn; [congruence| |congruence|].
  - intros r Hr Hc. destruct (owner_only _ _ _ _ r Hset Hr Hc); [done|by apply Href].
  - unfold sts_spec, volume_claims. cbn. by destruct (cs_EphemeralStorage _).
Qed.
Lemma reconcileStatefulSet_fleet f :
  owned_sts (fl_cluster f) (fl_sts f) →
  wpf (reconcileStatefulSet DefaultImage range_order (fl_cluster f))
    (λ e f', e = None ∧ fl_world f' = fl_world f ∧ applied (fl_cluster f) (fl_sts f) (fl_sts f')) f.
Proof.
  intros Ho. destruct f as [w sts]. unfold fl_cluster in *. cbn [fl_world fl_sts] in *.
  unfold reconcileStatefulSet, Get. apply wp_call; [done|].
  intros r [w1 sts1] [Hw Hs]. cbn in Hw, Hs. destruct Hw as [_ ->], Hs as [Hr ->]. rewrite (Hr Ho).
  destruct Ho as (Ho & Hu & Hm). rewrite Hm, Bool.eqb_reflx. cbn [negb].
  destruct (sts_mutate_applied (wd_cluster w) sts (conj Ho (conj Hu Hm))) as (o & Hmut & Happ).
  split; [split; [by eexists|done]|]. intros r2 [w2 sts2] [Hw2 Hs2]. cbn in Hw2, Hs2.
  destruct Hw2 as [_ ->], Hs2 as [-> ->]; [done|]. rewrite Hmut. done.
Qed.

(** *** The rollout *)
Lemma ARun_args c pod args : exec_args (kubectl_args (cl_Namespace c) pod "riak" args) = args.
Proof. done. Qed.
Lemma wpf_status {A} pod (k : res (list ClusterMember) → M A) Q f :
  wpf (k (Ok (ring_view node (wd_ring (fl_world f)) pod))) Q f →
  wpf (MemberStatus (cl_Namespace (fl_cluster f)) pod "riak" ≫= k) Q f.
Proof.
  intros Hk. unfold MemberStatus, ExecuteRiakAdmin. apply wp_bind, wp_bind, wp_call.
  { exists pod, ["member-status"]. split_and!; [done..|]. right. constructor. }
  intros r f' [(out & -> & Hf & Hw) [_ Hs]]. change (exec_args _) with ["member-status"] in Hw.
  rewrite decide_False in Hw by done. destruct Hw as (rg & He & Hw). apply wp_ret, wp_ret.
  unfold admin_reply. rewrite Hf. inversion He as [Hp| | |]; subst. cbn [fst snd]. rewrite Hp.
  assert (f' = f) as ->; [|exact Hk]. destruct f' as [w' t'], f as [[] t]. cbn in *. by subst.
Qed.
Lemma wpf_transfers {A} pod (k : res (bool * string) → M A) Q f :
  (∀ detail, wpf (k (Ok (true, detail))) Q f) →
  wpf (TransfersIdle (cl_Namespace (fl_cluster f)) pod "riak" ≫= k) Q f.
Proof.
  intros Hk. unfold TransfersIdle, ExecuteRiakAdmin. apply wp_bind, wp_bind, wp_call.
  { exists pod, ["transfers"]. split_and!; [done..|]. by left. }
  intros r f' [(out & -> & Hf & Hw) [Ht Hs]]. change (exec_args _) with ["transfers"] in Hw, Ht.
  rewrite decide_True in Hw by done. destruct (Ht eq_refl) as (out' & [= <-] & Hidle). apply wp_ret, wp_ret.
  unfold admin_reply. rewrite Hf. cbn [fst snd]. rewrite Hidle.
  assert (f' = f) as ->; [|apply Hk]. destruct f', f. cbn in *. by subst.
Qed.
(** Enough pods, all Ready and in a ring of exactly the cluster's size. *)
Definition calm (f : fleet) (pods : list rolloutPod) : Prop :=
  let rg := wd_ring (fl_world f) in
  (cl_Size (fl_cluster f) ≤ Z.of_nat (length pods) ≤ int32_max)%Z ∧
  Forall (λ p, rp_ready p = true ∧ rp_name p ∈ rg_members rg) pods ∧
  Z.of_nat (length (rg_members rg)) = cl_Size (fl_cluster f) ∧ rg_staged rg = [].
Lemma settled_loop_calm pods (P : string → Prop) probe :
  Forall (λ p, rp_ready p = true ∧ P (rp_name p)) pods → (probe = "" ∨ P probe) →
  ∃ r, settled_loop pods probe = inr r ∧ (r = "" ∨ P r).
Proof.
  intros Hp. revert probe. induction Hp as [|p pods [Hr Hn] _ IH]; intros probe Hprobe; cbn [settled_loop];
    [by exists probe|].
  rewrite Hr. cbn [negb]. apply IH. destruct (_ || _); auto.
Qed.
Lemma calm_view f pods probe :
  calm f pods → probe ∈ rg_members (wd_ring (fl_world f)) →
  let members := ring_view node (wd_ring (fl_world f)) probe in
  count_valid members = cl_Size (fl_cluster f) ∧ len32 members = cl_Size (fl_cluster f).
Proof.
  intros ((Hs1 & Hs2) & _ & Hl & Hst) Hin members. unfold members, ring_view.
  rewrite Hst, app_nil_r, bool_decide_true by done.
  rewrite fmap_nil, app_nil_r. set (ms := _ <$> _).
  assert (Z.of_nat (length ms) = cl_Size (fl_cluster f)) as Hlen by (unfold ms; by rewrite length_fmap).
  unfold len32. rewrite wrap32_id by (unfold in_int32, int32_min, int32_max in *; lia). split; [|done].
  rewrite count_valid_spec by (unfold int32_max in *; lia).
  rewrite <-Hlen. f_equal. f_equal. apply list_filter_all. unfold ms. by apply Forall_fmap, Forall_forall.
Qed.
(** What is checked: enough pods, all Ready, and a ring of the cluster's size. *)
Definition found_calm (f : fleet) (pods : list rolloutPod) : Prop :=
  (cl_Size (fl_cluster f) ≤ len32 pods)%Z ∧ Forall (λ p, rp_ready p = true) pods ∧
  (cl_Size (fl_cluster f) = 1%Z ∨ len32 (rg_members (wd_ring (fl_world f))) = cl_Size (fl_cluster f)).
Lemma view_size rg probe size :
  rg_staged rg = [] → (1 < size)%Z → len32 (ring_view node rg probe) = size → len32 (rg_members rg) = size.
Proof.
  intros Hst Hs. unfold ring_view. rewrite Hst, app_nil_r. case_bool_decide.
  - unfold len32. by rewrite fmap_nil, app_nil_r, length_fmap.
  - intros H1. change (len32 _) with 1%Z in H1. lia.
Qed.
Lemma count_said z t : Itoa z +:+ t ≠ "".
Proof. intros [Hz _]%Str.app_eq_nil. by apply Itoa_not_nil in Hz. Qed.
Lemma clusterSettled_fleet pods f :
  world_inv (fl_world f) → Forall (λ p, rp_name p ≠ "") pods →
  wpf (clusterSettled (fl_cluster f) pods)
    (λ b f', f' = f ∧ (calm f pods → b.1 = true) ∧ (if b.1 then found_calm f pods else b.2 ≠ "")) f.
Proof.
  intros Hi Hnames. pose proof Hi as [(_ & Hsize & _) _ (_ & _ & Hstaged)]. fold (fl_cluster f) in Hsize.
  unfold clusterSettled. destruct (Z.ltb_spec (len32 pods) (cl_Size (fl_cluster f))) as [Hlt|Hge].
  { apply wp_ret. split; [done|]. split; [|apply count_said]. intros ((H1 & H2) & _). unfold len32 in Hlt.
    rewrite wrap32_id in Hlt by (unfold in_int32, int32_min, int32_max in *; lia). lia. }
  destruct (settled_loop pods "") as [why|probe] eqn:Hloop.
  { apply wp_ret. split; [done|]. split; [|by eapply settled_loop_why]. intros (_ & Hall & _).
    destruct (settled_loop_calm pods (λ n, n ∈ rg_members (wd_ring (fl_world f))) "" Hall) as (r & Hr & _);
      [by left|congruence]. }
  pose proof (settled_loop_ready _ _ _ Hloop) as Hready.
  destruct (_ || _) eqn:Hone.
  { apply wp_ret. split; [done|]. split; [done|]. split; [done|]. split; [done|]. left.
    apply orb_true_iff in Hone as [Hone%Z.eqb_eq|Hone%String.eqb_eq]; [done|]. subst probe.
    rewrite (settled_loop_probe pods Hnames Hloop) in Hge. change (len32 []) with 0%Z in Hge. lia. }
  apply orb_false_iff in Hone as [Hone%Z.eqb_neq Hprobe%String.eqb_neq].
  assert (calm f pods → probe ∈ rg_members (wd_ring (fl_world f))) as Hin.
  { intros (_ & Hall & _).
    destruct (settled_loop_calm pods (λ n, n ∈ rg_members (wd_ring (fl_world f))) "" Hall) as (r & Hr & Hc);
      [by left|].
    rewrite Hloop in Hr. injection Hr as ->. by destruct Hc. }
  apply wpf_status. destruct (_ || _) eqn:Hbad.
  { apply wp_ret. split; [done|]. split; [|apply count_said]. intros Hc.
    destruct (calm_view f pods probe Hc (Hin Hc)) as [H1 H2].
    cbn zeta in H1, H2. rewrite H1, H2, Z.eqb_refl in Hbad. done. }
  assert (found_calm f pods) as Hfound.
  { apply orb_false_iff in Hbad as [_ Hlen%negb_false_iff%Z.eqb_eq]. split; [done|]. split; [done|]. right.
    eapply view_size; [done|lia|exact Hlen]. }
  destruct (wait_for_transfers _); [|by apply wp_ret]. apply wpf_transfers. intros detail. by apply wp_ret.
Qed.

(** The revision a pod was made from. *)
Definition revision (p : Pod) : string := default "" (om_Labels (pod_Meta p) !! statefulSetRevisionLabel).
(** The pods from an ordinal on carry a revision. *)
Definition carry (pods : list Pod) (from : Z) (rev : string) : Prop :=
  ∀ p i, p ∈ pods → podOrdinal (pod_Name p) = Some i → (from ≤ i)%Z → revision p = rev.
(** Every node is up: its pod Ready and not being deleted, itself in the ring. *)
Record standing (w : world) : Prop := {
  sd_ready : pods_ready w;
  sd_live : Forall (λ p, om_DeletionTimestamp (pod_Meta p) = None) (wd_pods w);
  sd_ring : rg_members (wd_ring w) ≡ₚ slots (wd_cluster w)
}.
Definition as_rollout_pod (p : Pod) : rolloutPod :=
  mkRolloutPod (default 0%Z (podOrdinal (pod_Name p))) (pod_Name p) (revision p) (podIsReady p).
Lemma slot_ordinal c name : (1 ≤ cl_Size c ≤ 999)%Z → name ∈ slots c →
  ∃ i : nat, name = cl_Name c +:+ "-" +:+ Itoa (Z.of_nat i) ∧ podOrdinal name = Some (Z.of_nat i) ∧
    (Z.of_nat i < cl_Size c)%Z.
Proof.
  intros Hs (i & -> & Hi%elem_of_seq)%list_elem_of_fmap. exists i. split; [done|].
  split; [|lia]. apply podOrdinal_name; [lia|]. unfold in_int32, int32_min, int32_max. lia.
Qed.
Lemma slot_in c (i : Z) : (0 ≤ i < cl_Size c)%Z → cl_Name c +:+ "-" +:+ Itoa i ∈ slots c.
Proof.
  intros Hi. apply list_elem_of_fmap. exists (Z.to_nat i). rewrite Z2Nat.id by lia. split; [done|].
  apply elem_of_seq. lia.
Qed.
Lemma omap_all {A B} (f : A → option B) g (l : list A) : (∀ x, x ∈ l → f x = Some (g x)) → omap f l = g <$> l.
Proof.
  induction l as [|x l IH]; intros H; [done|]. csimpl. rewrite H by by left. f_equal. apply IH. intros y Hy.
  apply H. by right.
Qed.
Lemma by_ordinal_in pods ord :
  (∃ p, p ∈ pods ∧ rp_ordinal p = ord) → ∃ p, p ∈ pods ∧ rp_ordinal p = ord ∧ by_ordinal pods !! ord = Some p.
Proof.
  unfold by_ordinal. induction pods as [|q pods IH] using rev_ind; [by intros (p & ?%elem_of_nil & _)|].
  intros (p & Hp & Ho). rewrite foldl_snoc. destruct (decide (rp_ordinal q = ord)) as [Hq|Hq].
  - exists q. split; [apply elem_of_app; right; by left|]. split; [done|]. rewrite <-Hq. apply lookup_insert_eq.
  - apply elem_of_app in Hp as [Hp|Hp%list_elem_of_singleton]; [|congruence].
    destruct IH as (p' & H1 & H2 & H3); [by exists p|]. exists p'. rewrite lookup_insert_ne by done.
    split; [apply elem_of_app; by left|done].
Qed.
Lemma name_in (p : Pod) pods : p ∈ pods → pod_Name p ∈ pod_names pods.
Proof. intros Hp. apply list_elem_of_fmap. by exists p. Qed.
Lemma standing_pods w items :
  world_inv w → standing w → items ≡ₚ wd_pods w →
  omap (M:=list) rollout_pod items = as_rollout_pod <$> items.
Proof.
  intros Hi [_ Hlive _] Hp. destruct Hi as [(_ & Hsize & _) [_ Hsub] _]. apply omap_all. intros p Hin.
  rewrite Hp in Hin.
  unfold rollout_pod. eapply Forall_forall in Hlive; [|exact Hin]. rewrite Hlive.
  destruct (slot_ordinal (wd_cluster w) (pod_Name p) Hsize) as (i & _ & Ho & _).
  { apply Hsub. by apply name_in. }
  unfold as_rollout_pod. by rewrite Ho.
Qed.
Lemma standing_calm f items :
  world_inv (fl_world f) → standing (fl_world f) → items ≡ₚ wd_pods (fl_world f) → calm f (as_rollout_pod <$> items).
Proof.
  intros Hi Hs Hp. pose proof (ready_names _ Hi (sd_ready _ Hs)) as Hn.
  destruct Hi as [(_ & Hsize & _) _ (_ & _ & Hst)].
  destruct Hs as [[Hr Hl] _ Hring]. unfold calm, fl_cluster. rewrite length_fmap, (Permutation_length Hp).
  split; [unfold int32_max; lia|]. split; [|split; [|done]].
  - apply Forall_fmap, Forall_forall. intros p Hin. rewrite Hp in Hin. cbn. split; [by eapply Forall_forall in Hr|].
    rewrite Hring, <-Hn. by apply name_in.
  - rewrite (Permutation_length Hring). apply slots_length. lia.
Qed.
Lemma standing_updated w items part rev :
  world_inv w → standing w → items ≡ₚ wd_pods w → (0 ≤ part)%Z → carry (wd_pods w) part rev →
  all_updated part (cl_Size (wd_cluster w)) rev (as_rollout_pod <$> items).
Proof.
  intros Hi Hs Hp H0 Hc ord Hord. pose proof (ready_names _ Hi (sd_ready _ Hs)) as Hn.
  destruct Hi as [(_ & Hsize & _) _ _]. destruct Hs as [[Hr _] _ _].
  assert (cl_Name (wd_cluster w) +:+ "-" +:+ Itoa ord ∈ world_names w) as Hin by (rewrite Hn; apply slot_in; lia).
  unfold world_names, pod_names in Hin. apply list_elem_of_fmap in Hin as (p & Hname & Hin).
  assert (podOrdinal (pod_Name p) = Some ord) as Ho.
  { rewrite <-Hname. apply podOrdinal_name; [lia|]. unfold in_int32, int32_min, int32_max. lia. }
  destruct (by_ordinal_in (as_rollout_pod <$> items) ord) as (q & Hq & Hqo & Hl).
  { exists (as_rollout_pod p). split; [apply list_elem_of_fmap_2; by rewrite Hp|]. cbn. by rewrite Ho. }
  exists q. split; [done|]. apply list_elem_of_fmap in Hq as (p' & -> & Hin'). rewrite Hp in Hin'. cbn in *.
  split; [|by eapply Forall_forall in Hr].
  assert (pod_Name p' ∈ slots (wd_cluster w)) as Hslot by (rewrite <-Hn; by apply name_in).
  destruct (slot_ordinal _ _ Hsize Hslot) as (j & _ & Hj & _). rewrite Hj in Hqo. cbn in Hqo.
  apply (Hc p' (Z.of_nat j)); [done|done|lia].
Qed.

(** What the operator finds when it goes on: the pods are all there, Ready and staying, and
    those from the partition on are of the update. *)
Lemma omap_length_all {A B} (f : A → option B) l : length l ≤ length (omap (M:=list) f l) → ∀ x, x ∈ l →
  is_Some (f x).
Proof.
  assert (∀ l', length (omap (M:=list) f l') ≤ length l') as Hle.
  { induction l' as [|x l' IH]; [done|]. csimpl. destruct (f x); cbn; lia. }
  induction l as [|x l IH]; [by intros _ y ?%elem_of_nil|]. csimpl. destruct (f x) as [y|] eqn:Hy; cbn; intros Hl.
  - intros z [->|Hz]%elem_of_cons; [by rewrite Hy|]. apply IH; [lia|done].
  - specialize (Hle l). lia.
Qed.
Lemma by_ordinal_sound pods ord p : by_ordinal pods !! ord = Some p → p ∈ pods ∧ rp_ordinal p = ord.
Proof.
  unfold by_ordinal. induction pods as [|q pods IH] using rev_ind; [done|].
  rewrite foldl_snoc, lookup_insert_Some, elem_of_app. intros [[<- <-]|[_ Hp]]; [split; [right; by left|done]|].
  destruct (IH Hp). auto.
Qed.
Lemma rollout_pod_Some p q :
  rollout_pod p = Some q →
  rp_ready q = podIsReady p ∧ om_DeletionTimestamp (pod_Meta p) = None ∧
    podOrdinal (pod_Name p) = Some (rp_ordinal q) ∧
  rp_revision q = revision p ∧ rp_name q = pod_Name p.
Proof. unfold rollout_pod. destruct (podOrdinal _), (om_DeletionTimestamp _); try done. by intros [= <-]. Qed.
Lemma found_ready w items :
  world_inv w → items ≡ₚ wd_pods w → (cl_Size (wd_cluster w) ≤ len32 (omap (M:=list) rollout_pod items))%Z →
  Forall (λ p, rp_ready p = true) (omap (M:=list) rollout_pod items) →
  pods_ready w ∧ Forall (λ p, om_DeletionTimestamp (pod_Meta p) = None) (wd_pods w).
Proof.
  intros Hi Hp Hlen Hr. pose proof (names_bounded w Hi) as Hb. rewrite <-(Permutation_length Hp) in Hb.
  destruct Hi as [(_ & Hsize & _) _ _].
  assert (length (omap (M:=list) rollout_pod items) ≤ length items) as Hle.
  { clear. induction items as [|x l' IH]; [done|]. csimpl. destruct (rollout_pod x); cbn; lia. }
  unfold len32 in Hlen. rewrite wrap32_id in Hlen by (unfold in_int32, int32_min, int32_max; lia).
  pose proof (omap_length_all rollout_pod items ltac:(lia)) as Hall.
  assert (∀ p, p ∈ wd_pods w → podIsReady p = true ∧ om_DeletionTimestamp (pod_Meta p) = None) as Hpods.
  { intros p Hin. rewrite <-Hp in Hin. destruct (Hall p Hin) as [q Hq]. split.
    - destruct (rollout_pod_Some _ _ Hq) as (<- & _). rewrite Forall_forall in Hr. apply Hr, list_elem_of_omap.
      by exists p.
    - apply (rollout_pod_Some _ _ Hq). }
  split; [split|]; [apply Forall_forall; intros p Hin; by apply Hpods| |apply Forall_forall; intros p Hin;
    by apply Hpods].
  rewrite <-(Permutation_length Hp). lia.
Qed.
Lemma updated_carry w items part rev :
  world_inv w → items ≡ₚ wd_pods w →
  all_updated part (cl_Size (wd_cluster w)) rev (omap (M:=list) rollout_pod items) → carry (wd_pods w) part rev.
Proof.
  intros Hi Hp Hall p i Hin Ho Hpart. destruct Hi as [(_ & Hsize & _) [Hnd Hsub] _].
  destruct (slot_ordinal (wd_cluster w) (pod_Name p) Hsize) as (j & Hname & Hj & Hlt); [by apply Hsub, name_in|].
  assert (Z.of_nat j = i) as Hji by congruence. destruct (Hall i ltac:(lia)) as (q & Hq & Hrev & _).
  apply by_ordinal_sound in Hq as [Hq Hqo]. apply list_elem_of_omap in Hq as (p' & Hin' & Hq). rewrite Hp in Hin'.
  destruct (rollout_pod_Some _ _ Hq) as (_ & _ & Ho' & Hrev' & _). rewrite Hqo in Ho'.
  destruct (slot_ordinal (wd_cluster w) (pod_Name p') Hsize) as (j' & Hname' & Hj' & _); [by apply Hsub, name_in|].
  assert (Z.of_nat j' = i) as Hji' by congruence. assert (pod_Name p = pod_Name p') as He by (rewrite Hname, Hname'; congruence).
  assert (p = p') as ->; [|congruence].
  unfold world_names, pod_names in Hnd. revert He Hin Hin' Hnd. clear.
  induction (wd_pods w) as [|q l IH]; [by intros _ ?%elem_of_nil|].
  intros He Hin Hin' [Hout Hnd]%NoDup_cons. apply elem_of_cons in Hin as [->|Hin], Hin' as [->|Hin']; auto.
  - destruct Hout. change (pod_Name q ∈ pod_names l). rewrite He. by apply name_in.
  - destruct Hout. change (pod_Name q ∈ pod_names l). rewrite <-He. by apply name_in.
Qed.

(** The operator may go on to the next node. *)
Definition may_step (f : fleet) : Prop :=
  rolloutInProgress (fl_sts f) = true ∧ (0 < livePartition (fl_sts f))%Z ∧ rollout_paused (fl_cluster f) = false ∧
  standing (fl_world f) ∧ carry (wd_pods (fl_world f)) (livePartition (fl_sts f))
    (sst_UpdateRevision (sts_Status (fl_sts f))).
(** What it has seen when it does. *)
Record careful (f : fleet) : Prop := {
  ca_progress : rolloutInProgress (fl_sts f) = true;
  ca_positive : (0 < livePartition (fl_sts f))%Z;
  ca_running : rollout_paused (fl_cluster f) = false;
  ca_ready : pods_ready (fl_world f);
  ca_live : Forall (λ p, om_DeletionTimestamp (pod_Meta p) = None) (wd_pods (fl_world f));
  ca_updated : carry (wd_pods (fl_world f)) (livePartition (fl_sts f)) (sst_UpdateRevision (sts_Status (fl_sts f)));
  ca_ring : cl_Size (fl_cluster f) = 1%Z ∨ len32 (rg_members (wd_ring (fl_world f))) = cl_Size (fl_cluster f)
}.
(** The partition is left, or lowered by one: when the operator may, and only when it was
    careful. *)
Definition stepped (f : fleet) (sts' : StatefulSet) : Prop :=
  sts' = fl_sts f ∧ ¬ may_step f ∨
  careful f ∧ sts' = set_partition (fl_sts f) (livePartition (fl_sts f) - 1).
Lemma reconcileRollout_fleet f :
  world_inv (fl_world f) → owned_sts (fl_cluster f) (fl_sts f) →
  (livePartition (fl_sts f) ≤ cl_Size (fl_cluster f))%Z →
  wpf (reconcileRollout (fl_cluster f)) (λ _ f', stepped f (fl_sts f')) f.
Proof.
  intros Hi Ho Hpart. assert (¬ may_step f → stepped f (fl_sts f)) as Hstay by by left.
  assert (∀ A (p : M A) (g : A → M (RiakCluster * option error)) (sts : StatefulSet) (f1 : fleet), fl_sts f1 = sts →
    footprint (λ a, a = ANow) p (λ _, True) → (∀ a, ∃ r, g a = mret r) →
    stepped f sts → wpf (p ≫= g) (λ _ f', stepped f (fl_sts f')) f1) as Hend.
  { intros A p g sts f1 Hsts Hp Hg Hst. eapply wp_bind_2; [by apply wpf_clock|]. intros a f' [_ ->].
    destruct (Hg a) as [r ->]. apply wp_ret. by rewrite Hsts. }
  unfold reconcileRollout, Get. apply wp_call; [done|]. intros r f1 [[_ Hw] [Hr Hs]]. cbn in Hw, Hr, Hs.
  rewrite (Hr Ho).
  assert (f1 = f) as -> by (destruct f1, f; cbn in *; congruence).
  destruct (rolloutInProgress (fl_sts f)) eqn:Hprog; cbn [negb].
  2: { apply wp_ret, Hstay. intros (H & _). congruence. }
  unfold rolloutPods, List_. apply wp_bind, wp_call; [done|]. clear Hw Hr Hs.
  intros ps f1 [[(items & -> & Hitems) Hw] Hs]. cbn in Hw, Hs.
  assert (f1 = f) as -> by (destruct f1, f; cbn in *; congruence). apply wp_ret. clear Hw Hs.
  assert (items ≡ₚ wd_pods (fl_world f)) as Hp by (apply Hitems; split; [done|by left]).
  set (part := livePartition (fl_sts f)) in *. set (rev := sst_UpdateRevision _).
  set (pods := omap rollout_pod items).
  assert (may_step f → pods = as_rollout_pod <$> items) as Hpods by (intros (_ & _ & _ & H & _);
    by apply (standing_pods (fl_world f))).
  destruct (rolloutNext part _ rev pods) as [next blocked] eqn:Hnext.
  destruct (Z.leb_spec part 0) as [Hle|Hgt].
  { apply (Hend _ _ _ (fl_sts f)); [done|apply setClusterCondition_clock|by eexists|]. apply Hstay.
    intros (_ & H & _). fold part in H. lia. }
  destruct (rollout_paused _) eqn:Hpause.
  { apply (Hend _ _ _ (fl_sts f)); [done|apply markBlocked_clock|by eexists|]. apply Hstay.
    intros (_ & _ & H & _). congruence. }
  destruct (rolloutNext_spec _ _ _ _ _ _ Hnext Hgt) as [Hgo Hwait].
  eapply (wp_bind_2 _ _ _ (λ b f', f' = f ∧ (b = "" → blocked = "" ∧ found_calm f pods) ∧ (may_step f → b = ""))).
  { destruct (String.eqb_spec blocked "") as [->|Hb].
    - eapply wp_bind_2; [apply clusterSettled_fleet; [done|apply rollout_pods_named]|].
intros b f' (-> & Hcalm & Hfound). apply wp_ret. split; [done|].
      split; [intros Hb; split; [done|]; by destruct b.1|].
      intros Hm. rewrite Hcalm; [done|]. rewrite (Hpods Hm). by apply standing_calm; [|apply Hm|].
    - apply wp_ret. split; [done|]. split; [done|]. intros Hm. destruct (Hwait Hb) as [_ Hno]. destruct Hno.
      rewrite (Hpods Hm). destruct Hm as (_ & _ & _ & Hst & Hc). apply standing_updated; try done. fold part. lia. }
  intros b f1 (-> & Hb1 & Hb2). destruct (String.eqb_spec b "") as [->|Hne]; cbn [negb].
  2: { apply (Hend _ _ _ (fl_sts f)); [done|apply markBlocked_clock|by eexists|]. apply Hstay. intros Hm.
  by apply Hne, Hb2. }
  destruct (Hb1 eq_refl) as [Hblocked (Hf1 & Hf2 & Hf3)]. destruct (Hgo Hblocked) as [-> Hall].
  destruct (found_ready _ _ Hi Hp Hf1 Hf2) as [Hready Hlive]. pose proof (updated_carry _ _ _ _ Hi Hp Hall) as Hcarry.
  destruct Hi as [(_ & Hsize & _) _ _]. unfold fl_cluster in Hpart.
  rewrite wrap32_id by (unfold in_int32, int32_min, int32_max; lia).
  unfold Patch. apply wp_call; [done|]. intros pr f1 [[Hok Hw] Hs]. cbn in Hs.
  assert (stepped f (fl_sts f1)) as Hst.
  { right. split; [by split|by rewrite Hs]. } destruct pr as [u|e]; [|by apply wp_ret].
  by apply (Hend _ _ _ (fl_sts f1)); [|apply setClusterCondition_clock|by eexists|].
Qed.

(** *** The pass *)
Lemma reads_no_sts a : reads a → no_sts a.
Proof. by destruct a. Qed.
Lemma trust_no_sts a : trust_calls a → no_sts a.
Proof. destruct a; cbn; try done; by intros ->. Qed.
Lemma scrape_no_sts c a : scrape_calls c a → no_sts a.
Proof. destruct a as [| | | | | |? ?|k ? ?| |]; cbn; try done; by destruct k. Qed.
Lemma status_no_sts c a : status_calls c a → no_sts a.
Proof. destruct a as [| | |k o| | | | | |]; cbn; try done. by destruct k. Qed.
Lemma wpf_stop_on (p : M (option error)) next Q f :
  footprint no_sts p (λ _, True) → wpw p (λ e w, e = None ∧ w = fl_world f) (fl_world f) → wpf next Q f →
  wpf (stop_on p next) Q f.
Proof. intros Hp Hw Hn. unfold stop_on. eapply wpf_keep_bind; [exact Hp|exact Hw|]. by intros e -> _. Qed.
Abbreviation done_again := (finish (requeue (10 * second))).
Let Hnode : ∀ p, node p ≠ "".
Proof. intros p Hp. pose proof (Hprint p) as [Hpre _]. by rewrite Hp in Hpre. Qed.
Lemma finish_cluster_fleet f :
  world_inv (fl_world f) → names_nodes node (fl_cluster f) → owned_sts (fl_cluster f) (fl_sts f) →
  (livePartition (fl_sts f) ≤ cl_Size (fl_cluster f))%Z →
  wpf (finish_cluster apiReader (fl_cluster f))
    (λ o f', o = done_again ∧ pass_post (fl_world f) (fl_world f') ∧ stepped f (fl_sts f')) f.
Proof.
  intros Hi Hnn Ho Hpart. unfold finish_cluster.
  eapply wp_bind_2.
  { apply wp_and; [|by apply reconcileRollout_fleet].
    apply wpf_world, wp_harmless. eapply fp_weaken; [apply rollout_harmless|apply reconcileRollout_fp]. }
  intros [c' e] f1 [[Hsame Hw] Hst]. cbn in Hsame. pose proof (same_cluster_security _ _ Hsame) as Hsec.
  apply same_cluster_spec in Hsame as [Hmeta Hspec]. cbn [fst].
  rewrite (reconcileScrapeObject_same (fl_cluster f) c') by done. unfold fl_cluster in *. rewrite <-Hw in *.
  apply wpf_stop_on.
  - unfold when_monitored. destruct (monitoringEnabled c'); [|by apply fp_ret].
    eapply fp_weaken; [apply scrape_no_sts|apply reconcileScrapeObject_fp].
  - unfold when_monitored. destruct (monitoringEnabled c'); [|by apply wp_ret].
    apply reconcileScrapeObject_world.
  - eapply wp_bind_2.
    { eapply (wpf_keep _ _ (λ _, True)); [|by apply updateClusterStatus_world].
      eapply fp_weaken; [apply status_no_sts|apply updateClusterStatus_fp]. }
    intros e1 f2 ([-> Hpost] & _ & Heq). apply wp_ret. by rewrite Heq.
Qed.
(** What becomes of the StatefulSet: the spec is applied, then the rollout goes on. *)
Definition sts_post (f : fleet) (sts' : StatefulSet) : Prop :=
  ∃ o, applied (fl_cluster f) (fl_sts f) o ∧ stepped (mkFleet (fl_world f) o) sts'.
Lemma reconcile_objects_fleet f :
  world_inv (fl_world f) → names_nodes node (fl_cluster f) → owned_sts (fl_cluster f) (fl_sts f) →
  wpf (reconcile_objects apiReader DefaultImage range_order (fl_cluster f))
    (λ o f', o = done_again ∧ pass_post (fl_world f) (fl_world f') ∧ sts_post f (fl_sts f')) f.
Proof.
  intros Hi Hnn Ho. pose proof (wi_sane _ Hi) as Hsane. unfold reconcile_objects.
  eapply wpf_keep_bind; [|apply (reconcileTLSCertificate_world node (fl_world f)); exact Hsane|].
  { unfold reconcileTLSCertificate. instantiate (1 := λ _, True). fp. }
  intros e -> _.
  eapply (wpf_keep_bind _ _ (λ _, True) (λ _, True)).
  { eapply fp_weaken; [apply trust_no_sts|apply reconcileTrustBundle_fp]. }
  { eapply wp_mono; [apply wp_harmless|by intros a w [_ ?]].
    eapply fp_weaken; [apply trust_harmless|apply reconcileTrustBundle_fp]. }
  intros e' _ _. apply wpf_stop_on.
  { unfold when_monitored. destruct (monitoringEnabled _); [unfold reconcileMonitoringConfigMap;
    fp|by apply fp_ret]. }
  { unfold when_monitored. destruct (monitoringEnabled _);
    [by apply reconcileMonitoringConfigMap_world|by apply wp_ret]. }
  eapply wp_bind_2; [by apply reconcileStatefulSet_fleet|]. intros e f1 (-> & Hw & Happ).
  assert (f1 = mkFleet (fl_world f) (fl_sts f1)) as Hf1 by (destruct f1; cbn in *; congruence).
  rewrite Hf1. clear Hf1. set (f2 := mkFleet _ _). change (fl_cluster f) with (fl_cluster f2) in *.
  apply wpf_stop_on; [unfold reconcileService; fp|by apply reconcileService_world|].
  apply wpf_stop_on; [unfold reconcilePodDisruptionBudget; fp|by apply reconcilePodDisruptionBudget_world|].
  eapply wp_mono; [apply finish_cluster_fleet; [done|done|apply Happ|]|].
  - destruct Happ as (Hsp & _). unfold livePartition. cbn [fl_sts f2]. rewrite Hsp. cbn. destruct Ho as (_ & Hu & _).
    unfold stsPartition. rewrite (proj2 (String.eqb_neq _ _) Hu). destruct (rolloutInProgress _); lia.
  - intros o f' (-> & Hpost & Hst). split; [done|]. split; [done|]. by exists (fl_sts f1).
Qed.
(** A write of the cluster that keeps it alike, in front of the rest of the pass. *)
Definition fl_with_cluster (f : fleet) (c : RiakCluster) : fleet :=
  mkFleet (wd_with_cluster (fl_world f) c) (fl_sts f).
Lemma alike_standing w c : alike (wd_cluster w) c → standing w → standing (wd_with_cluster w c).
Proof.
  intros Hc [[Hr Hl] Hlive Hring]. destruct (alike_names _ _ Hc) as [Hsl _]. destruct Hc as [Hspec _].
  split; [split|done|]; cbn in *; [done|by rewrite Hspec|by rewrite Hsl].
Qed.
Lemma alike_sym c c' : alike c c' → alike c' c.
Proof. destruct c as [[] ? ?], c' as [m ? ?]. intros [Hs [fs Hm]]. cbn in Hs, Hm. subst. split; [done|].
  by eexists. Qed.
Lemma sts_post_alike f c sts' :
  alike (fl_cluster f) c → sts_post (fl_with_cluster f c) sts' → sts_post f sts'.
Proof.
  intros Hc (o & (Hsp & Hst & Ho) & Hstep). exists o. unfold fl_cluster in *.
  cbn [fl_with_cluster fl_world fl_sts wd_with_cluster wd_cluster] in *.
  rewrite (sts_spec_alike _ _ _ Hc) in Hsp. split.
  { split; [done|]. split; [done|]. apply (owned_alike c); [by apply alike_sym|done]. }
  destruct Hstep as [[-> Hno]|[Hgo ->]].
  2: { right. split; [|done]. destruct Hc as [Hspec _]. destruct Hgo as [H1 H2 H3 [H4 H4'] H5 H6 H7].
    unfold fl_cluster, rollout_paused in *. cbn in *. rewrite Hspec in *. by split. }
  left. split; [done|]. intros (H1 & H2 & H3 & H4 & H5). apply Hno.
  split; [done|]. split; [done|]. unfold fl_cluster in *. cbn in *. split; [|split; [|done]].
  - unfold rollout_paused in *. destruct Hc as [Hspec _]. by rewrite Hspec.
  - by apply alike_standing.
Qed.
Lemma own_write_fleet f c (p : M (res RiakCluster)) g :
  alike (fl_cluster f) c → is_secured c = is_secured (fl_cluster f) → footprint no_sts p (λ _, True) →
  wpw p (λ r s', r = Ok c ∧ s' = wd_with_cluster (fl_world f) c) (fl_world f) →
  world_inv (fl_world f) → owned_sts (fl_cluster f) (fl_sts f) →
  (world_inv (wd_with_cluster (fl_world f) c) → owned_sts c (fl_sts f) →
   wpf (g (Ok c)) (λ o f', o = done_again ∧ pass_post (wd_with_cluster (fl_world f) c) (fl_world f') ∧
     sts_post (fl_with_cluster f c) (fl_sts f')) (fl_with_cluster f c)) →
  wpf (p ≫= g) (λ o f', o = done_again ∧ pass_post (fl_world f) (fl_world f') ∧ sts_post f (fl_sts f')) f.
Proof.
  intros Hc Hsec Hp Hw Hi Ho Hg. eapply wp_bind_2; [by apply wpf_keep|].
  intros r f1 ([-> Hf1] & _ & Hs1). assert (f1 = fl_with_cluster f c) as -> by (destruct f1; cbn in *; by subst).
  eapply wp_mono; [apply Hg; [by apply inv_alike|by eapply owned_alike]|].
  intros o f' (-> & Hpost & Hst). split; [done|]. split; [by eapply pass_alike|by eapply sts_post_alike].
Qed.
Lemma reconcile_live_fleet f :
  world_inv (fl_world f) → names_nodes node (fl_cluster f) → owned_sts (fl_cluster f) (fl_sts f) →
  wpf (u ← (if String.eqb (cst_Phase (cl_Status (fl_cluster f))) ""
            then StatusUpdate KCluster (cl_set_Phase (fl_cluster f) PhaseCreating)
            else mret (Ok (fl_cluster f)));
       match (u : res RiakCluster) with
       | Err e => mret (fails e)
       | Ok cluster => reconcile_objects apiReader DefaultImage range_order cluster
       end) (λ o f', o = done_again ∧ pass_post (fl_world f) (fl_world f') ∧ sts_post f (fl_sts f')) f.
Proof.
  intros Hi Hnn Ho.
  eapply (own_write_fleet f (if String.eqb (cst_Phase (cl_Status (fl_cluster f))) ""
                             then status_updated (fl_cluster f) (cl_set_Phase (fl_cluster f) PhaseCreating)
                             else fl_cluster f)); [| | | |done|done|].
  { destruct (String.eqb _ _); [apply alike_status|apply alike_refl]. }
  { by destruct (String.eqb _ _). }
  { destruct (String.eqb _ _); [|by apply fp_ret]. unfold StatusUpdate. fp. }
  { destruct (String.eqb _ _); [|apply wp_ret; unfold fl_cluster; by destruct (fl_world f)]. split; [done|].
    by intros r s' [-> ->]. }
  intros Hi2 Ho2. apply (reconcile_objects_fleet (fl_with_cluster f _)); [done| |done]. unfold fl_cluster.
  by destruct (String.eqb _ _).
Qed.
Lemma ReconcileCluster_fleet f :
  world_inv (fl_world f) → names_nodes node (fl_cluster f) → owned_sts (fl_cluster f) (fl_sts f) →
  wpf (ReconcileCluster apiReader DefaultImage range_order (cluster_key (fl_cluster f)))
    (λ o f', o = done_again ∧ pass_post (fl_world f) (fl_world f') ∧ sts_post f (fl_sts f')) f.
Proof.
  intros Hi Hnn Ho. unfold ReconcileCluster, Get. apply wp_call; [done|]. intros r f1 [[-> Hw] Hs]. cbn in Hw, Hs.
  assert (f1 = f) as -> by (destruct f1, f; cbn in *; congruence). clear Hw Hs. fold (fl_cluster f).
  pose proof (wi_sane _ Hi) as [Hdel _]. fold (fl_cluster f) in Hdel. rewrite Hdel, bool_decide_false by by intros [].
  eapply (own_write_fleet f (if ContainsFinalizer (om_Finalizers (cl_Meta (fl_cluster f))) riakClusterFinalizerName
                             then fl_cluster f else updated (fl_cluster f)
                               (cluster_finalizers AddFinalizer (fl_cluster f))));
    [| | | |done|done|].
  { destruct (ContainsFinalizer _ _); [apply alike_refl|]. split; [done|]. by eexists. }
  { by destruct (ContainsFinalizer _ _). }
  { destruct (ContainsFinalizer _ _); [by apply fp_ret|]. unfold Update. fp. }
  { destruct (ContainsFinalizer _ _); [apply wp_ret; unfold fl_cluster; by destruct (fl_world f)|].
    split; [done|]. by intros r s' [-> ->]. }
  intros Hi1 Ho1. apply (reconcile_live_fleet (fl_with_cluster f _)); [done| |done]. unfold fl_cluster.
  by destruct (ContainsFinalizer _ _).
Qed.
End fleet.
