(* ===== verification/Upgrade.v ===== *)
(** * A change of the spec reaches every node

    The operator, whose passes are those of [Fleet], and the StatefulSet controller as a
    transition system ([fleet_step]): the controller may make, replace or lose any pods, as far
    as the partition lets it, and may take its time to report; the operator may pass at any
    moment. [orderly] is what all of it preserves. *)
From S2P Require Import Prelude GoLib Effects Types Samples KubeTypes Kube KubeLib Footprint Status Executor ExecutorFacts Manager RiakEnv Membership Tls Trust TrustFacts Monitoring Rollout RolloutFacts BucketController StatefulSet StatefulSetFacts ClusterController Footprints ClusterFacts Convergence Fleet.

Abbreviation updateRev f := (sst_UpdateRevision (sts_Status (fl_sts f))).
Abbreviation currentRev f := (sst_CurrentRevision (sts_Status (fl_sts f))).
Abbreviation fl_pods f := (wd_pods (fl_world f)).
Abbreviation part f := (livePartition (fl_sts f)).

Section rounds.
Context `{L : KubeLib} `{HL : !KubeLibLaws L} `{X : GoX509}.
Context (apiReader : bool) (DefaultImage : string) (range_order : gmap string string → list string).
Context (node : string → string) `{!Inj (=) (=) node} (Hprint : ∀ p, printable (node p)).
Abbreviation wpf := (wp (fleet_env node)).

(** ** The system *)
(** The StatefulSet controller names the revision of a template. *)
Context (rev : PodTemplate → string) (Hrev : ∀ t, rev t ≠ "").
(** What the spec asks for, and what the stored StatefulSet does. *)
Definition target (c : RiakCluster) : string :=
  rev (pod_template DefaultImage (range_order (cs_RiakConfig (cl_Spec c))) c).
Definition wanted (f : fleet) : string := rev (ss_Template (sts_Spec (fl_sts f))).
Definition replicas (f : fleet) : Z := default 1%Z (ss_Replicas (sts_Spec (fl_sts f))).
Definition replica_names (name : string) (n : Z) : list string :=
  (λ i : nat, name +:+ "-" +:+ Itoa (Z.of_nat i)) <$> seq 0 (Z.to_nat n).
Definition all_carry (f : fleet) (r : string) : Prop := ∀ p, p ∈ fl_pods f → revision p = r.
Definition fl_with_pods (f : fleet) (ps : list Pod) : fleet :=
  mkFleet (mkWorld (fl_cluster f) ps (wd_ring (fl_world f))) (fl_sts f).
Definition fl_with_status (f : fleet) (cur upd : string) : fleet :=
  mkFleet (fl_world f) (mkStatefulSet (sts_Meta (fl_sts f)) (sts_Spec (fl_sts f)) (mkStatefulSetStatus cur upd)).
Definition fleet_pass (f : fleet) (o : outcome) (f' : fleet) : Prop :=
  ∃ tr, exec (fleet_env node) (ReconcileCluster apiReader DefaultImage range_order (cluster_key (fl_cluster f)))
          f tr o f'.
(** A pod is made from the current revision below the partition, and from the template above. *)
Definition pod_from (f : fleet) (p : Pod) : Prop :=
  (∃ q, q ∈ fl_pods f ∧ pod_Name q = pod_Name p ∧ revision q = revision p) ∨
  ∃ i, podOrdinal (pod_Name p) = Some i ∧ revision p = if (i <? part f)%Z then currentRev f else wanted f.
(** The controller reports the revision of the template; and takes it for the current one when
    every pod is of it. *)
Inductive fleet_step : fleet → fleet → Prop :=
| fs_pass f o f' : fleet_pass f o f' → fleet_step f f'
| fs_pods f ps :
    NoDup (pod_names ps) → pod_names ps ⊆ replica_names (cl_Name (fl_cluster f)) (replicas f) →
    (∀ p, p ∈ ps → pod_from f p) → fleet_step f (fl_with_pods f ps)
| fs_observe f cur :
    cur = currentRev f ∨ cur = wanted f ∧ all_carry f (wanted f) →
    fleet_step f (fl_with_status f cur (wanted f)).

(** The operator can work with it. *)
Record seated (f : fleet) : Prop := {
  se_healthy : healthy node (fl_world f);
  se_owned : owned_sts (fl_cluster f) (fl_sts f);
  se_part : (0 ≤ part f ≤ cl_Size (fl_cluster f))%Z;
  se_update : updateRev f ≠ ""
}.
(** Pods below the partition are of the current revision; and when no update is reported, or
    none is asked for, every pod is. *)
Record orderly (f : fleet) : Prop := {
  or_seated : seated f;
  or_replicas : (replicas f ≤ cl_Size (fl_cluster f))%Z;
  or_names : world_names (fl_world f) ⊆ replica_names (cl_Name (fl_cluster f)) (replicas f);
  or_below p i : p ∈ fl_pods f → podOrdinal (pod_Name p) = Some i → (i < part f)%Z → revision p = currentRev f;
  or_idle : updateRev f = currentRev f → all_carry f (currentRev f) ∧
    ((replicas f ≤ part f)%Z ∨ wanted f = currentRev f);
  or_wanted : wanted f = currentRev f → all_carry f (currentRev f);
  or_goal : target (fl_cluster f) ≠ currentRev f ∨ wanted f = currentRev f
}.

Lemma or_healthy f : orderly f → healthy node (fl_world f).
Proof. intros Ht. apply Ht. Qed.
Lemma or_owned f : orderly f → owned_sts (fl_cluster f) (fl_sts f).
Proof. intros Ht. apply Ht. Qed.
Lemma or_part f : orderly f → (0 ≤ part f ≤ cl_Size (fl_cluster f))%Z.
Proof. intros Ht. apply Ht. Qed.
Lemma or_update f : orderly f → updateRev f ≠ "".
Proof. intros Ht. apply Ht. Qed.
Lemma in_progress f :
  updateRev f ≠ "" → rolloutInProgress (fl_sts f) = negb (String.eqb (updateRev f) (currentRev f)).
Proof. intros Hu. unfold rolloutInProgress. by rewrite (proj2 (String.eqb_neq _ _) Hu). Qed.
Lemma target_alike c c' : alike c c' → target c' = target c.
Proof. destruct c as [[] ? ?], c' as [m ? ?]. intros [Hs [fs Hm]]. cbn in Hs, Hm. by subst. Qed.
Lemma replica_slots c : replica_names (cl_Name c) (cl_Size c) = slots c.
Proof. done. Qed.
Lemma replica_ordinal name n p i : (n ≤ 999)%Z → p ∈ replica_names name n → podOrdinal p = Some i → (0 ≤ i < n)%Z.
Proof.
  intros Hn (j & -> & Hj%elem_of_seq)%list_elem_of_fmap. rewrite podOrdinal_name; [|lia|].
  - intros [= <-]. lia.
  - unfold in_int32, int32_min, int32_max. lia.
Qed.
Lemma replica_some name n p : (n ≤ 999)%Z → p ∈ replica_names name n → is_Some (podOrdinal p).
Proof.
  intros Hn (j & -> & Hj%elem_of_seq)%list_elem_of_fmap. rewrite podOrdinal_name; [by eexists|lia|].
  unfold in_int32, int32_min, int32_max. lia.
Qed.

(** *** A pass *)
Record sts_passed (f : fleet) (sts' : StatefulSet) : Prop := {
  sp_owned : owned_sts (fl_cluster f) sts';
  sp_status : sts_Status sts' = sts_Status (fl_sts f);
  sp_template : rev (ss_Template (sts_Spec sts')) = target (fl_cluster f);
  sp_replicas : ss_Replicas (sts_Spec sts') = Some (cl_Size (fl_cluster f));
  sp_part : (0 ≤ livePartition sts' ≤ cl_Size (fl_cluster f))%Z;
  sp_idle : rolloutInProgress (fl_sts f) = false → livePartition sts' = cl_Size (fl_cluster f);
  sp_down : rolloutInProgress (fl_sts f) = true → (livePartition sts' ≤ part f)%Z;
  sp_next : may_step f → livePartition sts' = (part f - 1)%Z;
  sp_careful : rolloutInProgress (fl_sts f) = true → livePartition sts' = part f ∨
    livePartition sts' = (part f - 1)%Z ∧ careful f
}.
Lemma sts_post_passed f sts' : seated f → sts_post DefaultImage range_order f sts' → sts_passed f sts'.
Proof.
  intros Ht. destruct (se_owned _ Ht) as (_ & Hu & _). pose proof (se_part _ Ht) as Hp.
  intros (o & (Hsp & Hst & Ho) & Hstep).
  assert (livePartition o = stsPartition (fl_sts f) (cl_Size (fl_cluster f))) as Hl.
  { unfold livePartition. by rewrite Hsp. }
  unfold stsPartition in Hl. rewrite (proj2 (String.eqb_neq _ _) Hu), Z.min_l in Hl by lia.
  assert (rolloutInProgress o = rolloutInProgress (fl_sts f)) as Hpr by (unfold rolloutInProgress; by rewrite Hst).
  destruct Hstep as [[-> Hno]|[Hca ->]]; cbn [fl_sts] in *.
  - split; [done|done|by rewrite Hsp|by rewrite Hsp|..].
    + rewrite Hl. destruct (rolloutInProgress (fl_sts f)); lia.
    + intros H. by rewrite Hl, H.
    + intros H. rewrite Hl, H. lia.
    + intros Hm. destruct Hno. destruct Hm as (H1 & H2 & H3 & H4 & H5). unfold may_step.
      cbn [fl_sts fl_world fl_cluster]. by rewrite Hpr, Hl, Hst, H1.
    + intros H. left. by rewrite Hl, H.
  - pose proof (ca_progress _ Hca) as Hprog. pose proof (ca_positive _ Hca) as Hpos. cbn [fl_sts] in Hprog, Hpos.
    rewrite Hpr in Hprog. rewrite Hprog in Hl.
    assert (livePartition (set_partition o (livePartition o - 1)) = (part f - 1)%Z) as Hl'.
    { unfold livePartition in *. cbn. by rewrite Hl. }
    split; [exact Ho|done|cbn; by rewrite Hsp|cbn; by rewrite Hsp|..]; rewrite ?Hl'; [lia|congruence|lia|done|].
    intros _. right. split; [done|]. destruct Hca as [_ H1 H2 H3 H4 H5 H6]. unfold fl_cluster in *. cbn in *.
    rewrite Hl in *. rewrite Hst in *. by split.
Qed.
Lemma fleet_wp f : seated f →
  wpf (ReconcileCluster apiReader DefaultImage range_order (cluster_key (fl_cluster f)))
    (λ _ f', pass_post (fl_world f) (fl_world f') ∧ sts_passed f (fl_sts f')) f.
Proof.
  intros Ht. destruct (se_healthy _ Ht) as (Hi & _ & Hnn).
  eapply wp_mono; [by apply ReconcileCluster_fleet, Ht|]. intros o f' (_ & Hpost & Hst).
  split; [done|by apply sts_post_passed].
Qed.
Lemma fleet_pass_post f o f' :
  seated f → fleet_pass f o f' → pass_post (fl_world f) (fl_world f') ∧ sts_passed f (fl_sts f').
Proof. intros Ht [tr Hex]. by apply (wp_exec _ _ _ _ _ _ _ (fleet_wp f Ht) Hex). Qed.
Lemma fleet_pass_exists f : seated f → ∃ o f', fleet_pass f o f'.
Proof.
  intros Ht. destruct (wp_runs (fleet_env node) _ _ f (fleet_total node Hprint) (fleet_wp f Ht))
    as (tr & o & f' & Hex & _). by exists o, f', tr.
Qed.

(** *** What is preserved *)
Lemma pass_seated f o f' : seated f → fleet_pass f o f' → seated f'.
Proof.
  intros Ht Hpass. destruct (fleet_pass_post _ _ _ Ht Hpass) as [Hpost Hsts].
  pose proof (pp_cluster _ _ Hpost) as Hc. fold (fl_cluster f) (fl_cluster f') in Hc. split.
  - eapply healthy_pass; [apply Ht|exact Hpost].
  - eapply owned_alike; [exact Hc|apply Hsts].
  - rewrite (proj1 Hc). apply Hsts.
  - rewrite (sp_status _ _ Hsts). apply Ht.
Qed.
Lemma pods_seated f ps :
  seated f → (replicas f ≤ cl_Size (fl_cluster f))%Z → NoDup (pod_names ps) →
  pod_names ps ⊆ replica_names (cl_Name (fl_cluster f)) (replicas f) → seated (fl_with_pods f ps).
Proof.
  intros Ht Hrep Hnd Hsub. split; try apply Ht.
  eapply (healthy_step apiReader DefaultImage range_order node Hprint); [apply Ht|]. apply ws_pods; [done|].
  intros q Hq%Hsub. unfold replica_names, slots in *. apply list_elem_of_fmap in Hq as (j & -> & Hj%elem_of_seq).
  apply list_elem_of_fmap. exists j. split; [done|]. apply elem_of_seq. unfold fl_cluster in *. lia.
Qed.
Lemma observe_seated f cur : seated f → seated (fl_with_status f cur (wanted f)).
Proof. intros Ht. split; try apply Ht. apply Hrev. Qed.
Lemma edit_seated f c : seated f → edited (fl_cluster f) c → seated (fl_with_cluster f c).
Proof.
  intros Ht He. pose proof He as (Hname & Hns & Huid & _ & Heph & Hsize).
  destruct (se_owned _ Ht) as (Ho & Hu & Hm). pose proof (se_part _ Ht).
  split; try apply Ht; unfold fl_cluster in *; cbn [fl_with_cluster fl_world fl_sts wd_with_cluster wd_cluster].
  - eapply (healthy_step apiReader DefaultImage range_order node Hprint); [apply Ht|by apply ws_edit].
  - split; [|split; [done|by rewrite Heph]]. destruct Ho as [H1 H2]. split; [congruence|]. intros r Hr Hc.
    specialize (H2 r Hr Hc). unfold controlled_by in *. by rewrite Hname, Huid.
  - lia.
Qed.
Lemma pass_orderly f o f' : orderly f → fleet_pass f o f' → orderly f'.
Proof.
  intros Ht Hpass. destruct (fleet_pass_post _ _ _ (or_seated _ Ht) Hpass) as [Hpost Hsts].
  pose proof (pp_cluster _ _ Hpost) as Hc. fold (fl_cluster f) (fl_cluster f') in Hc.
  pose proof (healthy_pass _ _ _ (or_healthy _ Ht) Hpost) as Hh.
  assert (cl_Size (fl_cluster f') = cl_Size (fl_cluster f)) as Hsize by by rewrite (proj1 Hc).
  assert (cl_Name (fl_cluster f') = cl_Name (fl_cluster f)) as Hname.
  { destruct Hc as [_ [fs Hm]]. by rewrite Hm. }
  assert (replicas f' = cl_Size (fl_cluster f)) as Hrep by (unfold replicas; by rewrite (sp_replicas _ _ Hsts)).
  assert (fl_pods f' = fl_pods f) as Hpods by apply Hpost.
  assert (wanted f' = target (fl_cluster f)) as Hw by apply Hsts.
  pose proof (in_progress _ (or_update _ Ht)) as Hprog.
  split.
  - eapply pass_seated; [apply Ht|exact Hpass].
  - lia.
  - rewrite Hrep, Hname, replica_slots. destruct Hh as ([_ [_ Hsub] _] & _). fold (fl_cluster f') in Hsub.
    by rewrite (proj1 (alike_names _ _ Hc)) in Hsub.
  - rewrite Hpods, (sp_status _ _ Hsts). intros p i Hp Ho Hlt.
    destruct (rolloutInProgress (fl_sts f)) eqn:Hpr.
    + pose proof (sp_down _ _ Hsts Hpr). apply (or_below _ Ht p i); [done|done|lia].
    + symmetry in Hprog. apply negb_false_iff, String.eqb_eq in Hprog. by apply (or_idle _ Ht Hprog).
  - unfold all_carry. rewrite Hpods, (sp_status _ _ Hsts). intros Hidle.
    split; [by apply (or_idle _ Ht Hidle)|]. left.
    rewrite Hrep, (sp_idle _ _ Hsts); [done|]. by rewrite Hprog, Hidle, String.eqb_refl.
  - unfold all_carry. rewrite Hpods, Hw, (sp_status _ _ Hsts). intros Hgoal.
    destruct (or_goal _ Ht) as [|Hwc]; [done|]. by apply (or_wanted _ Ht).
  - rewrite Hw, (sp_status _ _ Hsts), (target_alike _ _ Hc).
    destruct (decide (target (fl_cluster f) = currentRev f)); auto.
Qed.
Lemma pods_orderly f ps :
  orderly f → NoDup (pod_names ps) → pod_names ps ⊆ replica_names (cl_Name (fl_cluster f)) (replicas f) →
  (∀ p, p ∈ ps → pod_from f p) → orderly (fl_with_pods f ps).
Proof.
  intros Ht Hnd Hsub Hfrom. pose proof (or_replicas _ Ht) as Hrep. pose proof (or_healthy _ Ht) as Hh.
  destruct (or_healthy _ Ht) as ([(_ & Hsize & _) _ _] & _). fold (fl_cluster f) in Hsize.
  assert (∀ p i, p ∈ ps → podOrdinal (pod_Name p) = Some i → (0 ≤ i < replicas f)%Z) as Hord.
  { intros p i Hp Ho. eapply (replica_ordinal _ _ (pod_Name p)); [|apply Hsub, name_in, Hp|exact Ho]. lia. }
  split; try apply Ht; cbn [fl_with_pods fl_world fl_sts wd_pods].
  - by apply pods_seated; [apply Ht|..].
  - exact Hsub.
  - intros p i Hp Ho Hlt. destruct (Hfrom p Hp) as [(q & Hq & Hn & <-)|(j & Hj & ->)].
    + apply (or_below _ Ht q i); [done|by rewrite Hn|done].
    + assert (j = i) as -> by congruence. by rewrite (proj2 (Z.ltb_lt _ _)).
  - intros Hidle. destruct (or_idle _ Ht Hidle) as [Hall Hor]. split; [|done]. intros p Hp.
    destruct (Hfrom p Hp) as [(q & Hq & _ & <-)|(j & Hj & ->)]; [by apply Hall|].
    destruct (Z.ltb_spec j (part f)) as [|Hge]; [done|]. destruct Hor as [Hle|Hw]; [|done].
    specialize (Hord p j Hp Hj). lia.
  - intros Hw p Hp. destruct (Hfrom p Hp) as [(q & Hq & _ & <-)|(j & Hj & ->)]; [by apply (or_wanted _ Ht)|].
    by destruct (j <? part f)%Z.
Qed.
Lemma observe_orderly f cur :
  orderly f → cur = currentRev f ∨ cur = wanted f ∧ all_carry f (wanted f) →
  orderly (fl_with_status f cur (wanted f)).
Proof.
  intros Ht Hcur.
  destruct Hcur as [->|[-> Hall]]; (split; try apply Ht;
    cbn [fl_with_status fl_world fl_sts sts_Status sst_CurrentRevision sst_UpdateRevision]).
  - apply observe_seated, Ht.
  - intros Hw. split; [by apply (or_wanted _ Ht)|by right].
  - apply observe_seated, Ht.
  - intros p i Hp _ _. by apply Hall.
  - intros _. split; [done|by right].
  - done.
  - by right.
Qed.
Lemma step_orderly f f' : orderly f → fleet_step f f' → orderly f'.
Proof.
  intros Ht Hst. revert Ht. destruct Hst as [f1 o f2 Hpass|f1 ps Hnd Hsub Hfrom|f1 cur Hcur]; intros Ht;
    [by eapply pass_orderly|by apply pods_orderly|by apply observe_orderly].
Qed.
Lemma steps_orderly f f' : orderly f → rtc fleet_step f f' → orderly f'.
Proof. intros Ht Hr. induction Hr; [done|]. eauto using step_orderly. Qed.
(** An edit, unless it changes the spec back while pods are still of something else. *)
Lemma orderly_edited f c :
  orderly f → edited (fl_cluster f) c → (target c = currentRev f → wanted f = currentRev f) →
  orderly (fl_with_cluster f c).
Proof.
  intros Ht He Hrevert. pose proof He as (Hname & Hns & Huid & _ & Heph & Hsize).
  pose proof (or_replicas _ Ht).
  split; try apply Ht; unfold fl_cluster in *; cbn [fl_with_cluster fl_world fl_sts wd_with_cluster wd_cluster].
  - apply edit_seated; [apply Ht|done].
  - change (replicas (fl_with_cluster f c)) with (replicas f). lia.
  - intros q Hq. rewrite Hname. by apply (or_names _ Ht).
  - destruct (decide (target c = currentRev f)); auto.
Qed.

(** ** Rounds *)
(** The StatefulSet controller has come to rest: every replica is up, those from the partition
    on are of the template, and it has reported all of it. *)
Record quiet (f : fleet) : Prop := {
  qu_names : world_names (fl_world f) ≡ₚ replica_names (cl_Name (fl_cluster f)) (replicas f);
  qu_up : Forall (λ p, podIsReady p = true ∧ om_DeletionTimestamp (pod_Meta p) = None) (fl_pods f);
  qu_above : carry (fl_pods f) (part f) (updateRev f);
  qu_update : updateRev f = wanted f;
  qu_over : all_carry f (updateRev f) → currentRev f = updateRev f
}.
(** Any steps of either, a moment of rest, and a pass of the operator that finds it. *)
Definition round (f f' : fleet) : Prop :=
  ∃ f1 o, rtc fleet_step f f1 ∧ quiet f1 ∧ fleet_pass f1 o f'.
(** Every node runs what the spec asks for. *)
Record upgraded (f : fleet) : Prop := {
  up_pods : world_names (fl_world f) ≡ₚ slots (fl_cluster f);
  up_revision : Forall (λ p, podIsReady p = true ∧ revision p = target (fl_cluster f)) (fl_pods f);
  up_set : currentRev f = target (fl_cluster f) ∧ updateRev f = target (fl_cluster f);
  up_phase : cst_Phase (cl_Status (fl_cluster f)) = PhaseReady;
  up_ring : rg_members (wd_ring (fl_world f)) ≡ₚ slots (fl_cluster f) ∧ rg_staged (wd_ring (fl_world f)) = []
}.

(** *** There is always a next round *)
Definition rev_pod (name r : string) : Pod :=
  mkPod (with_labels (new_meta name "") {[statefulSetRevisionLabel := r]}) PodRunning
    [mkPodCondition PodReady ConditionTrue] [].
Lemma rev_pod_revision name r : revision (rev_pod name r) = r.
Proof.
  change (default "" (({[statefulSetRevisionLabel := r]} : gmap string string) !! statefulSetRevisionLabel) = r).
  by rewrite lookup_singleton_eq.
Qed.
Definition rev_pods (name : string) (n : Z) (f : Z → string) : list Pod :=
  (λ i : nat, rev_pod (name +:+ "-" +:+ Itoa (Z.of_nat i)) (f (Z.of_nat i))) <$> seq 0 (Z.to_nat n).
Lemma rev_pods_names name n f : pod_names (rev_pods name n f) = replica_names name n.
Proof. unfold pod_names, rev_pods, replica_names. by rewrite <-list_fmap_compose. Qed.
Lemma rev_pods_in name n f p i :
  (n ≤ 999)%Z → p ∈ rev_pods name n f → podOrdinal (pod_Name p) = Some i → revision p = f i.
Proof.
  intros Hn (j & -> & Hj%elem_of_seq)%list_elem_of_fmap Ho. rewrite rev_pod_revision.
  change (podOrdinal (name +:+ "-" +:+ Itoa (Z.of_nat j)) = Some i) in Ho.
  rewrite podOrdinal_name in Ho; [congruence|lia|]. unfold in_int32, int32_min, int32_max. lia.
Qed.
Lemma replica_names_NoDup name n : NoDup (replica_names name n).
Proof.
  unfold replica_names. apply NoDup_fmap; [|apply NoDup_seq].
  intros i j He%(inj (String.append _))%(inj (String.append _))%(inj pretty). lia.
Qed.
(** Every pod made again, and reported. *)
Definition rested (f : fleet) : fleet :=
  let ps := rev_pods (cl_Name (fl_cluster f)) (replicas f)
    (λ i, if (i <? part f)%Z then currentRev f else wanted f) in
  let f1 := fl_with_pods f ps in
  fl_with_status f1 (if bool_decide (Forall (λ p, revision p = wanted f) ps) then wanted f else currentRev f)
    (wanted f).
Lemma rested_quiet f : orderly f → rtc fleet_step f (rested f) ∧ quiet (rested f).
Proof.
  intros Ht. destruct (or_healthy _ Ht) as ([(_ & Hsize & _) _ _] & _). fold (fl_cluster f) in Hsize.
  pose proof (or_replicas _ Ht) as Hrep.
  set (g := λ i, if (i <? part f)%Z then currentRev f else wanted f).
  set (ps := rev_pods (cl_Name (fl_cluster f)) (replicas f) g).
  assert (∀ p i, p ∈ ps → podOrdinal (pod_Name p) = Some i → revision p = g i) as Hg.
  { intros p i. apply rev_pods_in. lia. }
  assert (∀ p, p ∈ ps → is_Some (podOrdinal (pod_Name p))) as Hsome.
  { intros p Hp%name_in. unfold ps in Hp. rewrite rev_pods_names in Hp. eapply replica_some; [|exact Hp]. lia. }
  split.
  - eapply rtc_l; [apply (fs_pods f ps)|].
    + unfold ps. rewrite rev_pods_names. apply replica_names_NoDup.
    + unfold ps. by rewrite rev_pods_names.
    + intros p Hp. right. destruct (Hsome p Hp) as [i Hi]. exists i. split; [done|by apply Hg].
    + apply rtc_once. apply (fs_observe (fl_with_pods f ps)).
      case_bool_decide as Hall; [right|by left]. split; [done|]. rewrite Forall_forall in Hall. exact Hall.
  - split; cbn.
    + unfold world_names. cbn. by rewrite rev_pods_names.
    + apply Forall_fmap, Forall_forall. by intros j _.
    + intros p i Hp Ho Hi. change (revision p = wanted f). rewrite (Hg p i Hp Ho). unfold g.
      destruct (Z.ltb_spec i (part f)); [|done]. change (part f ≤ i)%Z in Hi. lia.
    + done.
    + intros Hall. rewrite bool_decide_true; [done|]. apply Forall_forall. exact Hall.
Qed.
Lemma round_orderly f f' : orderly f → round f f' → orderly f'.
Proof. intros Ht (f1 & o & Hr & _ & Hpass). eapply pass_orderly; [|exact Hpass]. by eapply steps_orderly. Qed.
Lemma rounds_exist n f : orderly f → ∃ f', nsteps round n f f'.
Proof.
  revert f. induction n as [|n IH]; intros f Ht; [by exists f; constructor|].
  destruct (rested_quiet f Ht) as [Hr Hq]. pose proof (steps_orderly _ _ Ht Hr) as Ht1.
  destruct (fleet_pass_exists _ (or_seated _ Ht1)) as (o & f1 & Hpass).
  assert (round f f1) as Hround by by exists (rested f), o.
  destruct (IH f1) as (f' & Hn); [by apply (round_orderly f)|]. exists f'. by econstructor.
Qed.

(** *** Node by node *)
(** The spec has been applied: no step undoes it. *)
Definition asked (f : fleet) : Prop := wanted f = target (fl_cluster f) ∧ replicas f = cl_Size (fl_cluster f).
(** The nodes that are still to be restarted. *)
Definition left_over (f : fleet) : nat :=
  if decide (currentRev f = target (fl_cluster f)) then 0 else Z.to_nat (part f).
Definition whole_ring (f : fleet) : Prop := rg_members (wd_ring (fl_world f)) ≡ₚ slots (fl_cluster f).
Lemma pass_asked f o f' : seated f → fleet_pass f o f' → asked f'.
Proof.
  intros Ht Hpass. destruct (fleet_pass_post _ _ _ Ht Hpass) as [Hpost Hsts].
  pose proof (pp_cluster _ _ Hpost) as Hc. fold (fl_cluster f) (fl_cluster f') in Hc. split.
  - rewrite (target_alike _ _ Hc). apply Hsts.
  - unfold replicas. rewrite (sp_replicas _ _ Hsts). cbn. by rewrite (proj1 Hc).
Qed.
Lemma pass_whole f o f' : seated f → whole_ring f → fleet_pass f o f' → whole_ring f'.
Proof.
  intros Ht Hw Hpass. destruct (fleet_pass_post _ _ _ Ht Hpass) as [Hpost _]. unfold whole_ring, fl_cluster in *.
  rewrite (pp_members _ _ Hpost), (proj1 (alike_names _ _ (pp_cluster _ _ Hpost))).
  assert (joins (fl_world f) = []) as ->; [|by rewrite app_nil_r]. apply elem_of_nil_inv.
  intros p [Hin Hout]%joins_members. apply Hout. rewrite Hw.
  destruct (se_healthy _ Ht) as ([_ [_ Hsub] _] & _). by apply Hsub.
Qed.
Lemma pass_left f o f' : orderly f → asked f → fleet_pass f o f' → left_over f' ≤ left_over f.
Proof.
  intros Ht [Hw Hrep] Hpass. destruct (fleet_pass_post _ _ _ (or_seated _ Ht) Hpass) as [Hpost Hsts].
  pose proof (pp_cluster _ _ Hpost) as Hc. fold (fl_cluster f) (fl_cluster f') in Hc.
  unfold left_over. rewrite (sp_status _ _ Hsts), (target_alike _ _ Hc). case_decide as Hd; [done|].
  destruct (rolloutInProgress (fl_sts f)) eqn:Hpr; [pose proof (sp_down _ _ Hsts Hpr); lia|].
  pose proof (sp_idle _ _ Hsts Hpr). rewrite (in_progress _ (or_update _ Ht)) in Hpr.
  apply negb_false_iff, String.eqb_eq in Hpr. destruct (or_idle _ Ht Hpr) as [_ [Hle|]]; [lia|congruence].
Qed.
(** What the rest of the run keeps. *)
Lemma step_kept f f' :
  orderly f → fleet_step f f' →
  alike (fl_cluster f) (fl_cluster f') ∧ (whole_ring f → whole_ring f') ∧
  (asked f → asked f' ∧ left_over f' ≤ left_over f).
Proof.
  intros Ht Hst. revert Ht. destruct Hst as [f o f' Hpass|f ps Hnd Hsub Hfrom|f cur Hcur]; intros Ht.
  - destruct (fleet_pass_post _ _ _ (or_seated _ Ht) Hpass) as [Hpost _]. split; [apply Hpost|].
    split; [intros Hw; eapply pass_whole; [apply Ht|done..]|]. intros Ha.
    split; [eapply pass_asked; [apply Ht|done]|by eapply pass_left].
  - split; [apply alike_refl|]. by split.
  - split; [apply alike_refl|]. split; [done|]. intros Ha. split; [done|]. unfold left_over.
    change (currentRev (fl_with_status f cur (wanted f))) with cur.
    change (fl_cluster (fl_with_status f cur (wanted f))) with (fl_cluster f).
    destruct Hcur as [->|[-> _]]; [done|]. rewrite (decide_True _ _ (proj1 Ha)). lia.
Qed.
Lemma steps_kept f f' :
  orderly f → rtc fleet_step f f' →
  alike (fl_cluster f) (fl_cluster f') ∧ (whole_ring f → whole_ring f') ∧
  (asked f → asked f' ∧ left_over f' ≤ left_over f).
Proof.
  intros Ht Hr. induction Hr as [f|f1 f2 f3 Hst _ IH]; [by split; [apply alike_refl|]|].
  destruct (step_kept _ _ Ht Hst) as (H1 & H2 & H3). destruct IH as (H4 & H5 & H6); [by eapply step_orderly|].
  split; [by eapply alike_trans|]. split; [auto|]. intros Ha. destruct (H3 Ha) as [Ha' Hle].
  destruct (H6 Ha') as [Ha3 Hle']. split; [done|lia].
Qed.
Lemma quiet_ready f : seated f → asked f → quiet f → pods_ready (fl_world f).
Proof.
  intros Ht [_ Hrep] Hq. destruct (se_healthy _ Ht) as ([(_ & Hsize & _) _ _] & _).
  pose proof (Permutation_length (qu_names _ Hq)) as Hl. unfold world_names, pod_names in Hl.
  rewrite length_fmap in Hl.
  split; [eapply Forall_impl; [apply Hq|by intros p []]|]. rewrite Hl, Hrep. unfold replica_names.
  rewrite length_fmap, length_seq. unfold fl_cluster in *. lia.
Qed.
Record on_way (f : fleet) : Prop := { ow_orderly : orderly f; ow_asked : asked f; ow_ring : whole_ring f }.
Lemma round_asks f f' : orderly f → round f f' → orderly f' ∧ asked f' ∧ alike (fl_cluster f) (fl_cluster f').
Proof.
  intros Ht Hround. pose proof Hround as (f1 & o & Hr & Hq & Hpass). pose proof (steps_orderly _ _ Ht Hr) as Ht1.
  split; [by apply (round_orderly f)|]. split; [by apply (pass_asked f1 o); [apply Ht1|]|].
  eapply alike_trans; [apply (steps_kept _ _ Ht Hr)|]. apply (fleet_pass_post _ _ _ (or_seated _ Ht1) Hpass).
Qed.
Lemma round_forms f f' : orderly f → asked f → round f f' → on_way f'.
Proof.
  intros Ht Ha Hround. pose proof Hround as (f1 & o & Hr & Hq & Hpass). pose proof (steps_orderly _ _ Ht Hr) as Ht1.
  destruct (round_asks _ _ Ht Hround) as (Ht' & Ha' & _). split; [done|done|].
  destruct (steps_kept _ _ Ht Hr) as (_ & _ & Hk). destruct (Hk Ha) as [Ha1 _].
  destruct (fleet_pass_post _ _ _ (or_seated _ Ht1) Hpass) as [Hpost _]. unfold whole_ring, fl_cluster.
  rewrite (pp_members _ _ Hpost), (complete_after node); [|apply Ht1|by apply quiet_ready; [apply Ht1|..]].
  by rewrite (proj1 (alike_names _ _ (pp_cluster _ _ Hpost))).
Qed.
(** A node of the update at rest that is not over is one the operator may go on from. *)
Lemma quiet_may_step f :
  on_way f → quiet f → rollout_paused (fl_cluster f) = false → currentRev f ≠ target (fl_cluster f) → may_step f.
Proof.
  intros [Ht Ha Hw] Hq Hpause Hcur. pose proof (qu_update _ Hq) as Hu. rewrite (proj1 Ha) in Hu.
  assert (updateRev f ≠ currentRev f) as Hne by congruence.
  split; [|split; [|split; [done|split; [|apply Hq]]]].
  - rewrite in_progress by apply Ht. by rewrite (proj2 (String.eqb_neq _ _)).
  - destruct (Z.ltb_spec 0 (part f)) as [|Hle]; [done|]. destruct Hne. symmetry. apply (qu_over _ Hq). intros p Hp.
    destruct (or_healthy _ Ht) as ([(_ & Hsize & _) [_ Hsub] _] & _).
    destruct (slot_ordinal _ _ Hsize (Hsub _ (name_in _ _ Hp))) as (i & _ & Hi & _).
    apply (qu_above _ Hq p _ Hp Hi). lia.
  - split; [by apply quiet_ready; [apply Ht|..]|eapply Forall_impl; [apply Hq|by intros p []]|exact Hw].
Qed.
Lemma round_restarts f f' :
  on_way f → rollout_paused (fl_cluster f) = false → round f f' → on_way f' ∧ left_over f' ≤ left_over f - 1.
Proof.
  intros [Ht Ha Hw] Hpause Hround. pose proof Hround as (f1 & o & Hr & Hq & Hpass).
  pose proof (steps_orderly _ _ Ht Hr) as Ht1. destruct (steps_kept _ _ Ht Hr) as (Hc & Hk1 & Hk2).
  destruct (Hk2 Ha) as [Ha1 Hle]. specialize (Hk1 Hw). split; [by apply (round_forms f)|].
  pose proof (pass_left _ _ _ Ht1 Ha1 Hpass) as Hle'. unfold left_over at 2 in Hle'. unfold left_over at 1 in Hle.
  case_decide as Hcur; [lia|].
  assert (may_step f1) as Hmay.
  { apply quiet_may_step; [by split|done| |done]. unfold rollout_paused in *. by rewrite (proj1 Hc). }
  destruct (fleet_pass_post _ _ _ (or_seated _ Ht1) Hpass) as [_ Hsts]. unfold left_over at 1.
  rewrite (sp_next _ _ Hsts Hmay).
  case_decide; lia.
Qed.
Lemma restarts n f f' :
  on_way f → rollout_paused (fl_cluster f) = false → nsteps round n f f' →
  on_way f' ∧ alike (fl_cluster f) (fl_cluster f') ∧ left_over f' ≤ left_over f - n.
Proof.
  intros Hg Hpause Hn. revert Hg Hpause. induction Hn as [f|n f1 f2 f3 Hround _ IH]; intros Hg Hpause.
  { split; [done|]. split; [apply alike_refl|lia]. }
  destruct (round_restarts _ _ Hg Hpause Hround) as [Hg2 Hle].
  destruct (round_asks _ _ (ow_orderly _ Hg) Hround) as (_ & _ & Hc). destruct (IH Hg2) as (H1 & H2 & H3).
  { unfold rollout_paused in *. by rewrite (proj1 Hc). }
  split; [done|]. split; [by eapply alike_trans|lia].
Qed.
Lemma round_upgraded f f' : on_way f → left_over f = 0 → round f f' → upgraded f'.
Proof.
  intros [Ht Ha Hw] Hzero Hround. pose proof Hround as (f1 & o & Hr & Hq & Hpass).
  pose proof (steps_orderly _ _ Ht Hr) as Ht1. destruct (steps_kept _ _ Ht Hr) as (Hc1 & Hk1 & Hk2).
  destruct (Hk2 Ha) as [Ha1 Hle]. specialize (Hk1 Hw). pose proof (quiet_ready _ (or_seated _ Ht1) Ha1 Hq) as Hready.
  destruct (or_healthy _ Ht1) as (Hi & _). pose proof (ready_names _ Hi Hready) as Hn.
  assert (currentRev f1 = target (fl_cluster f1)) as Hcur.
  { destruct (decide (currentRev f1 = target (fl_cluster f1))) as [|Hne]; [done|].
    unfold left_over at 1 in Hle. rewrite decide_False in Hle by done.
    rewrite (qu_over _ Hq) in Hne.
    - by rewrite (qu_update _ Hq), (proj1 Ha1) in Hne.
    - intros p Hp. destruct Hi as [(_ & Hsize & _) [_ Hsub] _].
      destruct (slot_ordinal _ _ Hsize (Hsub _ (name_in _ _ Hp))) as (i & _ & Ho & _).
      apply (qu_above _ Hq p _ Hp Ho). lia. }
  destruct (fleet_pass_post _ _ _ (or_seated _ Ht1) Hpass) as [Hpost Hsts]. pose proof (pp_cluster _ _ Hpost) as Hc.
  fold (fl_cluster f1) (fl_cluster f') in Hc. pose proof (proj1 (alike_names _ _ Hc)) as Hsl.
  assert (fl_pods f' = fl_pods f1) as Hpods by apply Hpost.
  destruct (complete_phase (fl_world f1) Hi Hready Hk1) as [Hj Hph]. split.
  - unfold world_names. by rewrite Hpods, Hsl.
  - rewrite Hpods, (target_alike _ _ Hc). apply Forall_forall. intros p Hp.
    split; [destruct Hready as [Hf _]; by eapply Forall_forall in Hf|]. rewrite <-Hcur.
    by apply (or_wanted _ Ht1); [rewrite (proj1 Ha1)|].
  - rewrite (sp_status _ _ Hsts), (target_alike _ _ Hc). split; [done|]. by rewrite (qu_update _ Hq), (proj1 Ha1).
  - unfold fl_cluster. by rewrite (pp_phase _ _ Hpost), Hph.
  - split; [|apply Hpost]. by rewrite (pp_members _ _ Hpost), Hj, app_nil_r, Hsl.
Qed.
(** A round to apply the spec, one to form the ring, one for each node, and one to see it done. *)
Lemma rounds_upgrade n f f' :
  orderly f → rollout_paused (fl_cluster f) = false → Z.to_nat (cl_Size (fl_cluster f)) + 3 ≤ n →
  nsteps round n f f' → upgraded f' ∧ alike (fl_cluster f) (fl_cluster f').
Proof.
  intros Ht Hpause Hn Hrun. destruct n as [|[|[|k]]]; [lia..|].
  apply nsteps_inv_r in Hrun as (f3 & Hrun & Hlast).
  inversion Hrun as [|? ? f1 ? Hr1 Hrun1]; subst. inversion Hrun1 as [|? ? f2 ? Hr2 Hrun2]; subst.
  destruct (round_asks _ _ Ht Hr1) as (Ht1 & Ha1 & Hc1). pose proof (round_forms _ _ Ht1 Ha1 Hr2) as Hg.
  destruct (round_asks _ _ Ht1 Hr2) as (_ & _ & Hc2).
  assert (alike (fl_cluster f) (fl_cluster f2)) as Hc by by eapply alike_trans.
  destruct (restarts k f2 f3 Hg) as (Hg' & Hc' & Hle); [|done|].
  { unfold rollout_paused in *. by rewrite (proj1 Hc). }
  destruct (round_asks _ _ (ow_orderly _ Hg') Hlast) as (_ & _ & Hc3).
  split; [|eapply alike_trans; [exact Hc|by eapply alike_trans]]. apply (round_upgraded f3); [done| |done].
  assert (left_over f2 ≤ Z.to_nat (cl_Size (fl_cluster f))); [|lia].
  pose proof (or_part _ (ow_orderly _ Hg)) as Hpart. rewrite (proj1 Hc) in Hpart. unfold left_over. case_decide; lia.
Qed.

(** ** One node at a time *)
(** Between updates: everything is of the current revision. *)
Definition idle (f : fleet) : Prop := orderly f ∧ updateRev f = currentRev f ∧ wanted f = currentRev f.
(** From one revision to another: not applied yet, under way, or over. *)
Inductive updating (old new : string) (f : fleet) : Prop :=
| up_before : wanted f = old → updateRev f = old → currentRev f = old → updating old new f
| up_held : wanted f = new → updateRev f = old → currentRev f = old → updating old new f
| up_under_way :
    wanted f = new → updateRev f = new → currentRev f = old →
    (∀ p i, p ∈ fl_pods f → podOrdinal (pod_Name p) = Some i → revision p = old ∨ revision p = new) →
    (∀ p i, p ∈ fl_pods f → podOrdinal (pod_Name p) = Some i → (part f < i)%Z → revision p = new) → updating old new f
| up_over : wanted f = new → updateRev f = new → currentRev f = new → updating old new f.
Lemma orderly_some f p : orderly f → p ∈ fl_pods f → is_Some (podOrdinal (pod_Name p)).
Proof.
  intros Ht Hp%name_in%(or_names _ Ht). destruct (or_healthy _ Ht) as ([(_ & Hsize & _) _ _] & _).
  eapply replica_some; [|exact Hp]. pose proof (or_replicas _ Ht). unfold fl_cluster in *. lia.
Qed.
Lemma pass_updating old new f o f' :
  orderly f → old ≠ new → target (fl_cluster f) = new → updating old new f → fleet_pass f o f' → updating old new f'.
Proof.
  intros Ht Hne Hgoal Hu Hpass. destruct (fleet_pass_post _ _ _ (or_seated _ Ht) Hpass) as [Hpost Hsts].
  assert (fl_pods f' = fl_pods f) as Hpods by apply Hpost.
  assert (wanted f' = new) as Hw by (rewrite <-Hgoal; apply Hsts).
  pose proof (sp_status _ _ Hsts) as Hst.
  destruct Hu as [H1 H2 H3|H1 H2 H3|H1 H2 H3 H4 H5|H1 H2 H3].
  - apply up_held; [done|congruence..].
  - apply up_held; [done|congruence..].
  - apply up_under_way; [done|congruence|congruence|by rewrite Hpods|]. rewrite Hpods. intros p i Hp Ho Hlt.
    assert (rolloutInProgress (fl_sts f) = true) as Hprog.
    { rewrite in_progress, H2, H3 by apply Ht. by rewrite (proj2 (String.eqb_neq _ _)). }
    destruct (sp_careful _ _ Hsts Hprog) as [He|[He Hca]]; [apply (H5 p i Hp Ho); lia|].
    rewrite <-H2. apply (ca_updated _ Hca p i Hp Ho). lia.
  - apply up_over; [done|congruence..].
Qed.
Lemma step_updating old new f f' :
  orderly f → old ≠ new → target (fl_cluster f) = new → updating old new f → fleet_step f f' → updating old new f'.
Proof.
  intros Ht Hne Hgoal Hu Hst. revert Ht Hgoal Hu. destruct Hst as [f o f' Hpass|f ps Hnd Hsub Hfrom|f cur Hcur]; intros Ht Hgoal Hu.
  - by eapply pass_updating.
  - destruct Hu as [H1 H2 H3|H1 H2 H3|H1 H2 H3 H4 H5|H1 H2 H3];
      [by apply up_before|by apply up_held| |by apply up_over].
    apply up_under_way; [done|done|done| |].
    + intros p i Hp Ho. destruct (Hfrom p Hp) as [(q & Hq & Hn & <-)|(j & Hj & ->)].
      * apply (H4 q i Hq). by rewrite Hn.
      * destruct (j <? part f)%Z; auto.
    + intros p i Hp Ho Hlt. change (part (fl_with_pods f ps)) with (part f) in Hlt.
      destruct (Hfrom p Hp) as [(q & Hq & Hn & <-)|(j & Hj & ->)].
      * apply (H5 q i Hq); [by rewrite Hn|done].
      * assert (j = i) as -> by congruence. by rewrite (proj2 (Z.ltb_ge _ _)) by lia.
  - destruct Hu as [H1 H2 H3|H1 H2 H3|H1 H2 H3 H4 H5|H1 H2 H3].
    + apply up_before; [done|done|]. destruct Hcur as [->|[-> _]]; done.
    + assert (updateRev f = currentRev f) as Hidle by congruence. destruct (or_idle _ Ht Hidle) as [Hall Hor].
      destruct Hor as [Hor|]; [|congruence]. destruct Hcur as [->|[-> Hall']]; [|by apply up_over].
      apply up_under_way; [done|done|done| |].
      * intros p i Hp Ho. left. rewrite <-H3. by apply Hall.
      * intros p i Hp Ho Hlt. change (part (fl_with_status f (currentRev f) (wanted f))) with (part f) in Hlt.
        destruct (or_healthy _ Ht) as ([(_ & Hsize & _) _ _] & _). pose proof (or_replicas _ Ht).
        assert (0 ≤ i < replicas f)%Z as Hi; [|lia].
        eapply replica_ordinal; [|apply (or_names _ Ht), name_in, Hp|exact Ho]. unfold fl_cluster in *. lia.
    + destruct Hcur as [->|[-> Hall]]; [by apply up_under_way|by apply up_over].
    + apply up_over; [done|done|]. destruct Hcur as [->|[-> _]]; done.
Qed.
Lemma steps_updating old new f f' :
  orderly f → old ≠ new → target (fl_cluster f) = new → updating old new f → rtc fleet_step f f' →
  updating old new f' ∧ orderly f' ∧ target (fl_cluster f') = new.
Proof.
  intros Ht Hne Hgoal Hu Hr. induction Hr as [f|f1 f2 f3 Hst _ IH]; [done|].
  pose proof (step_orderly _ _ Ht Hst) as Ht2. destruct (step_kept _ _ Ht Hst) as (Hc & _).
  apply IH; [done|by rewrite (target_alike _ _ Hc)|by apply (step_updating old new f1)].
Qed.
(** Where the nodes stand. *)
Definition split_at (f : fleet) (old new : string) : Prop :=
  ∀ p i, p ∈ fl_pods f → podOrdinal (pod_Name p) = Some i →
    (i < part f)%Z ∧ revision p = old ∨ (part f < i)%Z ∧ revision p = new ∨
    i = part f ∧ (revision p = old ∨ revision p = new).
Lemma updating_split old new f :
  orderly f → updating old new f → all_carry f old ∨ all_carry f new ∨ split_at f old new.
Proof.
  intros Ht [H1 H2 H3|H1 H2 H3|H1 H2 H3 H4 H5|H1 H2 H3].
  - left. rewrite <-H3. apply (or_idle _ Ht). congruence.
  - left. rewrite <-H3. apply (or_idle _ Ht). congruence.
  - right. right. intros p i Hp Ho. destruct (Z.lt_trichotomy i (part f)) as [Hlt|[->|Hgt]].
    + left. split; [done|]. rewrite <-H3. by apply (or_below _ Ht p i).
    + right. right. split; [done|]. by apply (H4 p (part f)).
    + right. left. split; [done|]. by apply (H5 p i).
  - right. left. rewrite <-H3. apply (or_idle _ Ht). congruence.
Qed.
(** What the operator has seen is that every node stands. *)
Lemma careful_standing f : orderly f → careful f → standing (fl_world f).
Proof.
  intros Ht Hca. destruct (or_healthy _ Ht) as (Hi & Hfits & _). destruct Hi as [(_ & Hsize & _) _ (Hnd & Hseed & _)].
  split; [apply Hca|apply Hca|]. unfold fits, fl_cluster in *.
  pose proof (slots_length (wd_cluster (fl_world f)) ltac:(lia)) as Hsl.
  assert (length (rg_members (wd_ring (fl_world f))) ≤ length (slots (wd_cluster (fl_world f)))) as Hle.
  { by apply submseteq_length, NoDup_submseteq. }
  apply submseteq_length_Permutation; [by apply NoDup_submseteq|].
  destruct (ca_ring _ Hca) as [Hone|Hlen]; unfold fl_cluster in *.
  - destruct (rg_members (wd_ring (fl_world f))) as [|m l]; [by apply elem_of_nil in Hseed|]. cbn. lia.
  - unfold len32 in Hlen. rewrite wrap32_id in Hlen; [lia|]. unfold in_int32, int32_min, int32_max. lia.
Qed.
Lemma pass_lowers old new f o f' :
  orderly f → updating old new f → fleet_pass f o f' → (part f' < part f)%Z →
  standing (fl_world f) ∧ carry (fl_pods f) (part f) new.
Proof.
  intros Ht Hu Hpass Hlt. destruct (fleet_pass_post _ _ _ (or_seated _ Ht) Hpass) as [_ Hsts].
  destruct (rolloutInProgress (fl_sts f)) eqn:Hprog.
  2: { pose proof (sp_idle _ _ Hsts Hprog). pose proof (or_part _ Ht). lia. }
  destruct (sp_careful _ _ Hsts Hprog) as [He|[_ Hca]]; [lia|]. split; [by apply careful_standing|].
  rewrite in_progress in Hprog by apply Ht. apply negb_true_iff, String.eqb_neq in Hprog.
  assert (updateRev f = new) as <-; [|apply Hca]. destruct Hu; congruence.
Qed.

(** *** A spec that is changed back *)
(** In the middle of a rollout the update revision is then the current one again, and a pass
    holds back every pod, those already made from the abandoned revision among them. *)
Lemma revert_holds_back f o f' :
  healthy node (fl_world f) → owned_sts (fl_cluster f) (fl_sts f) →
  updateRev f = currentRev f → fleet_pass f o f' →
  wd_pods (fl_world f') = wd_pods (fl_world f) ∧ sts_Status (fl_sts f') = sts_Status (fl_sts f) ∧
  ∀ p i, p ∈ wd_pods (fl_world f') → podOrdinal (pod_Name p) = Some i → (i < livePartition (fl_sts f'))%Z.
Proof.
  intros (Hi & _ & Hnn) Ho Heq [tr Hex].
  pose proof (ReconcileCluster_fleet apiReader DefaultImage range_order node Hprint f Hi Hnn Ho) as Hwp.
  destruct (wp_exec _ _ _ _ _ _ _ Hwp Hex) as (_ & _ & Hpost & Hpass).
  destruct Hpass as (sts & (Hsp & Hst & _) & Hstep).
  rewrite (pp_pods _ _ Hpost). split; [done|].
  assert (rolloutInProgress (fl_sts f) = false) as Hno.
  { unfold rolloutInProgress. by rewrite Heq, String.eqb_refl, andb_false_r. }
  destruct Hstep as [[-> _]|[Hca _]].
  2: { pose proof (ca_progress _ Hca) as Hprog. exfalso. unfold rolloutInProgress in *. cbn in Hprog.
  rewrite Hst in Hprog. congruence. }
  cbn. split; [done|]. intros p i Hp Hord. destruct Hi as [(_ & Hsize & _) [_ Hsub] _].
  destruct (slot_ordinal (wd_cluster (fl_world f)) (pod_Name p) Hsize) as (j & _ & Hj & Hlt);
    [by apply Hsub, name_in|].
  unfold livePartition. rewrite Hsp. cbn. unfold stsPartition. destruct Ho as (_ & Hu & _).
  rewrite (proj2 (String.eqb_neq _ _) Hu), Hno. unfold fl_cluster. assert (Z.of_nat j = i) as <- by congruence. lia.
Qed.
(** No step of the operator gets it out of there: a node of another revision, nothing to do for
    the StatefulSet controller, and no update reported. *)
Record stuck (p : Pod) (f : fleet) : Prop := {
  sk_seated : seated f;
  sk_quiet : quiet f;
  sk_asked : asked f;
  sk_same : updateRev f = currentRev f;
  sk_held : part f = cl_Size (fl_cluster f);
  sk_ring : whole_ring f;
  sk_pod : p ∈ fl_pods f ∧ revision p ≠ target (fl_cluster f)
}.
Lemma not_in_progress f : updateRev f = currentRev f → rolloutInProgress (fl_sts f) = false.
Proof. intros Heq. unfold rolloutInProgress. by rewrite Heq, String.eqb_refl, andb_false_r. Qed.
Lemma pass_stuck p f o f' : stuck p f → fleet_pass f o f' → stuck p f'.
Proof.
  intros [Ht Hq Ha Hsame Hheld Hring [Hp Hrev_p]] Hpass. destruct (fleet_pass_post _ _ _ Ht Hpass) as [Hpost Hsts].
  pose proof (pp_cluster _ _ Hpost) as Hc. fold (fl_cluster f) (fl_cluster f') in Hc.
  assert (fl_pods f' = fl_pods f) as Hpods by apply Hpost. pose proof (sp_status _ _ Hsts) as Hst.
  pose proof (pass_asked _ _ _ Ht Hpass) as Ha'. pose proof (proj1 Hc) as Hspec.
  assert (part f' = part f) as Hpart by (by rewrite (sp_idle _ _ Hsts (not_in_progress _ Hsame))).
  assert (cl_Name (fl_cluster f') = cl_Name (fl_cluster f)) as Hname by (destruct Hc as [_ [fs Hm]]; by rewrite Hm).
  split; [by eapply pass_seated| |done|by rewrite Hst| |by eapply pass_whole|by rewrite Hpods, (target_alike _ _ Hc)].
  - destruct Hq as [H1 H2 H3 H4 H5]. split; rewrite ?Hpods, ?Hst, ?Hpart; try done.
    + unfold world_names. by rewrite Hpods, Hname, (proj2 Ha'), Hspec, <-(proj2 Ha).
    + by rewrite H4, (proj1 Ha), (proj1 Ha'), (target_alike _ _ Hc).
  - by rewrite Hpart, Hheld, Hspec.
Qed.
Lemma stuck_round p f : stuck p f → ∃ f', round f f' ∧ stuck p f'.
Proof.
  intros Hs. destruct (fleet_pass_exists f (sk_seated _ _ Hs)) as (o & f' & Hpass). exists f'.
  split; [|by eapply pass_stuck]. exists f, o. split; [done|]. split; [apply Hs|done].
Qed.
Lemma stuck_rounds p n f : stuck p f → ∃ f', nsteps round n f f' ∧ stuck p f'.
Proof.
  revert f. induction n as [|n IH]; intros f Hs; [exists f; split; [constructor|done]|].
  destruct (stuck_round p f Hs) as (f1 & Hr & Hs1). destruct (IH f1 Hs1) as (f' & Hn & Hs'). exists f'.
  split; [by econstructor|done].
Qed.
(** The passes may come before the controller has replaced the node. *)
Lemma revert_stuck f c p :
  orderly f → quiet f → replicas f = cl_Size (fl_cluster f) → whole_ring f → edited (fl_cluster f) c →
  cl_Size c = cl_Size (fl_cluster f) → target c = currentRev f → p ∈ fl_pods f → revision p ≠ currentRev f →
  ∃ f', rtc fleet_step (fl_with_cluster f c) f' ∧ stuck p f'.
Proof.
  intros Ht Hq Hrep Hring He Hsize Hgoal Hp Hrev_p. set (f0 := fl_with_cluster f c).
  pose proof (edit_seated f c (or_seated _ Ht) He) as Ht0. fold f0 in Ht0.
  assert (whole_ring f0) as Hring0.
  { unfold whole_ring, f0, fl_cluster in *. cbn. rewrite Hring. unfold slots. by rewrite (proj1 He), Hsize. }
  destruct (fleet_pass_exists f0 Ht0) as (o1 & f1 & Hpass1).
  pose proof (pass_seated _ _ _ Ht0 Hpass1) as Ht1. pose proof (pass_asked _ _ _ Ht0 Hpass1) as Ha1.
  pose proof (pass_whole _ _ _ Ht0 Hring0 Hpass1) as Hring1.
  destruct (fleet_pass_post _ _ _ Ht0 Hpass1) as [Hpost1 Hsts1].
  pose proof (pp_cluster _ _ Hpost1) as Hc1. change (alike c (fl_cluster f1)) in Hc1.
  assert (currentRev f1 = currentRev f) as Hcur by by rewrite (sp_status _ _ Hsts1).
  set (f2 := fl_with_status f1 (currentRev f1) (wanted f1)).
  pose proof (observe_seated f1 (currentRev f1) Ht1) as Ht2. fold f2 in Ht2.
  assert (updateRev f2 = currentRev f2) as Hsame2.
  { change (wanted f1 = currentRev f1). by rewrite (proj1 Ha1), (target_alike _ _ Hc1), Hcur. }
  destruct (fleet_pass_exists f2 Ht2) as (o3 & f3 & Hpass3). exists f3. split.
  { eapply rtc_l; [by eapply fs_pass|]. eapply rtc_l; [apply (fs_observe f1 (currentRev f1)); by left|].
    apply rtc_once. by eapply fs_pass. }
  destruct (fleet_pass_post _ _ _ Ht2 Hpass3) as [Hpost3 Hsts3].
  pose proof (pp_cluster _ _ Hpost3) as Hc3. change (alike (fl_cluster f1) (fl_cluster f3)) in Hc3.
  assert (alike c (fl_cluster f3)) as Hc by by eapply alike_trans.
  assert (fl_pods f3 = fl_pods f) as Hpods.
  { rewrite (pp_pods _ _ Hpost3). apply Hpost1. }
  pose proof (pass_asked _ _ _ Ht2 Hpass3) as Ha3. pose proof (sp_status _ _ Hsts3) as Hst3.
  assert (part f3 = cl_Size (fl_cluster f3)) as Hheld.
  { rewrite (sp_idle _ _ Hsts3 (not_in_progress _ Hsame2)). by rewrite (proj1 Hc3). }
  assert (updateRev f3 = currentRev f3) as Hsame3 by by rewrite Hst3.
  assert (currentRev f3 = target (fl_cluster f3)) as Hcur3.
  { rewrite Hst3, (target_alike _ _ Hc), Hgoal, <-Hcur. done. }
  split; [by eapply pass_seated| |done|done|done| |].
  - destruct Hq as [H1 H2 H3 H4 H5]. split; rewrite ?Hpods; try done.
    + unfold world_names. rewrite Hpods. unfold world_names in H1. rewrite H1, Hrep, (proj2 Ha3), (proj1 Hc), Hsize.
      assert (cl_Name (fl_cluster f3) = cl_Name (fl_cluster f)) as ->; [|done].
      destruct Hc as [_ [fs Hm]]. rewrite Hm. apply He.
    + intros q i Hq Ho Hi. destruct (or_healthy _ Ht) as ([(_ & Hs & _) [_ Hsub] _] & _). exfalso.
      destruct (slot_ordinal _ _ Hs (Hsub _ (name_in _ _ Hq))) as (j & _ & Hj & Hlt).
      rewrite Hheld, (proj1 Hc), Hsize in Hi. unfold fl_cluster in *. assert (Z.of_nat j = i) by congruence. lia.
    + by rewrite Hsame3, Hcur3, (proj1 Ha3).
  - by apply (pass_whole f2 o3).
  - rewrite Hpods, (target_alike _ _ Hc), Hgoal. done.
Qed.
Lemma stuck_ready p f o f' :
  stuck p f → fleet_pass f o f' → cst_Phase (cl_Status (fl_cluster f')) = PhaseReady.
Proof.
  intros Hs Hpass. destruct (fleet_pass_post _ _ _ (sk_seated _ _ Hs) Hpass) as [Hpost _]. unfold fl_cluster.
  rewrite (pp_phase _ _ Hpost). destruct (se_healthy _ (sk_seated _ _ Hs)) as (Hi & _).
  apply complete_phase; [done| |apply Hs]. apply (quiet_ready f); [apply Hs..].
Qed.
Lemma stuck_rounds_ready p n f :
  stuck p f → ∃ f', nsteps round (S n) f f' ∧ stuck p f' ∧ cst_Phase (cl_Status (fl_cluster f')) = PhaseReady.
Proof.
  intros Hs. destruct (stuck_rounds p n f Hs) as (f1 & Hrun & Hs1).
  destruct (fleet_pass_exists f1 (sk_seated _ _ Hs1)) as (o & f' & Hpass). exists f'.
  split; [|split; [by eapply pass_stuck|by eapply stuck_ready]].
  eapply nsteps_r; [exact Hrun|]. exists f1, o. split; [done|]. split; [apply Hs1|done].
Qed.
(** A round takes in the steps before it. *)
Lemma rounds_after n f f1 f' : rtc fleet_step f f1 → nsteps round (S n) f1 f' → nsteps round (S n) f f'.
Proof.
  intros Hr Hn. inversion Hn as [|? ? f2 ? (f3 & o & Hr3 & Hq & Hpass) Hrest]; subst.
  econstructor; [|exact Hrest]. exists f3, o. split; [by etrans|done].
Qed.
End rounds.

(** ** Fleets to run *)
Definition image_revision (t : PodTemplate) : string :=
  "rev " +:+ String.concat "," (ct_Image <$> ps_Containers (pt_Spec t)).
Definition with_image (c : RiakCluster) (size : Z) (image : string) : RiakCluster :=
  mkRiakCluster (cl_Meta c)
    (mkRiakClusterSpec size image "IfNotPresent" None "" None false ∅ None None 8087 ∅ "" None false None None None)
    (cl_Status c).
(** Three nodes, of which those from the partition on are of the image of the spec. *)
Definition demo_fleet (partition : Z) (cur : string) : fleet := {|
  fl_world := mkWorld sample_cluster
    (rev_pods "c" 3 (λ i, if (i <? partition)%Z then cur else "rev riak:3.2")) (mkRing ["c-0"; "c-1";
      "c-2"] [] false);
  fl_sts := mkStatefulSet (mkObjectMeta "c" "db" "uid" 1 None [] ∅ [])
    (sts_spec "" go_range sample_cluster (rolling_sts partition cur "rev riak:3.2"))
      (mkStatefulSetStatus cur "rev riak:3.2") |}.
(** In the middle of a rollout, and after one. *)
Definition midway : fleet := demo_fleet 2 "rev riak:3.0".
Definition at_rest : fleet := demo_fleet 3 "rev riak:3.2".
(** One node more, and another image. *)
Definition changed_cluster : RiakCluster := with_image sample_cluster 4 "riak:3.4".
Definition reverted_cluster : RiakCluster := with_image sample_cluster 3 "riak:3.0".
Abbreviation demo_orderly := (@orderly "" go_range demo_node image_revision).
Abbreviation demo_step := (@fleet_step refLib demo_x509 false "" go_range demo_node image_revision).
Abbreviation demo_round := (@round refLib demo_x509 false "" go_range demo_node image_revision).
Lemma demo_pods partition cur p i :
  p ∈ fl_pods (demo_fleet partition cur) → podOrdinal (pod_Name p) = Some i →
  revision p = if (i <? partition)%Z then cur else "rev riak:3.2".
Proof. intros Hp Ho. by apply (rev_pods_in "c" 3 (λ i, if (i <? partition)%Z then cur else "rev riak:3.2")). Qed.
Lemma demo_fleet_orderly partition cur :
  (0 ≤ partition ≤ 3)%Z → stsPartition (rolling_sts partition cur "rev riak:3.2") 3 = partition →
  (cur = "rev riak:3.2" → partition = 3%Z) → demo_orderly (demo_fleet partition cur).
Proof.
  intros Hpart Hsts Hcur. pose proof (demo_pods partition cur) as Hrev.
  assert (part (demo_fleet partition cur) = partition) as Hp by exact Hsts.
  assert (∀ p, p ∈ fl_pods (demo_fleet partition cur) → is_Some (podOrdinal (pod_Name p))) as Hsome.
  { intros p Hin%name_in. unfold demo_fleet in Hin. cbn [fl_world wd_pods] in Hin. rewrite rev_pods_names in Hin.
    by eapply replica_some; [|exact Hin]. }
  assert (cur = "rev riak:3.2" → all_carry (demo_fleet partition cur) cur) as Hall.
  { intros Hc p Hin. destruct (Hsome p Hin) as [i Hi]. rewrite (Hrev p i Hin Hi), Hc.
    by destruct (i <? partition)%Z. }
  split.
  - split.
    + split; [|split].
      * split; [|split|].
        -- split; [done|]. split; [done|]. by intros tls [=].
        -- unfold world_names. cbn. rewrite rev_pods_names. apply replica_names_NoDup.
        -- unfold world_names. cbn. by rewrite rev_pods_names.
        -- split; [|split]; [apply (bool_decide_unpack _); by vm_compute..|done].
      * apply (bool_decide_unpack _); by vm_compute.
      * by vm_compute.
    + split; [split; [done|]|done]. intros r Hr. by apply elem_of_nil in Hr.
    + by rewrite Hp.
    + done.
  - done.
  - unfold world_names. cbn. by rewrite rev_pods_names.
  - rewrite Hp. intros p i Hin Ho Hlt. by rewrite (Hrev p i Hin Ho), (proj2 (Z.ltb_lt _ _)).
  - intros Hc. split; [by apply Hall|]. left. rewrite Hp, Hcur by done. done.
  - intros Hc. by apply Hall.
  - destruct (decide (cur = "rev riak:3.2")) as [->|]; [by right|]. left. intros Heq. by apply n.
Qed.
Lemma demo_fleet_quiet partition cur :
  (0 ≤ partition ≤ 3)%Z → stsPartition (rolling_sts partition cur "rev riak:3.2") 3 = partition →
  (partition = 0%Z → cur = "rev riak:3.2") → quiet image_revision (demo_fleet partition cur).
Proof.
  intros Hpart Hsts Hcur. pose proof (demo_pods partition cur) as Hrev.
  assert (part (demo_fleet partition cur) = partition) as Hp by exact Hsts. split.
  - unfold world_names. cbn. by rewrite rev_pods_names.
  - apply Forall_fmap, Forall_forall. by intros j _.
  - rewrite Hp. intros p i Hin Ho Hi. rewrite (Hrev p i Hin Ho). by rewrite (proj2 (Z.ltb_ge _ _)).
  - done.
  - intros Hall. destruct (Z.eqb_spec partition 0) as [Hz|Hz]; [by apply Hcur|].
    assert (rev_pod "c-0" cur ∈ fl_pods (demo_fleet partition cur)) as Hin.
    { apply list_elem_of_fmap. exists 0. split; [|apply elem_of_seq; lia].
      assert ((Z.of_nat 0 <? partition)%Z = true) as -> by (apply Z.ltb_lt; lia). done. }
    specialize (Hall _ Hin). by rewrite rev_pod_revision in Hall.
Qed.

(** ** Properties *)
Section properties.
Context (L : KubeLib) (HL : KubeLibLaws L) (X : GoX509).
Context (apiReader : bool) (DefaultImage : string) (range_order : gmap string string → list string).
Context (node : string → string) (Hinj : Inj (=) (=) node) (Hprint : ∀ p, printable (node p)).
Context (rev : PodTemplate → string) (Hrev : ∀ t, rev t ≠ "").
Abbreviation steps := (rtc (fleet_step apiReader DefaultImage range_order node rev)).
Abbreviation rounds := (nsteps (round apiReader DefaultImage range_order node rev)).
Abbreviation goal := (target DefaultImage range_order rev).

(** C2: At most one node is between revisions. From a fleet at rest whose spec is given
    another template, and through any interleaving of whole passes of the operator, of pods
    being replaced, lost, made or becoming unready, as far as the partition lets the
    StatefulSet controller, and of its reports: either every pod is still of the old revision,
    or every pod is of the new one, or the partition separates them, and only the one pod at
    the partition can be of either. A pass lowers the partition only when the pods from it on
    are of the new revision and every node stands: its pod Ready and staying, and the ring
    exactly the cluster's nodes. The passes are those whose calls the API server and Riak carry
    out ([fleet_env]). *)
Theorem upgrade_one_at_a_time (f0 f : fleet) (c : RiakCluster) :
  idle DefaultImage range_order node rev f0 → edited (fl_cluster f0) c → goal c ≠ currentRev f0 →
  steps (fl_with_cluster f0 c) f →
  (all_carry f (currentRev f0) ∨ all_carry f (goal c) ∨ split_at f (currentRev f0) (goal c)) ∧
  ∀ o f', fleet_pass apiReader DefaultImage range_order node f o f' → (part f' < part f)%Z →
    standing (fl_world f) ∧ carry (fl_pods f) (part f) (goal c).
Proof.
  intros (Ht & Hsame & Hw) He Hgoal Hsteps.
  assert (orderly DefaultImage range_order node rev (fl_with_cluster f0 c)) as Ht0.
  { by eapply (orderly_edited apiReader). }
  destruct (steps_updating apiReader DefaultImage range_order node Hprint rev Hrev (currentRev f0) (goal c) _ f Ht0
    (not_eq_sym Hgoal) eq_refl) as (Hu & Htf & _); [by apply up_before|exact Hsteps|].
  split; [by eapply updating_split|]. intros o f' Hpass Hlt. by eapply pass_lowers.
Qed.

(** C13: A change of a cluster's spec reaches every node. From any state in which the
    partition separates the nodes of the running update from the others (between updates, or
    anywhere in the middle of one), and after any edit the operator accepts (another image or
    configuration, more nodes) that does not change the spec back in the middle of an update:
    a round is any number of steps of either side, in any order, that reach a moment in which
    the StatefulSet controller has nothing left to do, and a pass of the operator at that
    moment. Unless the spec pauses rollouts, three rounds and one for each node are enough.
    Then every pod is Ready and made from the template of the new spec, the update is over,
    the ring is exactly the cluster's nodes and the cluster is Ready; and so it is after every
    later round. Rounds never get stuck. This is with an API server and a Riak that carry out
    every call of a pass, and a Riak with no transfers pending when it is asked for them
    ([fleet_env]): pending transfers hold a rollout back ([rollout_step_safe]) for as long as
    they last, unless [waitForTransfers] is off. *)
Theorem upgrade_completes (f : fleet) (c : RiakCluster) (n : nat) :
  orderly DefaultImage range_order node rev f → edited (fl_cluster f) c → rollout_paused c = false →
  (goal c = currentRev f → wanted rev f = currentRev f) → Z.to_nat (cl_Size c) + 3 ≤ n →
  (∃ f', rounds n (fl_with_cluster f c) f') ∧
  ∀ f', rounds n (fl_with_cluster f c) f' →
    upgraded DefaultImage range_order rev f' ∧ alike c (fl_cluster f').
Proof.
  intros Ht He Hpause Hrevert Hn.
  assert (orderly DefaultImage range_order node rev (fl_with_cluster f c)) as Ht0.
  { by eapply (orderly_edited apiReader). }
  split; [by eapply rounds_exist|]. intros f' Hrun. by eapply (rounds_upgrade apiReader) in Hrun.
Qed.

(** C24: A spec that is changed back in the middle of a rollout can leave nodes behind for
    good. From any moment of rest in which some pod is already of the update: the spec asks
    for the current revision again, so the StatefulSet has no update to report, and a pass of
    the operator that comes before the controller has replaced the pod raises the partition
    above it. From then on no number of rounds need replace it: the cluster is Ready, no
    update is in progress, and the pod is not of the revision the spec asks for. *)
Theorem revert_leaves_nodes (f : fleet) (c : RiakCluster) (p : Pod) (n : nat) :
  orderly DefaultImage range_order node rev f → quiet rev f → replicas f = cl_Size (fl_cluster f) → whole_ring f →
  edited (fl_cluster f) c → cl_Size c = cl_Size (fl_cluster f) → goal c = currentRev f →
  p ∈ fl_pods f → revision p ≠ currentRev f →
  ∃ f', rounds (S n) (fl_with_cluster f c) f' ∧
    p ∈ fl_pods f' ∧ revision p ≠ goal (fl_cluster f') ∧ rolloutInProgress (fl_sts f') = false ∧
    cst_Phase (cl_Status (fl_cluster f')) = PhaseReady.
Proof.
  intros Ht Hq Hrep Hring He Hsize Hgoal Hp Hne.
  destruct (revert_stuck apiReader DefaultImage range_order node Hprint rev Hrev f c p) as (f1 & Hsteps & Hs1);
    [done..|].
  destruct (stuck_rounds_ready apiReader DefaultImage range_order node Hprint rev p n f1 Hs1) as (f' & Hrun & Hs & Hph).
  exists f'. split; [by eapply rounds_after|]. destruct Hs as [_ _ _ Hsame _ _ [Hin Hrev_p]].
  split; [done|]. split; [done|]. split; [|done]. by eapply not_in_progress.
Qed.
End properties.
Lemma upgrade_one_at_a_time_witness :
  ∃ o f, @fleet_pass refLib demo_x509 false "" go_range demo_node (fl_with_cluster at_rest changed_cluster) o f ∧
    (all_carry f "rev riak:3.2" ∨ all_carry f "rev riak:3.4" ∨ split_at f "rev riak:3.2" "rev riak:3.4").
Proof.
  assert (demo_orderly at_rest) as Ht by by apply demo_fleet_orderly.
  assert (edited (fl_cluster at_rest) changed_cluster) as He by by split_and!.
  assert (demo_orderly (fl_with_cluster at_rest changed_cluster)) as Ht0.
  { by apply (@orderly_edited refLib refLib_laws demo_x509 false _ _ _ demo_node_inj demo_node_printable). }
  destruct (@fleet_pass_exists refLib refLib_laws demo_x509 false "" go_range demo_node demo_node_inj demo_node_printable
    image_revision _ (or_seated _ _ _ _ _ Ht0)) as (o & f & Hpass).
  exists o, f. split; [exact Hpass|].
  apply (upgrade_one_at_a_time refLib refLib_laws demo_x509 false "" go_range demo_node demo_node_inj demo_node_printable
    image_revision ltac:(done) at_rest f changed_cluster); [by split|exact He|by vm_compute|].
  apply rtc_once. by eapply fs_pass.
Defined.
Lemma upgrade_completes_witness :
  ∃ f', nsteps demo_round 7 (fl_with_cluster midway changed_cluster) f' ∧
    Forall (λ p, podIsReady p = true ∧ revision p = "rev riak:3.4") (fl_pods f') ∧
    world_names (fl_world f') ≡ₚ ["c-0"; "c-1"; "c-2"; "c-3"] ∧ cst_Phase (cl_Status (fl_cluster f')) = PhaseReady.
Proof.
  assert (demo_orderly midway) as Ht by by apply demo_fleet_orderly.
  assert (edited (fl_cluster midway) changed_cluster) as He by by split_and!.
  destruct (upgrade_completes refLib refLib_laws demo_x509 false "" go_range demo_node demo_node_inj demo_node_printable
    image_revision ltac:(done) midway changed_cluster 7 Ht He ltac:(done) ltac:(done) ltac:(by vm_compute; lia))
    as [[f' Hrun] Hall].
  exists f'. split; [exact Hrun|]. destruct (Hall f' Hrun) as [[Hn Hr _ Hph _] Hc].
  rewrite (target_alike _ _ _ _ _ Hc) in Hr. rewrite (proj1 (alike_names _ _ Hc)) in Hn.
  split; [exact Hr|]. split; [exact Hn|exact Hph].
Defined.
Lemma revert_leaves_nodes_witness :
  let p := rev_pod "c-2" "rev riak:3.2" in
  target "" go_range image_revision reverted_cluster = "rev riak:3.0" ∧
  ∃ f', nsteps demo_round 5 (fl_with_cluster midway reverted_cluster) f' ∧
    p ∈ fl_pods f' ∧ revision p ≠ target "" go_range image_revision (fl_cluster f') ∧
    rolloutInProgress (fl_sts f') = false ∧ cst_Phase (cl_Status (fl_cluster f')) = PhaseReady.
Proof.
  intros p. split; [done|].
  apply (revert_leaves_nodes refLib refLib_laws demo_x509 false "" go_range demo_node demo_node_inj demo_node_printable
    image_revision ltac:(done) midway reverted_cluster p 4).
  - by apply demo_fleet_orderly.
  - by apply demo_fleet_quiet.
  - done.
  - by vm_compute.
  - by split_and!.
  - done.
  - done.
  - apply list_elem_of_fmap. exists 2. split; [done|]. apply elem_of_seq. vm_compute. lia.
  - done.
Defined.
