(* ===== verification/Soak.v ===== *)
(** * The scaler of the soak test ([test/scale/soak_policy.go])

    The pure logic of the soak test: when it gives the cluster more memory or another node,
    how it judges errors, and how it reads what kubectl prints. [resource.Quantity] and the
    JSON decoder are parameters ([Quantity], [window_json]); a [float64] is the [spec_float] of
    the Standard Library at 53 bits, so that comparisons and products are rounded as Go's. *)
From Stdlib Require Import SpecFloat.
From S2P Require Import Prelude GoLib Effects Types KubeTypes.

(** ** float64 and int64 *)
Abbreviation float64 := spec_float.
Definition float_of (z : Z) : float64 := binary_normalize 53 1024 z 0 false.
Definition fadd (x y : float64) : float64 := SFadd 53 1024 x y.
Definition fmul (x y : float64) : float64 := SFmul 53 1024 x y.
Definition fdiv (x y : float64) : float64 := SFdiv 53 1024 x y.
(** A decimal literal: the quotient of two small integers is rounded once. *)
Definition decimal (n d : Z) : float64 := fdiv (float_of n) (float_of d).
(** [%.0f]: to the nearest integer, ties to even. *)
Definition round_even (m : positive) (e : Z) : Z :=
  if (0 <=? e)%Z then (Z.pos m * 2 ^ e)%Z
  else let q := (Z.pos m / 2 ^ (- e))%Z in
       let r := (2 * (Z.pos m mod 2 ^ (- e)))%Z in
       if (r <? 2 ^ (- e))%Z || (r =? 2 ^ (- e))%Z && Z.even q then q else (q + 1)%Z.
Definition fmt_f0 (x : float64) : string :=
  match x with
  | S754_zero s => (if s then "-" else "") +:+ "0"
  | S754_infinity s => (if s then "-" else "+") +:+ "Inf"
  | S754_nan => "NaN"
  | S754_finite s m e => (if s then "-" else "") +:+ Itoa (round_even m e)
  end.

Definition int64_min : Z := - 2 ^ 63.
Definition int64_max : Z := 2 ^ 63 - 1.
Definition wrap64 (z : Z) : Z := (z + 2 ^ 63) `mod` 2 ^ 64 - 2 ^ 63.
Definition in_int64 (z : Z) : Prop := (int64_min ≤ z ≤ int64_max)%Z.
#[global] Instance in_int64_dec z : Decision (in_int64 z).
Proof. unfold in_int64. apply _. Defined.
(** [t.Sub(u)] saturates. *)
Definition time_sub (t u : time) : Z := Z.max int64_min (Z.min int64_max (t - u)).

(** ** resource.Quantity *)
Class Quantity := {
  quantity : Type;
  q_zero : quantity;
  q_Value : quantity → Z;
  q_New : Z → quantity;
  q_Parse : string → option quantity
}.
Class QuantityLaws (Q : Quantity) : Prop := {
  q_value_range q : in_int64 (q_Value q);
  q_value_new z : in_int64 z → q_Value (q_New z) = z
}.

Section soak.
Context `{Q : Quantity}.

Record soakSample := mkSoakSample {
  ss_At : time; ss_ClusterReady : bool; ss_AllNodesUp : bool; ss_OOMKills : Z; ss_Restarts : Z;
  ss_MemPct : float64; ss_Rate : float64; ss_ErrRate : float64; ss_P99 : float64; ss_DiskPct : float64 }.
Record soakPolicy := mkSoakPolicy {
  sp_TargetRate : float64; sp_MaxMemory : quantity; sp_MaxSize : Z; sp_Cooldown : Z;
  sp_P99Limit : float64; sp_MinRateRatio : float64; sp_MemPressure : float64;
  sp_MemSamples : Z; sp_SlowSamples : Z; sp_MaxErrRate : float64 }.
Definition is_zero (x : float64) : bool := SFeqb x (float_of 0).
Definition withDefaults (p : soakPolicy) : soakPolicy := {|
  sp_TargetRate := sp_TargetRate p; sp_MaxMemory := sp_MaxMemory p; sp_MaxSize := sp_MaxSize p;
  sp_Cooldown := sp_Cooldown p; sp_P99Limit := sp_P99Limit p;
  sp_MinRateRatio := if is_zero (sp_MinRateRatio p) then decimal 9 10 else sp_MinRateRatio p;
  sp_MemPressure := if is_zero (sp_MemPressure p) then decimal 85 100 else sp_MemPressure p;
  sp_MemSamples := if (sp_MemSamples p =? 0)%Z then 3%Z else sp_MemSamples p;
  sp_SlowSamples := if (sp_SlowSamples p =? 0)%Z then 5%Z else sp_SlowSamples p;
  sp_MaxErrRate := sp_MaxErrRate p |}.

Definition actionNone : string := "none".
Definition actionMemory : string := "memory".
Definition actionScaleOut : string := "scale-out".
Record soakAction := mkSoakAction {
  sa_Kind : string; sa_Memory : quantity; sa_Size : Z; sa_Reason : string }.
Record soakScaler := mkSoakScaler {
  sc_policy : soakPolicy; sc_lastAction : time; sc_oomAtAction : Z }.

(** 256Mi *)
Definition memory_step : Z := 2 ^ 28.
Definition nextMemory (cur max : quantity) : quantity * bool :=
  let grown := Z.quot (wrap64 (q_Value cur * 3)) 2 in
  let grown := wrap64 (Z.quot (wrap64 (wrap64 (grown + memory_step) - 1)) memory_step * memory_step) in
  let grown := if (q_Value max <? grown)%Z then q_Value max else grown in
  if (grown <=? q_Value cur)%Z then (cur, false) else (q_New grown, true).

Fixpoint recent (s : soakScaler) (hist : list soakSample) : list soakSample :=
  match hist with
  | [] => []
  | h :: hist' => if (sc_lastAction s <? ss_At h)%Z then hist else recent s hist'
  end.
(** [None]: a negative [n] slices out of range. *)
Definition lastN (hist : list soakSample) (n : Z) (pred : soakSample → bool) : option bool :=
  if (Z.of_nat (length hist) <? n)%Z then Some false
  else if (n <? 0)%Z then None
  else Some (forallb pred (drop (length hist - Z.to_nat n) hist)).

Definition none (reason : string) : soakAction := mkSoakAction actionNone q_zero 0 reason.
(** The closure [grow]. *)
Definition grow (p : soakPolicy) (cur : soakSample) (memory : quantity) (size : Z) (reason : string) : soakAction :=
  let '(mem, ok) := nextMemory memory (sp_MaxMemory p) in
  if ok then mkSoakAction actionMemory mem 0 reason
  else if (size <? sp_MaxSize p)%Z && ss_ClusterReady cur
  then mkSoakAction actionScaleOut q_zero (wrap32 (size + 1)) (reason +:+ "; memory is already at its cap")
  else none (reason +:+ "; memory is at its cap and no node can be added (limit reached or cluster not ready)").
(** The closure [slow]. *)
Definition slow (p : soakPolicy) (h : soakSample) : bool :=
  if SFltb (sp_MaxErrRate p) (ss_ErrRate h) && SFltb (float_of 0) (sp_MaxErrRate p) then false
  else
    let tooSlow := SFltb (float_of 0) (sp_P99Limit p) && SFltb (sp_P99Limit p) (ss_P99 h) in
    let tooLittle := SFltb (float_of 0) (sp_TargetRate p) && SFltb (float_of 0) (ss_Rate h) &&
                     SFltb (ss_Rate h) (fmul (sp_MinRateRatio p) (sp_TargetRate p)) in
    tooSlow || tooLittle.
Definition under_pressure (p : soakPolicy) (h : soakSample) : bool :=
  SFleb (fmul (sp_MemPressure p) (float_of 100)) (ss_MemPct h).

Definition decide_action (s : soakScaler) (now : time) (hist : list soakSample) (memory : quantity) (size : Z)
    : option soakAction :=
  let p := withDefaults (sc_policy s) in
  match last hist with
  | None => Some (none "no samples yet")
  | Some cur =>
      if negb (ss_AllNodesUp cur) then Some (none "a node is down or restarting")
      else if negb (sc_lastAction s =? 0)%Z && (time_sub now (sc_lastAction s) <? sp_Cooldown p)%Z
      then Some (none "cooling down after the last action")
      else if (sc_oomAtAction s <? ss_OOMKills cur)%Z
      then Some (grow p cur memory size
                   (Itoa (wrap64 (ss_OOMKills cur - sc_oomAtAction s)) +:+ " new OOM kill(s) of Riak"))
      else
        pressure ← lastN (recent s hist) (sp_MemSamples p) (under_pressure p);
        if pressure : bool
        then Some (grow p cur memory size
                     ("memory pressure: working set at " +:+ fmt_f0 (ss_MemPct cur) +:+ "% of the limit for " +:+
                      Itoa (sp_MemSamples p) +:+ " samples"))
        else
          slowly ← lastN (recent s hist) (sp_SlowSamples p) (slow p);
          if slowly : bool then
            if negb (ss_ClusterReady cur)
            then Some (none "too slow, but the cluster is not fully ready, so no node is added")
            else if (size <? sp_MaxSize p)%Z
            then Some (mkSoakAction actionScaleOut q_zero (wrap32 (size + 1))
                   ("too slow for " +:+ Itoa (sp_SlowSamples p) +:+ " samples: " +:+ fmt_f0 (ss_Rate cur) +:+
                    " ops/s of " +:+ fmt_f0 (sp_TargetRate p) +:+ ", worst p99 " +:+ fmt_f0 (ss_P99 cur) +:+
                    " ms (limit " +:+ fmt_f0 (sp_P99Limit p) +:+ ")"))
            else Some (none ("too slow, but the cluster is at its maximum size (limited by -soak-max-replicas or by the " +:+
                             "number of schedulable Kubernetes nodes)"))
          else Some (none "healthy")
  end.
Definition applied (s : soakScaler) (now : time) (oomKills : Z) : soakScaler :=
  mkSoakScaler (sc_policy s) now oomKills.

(** ** Judging errors *)
Definition steadyErrThreshold : float64 := decimal 1 100.
Definition healthy_sample (s : soakSample) : bool := ss_ClusterReady s && ss_AllNodesUp s.
(** The loop from [i = 1], [prev] being [hist[i-1]]. *)
Fixpoint steady_loop (prev : soakSample) (hist : list soakSample) (steady bad : Z) : Z * Z :=
  match hist with
  | [] => (steady, bad)
  | h :: hist' =>
      if negb (healthy_sample h) || negb (healthy_sample prev) || is_zero (ss_Rate h)
      then steady_loop h hist' steady bad
      else steady_loop h hist' (steady + 1)
             (if SFltb steadyErrThreshold (ss_ErrRate h) then bad + 1 else bad)%Z
  end.
Definition steadyErrors (hist : list soakSample) : Z * Z :=
  match hist with [] => (0, 0)%Z | h :: hist' => steady_loop h hist' 0 0 end.

(** ** What kubectl prints *)
(** [strconv.ParseInt(s, 10, 64)] *)
Definition ParseInt64 (s : string) : option Z :=
  z ← parse_signed s; if bool_decide (in_int64 z) then Some z else None.

Definition top_line (container : string) (res : gmap string Z) (line : string) : gmap string Z :=
  match Fields line with
  | pod :: c :: _ :: mem :: _ =>
      if negb (String.eqb c container) then res
      else match q_Parse mem with
           | Some q => <[pod := q_Value q]> res
           | None => res
           end
  | _ => res
  end.
Definition parseTopMemory (out container : string) : gmap string Z :=
  foldl (top_line container) ∅ (Split out nl).

Definition parseDf (out : string) : res (Z * Z) :=
  let lines := Split (TrimSpace out) nl in
  if (length lines <? 2)%nat then Err (Errorf ("unexpected df output: " +:+ Quote out))
  else
    let line := default "" (last lines) in
    match Fields line with
    | _ :: f1 :: f2 :: _ :: _ =>
        match ParseInt64 f1, ParseInt64 f2 with
        | Some total, Some used =>
            if (total <=? 0)%Z then Err (Errorf ("unexpected df numbers: " +:+ Quote line)) else Ok (used, total)
        | _, _ => Err (Errorf ("unexpected df numbers: " +:+ Quote line))
        end
    | _ => Err (Errorf ("unexpected df line: " +:+ Quote line))
    end.

(** The latencies of [stress.go]; only the 99th percentile is looked at. *)
Record stressLatency := mkStressLatency { sl_P50 : float64; sl_P95 : float64; sl_P99 : float64; sl_Max : float64 }.
Record windowJSON := mkWindowJSON {
  wj_T : Z; wj_Ops : Z; wj_Puts : Z; wj_Gets : Z; wj_OpsPerS : float64; wj_Errors : Z; wj_Late : Z;
  wj_Put : stressLatency; wj_Get : stressLatency }.
Record windowRec := mkWindowRec {
  wr_Pod : string; wr_T : Z; wr_Ops : Z; wr_Puts : Z; wr_Gets : Z; wr_OpsPerS : float64; wr_Errors : Z;
  wr_Late : Z; wr_Put : stressLatency; wr_Get : stressLatency }.
Definition window_pod (line : string) : string :=
  if HasPrefix line "[pod/" then default "" (head (Split (drop_bytes 5 line) "/")) else "".
Definition window_line (window_json : string → option windowJSON) (latest : gmap string windowRec) (line : string)
    : gmap string windowRec :=
  match from_index line "WINDOW {" with
  | None => latest
  | Some rest =>
      let pod := window_pod line in
      match window_json (drop_bytes (String.length "WINDOW ") rest) with
      | None => latest
      | Some w =>
          let newest := <[pod := mkWindowRec pod (wj_T w) (wj_Ops w) (wj_Puts w) (wj_Gets w) (wj_OpsPerS w)
                                   (wj_Errors w) (wj_Late w) (wj_Put w) (wj_Get w)]> latest in
          match latest !! pod with
          | Some cur => if (wj_T w <=? wr_T cur)%Z then latest else newest
          | None => newest
          end
      end
  end.
Definition parseLatestWindows (window_json : string → option windowJSON) (logs : string) : gmap string windowRec :=
  foldl (window_line window_json) ∅ (Split logs nl).

Record aggregate := mkAggregate { ag_rate : float64; ag_ops : Z; ag_errs : Z; ag_p99 : float64; ag_n : Z }.
Definition max_p99 (p99 : float64) (l : stressLatency) : float64 :=
  if SFltb p99 (sl_P99 l) then sl_P99 l else p99.
Definition add_window (now : time) (maxAge : Z) (a : aggregate) (w : windowRec) : aggregate :=
  if (maxAge <? time_sub now (wr_T w * second))%Z then a
  else mkAggregate (fadd (ag_rate a) (wr_OpsPerS w)) (wrap64 (ag_ops a + wr_Ops w)) (wrap64 (ag_errs a + wr_Errors w))
         (foldl max_p99 (ag_p99 a) [wr_Put w; wr_Get w]) (ag_n a + 1).
(** [ws]: the values of the map, in the order the range visits them. *)
Definition aggregateWindows (ws : list windowRec) (now : time) (maxAge : Z) : float64 * float64 * float64 * Z :=
  let a := foldl (add_window now maxAge) (mkAggregate (float_of 0) 0 0 (float_of 0) 0) ws in
  let all := wrap64 (ag_ops a + ag_errs a) in
  (ag_rate a,
   if (0 <? all)%Z then fdiv (float_of (ag_errs a)) (float_of all) else float_of 0,
   ag_p99 a, ag_n a).

(** ** Nodes and pods *)
Record Node := mkNode { nd_Unschedulable : bool; nd_Conditions : list PodCondition }.
Definition NodeReady : string := "Ready".
Definition node_counts (node : Node) : bool :=
  negb (nd_Unschedulable node) &&
  existsb (λ c, String.eqb (pc_Type c) NodeReady && String.eqb (pc_Status c) ConditionTrue) (nd_Conditions node).
Definition schedulableNodes (nodes : list Node) : Z := Z.of_nat (length (List.filter node_counts nodes)).

(** A pod with the node it was scheduled on. *)
Record ScheduledPod := mkScheduledPod { sp_NodeName : string; sp_Pod : Pod }.
Fixpoint ready_condition (l : list PodCondition) : bool :=
  match l with
  | [] => false
  | c :: l' => if String.eqb (pc_Type c) PodReady then String.eqb (pc_Status c) ConditionTrue else ready_condition l'
  end.
Definition podReady (p : Pod) : bool := ready_condition (pod_Conditions p).
Definition nodesUp (pods : list ScheduledPod) : bool :=
  forallb (λ p, String.eqb (sp_NodeName p) "" ||
                negb (bool_decide (is_Some (om_DeletionTimestamp (pod_Meta (sp_Pod p)))) || negb (podReady (sp_Pod p))))
    pods.

(** ** The monitor: one decision, carried out ([soak.go]) *)
Record soakRun := mkSoakRun { sr_scaler : soakScaler; sr_memory : quantity; sr_size : Z }.
(** The switch of [applyAction]; [None]: an unknown action. *)
Definition applyAction (a : soakAction) (memory : quantity) (size : Z) : option (quantity * Z) :=
  if String.eqb (sa_Kind a) actionMemory then Some (sa_Memory a, size)
  else if String.eqb (sa_Kind a) actionScaleOut then Some (memory, sa_Size a)
  else None.
(** [t] and [t']: the clock at the decision and after the action; [updated]: the API server
    took the update. *)
Definition monitor_action (r : soakRun) (t : time) (hist : list soakSample) (updated : bool) (t' : time)
    : option soakRun :=
  a ← decide_action (sr_scaler r) t hist (sr_memory r) (sr_size r);
  if String.eqb (sa_Kind a) actionNone then Some r
  else match applyAction a (sr_memory r) (sr_size r) with
       | Some (memory, size) =>
           Some (if updated
                 then mkSoakRun (applied (sr_scaler r) t' (default 0%Z (ss_OOMKills <$> last hist))) memory size
                 else r)
       | None => Some r
       end.
End soak.
