(* ===== verification/SoakFacts.v ===== *)
(** * The scaler of the soak test stays within its limits and stops

    [acts]: the actions of the monitor that go through, with any samples, clocks and OOM
    counts in between. The examples are the cases of [soak_policy_test.go]. *)
From Stdlib Require Import SpecFloat.
From S2P Require Import Prelude GoLib Effects Types KubeTypes Soak.

(** ** Arithmetic *)
Lemma wrap64_id z : in_int64 z → wrap64 z = z.
Proof. unfold in_int64, int64_min, int64_max, wrap64. intros H. rewrite Z.mod_small; lia. Qed.
(** A value one turn too large. *)
Lemma wrap64_over z : (2 ^ 63 ≤ z < 2 ^ 64 + 2 ^ 63)%Z → wrap64 z = (z - 2 ^ 64)%Z.
Proof.
  intros H. unfold wrap64. rewrite <-(Z_mod_plus_full (z + 2 ^ 63) (-1)), Z.mod_small; lia.
Qed.
(** Rounding up to a multiple of 256Mi. *)
Definition round_up (z : Z) : Z := Z.quot (z + memory_step - 1) memory_step * memory_step.
Lemma round_up_spec z : (0 ≤ z)%Z → (z ≤ round_up z < z + memory_step)%Z ∧ (memory_step | round_up z)%Z.
Proof.
  intros Hz. unfold round_up. assert (0 < memory_step)%Z as Hs by done.
  rewrite Z.quot_div_nonneg by lia. split; [|by exists ((z + memory_step - 1) / memory_step)%Z].
  pose proof (Z.div_mod (z + memory_step - 1) memory_step). pose proof (Z.mod_pos_bound (z + memory_step - 1) memory_step).
  lia.
Qed.
Lemma round_up_neg z : (- 2 ^ 63 ≤ z < 0)%Z → (round_up z ≤ 0)%Z.
Proof.
  intros Hz. unfold round_up. destruct (Z.le_gt_cases 0 (z + memory_step - 1)) as [H|H].
  - rewrite Z.quot_small; [done|]. lia.
  - pose proof (Z.quot_opp_l (- (z + memory_step - 1)) memory_step). rewrite Z.opp_involutive in H0.
    rewrite H0 by done. pose proof (Z.quot_pos (- (z + memory_step - 1)) memory_step).
    assert (0 < memory_step)%Z by done. nia.
Qed.

Section soak.
Context `{Q : Quantity} `{HQ : !QuantityLaws Q}.

(** What [nextMemory] compares, without the wrap-arounds: none happens, or the result is
    not above the limit. *)
Definition grown_of (cur : Z) : Z :=
  wrap64 (Z.quot (wrap64 (wrap64 (Z.quot (wrap64 (cur * 3)) 2 + memory_step) - 1)) memory_step * memory_step).
Lemma grown_exact cur : (0 ≤ cur)%Z → (3 * cur ≤ int64_max)%Z → grown_of cur = round_up (3 * cur / 2).
Proof.
  intros H0 H3. unfold grown_of, int64_max in *. assert (memory_step = 2 ^ 28)%Z as Hs by done.
  rewrite (wrap64_id (cur * 3)) by (unfold in_int64, int64_min, int64_max; lia).
  rewrite (Z.quot_div_nonneg (cur * 3) 2) by lia. replace (cur * 3)%Z with (3 * cur)%Z by lia.
  pose proof (Z.div_mod (3 * cur) 2). pose proof (Z.mod_pos_bound (3 * cur) 2).
  set (g := (3 * cur / 2)%Z) in *.
  rewrite (wrap64_id (g + memory_step)), (wrap64_id (g + memory_step - 1)) by (unfold in_int64, int64_min, int64_max; lia).
  apply wrap64_id. fold (round_up g). pose proof (round_up_spec g). unfold in_int64, int64_min, int64_max. lia.
Qed.
Lemma grown_over cur : (cur ≤ int64_max)%Z → (int64_max < 3 * cur)%Z → (grown_of cur ≤ cur)%Z.
Proof.
  intros H0 H3. unfold grown_of, int64_max in *. assert (memory_step = 2 ^ 28)%Z as Hs by done.
  rewrite (wrap64_over (cur * 3)) by lia. set (w := (cur * 3 - 2 ^ 64)%Z).
  pose proof (Z.quot_rem' w 2). set (g := Z.quot w 2) in *.
  assert (Z.abs (Z.rem w 2) < 2)%Z by (pose proof (Z.rem_bound_abs w 2); lia).
  rewrite (wrap64_id (g + memory_step)), (wrap64_id (g + memory_step - 1)) by (unfold in_int64, int64_min, int64_max; lia).
  fold (round_up g).
  destruct (Z.le_gt_cases 0 g) as [Hg|Hg].
  - pose proof (round_up_spec g Hg). rewrite wrap64_id by (unfold in_int64, int64_min, int64_max; lia). lia.
  - pose proof (round_up_neg g). assert (- 2 ^ 63 ≤ round_up g)%Z.
    { unfold round_up. pose proof (Z.quot_rem' (g + memory_step - 1) memory_step).
      pose proof (Z.rem_bound_abs (g + memory_step - 1) memory_step). lia. }
    rewrite wrap64_id by (unfold in_int64, int64_min, int64_max; lia). lia.
Qed.
Abbreviation V := q_Value.
Lemma nextMemory_unfold cur max :
  nextMemory cur max =
    let grown := if (V max <? grown_of (V cur))%Z then V max else grown_of (V cur) in
    if (grown <=? V cur)%Z then (cur, false) else (q_New grown, true).
Proof. unfold nextMemory, grown_of. cbv zeta. reflexivity. Qed.
(** The new limit is above the current one and at most the maximum: a whole number of
    steps, or the maximum itself. No overflow can make it otherwise. *)
Lemma nextMemory_spec cur max :
  (0 ≤ V cur)%Z →
  let '(m, ok) := nextMemory cur max in
  if ok then (V cur < V m ≤ V max)%Z ∧ (V m = V max ∨ (memory_step | V m)%Z) else m = cur.
Proof.
  intros H0. pose proof (q_value_range cur) as Hc. pose proof (q_value_range max) as Hm. unfold in_int64 in *.
  rewrite nextMemory_unfold. cbv zeta.
  destruct (Z.le_gt_cases (3 * V cur) int64_max) as [H3|H3].
  - rewrite grown_exact by done.
    pose proof (Z.div_mod (3 * V cur) 2). pose proof (Z.mod_pos_bound (3 * V cur) 2).
    destruct (round_up_spec (3 * V cur / 2)) as [Hr Hd]; [lia|].
    destruct (Z.ltb_spec (V max) (round_up (3 * V cur / 2))) as [Hx|Hx]; case Z.leb_spec; intros Hy; try done;
      rewrite q_value_new by (unfold in_int64; lia); (split; [lia|]); first [by left|by right].
  - pose proof (grown_over (V cur)).
    destruct (Z.ltb_spec (V max) (grown_of (V cur))) as [Hx|Hx]; case Z.leb_spec; intros Hy; try done; lia.
Qed.
(** Below the maximum it does grow. *)
Lemma nextMemory_grows cur max :
  (0 < V cur)%Z → (3 * V cur ≤ int64_max)%Z → (nextMemory cur max).2 = (V cur <? V max)%Z.
Proof.
  intros H0 H3. rewrite nextMemory_unfold. cbv zeta. rewrite grown_exact by lia.
  pose proof (Z.div_mod (3 * V cur) 2). pose proof (Z.mod_pos_bound (3 * V cur) 2).
  assert (V cur < round_up (3 * V cur / 2))%Z as Hg.
  { destruct (round_up_spec (3 * V cur / 2)) as [Hr Hd]; [lia|]. destruct (Z.eq_dec (V cur) 1%Z) as [->|]; [done|]. lia. }
  destruct (Z.ltb_spec (V max) (round_up (3 * V cur / 2))) as [Hx|Hx];
    case Z.leb_spec; intros Hy; cbn; symmetry; (apply Z.ltb_ge || apply Z.ltb_lt); lia.
Qed.

(** A limit that is not set cannot grow: the scaler adds a node instead. *)
Lemma nextMemory_unset cur max : V cur = 0%Z → nextMemory cur max = (cur, false).
Proof.
  intros H0. rewrite nextMemory_unfold, H0. change (grown_of 0) with 0%Z. cbv zeta.
  destruct (Z.ltb_spec (V max) 0); [|done]. by rewrite (proj2 (Z.leb_le (V max) 0)) by lia.
Qed.

(** ** One decision *)
Lemma grow_spec p cur memory size reason :
  (0 ≤ V memory)%Z →
  let a := grow p cur memory size reason in
  (sa_Kind a = actionMemory ∧ (V memory < V (sa_Memory a) ≤ V (sp_MaxMemory p))%Z ∧
     (V (sa_Memory a) = V (sp_MaxMemory p) ∨ (memory_step | V (sa_Memory a))%Z)) ∨
  (sa_Kind a = actionScaleOut ∧ ss_ClusterReady cur = true ∧ (size < sp_MaxSize p)%Z ∧ sa_Size a = wrap32 (size + 1)) ∨
  sa_Kind a = actionNone.
Proof.
  intros Hm. unfold grow. pose proof (nextMemory_spec memory (sp_MaxMemory p) Hm) as Hn.
  destruct (nextMemory memory (sp_MaxMemory p)) as [m []]; [by left|]. right.
  destruct (Z.ltb_spec size (sp_MaxSize p)); [|by right]. destruct (ss_ClusterReady cur); [by left|by right].
Qed.
(** What an action needs: its samples, the wait since the last one, and room to grow. *)
Lemma decide_spec s now hist memory size a :
  (0 ≤ V memory)%Z → decide_action s now hist memory size = Some a → sa_Kind a ≠ actionNone →
  (∃ cur, last hist = Some cur ∧ ss_AllNodesUp cur = true ∧
     (sa_Kind a = actionScaleOut → ss_ClusterReady cur = true)) ∧
  (sc_lastAction s = 0%Z ∨ (sp_Cooldown (sc_policy s) ≤ time_sub now (sc_lastAction s))%Z) ∧
  (sa_Kind a = actionMemory ∧ (V memory < V (sa_Memory a) ≤ V (sp_MaxMemory (sc_policy s)))%Z ∧
     (V (sa_Memory a) = V (sp_MaxMemory (sc_policy s)) ∨ (memory_step | V (sa_Memory a))%Z) ∨
   sa_Kind a = actionScaleOut ∧ (size < sp_MaxSize (sc_policy s))%Z ∧ sa_Size a = wrap32 (size + 1)).
Proof.
  intros Hm Hd Hk. unfold decide_action in Hd. destruct (last hist) as [cur|]; [|by injection Hd as <-].
  destruct (ss_AllNodesUp cur) eqn:Hup; cbn [negb] in Hd; [|by injection Hd as <-].
  destruct (negb _ && _) eqn:Hcool; [by injection Hd as <-|].
  assert (sc_lastAction s = 0%Z ∨ (sp_Cooldown (sc_policy s) ≤ time_sub now (sc_lastAction s))%Z) as Hwait.
  { apply andb_false_iff in Hcool as [H%negb_false_iff%Z.eqb_eq|H%Z.ltb_ge]; [by left|by right]. }
  assert (∀ reason, a = grow (withDefaults (sc_policy s)) cur memory size reason →
    (∃ cur', Some cur = Some cur' ∧ ss_AllNodesUp cur' = true ∧ (sa_Kind a = actionScaleOut → ss_ClusterReady cur' = true)) ∧
    (sa_Kind a = actionMemory ∧ (V memory < V (sa_Memory a) ≤ V (sp_MaxMemory (sc_policy s)))%Z ∧
     (V (sa_Memory a) = V (sp_MaxMemory (sc_policy s)) ∨ (memory_step | V (sa_Memory a))%Z) ∨
     sa_Kind a = actionScaleOut ∧ (size < sp_MaxSize (sc_policy s))%Z ∧ sa_Size a = wrap32 (size + 1))) as Hgrow.
  { intros reason ->. destruct (grow_spec (withDefaults (sc_policy s)) cur memory size reason Hm) as [(H1 & H2)|[(H1 & H2 & H3)|H1]].
    - split; [|by left]. exists cur. split_and!; [done..|]. by rewrite H1.
    - split; [|by right]. by exists cur.
    - by rewrite H1 in Hk. }
  destruct (sc_oomAtAction s <? ss_OOMKills cur)%Z; [injection Hd as <-; by destruct (Hgrow _ eq_refl)|].
  destruct (lastN _ _ (under_pressure _)) as [[]|]; cbn in Hd; [injection Hd as <-; by destruct (Hgrow _ eq_refl)| |done].
  destruct (lastN _ _ (slow _)) as [[]|]; cbn in Hd; [|by injection Hd as <-|done].
  destruct (ss_ClusterReady cur) eqn:Hr; cbn [negb] in Hd; [|by injection Hd as <-].
  destruct (Z.ltb_spec size (sp_MaxSize (sc_policy s))); injection Hd as <-; [|done].
  split; [by exists cur|]. split; [done|by right].
Qed.
(** With the sample counts the monitor uses there is always a decision. *)
Lemma decide_total s now hist memory size :
  (0 ≤ sp_MemSamples (sc_policy s))%Z → (0 ≤ sp_SlowSamples (sc_policy s))%Z →
  is_Some (decide_action s now hist memory size).
Proof.
  intros H1 H2.
  assert (∀ l n pred, (0 ≤ n)%Z → is_Some (lastN l n pred)) as Hl.
  { intros l n pred Hn. unfold lastN. destruct (_ <? _)%Z; [by eexists|]. by rewrite (proj2 (Z.ltb_ge n 0)) by lia. }
  unfold decide_action. destruct (last hist) as [cur|]; [|by eexists].
  do 2 (destruct (_ : bool); [by eexists|]). destruct (_ <? _)%Z; [by eexists|].
  destruct (Hl (recent s hist) (sp_MemSamples (withDefaults (sc_policy s))) (under_pressure (withDefaults (sc_policy s))))
    as [[] ->]; [cbn; destruct (_ =? _)%Z; lia|by eexists|].
  destruct (Hl (recent s hist) (sp_SlowSamples (withDefaults (sc_policy s))) (slow (withDefaults (sc_policy s))))
    as [[] ->]; [cbn; destruct (_ =? _)%Z; lia| |by eexists].
  cbn. destruct (ss_ClusterReady cur); [|by eexists]. cbn. by destruct (_ <? _)%Z; eexists.
Qed.

(** ** A run of the monitor *)
(** An action decided at [t] that went through. *)
Definition acted (t : time) (r r' : soakRun) : Prop :=
  ∃ hist t' a, decide_action (sr_scaler r) t hist (sr_memory r) (sr_size r) = Some a ∧ sa_Kind a ≠ actionNone ∧
    monitor_action r t hist true t' = Some r'.
Definition policy_of (r : soakRun) : soakPolicy := sc_policy (sr_scaler r).
(** How many times memory can be raised, and nodes be added. *)
Definition raises_left (r : soakRun) : Z :=
  let max := V (sp_MaxMemory (policy_of r)) in
  if (V (sr_memory r) <? max)%Z then max / memory_step - V (sr_memory r) / memory_step + 1 else 0.
Definition nodes_left (r : soakRun) : Z := Z.max 0 (sp_MaxSize (policy_of r) - sr_size r).
Definition run_ok (r : soakRun) : Prop :=
  (0 ≤ V (sr_memory r))%Z ∧ in_int32 (sr_size r) ∧ in_int32 (sp_MaxSize (policy_of r)).
(** Nothing shrinks, and nothing passes its limit. *)
Definition within (r r' : soakRun) : Prop :=
  policy_of r' = policy_of r ∧
  (V (sr_memory r) ≤ V (sr_memory r') ≤ Z.max (V (sr_memory r)) (V (sp_MaxMemory (policy_of r))))%Z ∧
  (sr_size r ≤ sr_size r' ≤ Z.max (sr_size r) (sp_MaxSize (policy_of r)))%Z.
Lemma raises_left_nonneg r : (0 ≤ V (sr_memory r))%Z → (0 ≤ raises_left r)%Z.
Proof.
  intros H0. unfold raises_left. destruct (Z.ltb_spec (V (sr_memory r)) (V (sp_MaxMemory (policy_of r)))); [|done].
  assert (V (sr_memory r) / memory_step ≤ V (sp_MaxMemory (policy_of r)) / memory_step)%Z; [|lia].
  apply Z.div_le_mono; [done|lia].
Qed.
Lemma raise_left_step (cur new max : Z) :
  (0 ≤ cur)%Z → (cur < new ≤ max)%Z → new = max ∨ (memory_step | new)%Z →
  ((if new <? max then max / memory_step - new / memory_step + 1 else 0) + 1 ≤
   max / memory_step - cur / memory_step + 1)%Z.
Proof.
  intros H0 H1 H2. assert (0 < memory_step)%Z as Hs by done.
  assert (cur / memory_step ≤ max / memory_step)%Z by (apply Z.div_le_mono; lia).
  destruct (Z.ltb_spec new max) as [Hlt|Hge]; [|lia]. destruct H2 as [->|[k ->]]; [lia|].
  rewrite Z.div_mul by lia. assert (cur / memory_step < k)%Z; [|lia]. apply Z.div_lt_upper_bound; lia.
Qed.
Lemma acted_spec t r r' :
  run_ok r → acted t r r' →
  run_ok r' ∧ within r r' ∧ (raises_left r' + nodes_left r' + 1 ≤ raises_left r + nodes_left r)%Z.
Proof.
  intros (Hm & Hs & Hmax) (hist & t' & a & Hd & Hk & Hr). unfold monitor_action in Hr. rewrite Hd in Hr. cbn in Hr.
  apply String.eqb_neq in Hk as Hk'. rewrite Hk' in Hr.
  destruct (decide_spec _ _ _ _ _ _ Hm Hd Hk) as (_ & _ & Hact). unfold applyAction in Hr.
  fold (policy_of r) in Hact. destruct Hact as [(HK & Hgr & Hstep)|(HK & Hlt & Hsz)]; rewrite HK in Hr;
    injection Hr as <-; unfold run_ok, within, raises_left, nodes_left, policy_of in *; cbn.
  - rewrite (proj2 (Z.ltb_lt (V (sr_memory r)) _)) by lia.
    pose proof (raise_left_step (V (sr_memory r)) (V (sa_Memory a)) _ Hm Hgr Hstep). split_and!; try done; lia.
  - assert (sa_Size a = sr_size r + 1)%Z as ->.
    { rewrite Hsz. apply wrap32_id. unfold in_int32, int32_min, int32_max in *. lia. }
    unfold in_int32 in *. split_and!; try done; lia.
Qed.
End soak.

(** ** The cases of [soak_policy_test.go] *)
#[local] Open Scope Z_scope.
(** A [Quantity] for evaluation: a number of bytes, read with the suffixes Mi and Gi. *)
Definition with_suffix (s suffix : string) (unit : Z) : option Z :=
  if HasSuffix s suffix
  then (λ n, Z.of_N n * unit)%Z <$> parse_unsigned (String.substring 0 (String.length s - String.length suffix) s)
  else None.
#[export] Instance demo_quantity : Quantity := {|
  quantity := Z; q_zero := 0; q_Value := λ z, Z.max int64_min (Z.min int64_max z); q_New := id;
  q_Parse := λ s, match with_suffix s "Gi" (2 ^ 30), with_suffix s "Mi" (2 ^ 20) with
                  | Some z, _ => Some z
                  | None, Some z => Some z
                  | None, None => Z.of_N <$> parse_unsigned s
                  end
|}.
#[export] Instance demo_quantity_laws : QuantityLaws demo_quantity.
Proof. split; unfold in_int64; cbn; unfold int64_min, int64_max; intros; lia. Qed.
Definition gib (n : Z) : Z := n * 2 ^ 30.
Definition test_policy : soakPolicy :=
  mkSoakPolicy (float_of 200) (gib 16) 5 (15 * minute) (float_of 500) (decimal 9 10) (float_of 0) 0 0 (decimal 5 100).
Definition t0 : time := 1000 * minute.
Definition test_now : time := t0 + 120 * minute.
Definition test_sample (i : nat) : soakSample :=
  mkSoakSample (t0 + (Z.of_nat i + 1) * minute) true true 0 0 (float_of 30) (float_of 200) (float_of 0) (float_of 40)
    (float_of 0).
Definition samples (n : nat) (f : nat → soakSample → soakSample) : list soakSample :=
  (λ i, f i (test_sample i)) <$> seq 0%nat n.
Definition with_oom (k : Z) (s : soakSample) : soakSample :=
  mkSoakSample (ss_At s) (ss_ClusterReady s) (ss_AllNodesUp s) k 0 (ss_MemPct s) (ss_Rate s) (ss_ErrRate s) (ss_P99 s) (ss_DiskPct s).
Definition with_load (mem rate err p99 : float64) (s : soakSample) : soakSample :=
  mkSoakSample (ss_At s) (ss_ClusterReady s) (ss_AllNodesUp s) (ss_OOMKills s) 0 mem rate err p99 (ss_DiskPct s).
Definition with_up (ready up : bool) (s : soakSample) : soakSample :=
  mkSoakSample (ss_At s) ready up (ss_OOMKills s) 0 (ss_MemPct s) (ss_Rate s) (ss_ErrRate s) (ss_P99 s) (ss_DiskPct s).
Definition mem_at (pct : Z) : soakSample → soakSample := with_load (float_of pct) (float_of 200) (float_of 0) (float_of 40).
Definition p99_at (ms : Z) : soakSample → soakSample := with_load (float_of 30) (float_of 200) (float_of 0) (float_of ms).
Definition test_decide (s : soakScaler) (hist : list soakSample) (memory size : Z) : option (string * Z * Z) :=
  (λ a, (sa_Kind a, sa_Memory a, sa_Size a)) <$> decide_action s test_now hist memory size.
Definition fresh : soakScaler := mkSoakScaler test_policy 0 0.

Example TestNextMemory :
  nextMemory (gib 4) (gib 16) = (gib 6, true) ∧ nextMemory (gib 10) (gib 12) = (gib 12, true) ∧
  (nextMemory (gib 16) (gib 16)).2 = false ∧ nextMemory (gib 1) (gib 16) = (1536 * 2 ^ 20, true)%Z ∧
  (q_Value (nextMemory (1000 * 2 ^ 20)%Z (gib 16)).1 mod memory_step = 0)%Z.
Proof. by vm_compute. Qed.
Example TestDecide :
  [test_decide fresh (samples 10%nat (λ _ s, s)) (gib 4) 3;
   test_decide fresh [] (gib 4) 3;
   test_decide fresh (samples 5%nat (λ _, with_oom 1)) (gib 4) 3;
   test_decide fresh (samples 5%nat (λ _, with_oom 2)) (gib 16) 3;
   test_decide fresh (samples 5%nat (λ _, with_oom 2)) (gib 16) 5;
   test_decide (mkSoakScaler test_policy 0 1) (samples 5%nat (λ _, with_oom 1)) (gib 6) 3;
   test_decide fresh (samples 6%nat (λ _, mem_at 90)) (gib 4) 3;
   test_decide fresh (samples 6%nat (λ i s, if (3 <? i)%nat then mem_at 95 s else s)) (gib 4) 3;
   test_decide fresh (samples 8%nat (λ _, mem_at 0)) (gib 4) 3;
   test_decide fresh (samples 8%nat (λ _, p99_at 900)) (gib 4) 3;
   test_decide fresh (samples 8%nat (λ _, with_load (float_of 30) (float_of 120) (float_of 0) (float_of 40))) (gib 4) 3;
   test_decide fresh (samples 8%nat (λ i s, if (i =? 5)%nat then p99_at 5000 s else s)) (gib 4) 3;
   test_decide fresh (samples 8%nat (λ _, with_load (float_of 30) (float_of 200) (decimal 3 10) (float_of 900))) (gib 4) 3;
   test_decide fresh (samples 8%nat (λ _, p99_at 900)) (gib 4) 5;
   test_decide fresh (samples 8%nat (λ i s, with_up true (negb (i =? 7)%nat) (with_oom 1 (p99_at 900 s)))) (gib 4) 3;
   test_decide fresh (samples 6%nat (λ _ s, with_up false true (mem_at 90 s))) (gib 4) 4;
   test_decide fresh (samples 6%nat (λ _ s, with_up false true (with_oom 1 s))) (gib 16) 4;
   test_decide fresh (samples 8%nat (λ _ s, with_up false true (p99_at 900 s))) (gib 4) 4;
   test_decide (mkSoakScaler test_policy (test_now - 5 * minute) 0) (samples 8%nat (λ _, with_oom 3)) (gib 4) 3;
   test_decide (mkSoakScaler (mkSoakPolicy (float_of 200) (gib 16) 5 minute (float_of 500) (decimal 9 10) (float_of 0) 0 0
       (decimal 5 100)) (t0 + 7 * minute + 30 * second) 0) (samples 8%nat (λ _, p99_at 900)) (gib 6) 3] =
  Some <$>
  [(actionNone, 0, 0); (actionNone, 0, 0); (actionMemory, gib 6, 0); (actionScaleOut, 0, 4); (actionNone, 0, 0);
   (actionNone, 0, 0); (actionMemory, gib 6, 0); (actionNone, 0, 0); (actionNone, 0, 0); (actionScaleOut, 0, 4);
   (actionScaleOut, 0, 4); (actionNone, 0, 0); (actionNone, 0, 0); (actionNone, 0, 0); (actionNone, 0, 0);
   (actionMemory, gib 6, 0); (actionNone, 0, 0); (actionNone, 0, 0); (actionNone, 0, 0); (actionNone, 0, 0)]%Z.
Proof. by vm_compute. Qed.
Example TestParseTopMemory :
  parseTopMemory ("soak-0      riak       850m         1536Mi" +:+ sep_of nl +:+
    "soak-0      metrics-exporter   3m   20Mi" +:+ sep_of nl +:+
    "soak-1      riak       910m         2Gi" +:+ sep_of nl +:+ "junk line" +:+ sep_of nl) "riak" =
  {["soak-0" := 1536 * 2 ^ 20; "soak-1" := 2 * 2 ^ 30]}.
Proof. by apply (bool_decide_unpack _); vm_compute. Qed.
Example TestParseDf :
  parseDf ("Filesystem        1-blocks         Used     Available Capacity Mounted on" +:+ sep_of nl +:+
    "/dev/topolvm/abc 322122547200 32212254720 289910292480      10% /var/lib/riak" +:+ sep_of nl) =
    Ok (32212254720, 322122547200) ∧
  Forall (λ bad, is_ok (parseDf bad) = false)
    [""; "Filesystem" +:+ sep_of nl; "h" +:+ sep_of nl +:+ "x y" +:+ sep_of nl;
     "h" +:+ sep_of nl +:+ "fs 0 0 0 0% /" +:+ sep_of nl].
Proof. split; [by vm_compute|]. by repeat constructor; vm_compute. Qed.
Example TestSteadyErrors :
  let ok := with_load (float_of 0) (float_of 200) (float_of 0) (float_of 0) (test_sample 0) in
  let at_ up rate err := with_up up up (with_load (float_of 0) (float_of rate) (decimal err 100) (float_of 0) ok) in
  steadyErrors [ok; ok; ok; at_ false 170 15; at_ true 190 5; ok; ok; at_ true 200 3; at_ true 0 0] = (5, 1) ∧
  steadyErrors [] = (0, 0).
Proof. by vm_compute. Qed.
Close Scope Z_scope.

(** Errors are only counted in samples that are. *)
Lemma steadyErrors_bounds `{Q : Quantity} (hist : list soakSample) :
  (0 ≤ (steadyErrors hist).2 ≤ (steadyErrors hist).1)%Z ∧ ((steadyErrors hist).1 < Z.max 1 (Z.of_nat (length hist)))%Z.
Proof.
  destruct hist as [|h hist]; [by cbn|]. cbn [steadyErrors length].
  assert (∀ prev l steady bad, (0 ≤ bad ≤ steady)%Z →
    let r := steady_loop prev l steady bad in
    (0 ≤ r.2 ≤ r.1)%Z ∧ (r.1 ≤ steady + Z.of_nat (length l))%Z) as Hl.
  { intros prev l. revert prev. induction l as [|x l IH]; intros prev steady bad Hb; [cbn; lia|].
    cbn [steady_loop length]. destruct (_ || _); [specialize (IH x steady bad Hb); cbn in *; lia|].
    destruct (SFltb _ _); [specialize (IH x (steady + 1) (bad + 1))%Z|specialize (IH x (steady + 1) bad)%Z];
      cbn in *; lia. }
  specialize (Hl h hist 0 0)%Z. cbn in Hl. lia.
Qed.

(** ** Properties *)

(** C33: the soak monitor scales within its limits and stops. Whatever it observes, and whenever,
    the actions that go through never shrink the cluster or its memory, never pass the
    largest size or memory limit (the 64-bit and 32-bit arithmetic included), and their number
    is at most the memory steps and nodes that were left, so that a run of the monitor has
    finitely many. Each waits for the cooldown and for every node to be up, and a node is only
    added to a ready cluster. *)
Theorem soak_scaler_bounded (Q : Quantity) (HQ : QuantityLaws Q) (n : nat) (r r' : soakRun) :
  run_ok r → nsteps (λ r1 r2, ∃ t, acted t r1 r2) n r r' →
  within r r' ∧ (Z.of_nat n ≤ raises_left r + nodes_left r)%Z ∧
  ∀ t hist a, decide_action (sr_scaler r') t hist (sr_memory r') (sr_size r') = Some a → sa_Kind a ≠ actionNone →
    (sc_lastAction (sr_scaler r') = 0%Z ∨
     (sp_Cooldown (policy_of r') ≤ time_sub t (sc_lastAction (sr_scaler r')))%Z) ∧
    ∃ cur, last hist = Some cur ∧ ss_AllNodesUp cur = true ∧ (sa_Kind a = actionScaleOut → ss_ClusterReady cur = true).
Proof.
  intros Hok Hn.
  assert (run_ok r' ∧ within r r' ∧ (Z.of_nat n + raises_left r' + nodes_left r' ≤ raises_left r + nodes_left r)%Z)
    as (Hok' & Hw & Hc).
  { induction Hn as [r|n r r1 r2 [t Ha] Hn IH]; [unfold within; split_and!; try done; lia|].
    destruct (acted_spec t r r1 Hok Ha) as (Hok1 & (Hp1 & Hm1 & Hs1) & Hc1).
    destruct (IH Hok1) as (Hok2 & (Hp2 & Hm2 & Hs2) & Hc2). rewrite Hp1 in *. unfold within.
    split_and!; try done; try congruence; lia. }
  split; [done|]. destruct Hok' as (Hm' & _). split.
  - pose proof (raises_left_nonneg r' Hm'). unfold nodes_left in *. lia.
  - intros t hist a Hd Hk. destruct (decide_spec _ _ _ _ _ _ Hm' Hd Hk) as (Hcur & Hwait & _). by split.
Qed.
Lemma soak_scaler_bounded_witness :
  let r := mkSoakRun fresh (gib 4) 3 in
  raises_left r = 49%Z ∧ nodes_left r = 2%Z ∧
  ∃ r', monitor_action r test_now (samples 5 (λ _, with_oom 1)) true (test_now + second) = Some r' ∧
    sr_memory r' = gib 6 ∧ within r r'.
Proof.
  intros r. split; [by vm_compute|]. split; [by vm_compute|].
  eexists. split; [by vm_compute|]. split; [done|].
  refine (proj1 (soak_scaler_bounded demo_quantity demo_quantity_laws 1 r _ _ _)).
  - split; [by vm_compute|]. split; by apply (bool_decide_unpack _); vm_compute.
  - eapply nsteps_l; [|constructor]. exists test_now, (samples 5 (λ _, with_oom 1)), (test_now + second)%Z. eexists.
    split; [by vm_compute|]. split; [done|]. by vm_compute.
Defined.
