(* ===== verification/Verify.v ===== *)
(** * The verification harness ([test/scale/verify.go])

    The harness reads Riak back with parsers and mappings of its own and compares with the
    specs: grants, users and certificate sources, bucket types and their properties. A set of
    Go's [map[string]bool] whose values are only ever set to true is a [gset].
    [verifyAll] runs a check per goroutine; [schedule] is the order in which they append to
    the shared list of problems. What a command prints is a parameter ([admin]), as are the
    parsing and printing of floats ([GoFloat]). *)
From Stdlib Require Import SpecFloat.
From S2P Require Import Prelude GoLib Effects Types KubeTypes Kube Executor Manager BucketController Soak.

(** ** What the specs ask for *)
Definition expectedTokens (permission : string) : list string :=
  if String.eqb permission "read" then ["riak_kv.get"]
  else if String.eqb permission "write" then ["riak_kv.put"]
  else if String.eqb permission "delete" then ["riak_kv.delete"]
  else if String.eqb permission "list" then ["riak_kv.list_keys"; "riak_kv.list_buckets"]
  else if String.eqb permission "admin"
  then ["riak_kv.get"; "riak_kv.put"; "riak_kv.delete"; "riak_kv.list_keys"; "riak_kv.list_buckets"]
  else [].
(** [None]: a bucket grant without a bucket indexes out of range. *)
Definition harness_key (g : Grant) : option string :=
  if String.eqb (g_Resource g) "any" then Some "* *"
  else match Fields (g_BucketName g) with
       | [f] => Some (f +:+ " *")
       | f :: f' :: _ => Some (f +:+ " " +:+ f')
       | [] => None
       end.
Abbreviation token_map := (gmap string (gset string)).
Definition tokens_at (m : token_map) (k : string) : gset string := default ∅ (m !! k).
Definition add_tokens_at (m : token_map) (k : string) (tokens : list string) : token_map :=
  <[k := tokens_at m k ∪ list_to_set tokens]> m.
Definition expected_grant (want : option token_map) (g : Grant) : option token_map :=
  w ← want; k ← harness_key g; Some (add_tokens_at w k (expectedTokens (g_Permission g))).
Definition expectedGrants (grants : list Grant) : option token_map := foldl expected_grant (Some ∅) grants.

Definition expectedBucketProps (spec : RiakBucketSpec) : gmap string string :=
  let n := if (bs_NVal spec =? 0)%Z then bs_ReplicationFactor spec else bs_NVal spec in
  let want := if (0 <? n)%Z then <["n_val" := Itoa n]> (bs_Properties spec) else bs_Properties spec in
  if bs_AllowMulti spec then <["allow_mult" := "true"]> want else want.

(** ** What Riak prints *)
Definition tableRows (section : string) : list (list string) :=
  (λ line, TrimSpace <$> Split (TrimByte line "|") "|") <$>
    List.filter (λ line, HasPrefix line "|") (Split section nl).

(** A cell of comma-separated words. *)
Definition cell_words (cell : string) : list string :=
  List.filter (λ t, negb (String.eqb t "")) (TrimSpace <$> Split cell ",").
(** One row, with the map so far and the key of the last one that had a type. *)
Definition grant_cells (st : token_map * string) (cells : list string) : token_map * string :=
  match cells with
  | [c0; c1; c2] =>
      if String.eqb c0 "type" then st
      else
        let last := if negb (String.eqb c0 "") then c0 +:+ " " +:+ c1 else st.2 in
        if String.eqb last "" then (st.1, last)
        else (add_tokens_at st.1 last (cell_words c2), last)
  | _ => st
  end.
Definition parseGrants (out : string) : token_map :=
  match from_index out "Dedicated permissions" with
  | None => ∅
  | Some section =>
      let section := default section (before_index section "Cumulative permissions") in
      (foldl grant_cells (∅, "") (tableRows section)).1
  end.

Definition user_cells (users : gset string) (cells : list string) : gset string :=
  match cells with
  | c0 :: _ => if negb (String.eqb c0 "") && negb (String.eqb c0 "username") then {[c0]} ∪ users else users
  | [] => users
  end.
Definition parseUsers (out : string) : gset string := foldl user_cells ∅ (tableRows out).

Definition source_cells (st : gset string * string) (cells : list string) : gset string * string :=
  match cells with
  | [c0; c1; c2; c3] =>
      if String.eqb c0 "users" then st
      else
        let source := if negb (String.eqb c2 "") then c2 else st.2 in
        if negb (String.eqb source "certificate") then (st.1, source)
        else (list_to_set (cell_words c0) ∪ st.1, source)
  | _ => st
  end.
Definition parseCertSources (out : string) : gset string := (foldl source_cells (∅, "") (tableRows out)).1.

Definition activeBucketTypes (out : string) : gset string :=
  list_to_set (omap (λ line, match Fields line with
                             | [f; s] => if String.eqb s "(active)" then Some f else None
                             | _ => None
                             end) (Split out nl)).

Definition status_line (props : gmap string string) (line : string) : gmap string string :=
  match before_index line ": ", from_index line ": " with
  | Some k, Some rest =>
      if Contains k " " || Contains k (sep_of "009") then props
      else <[k := TrimSpace (drop_bytes 2 rest)]> props
  | _, _ => props
  end.
Definition parseBucketTypeStatus (out : string) : gmap string string := foldl status_line ∅ (Split out nl).

(** ** The comparison *)
Definition lacking (verb : string) (want got : token_map) : list string :=
  '(k, tokens) ← map_to_list want;
  (λ t, verb +:+ " " +:+ t +:+ " on [" +:+ k +:+ "]") <$> elements (tokens ∖ tokens_at got k).
Definition diffGrants (want got : token_map) : list string :=
  SortStrings (lacking "missing" want got ++ lacking "unexpected" got want).

(** [readyFor]: a Ready condition computed for this generation. *)
Definition readyFor (conds : list Condition) (gen : Z) : bool :=
  existsb (λ c, String.eqb (cd_Type c) "Ready" && String.eqb (cd_Status c) "True" &&
                (cd_ObservedGeneration c =? gen)%Z) conds.

(** ** The ring *)
Definition minRingSize : Z := 128.
(** [strconv.Atoi] *)
Definition Atoi (s : string) : option Z :=
  z ← parse_signed s; if bool_decide (- 2 ^ 63 ≤ z < 2 ^ 63)%Z then Some z else None.
Definition ringSizeOf (cl : RiakCluster) : Z :=
  match Atoi (map_get (cs_RiakConfig (cl_Spec cl)) "ring_size") with
  | Some v => if (0 <? v)%Z then v else minRingSize
  | None => minRingSize
  end.
(** [strconv.ParseFloat] without an error, and ["%.1f"]. *)
Class GoFloat := {
  ParseFloat : string → option float64;
  fmt_f1 : float64 → string
}.
Definition fsub (x y : float64) : float64 := SFsub 53 1024 x y.
(** [strings.TrimSuffix] of one byte. *)
Definition TrimSuffixByte (s : string) (c : ascii) : string :=
  if HasSuffix s (sep_of c) then take_bytes (pred (String.length s)) s else s.

Section verify.
Context `{F : GoFloat} `{L : KubeLib}.
Record ring_scan := mkRingScan { rs_rows : Z; rs_bad : bool; rs_owned : list string }.
Definition ring_row (ringSize lo hi : Z) (st : ring_scan) (line : string) : ring_scan :=
  match Fields line with
  | [_; f1; _; f3] =>
      if negb (HasPrefix f3 "riak@") then st
      else match ParseFloat (TrimSuffixByte f1 "%") with
           | None => st
           | Some pct =>
               let parts := fmul (fdiv pct (float_of 100)) (float_of ringSize) in
               let tol := fdiv (fmul (decimal 6 100) (float_of ringSize)) (float_of 100) in
               let off := SFltb parts (fsub (float_of lo) tol) || SFltb (fadd (float_of hi) tol) parts in
               mkRingScan (rs_rows st + 1) (rs_bad st || off)
                 (rs_owned st ++ [f3 +:+ "=" +:+ fmt_f1 pct +:+ "% (~" +:+ fmt_f1 parts +:+ " partitions)"])
           end
  | _ => st
  end.
Definition ringImbalance (memberStatus : string) (nodes ringSize : Z) : string :=
  let lo := Z.quot ringSize nodes in
  let hi := Z.quot (ringSize + nodes - 1) nodes in
  let st := foldl (ring_row ringSize lo hi) (mkRingScan 0 false []) (Split memberStatus nl) in
  if negb (rs_rows st =? nodes)%Z
  then "member-status lists " +:+ Itoa (rs_rows st) +:+ " nodes, want " +:+ Itoa nodes
  else if rs_bad st
  then "ring of " +:+ Itoa ringSize +:+ " partitions is unbalanced across " +:+ Itoa nodes +:+
       " nodes (each should own " +:+ Itoa lo +:+ "-" +:+ Itoa hi +:+ "): " +:+ Join (rs_owned st) ", "
  else "".

(** ** verifyAll *)
(** [riakAdmin]: [kubectl exec] with the two streams in one, and the process's error. *)
Definition riakAdmin (start : string → list string → string * option error) (ns pod : string) (args : list string)
    : string * option error :=
  let '(out, err) := start "kubectl" (kubectl_args ns pod "riak" args) in
  (out, match err with
        | Some e => Some (Wrapf ("kubectl exec " +:+ pod +:+ " riak-admin " +:+ Join args " " +:+ ": ") e "")
        | None => None
        end).
Context (admin : string → list string → string * option error).
(** [fail("%s: %v", pod, err)] or the rest of the check. *)
Definition on_reply (pod : string) (args : list string) (k : string → list string) : list string :=
  match admin pod args with
  | (_, Some e) => [pod +:+ ": " +:+ err_msg e]
  | (out, None) => k out
  end.
Definition wanted_ring (size : Z) : string :=
  "Valid:" +:+ Itoa size +:+ " / Leaving:0 / Exiting:0 / Joining:0 / Down:0".
Definition verify_ring (cl : RiakCluster) (pod : string) : list string :=
  on_reply pod ["member-status"] (λ out,
    let want := wanted_ring (cl_Size cl) in
    (if Contains out want then [] else [pod +:+ ": ring is not " +:+ Quote want +:+ sep_of nl +:+ out]) ++
    (let msg := ringImbalance out (cl_Size cl) (ringSizeOf cl) in
     if String.eqb msg "" then [] else [pod +:+ ": " +:+ msg])).
Definition verify_types (pod : string) (bts : list string) : list string :=
  on_reply pod ["bucket-type"; "list"] (λ out,
    let active := activeBucketTypes out in
    bt ← bts; if bool_decide (bt ∈ active) then [] else [pod +:+ ": bucket type " +:+ bt +:+ " is not active"]).
Definition usernames (cus : list RiakUser) : list string := (λ u, us_Username (us_Spec u)) <$> cus.
Definition verify_users (pod : string) (cus : list RiakUser) : list string :=
  on_reply pod ["security"; "print-users"] (λ uout,
  on_reply pod ["security"; "print-sources"] (λ sout,
    let have := parseUsers uout in
    let certs := parseCertSources sout in
    (name ← usernames cus;
     (if bool_decide (name ∈ have) then [] else [pod +:+ ": user " +:+ name +:+ " missing in Riak"]) ++
     (if bool_decide (name ∈ certs) then [] else [pod +:+ ": user " +:+ name +:+ " has no certificate source"])) ++
    (name ← elements have;
     if bool_decide (name ∈ usernames cus) then []
     else [pod +:+ ": Riak has user " +:+ name +:+ " that no RiakUser declares"]))).
Definition verify_props (pod : string) (bucket : RiakBucket) : list string :=
  let bt := bs_BucketType (bk_Spec bucket) in
  on_reply pod ["bucket-type"; "status"; bt] (λ out,
    let got := parseBucketTypeStatus out in
    '(k, v) ← map_to_list (expectedBucketProps (bk_Spec bucket));
    if String.eqb (map_get got k) v then []
    else [pod +:+ ": bucket type " +:+ bt +:+ " has " +:+ k +:+ "=" +:+ Quote (map_get got k) +:+ ", spec wants " +:+ Quote v]).
(** [None]: the goroutine panics, and the process with it. *)
Definition verify_grants (pod : string) (user : RiakUser) : option (list string) :=
  let name := us_Username (us_Spec user) in
  match admin pod ["security"; "print-grants"; name] with
  | (_, Some e) => Some [pod +:+ ": " +:+ err_msg e]
  | (out, None) =>
      want ← expectedGrants (us_Grants (us_Spec user));
      Some (match diffGrants want (parseGrants out) with
            | [] => []
            | d => [pod +:+ ": grants of " +:+ name +:+ " differ from spec: " +:+ Join d "; "]
            end)
  end.
Definition verify_pod (cl : RiakCluster) (cbs : list RiakBucket) (cus : list RiakUser) (pod : string)
    : option (list (list string)) :=
  grants ← mapM (verify_grants pod) cus;
  Some ([verify_ring cl pod; verify_types pod ((λ b, bs_BucketType (bk_Spec b)) <$> cbs); verify_users pod cus] ++
        (verify_props pod <$> cbs) ++ grants).
Definition of_cluster (cl : RiakCluster) (name : string) : bool := String.eqb name (cl_Name cl).
Definition cluster_pods (cl : RiakCluster) : list string :=
  (λ i : nat, cl_Name cl +:+ "-" +:+ Itoa (Z.of_nat i)) <$> seq 0 (Z.to_nat (cl_Size cl)).
Definition verify_cluster (buckets : list RiakBucket) (users : list RiakUser) (cl : RiakCluster)
    : option (list (list string)) :=
  let cbs := List.filter (λ b, of_cluster cl (bs_ClusterName (bk_Spec b))) buckets in
  let cus := List.filter (λ u, of_cluster cl (us_ClusterName (us_Spec u))) users in
  mjoin <$> mapM (verify_pod cl cbs cus) (cluster_pods cl).
(** The problems, or the error of a list call; the number of facts is only printed. *)
Definition verifyAll (schedule : list (list string) → list string)
    (clusters : res (list RiakCluster)) (buckets : res (list RiakBucket)) (users : res (list RiakUser))
    : option (res (list string)) :=
  match clusters, buckets, users with
  | Err e, _, _ | Ok _, Err e, _ | Ok _, Ok _, Err e => Some (Err e)
  | Ok clusters, Ok buckets, Ok users =>
      tasks ← mjoin <$> mapM (verify_cluster buckets users) clusters;
      Some (Ok (SortStrings (schedule tasks)))
  end.
End verify.
(** The problems of all goroutines, those of each in any order ([range] over a map has
    none), in any interleaving. *)
Inductive interleaved : list (list string) → list string → Prop :=
| il_done tasks : Forall (λ t, t = []) tasks → interleaved tasks []
| il_step before t x t' after l :
    t ≡ₚ x :: t' → interleaved (before ++ t' :: after) l → interleaved (before ++ t :: after) (x :: l).
