(* ===== verification/VerifyFacts.v ===== *)
(** * The harness and the operator agree

    [test/scale/verify.go] was written apart from the operator: its own mapping of
    permissions, its own parser of print-grants. What it accepts is what
    [GrantUserPermissions] establishes. *)
From S2P Require Import Prelude GoLib Effects Types Samples KubeTypes Kube Executor ExecutorFacts Manager RiakEnv Grants BucketController Verify.

(** ** Sets of tokens under a key *)
Lemma elem_of_add m k l k' t :
  t ∈ tokens_at (add_tokens_at m k l) k' ↔ t ∈ tokens_at m k' ∨ k = k' ∧ t ∈ l.
Proof.
  unfold add_tokens_at. unfold tokens_at at 1. destruct (decide (k = k')) as [<-|Hne].
  - rewrite lookup_insert_eq. cbn. rewrite elem_of_union, elem_of_list_to_set. naive_solver.
  - rewrite lookup_insert_ne by done. fold (tokens_at m k'). naive_solver.
Qed.
Lemma tokens_at_empty k t : t ∉ tokens_at ∅ k.
Proof. unfold tokens_at. rewrite lookup_empty. apply not_elem_of_empty. Qed.

Lemma lacking_nil verb want got :
  lacking verb want got = [] ↔ ∀ k t, t ∈ tokens_at want k → t ∈ tokens_at got k.
Proof.
  unfold lacking. split.
  - intros Hn k t Ht. unfold tokens_at in Ht. destruct (want !! k) as [tokens|] eqn:Hk; [|by apply not_elem_of_empty in Ht].
    cbn in Ht. destruct (decide (t ∈ tokens_at got k)) as [|Hout]; [done|].
    assert (verb +:+ " " +:+ t +:+ " on [" +:+ k +:+ "]" ∈ @nil string) as Hbad; [|by apply elem_of_nil in Hbad].
    rewrite <-Hn. apply list_elem_of_bind. exists (k, tokens). split; [|by apply elem_of_map_to_list].
    apply list_elem_of_fmap. exists t. split; [done|]. apply elem_of_elements. set_solver.
  - intros Hs. apply elem_of_nil_inv. intros x ((k & tokens) & Hx & Hk)%list_elem_of_bind.
    apply elem_of_map_to_list in Hk. apply list_elem_of_fmap in Hx as (t & _ & Ht).
    apply elem_of_elements, elem_of_difference in Ht as [Hin Hout]. apply Hout, Hs. unfold tokens_at. by rewrite Hk.
Qed.
(** No difference is reported exactly when the two hold the same tokens. *)
Lemma diffGrants_nil want got :
  diffGrants want got = [] ↔ ∀ k t, t ∈ tokens_at want k ↔ t ∈ tokens_at got k.
Proof.
  unfold diffGrants. assert (∀ l : list string, SortStrings l = [] ↔ l = []) as ->.
  { intros l. pose proof (SortBy_Permutation id l) as Hp. unfold SortStrings. split; intros He.
    - rewrite He in Hp. by apply Permutation_nil in Hp.
    - subst l. by apply Permutation_nil. }
  rewrite app_nil, !lacking_nil. naive_solver.
Qed.

(** ** What the specs ask for *)
Definition known_permissions : list string := ["read"; "write"; "delete"; "list"; "admin"].
Lemma expectedTokens_of p : p ∈ known_permissions → expectedTokens p = tokens_of p.
Proof.
  intros Hp. assert (Forall (λ p, expectedTokens p = tokens_of p) known_permissions) as H by by repeat constructor.
  by eapply Forall_forall in H.
Qed.
Lemma harness_key_of g ty b :
  grant_unreserved g → target_key (grant_target g) = Some (ty, b) → harness_key g = Some (map_key ty b).
Proof.
  unfold grant_unreserved, target_key, grant_target, harness_key. cbn [fst snd]. intros Hg.
  destruct (String.eqb (g_Resource g) "any"); [by intros [= <- <-]|].
  destruct (String.eqb (g_Resource g) "bucket"); [|done].
  destruct (Fields (g_BucketName g)) as [|t [|u [|? ?]]]; cbn; try done;
    (destruct (String.eqb_spec t "any") as [->|_]; [|by intros [= <- <-]]).
  - inversion_clear Hg as [|? ? Hr _]. destruct Hr. unfold reserved. set_solver.
  - done.
Qed.
Definition grant_standard (g : Grant) : Prop :=
  grant_unreserved g ∧ grant_known g ∧ g_Permission g ∈ known_permissions.
#[global] Instance grant_standard_dec g : Decision (grant_standard g).
Proof. unfold grant_standard. apply _. Defined.
Lemma expectedGrants_spec grants :
  Forall grant_standard grants →
  ∃ want, expectedGrants grants = Some want ∧
    ∀ k t, t ∈ tokens_at want k ↔ ∃ ty b, k = map_key ty b ∧ (ty, b, t) ∈ spec_grants grants.
Proof.
  unfold expectedGrants, spec_grants. induction grants as [|g grants IH] using rev_ind.
  { intros _. exists ∅. split; [done|]. intros k t. split; [by intros ?%tokens_at_empty|]. set_solver. }
  intros [Hgs Hg]%Forall_app. apply Forall_singleton in Hg as (Hu & [[ty b] Hk] & Hp).
  destruct (IH Hgs) as (want & Hw & Hspec). rewrite foldl_snoc, Hw. cbn.
  rewrite (harness_key_of g ty b) by done. cbn. eexists. split; [done|]. intros k t.
  rewrite elem_of_add, Hspec, bind_app, list_to_set_app_L, expectedTokens_of by done.
  assert (∀ ty' b', (ty', b', t) ∈ (list_to_set ([g] ≫= grant_triples) : grants_state) ↔
            (ty', b') = (ty, b) ∧ t ∈ tokens_of (g_Permission g)) as Hone.
  { intros ty' b'. rewrite elem_of_list_to_set. csimpl. rewrite app_nil_r. unfold grant_triples.
    change (g_Resource g, g_BucketName g) with (grant_target g). rewrite Hk, list_elem_of_fmap. naive_solver. }
  setoid_rewrite elem_of_union. setoid_rewrite Hone. naive_solver.
Qed.

(** ** What Riak prints *)
Lemma trim_core f l r a s s' w :
  Str.all f l = true → Str.all f r = true → f a = false → String a s = s' +:+ w → w ≠ "" →
  Str.all (λ x, negb (f x)) w = true → trim f (l +:+ String a s +:+ r) = String a s.
Proof.
  intros Hl Hr Ha He Hne Hw. unfold trim. rewrite trim_left_all by done. rewrite Str.app_cons.
  cbn [trim_left]. rewrite Ha, <-Str.app_cons, trim_right_all, He by done. by apply trim_right_app_none.
Qed.
Lemma Join_ends toks sep :
  toks ≠ [] → Forall (λ t, token_ok t = true) toks →
  (∃ a s, Join toks sep = String a s ∧ is_space a = false) ∧
  ∃ s w, Join toks sep = s +:+ w ∧ is_word w = true.
Proof.
  intros Hne Ht. induction Ht as [|t toks Ht Hts IH]; [done|]. apply token_ok_spec in Ht as (Hw & _).
  assert (∃ a s, t = String a s ∧ is_space a = false) as (a & s & -> & Ha).
  { apply is_word_spec in Hw as [Hn Hw]. destruct t as [|a s]; [done|]. exists a, s. split; [done|].
    cbn in Hw. by apply andb_true_iff in Hw as [?%negb_true_iff _]. }
  destruct toks as [|t' toks]; [split; [by exists a, s|by exists "", (String a s)]|]. rewrite Join_cons. split.
  - rewrite Str.app_cons. by eexists _, _.
  - destruct IH as [_ (s' & w & -> & Hw')]; [done|]. exists (String a s +:+ sep +:+ s'), w. split; [|done].
    by rewrite !Str.app_assoc.
Qed.
Lemma trim_tokens l r toks more :
  is_blank l = true → is_blank r = true → toks ≠ [] → Forall (λ t, token_ok t = true) toks →
  TrimSpace (l +:+ print_tokens toks more +:+ r) = print_tokens toks more.
Proof.
  intros Hl%blank_space Hr%blank_space Hne Ht. unfold print_tokens.
  destruct (Join_ends toks ", " Hne Ht) as [(a & s & He & Ha) (s' & w & He' & Hw)].
  apply is_word_spec in Hw as [Hwn Hw]. destruct more.
  - rewrite He, Str.app_cons. eapply (trim_core _ _ _ _ _ (Join toks ", ") ","); try done. by rewrite He, Str.app_cons.
  - rewrite Str.app_nil_r, He. eapply (trim_core _ _ _ _ _ s' w); try done. by rewrite <-He, He'.
Qed.
Lemma cell_words_tokens toks more :
  toks ≠ [] → Forall (λ t, token_ok t = true) toks → cell_words (print_tokens toks more) = toks.
Proof.
  intros Hne Ht. pose proof (parse_tokens_print "" toks more "" eq_refl eq_refl Ht Hne) as Hp.
  rewrite Str.app_nil_l, Str.app_nil_r in Hp. rewrite <-Hp at 2. unfold cell_words, parse_tokens.
  induction (TrimSpace <$> _) as [|x l IH]; [done|]. cbn [List.filter]. rewrite filter_cons.
  destruct (String.eqb_spec x "") as [->|Hx]; cbn [negb].
  - by rewrite decide_False by naive_solver.
  - rewrite decide_True by done. by rewrite IH.
Qed.

(** The cells of a printed row. *)
Lemma row_cells p c0 c1 toks more :
  pads_ok p = true → (c0 = "" ∨ name_ok c0 = true) → (c1 = "" ∨ name_ok c1 = true) →
  toks ≠ [] → Forall (λ t, token_ok t = true) toks →
  TrimSpace <$> Split (TrimByte (print_cells p c0 c1 (print_tokens toks more)) "|") "|" =
    [c0; c1; print_tokens toks more].
Proof.
  intros Hp H0 H1 Hne Ht.
  assert (∀ c, c = "" ∨ name_ok c = true → cell_ok c = true) as Hc by (intros c [->|?%name_cell]; done).
  rewrite print_cells_split; [|done|by apply Hc|by apply Hc|by apply tokens_cell].
  apply pads_ok_spec in Hp as (P0&P1&P2&P3&P4&P5&_). csimpl. rewrite trim_tokens by done.
  assert (∀ l c r, is_blank l = true → is_blank r = true → c = "" ∨ name_ok c = true → TrimSpace (l +:+ c +:+ r) = c) as Htrim.
  { intros l c r Hl Hr [->|Hn].
    - rewrite Str.app_nil_l. apply trim_blank. unfold is_blank in *. by rewrite Str.all_app, Hl.
    - unfold name_ok in Hn. apply andb_true_iff in Hn as [Hw _]. by apply trim_cell. }
  by rewrite !Htrim.
Qed.
Definition cells (line : string) : list string := TrimSpace <$> Split (TrimByte line "|") "|".
Lemma rest_rows rows m k :
  Forall chunk_ok rows → k ≠ "" →
  ∃ m', foldl grant_cells (m, k) (cells <$> print_rest rows) = (m', k) ∧
    ∀ k' t, t ∈ tokens_at m' k' ↔ t ∈ tokens_at m k' ∨ k = k' ∧ t ∈ concat (rows.*1).
Proof.
  intros Hr Hk. revert m. induction Hr as [|[toks p] rows (Hne & Ht & Hp) Hr IH]; intros m.
  { exists m. split; [done|]. intros k' t. cbn. set_solver. }
  cbn [print_rest]. rewrite fmap_cons. unfold cells at 1. cbn [fst snd] in *. rewrite row_cells by (done || by left).
  cbn [foldl]. unfold grant_cells at 2. cbn [String.eqb negb snd fst]. apply String.eqb_neq in Hk as ->.
  rewrite cell_words_tokens by done. destruct (IH (add_tokens_at m k toks)) as (m' & Hm' & Hin). exists m'.
  split; [exact Hm'|]. intros k' t. rewrite Hin, elem_of_add. csimpl. rewrite elem_of_app. naive_solver.
Qed.
Lemma grant_rows m k0 g :
  grant_ok g →
  ∃ m', foldl grant_cells (m, k0) (cells <$> print_grant g) = (m', map_key (gp_type g) (gp_bucket g)) ∧
    ∀ k t, t ∈ tokens_at m' k ↔
      t ∈ tokens_at m k ∨ map_key (gp_type g) (gp_bucket g) = k ∧ t ∈ ge_Tokens (gp_entry g).
Proof.
  intros (Hn & Hty & Hb & (Hne & Ht & Hp) & Hr). unfold print_grant. rewrite fmap_cons. unfold cells at 1.
  rewrite row_cells by (done || by right). cbn [foldl]. unfold grant_cells at 2.
  rewrite (proj2 (String.eqb_neq (gp_type g) "type")) by done.
  assert (gp_type g ≠ "") as Hemp.
  { intros He. rewrite He in Hn. done. }
  rewrite (proj2 (String.eqb_neq (gp_type g) "")) by done. cbn [negb].
  fold (map_key (gp_type g) (gp_bucket g)).
  assert (map_key (gp_type g) (gp_bucket g) ≠ "") as Hkey.
  { unfold map_key. destruct (gp_type g); [done|]. by rewrite Str.app_cons. }
  rewrite (proj2 (String.eqb_neq (map_key _ _) "")), cell_words_tokens by done. cbn [fst].
  destruct (rest_rows (gp_rest g) (add_tokens_at m (map_key (gp_type g) (gp_bucket g)) (gp_first g).1) _ Hr Hkey)
    as (m' & Hm' & Hin).
  exists m'. split; [exact Hm'|]. intros k t. rewrite Hin, elem_of_add. cbn. rewrite elem_of_app. naive_solver.
Qed.
Lemma table_rows gs m k0 :
  Forall grant_ok gs →
  ∃ st, foldl grant_cells (m, k0) (cells <$> (gs ≫= print_grant)) = st ∧
    ∀ k t, t ∈ tokens_at st.1 k ↔
      t ∈ tokens_at m k ∨ ∃ g, g ∈ gs ∧ map_key (gp_type g) (gp_bucket g) = k ∧ t ∈ ge_Tokens (gp_entry g).
Proof.
  intros Hg. revert m k0. induction Hg as [|g gs Hg Hgs IH]; intros m k0.
  { eexists. split; [done|]. intros k t. cbn. set_solver. }
  rewrite bind_cons, fmap_app, foldl_app. destruct (grant_rows m k0 g Hg) as (m1 & -> & H1).
  destruct (IH m1 (map_key (gp_type g) (gp_bucket g))) as (st & Hst & H2). exists st. split; [done|].
  intros k t. rewrite H2, H1. setoid_rewrite elem_of_cons. naive_solver.
Qed.

(** The lines of the dedicated table. *)
Definition grant_table (user border : string) (hp : pads) (gs : list grant_print) : list string :=
  ["Dedicated permissions (user/" +:+ user +:+ ")"; ""; "+" +:+ border; print_cells hp "type" "bucket" "grants";
   "+" +:+ border] ++ (gs ≫= print_grant) ++ ["+" +:+ border; ""].
(** A [printed] reply in which the two titles stand only where they belong. *)
Definition shown (user : string) (s : grants_state) (out : string) : Prop :=
  ∃ pre border hp gs rest,
    out = Join (print_grants pre user border hp gs rest) (sep_of nl) ∧
    Forall (λ l, Contains l "Dedicated permissions" = false) pre ∧ pads_ok hp = true ∧ Forall grant_printable gs ∧
    Forall (λ l, no_byte nl l = true) (print_grants pre user border hp gs rest) ∧
    Forall (λ l, Contains l "Cumulative permissions" = false) (grant_table user border hp gs) ∧
    s = list_to_set (gs ≫= λ g, entry_triples (gp_entry g)).
Lemma print_grants_table pre user border hp gs rest :
  print_grants pre user border hp gs rest =
    pre ++ grant_table user border hp gs ++ ("Cumulative permissions (user/" +:+ user +:+ ")") :: rest.
Proof. unfold print_grants, grant_table. cbn [app]. by rewrite <-!(assoc_L (++)). Qed.

Lemma cells_bar p c0 c1 c2 : HasPrefix (print_cells p c0 c1 c2) "|" = true.
Proof. apply HasPrefix_spec. by eexists. Qed.
Lemma print_rest_bar rows : Forall (λ l, HasPrefix l "|" = true) (print_rest rows).
Proof. induction rows as [|[toks p] rows IH]; constructor; [apply cells_bar|exact IH]. Qed.
Lemma tableRows_table user border hp gs :
  Forall (λ l, no_byte nl l = true) (grant_table user border hp gs) → pads_ok hp = true →
  tableRows (Join (grant_table user border hp gs ++ [""]) (sep_of nl)) =
    ["type"; "bucket"; "grants"] :: (cells <$> (gs ≫= print_grant)).
Proof.
  intros Hnl Hp. unfold tableRows. rewrite Split_Join; [|done|by apply Forall_app; split; [|by constructor]].
  assert (List.filter (λ l, HasPrefix l "|") (gs ≫= print_grant) = gs ≫= print_grant) as Hrows.
  { assert (Forall (λ l, HasPrefix l "|" = true) (gs ≫= print_grant)) as Hall.
    { apply Forall_bind, Forall_forall. intros g _. constructor; [apply cells_bar|apply print_rest_bar]. }
    induction Hall as [|l ls Hl Hall IH]; [done|]. cbn. by rewrite Hl, IH. }
  unfold grant_table. cbn [app]. rewrite <-(assoc_L (++)). cbn [List.filter].
  change (HasPrefix ("Dedicated permissions (user/" +:+ user +:+ ")") "|") with false.
  change (HasPrefix "" "|") with false. change (HasPrefix ("+" +:+ border) "|") with false.
  rewrite cells_bar. cbv iota.
  rewrite List.filter_app. cbn [app List.filter].
  change (HasPrefix ("+" +:+ border) "|") with false. change (HasPrefix "" "|") with false. cbv iota.
  rewrite app_nil_r, Hrows, fmap_cons. fold cells. f_equal. unfold cells. rewrite print_cells_split by done.
  apply pads_ok_spec in Hp as (P0&P1&P2&P3&P4&P5&_). csimpl. by rewrite !trim_cell.
Qed.
Lemma shown_ok user s out :
  state_ok s → shown user s out →
  ∀ k t, t ∈ tokens_at (parseGrants out) k ↔ ∃ ty b, k = map_key ty b ∧ (ty, b, t) ∈ s.
Proof.
  intros Hs (pre & border & hp & gs & rest & -> & Hpre & Hhp & Hgs & Hnl & Hcum & Hst).
  rewrite print_grants_table in *. unfold parseGrants.
  unfold grant_table at 1. cbn [app]. rewrite from_index_Join by done.
  change (Join (_ :: _) _) with (Join (grant_table user border hp gs ++
    ("Cumulative permissions (user/" +:+ user +:+ ")") :: rest) (sep_of nl)).
  rewrite before_index_Join by done. cbn [from_option id default].
  apply Forall_app in Hnl as [_ Hnl]. apply Forall_app in Hnl as [Hnl _].
  rewrite tableRows_table by done. cbn [foldl]. unfold grant_cells at 2. cbn [String.eqb Ascii.eqb Bool.eqb].
  assert (Forall grant_ok gs) as Hok.
  { apply Forall_forall. intros g Hg. eapply chunk_entry_ok; [by eapply Forall_forall in Hgs|exact Hs|].
    rewrite Hst. intros x. rewrite !elem_of_list_to_set, list_elem_of_bind. eauto. }
  destruct (table_rows gs ∅ "" Hok) as (st & -> & Hin). intros k t. rewrite Hin, Hst.
  setoid_rewrite elem_of_list_to_set. setoid_rewrite list_elem_of_bind. setoid_rewrite list_elem_of_fmap. split.
  - intros [?%tokens_at_empty|(g & Hg & <- & Ht)]; [done|]. eexists _, _. split; [done|]. exists g.
    split; [|done]. by exists t.
  - intros (ty & b & -> & g & (t' & [= -> -> ->] & Ht) & Hg). right. by exists g.
Qed.

(** Only words make keys. *)
Definition keyed (s : grants_state) : Prop := ∀ ty b t, (ty, b, t) ∈ s → is_word ty = true ∧ is_word b = true.
Lemma shown_keyed user s out : shown user s out → keyed s.
Proof.
  intros (pre & border & hp & gs & rest & _ & _ & _ & Hgs & _ & _ & ->) ty b t.
  rewrite elem_of_list_to_set, list_elem_of_bind. intros (g & (t' & [= -> -> ->] & _)%list_elem_of_fmap & Hg).
  eapply Forall_forall in Hgs as (H1 & H2 & _); [|exact Hg]. unfold name_ok in *. cbn.
  apply andb_true_iff in H1 as [H1 _], H2 as [H2 _]. done.
Qed.
Lemma spec_keyed grants : keyed (spec_grants grants).
Proof.
  intros ty b t. unfold spec_grants. rewrite elem_of_list_to_set, list_elem_of_bind.
  intros (g & Hin & _). revert Hin. unfold grant_triples, target_key. cbn.
  destruct (String.eqb _ "any"); [by intros (? & [= -> -> _] & _)%list_elem_of_fmap|].
  destruct (String.eqb _ "bucket"); [|by intros ?%elem_of_nil].
  pose proof (λ w, Fields_words (g_BucketName g) w) as Hw.
  destruct (on_target _) as [[ty' b']|] eqn:Ho; [|by intros ?%elem_of_nil].
  intros (? & [= -> -> _] & _)%list_elem_of_fmap. eapply on_target_words; [|exact Ho]. apply Forall_forall. exact Hw.
Qed.
Lemma keyed_eq s s' :
  keyed s → keyed s' →
  s = s' ↔ ∀ k t, (∃ ty b, k = map_key ty b ∧ (ty, b, t) ∈ s') ↔ ∃ ty b, k = map_key ty b ∧ (ty, b, t) ∈ s.
Proof.
  intros Hs Hs'. split; [by intros ->|]. intros He. apply set_eq. intros [[ty b] t]. split; intros Hin.
  - destruct (proj2 (He (map_key ty b) t)) as (ty' & b' & Hk & Hin'); [by exists ty, b|].
    destruct (Hs _ _ _ Hin), (Hs' _ _ _ Hin'). by destruct (map_key_inj ty b ty' b') as [-> ->].
  - destruct (proj1 (He (map_key ty b) t)) as (ty' & b' & Hk & Hin'); [by exists ty, b|].
    destruct (Hs' _ _ _ Hin), (Hs _ _ _ Hin'). by destruct (map_key_inj ty b ty' b') as [-> ->].
Qed.
(** Likewise for the properties of a bucket type: what is checked is what is sent. *)
Lemma expectedBucketProps_sent spec :
  expectedBucketProps spec = (effectiveBucketProperties spec).1.
Proof.
  unfold expectedBucketProps, effectiveBucketProperties.
  set (n := if (bs_NVal spec =? 0)%Z then _ else _). destruct (0 <? n)%Z; [by destruct (bs_AllowMulti spec)|].
  destruct (ParseInt32 _) as [m|]; [destruct (0 <? m)%Z|]; by destruct (bs_AllowMulti spec).
Qed.

(** The comparison finds nothing exactly when the grants of the reply are those of the spec. *)
Lemma agrees_iff (user : string) (grants : list Grant) (s : grants_state) (out : string) :
  Forall grant_standard grants → state_ok s → shown user s out →
  ∃ want, expectedGrants grants = Some want ∧ (diffGrants want (parseGrants out) = [] ↔ s = spec_grants grants).
Proof.
  intros Hg Hs Hout. destruct (expectedGrants_spec grants Hg) as (want & Hw & Hwant). exists want.
  split; [done|]. rewrite diffGrants_nil. setoid_rewrite (shown_ok user s out Hs Hout). setoid_rewrite Hwant.
  symmetry. apply keyed_eq; [by eapply shown_keyed|apply spec_keyed].
Qed.
