(* ===== verification/VerifyRing.v ===== *)
(** * What [ringImbalance] finds

    member-status prints each node's share of the ring as a percentage with one decimal, which
    the harness turns back into partitions, in floating point, and compares with a tolerance.
    For the ring sizes listed here this is exact. *)
From Stdlib Require Import SpecFloat.
From S2P Require Import Prelude GoLib Effects Types KubeTypes Kube Executor Manager BucketController Soak Verify.

#[local] Open Scope Z_scope.

(** ** What is printed *)
(** A number of tenths, with its decimal. *)
Definition tenths (t : Z) : string := Itoa (t `div` 10) +:+ "." +:+ Itoa (t `mod` 10).
(** [t] tenths of a percent is the share of [k] partitions of [R], rounded either way. *)
Definition rounds (R k t : Z) : Prop := 0 ≤ t ≤ 1000 ∧ 2 * Z.abs (t * R - 1000 * k) ≤ R.
(** [strconv.ParseFloat] gives the float nearest to the decimal it reads. *)
Class GoFloatLaws (F : GoFloat) : Prop :=
  parse_tenths t : 0 ≤ t ≤ 1000 → ParseFloat (tenths t) = Some (decimal t 10).
(** The lines of a member-status reply that are about a node: its share and its name. *)
Definition ring_line (line : string) : option (string * string) :=
  match Fields line with
  | [_; f1; _; f3] => if HasPrefix f3 "riak@" then Some (f1, f3) else None
  | _ => None
  end.
(** The reply shows a ring in which the nodes own these numbers of partitions. *)
Definition shows_ring (R : Z) (owners : list (string * Z)) (out : string) : Prop :=
  Forall2 (λ row owner, row.2 = owner.1 ∧ 0 ≤ owner.2 ≤ R ∧ ∃ t, rounds R owner.2 t ∧ row.1 = tenths t +:+ "%")
    (omap ring_line (Split out nl)) owners.

(** ** The arithmetic *)
Definition parts_of (R t : Z) : float64 := fmul (fdiv (decimal t 10) (float_of 100)) (float_of R).
Definition tolerance (R : Z) : float64 := fdiv (fmul (decimal 6 100) (float_of R)) (float_of 100).
Definition share_off (R lo hi t : Z) : bool :=
  SFltb (parts_of R t) (fsub (float_of lo) (tolerance R)) || SFltb (fadd (float_of hi) (tolerance R)) (parts_of R t).
Definition fewest (R nodes : Z) : Z := Z.quot R nodes.
Definition most (R nodes : Z) : Z := Z.quot (R + nodes - 1) nodes.
(** The ring sizes for which a share tells the number of partitions. *)
Definition told_sizes : list Z := [8; 16; 32; 64; 128; 256; 512].
(** All that can be asked of a ring of [R] partitions: of each number of them and each way to
    print it, whether it is off the bounds for any number of nodes. *)
Definition printings (R k : Z) : list Z :=
  List.filter (λ t, 2 * Z.abs (t * R - 1000 * k) <=? R) [(1000 * k) `div` R; (1000 * k) `div` R + 1].
Definition bounds_of (f : Z → float64) (bound : Z → Z) (R : Z) : list (Z * float64) :=
  (λ b, (b, f b)) <$> remove_dups (bound <$> seqZ 1 R).
Definition told (R : Z) : bool :=
  let lows := bounds_of (λ b, fsub (float_of b) (tolerance R)) (fewest R) R in
  let highs := bounds_of (λ b, fadd (float_of b) (tolerance R)) (most R) R in
  forallb (λ k, forallb (λ t, let p := parts_of R t in
     forallb (λ bx, Bool.eqb (SFltb p bx.2) (k <? bx.1)) lows &&
     forallb (λ bx, Bool.eqb (SFltb bx.2 p) (bx.1 <? k)) highs) (printings R k)) (seqZ 0 (R + 1)).
Lemma told_all : forallb told told_sizes = true.
Proof. by vm_compute. Qed.

Lemma rounds_printings R k t : 0 < R → 0 ≤ k → rounds R k t → t ∈ printings R k.
Proof.
  intros HR Hk [_ Ht]. unfold printings. apply list_elem_of_In, List.filter_In. split; [|by apply Z.leb_le].
  pose proof (Z_div_mod_eq_full (1000 * k) R) as Hdm. pose proof (Z.mod_pos_bound (1000 * k) R HR) as Hm.
  set (q := (1000 * k) `div` R) in *. assert (t = q ∨ t = q + 1) as [->| ->] by nia; cbn; auto.
Qed.
Lemma bounds_of_node f bound R nodes :
  1 ≤ nodes ≤ R → (bound nodes, f (bound nodes)) ∈ bounds_of f bound R.
Proof.
  intros Hn. unfold bounds_of. apply list_elem_of_fmap. exists (bound nodes). split; [done|].
  apply elem_of_remove_dups, list_elem_of_fmap. exists nodes. split; [done|]. apply elem_of_seqZ. lia.
Qed.
Lemma told_exact R nodes k t :
  R ∈ told_sizes → 1 ≤ nodes ≤ R → 0 ≤ k ≤ R → rounds R k t →
  share_off R (fewest R nodes) (most R nodes) t = false ↔ fewest R nodes ≤ k ≤ most R nodes.
Proof.
  intros HR Hn Hk Ht. pose proof told_all as Hall. rewrite forallb_elem_of in Hall. specialize (Hall R HR).
  unfold told in Hall. rewrite forallb_elem_of in Hall. specialize (Hall k). rewrite elem_of_seqZ in Hall.
  specialize (Hall ltac:(lia)). rewrite forallb_elem_of in Hall.
  specialize (Hall t (rounds_printings R k t ltac:(lia) ltac:(lia) Ht)). cbn zeta in Hall.
  apply andb_true_iff in Hall as [Hl Hh]. rewrite forallb_elem_of in Hl, Hh.
  pose proof (Hl _ (bounds_of_node _ _ R nodes Hn)) as Hlow.
  pose proof (Hh _ (bounds_of_node _ _ R nodes Hn)) as Hhigh.
  apply eqb_prop in Hlow, Hhigh. cbn in Hlow, Hhigh.
  unfold share_off. by rewrite Hlow, Hhigh, orb_false_iff, !Z.ltb_ge.
Qed.

Lemma app_not_empty c s t : String c s +:+ t ≠ "".
Proof. done. Qed.

(** ** The scan *)
Section scan.
Context `{HF : GoFloatLaws}.
Lemma trim_percent t : 0 ≤ t ≤ 1000 → TrimSuffixByte (tenths t +:+ "%") "%" = tenths t.
Proof.
  intros Ht.
  assert (forallb (λ t, String.eqb (TrimSuffixByte (tenths t +:+ "%") "%") (tenths t)) (seqZ 0 1001) = true) as Hall
    by by vm_compute.
  rewrite forallb_elem_of in Hall. apply String.eqb_eq, Hall, elem_of_seqZ. lia.
Qed.
Lemma ring_row_other R lo hi st line : ring_line line = None → ring_row R lo hi st line = st.
Proof.
  unfold ring_line, ring_row. destruct (Fields line) as [|f0 [|f1 [|f2 [|f3 []]]]]; try done.
  by destruct (HasPrefix f3 "riak@").
Qed.
Lemma ring_row_node R lo hi st line t n :
  0 ≤ t ≤ 1000 → ring_line line = Some (tenths t +:+ "%", n) →
  rs_rows (ring_row R lo hi st line) = rs_rows st + 1 ∧
  rs_bad (ring_row R lo hi st line) = rs_bad st || share_off R lo hi t.
Proof.
  intros Ht. unfold ring_line, ring_row. destruct (Fields line) as [|f0 [|f1 [|f2 [|f3 []]]]]; try done.
  destruct (HasPrefix f3 "riak@"); [|done]. intros [= -> ->]. by rewrite trim_percent, parse_tenths.
Qed.
(** The scan counts the nodes and finds the shares out of bounds. *)
Lemma ring_scan_shows R nodes owners lines st :
  R ∈ told_sizes → 1 ≤ nodes ≤ R →
  Forall2 (λ row owner, row.2 = owner.1 ∧ 0 ≤ owner.2 ≤ R ∧ ∃ t, rounds R owner.2 t ∧ row.1 = tenths t +:+ "%")
    (omap ring_line lines) owners →
  let st' := foldl (ring_row R (fewest R nodes) (most R nodes)) st lines in
  rs_rows st' = rs_rows st + Z.of_nat (length owners) ∧
  (rs_bad st' = false ↔ rs_bad st = false ∧ Forall (λ o, fewest R nodes ≤ o.2 ≤ most R nodes) owners).
Proof.
  intros HR Hn. revert owners st. induction lines as [|line lines IH]; intros owners st Hs; cbn in Hs |- *.
  { apply Forall2_nil_inv_l in Hs as ->. cbn. split; [lia|]. naive_solver. }
  destruct (ring_line line) as [[f1 f3]|] eqn:Hl.
  - apply Forall2_cons_inv_l in Hs as ([n k] & owners' & (Hname & Hk & t & Ht & Hf) & Hs & ->).
    cbn in Hname, Hk, Ht, Hf. subst f1 f3.
    destruct (ring_row_node R (fewest R nodes) (most R nodes) st line t n (proj1 Ht) Hl) as [Hr Hb].
    destruct (IH owners' (ring_row R (fewest R nodes) (most R nodes) st line) Hs) as [-> ->]. rewrite Hr, Hb.
    split; [cbn; lia|]. rewrite orb_false_iff, (told_exact R nodes k t HR Hn Hk Ht), Forall_cons. cbn. tauto.
  - rewrite (ring_row_other _ _ _ _ _ Hl). by apply IH.
Qed.
Lemma ringImbalance_exact R nodes owners out :
  R ∈ told_sizes → 1 ≤ nodes ≤ R → shows_ring R owners out →
  ringImbalance out nodes R = "" ↔
    Z.of_nat (length owners) = nodes ∧ Forall (λ o, fewest R nodes ≤ o.2 ≤ most R nodes) owners.
Proof.
  intros HR Hn Hs. unfold ringImbalance. fold (fewest R nodes) (most R nodes).
  destruct (ring_scan_shows R nodes owners (Split out nl) (mkRingScan 0 false []) HR Hn Hs) as [Hr Hb].
  cbn zeta. cbn in Hr. rewrite Hr, Z.add_0_l.
  destruct (Z.eqb_spec (Z.of_nat (length owners)) nodes) as [He|He]; cbn [negb]; [|split;
    [by intros ?%app_not_empty|by intros [? _]]].
  destruct (rs_bad _) eqn:Hbad.
  - split; [by intros ?%app_not_empty|]. intros [_ Hall]. assert (true = false) by by apply Hb. done.
  - split; [intros _|done]. split; [done|]. by apply Hb.
Qed.
End scan.

(** *** Floats to run *)
(** Floats with one decimal can be read. *)
Definition read_tenths (s : string) : option Z :=
  match Split s "." with
  | [a; b] => x ← parse_signed a; y ← parse_signed b; Some (10 * x + y)%Z
  | _ => None
  end.
Definition demo_float : GoFloat := {|
  ParseFloat s := (λ t, decimal t 10) <$> read_tenths s;
  fmt_f1 _ := "?"
|}.
Lemma demo_float_laws : GoFloatLaws demo_float.
Proof.
  intros t Ht. cbn.
  assert (forallb (λ t, bool_decide (read_tenths (tenths t) = Some t)) (seqZ 0 1001) = true) as Hall by by vm_compute.
  rewrite forallb_elem_of in Hall. specialize (Hall t). rewrite elem_of_seqZ, bool_decide_eq_true in Hall.
  by rewrite Hall by lia.
Qed.
(** Of a ring of 1024 partitions, whose share with one decimal says too little, a node that has
    fewer than an even spread gives it can go unnoticed: 145, where each of seven should have
    146 or 147. *)
Definition large_ring : list (string * Z * string) :=
  [("riak@0", 145, "14.2%"); ("riak@1", 146, "14.3%"); ("riak@2", 146, "14.3%"); ("riak@3", 146, "14.3%");
   ("riak@4", 147, "14.4%"); ("riak@5", 147, "14.4%"); ("riak@6", 147, "14.4%")].
Definition large_reply : string :=
  Join ((λ r, "valid " +:+ r.2 +:+ " -- " +:+ r.1.1) <$> large_ring) (sep_of nl).
Lemma large_ring_unnoticed :
  shows_ring 1024 large_ring.*1 large_reply ∧ ringImbalance (F := demo_float) large_reply 7 1024 = "" ∧
  fewest 1024 7 = 146 ∧ ("riak@0", 145) ∈ large_ring.*1.
Proof.
  split; [|split; [by vm_compute|split; [done|by left]]]. unfold shows_ring.
  replace (omap ring_line _) with ((λ r, (r.2, r.1.1)) <$> large_ring) by by vm_compute.
  repeat (apply Forall2_cons; split; [split; [done|]; split; [done|]|]); try done;
    [exists 142|exists 143|exists 143|exists 143|exists 144|exists 144|exists 144]; by split.
Qed.
