(* ===== verification/VerifyPrint.v ===== *)
(** * What Riak prints for the harness

    The tables and lists that [test/scale/verify.go] reads besides print-grants and
    member-status, printed from what Riak holds, and that the harness's parsers read them
    back: bucket types and whether they are active, users, their sources, and the properties
    of a type. *)
From S2P Require Import Prelude GoLib Executor ExecutorFacts BucketController Verify VerifyFacts VerifyRing.

(** ** Tables *)
(** A line of a table: a rule or any other text, or a row of padded cells. *)
Inductive table_line := TText (l : string) | TRow (cells : list string).
Definition print_line (l : table_line) : string :=
  match l with TText s => s | TRow cs => bar +:+ Join cs bar +:+ bar end.
Definition padded_cell (c : string) : Prop := c ≠ "" ∧ no_byte "|" c = true ∧ no_byte nl c = true.
Definition line_ok (l : table_line) : Prop :=
  match l with
  | TText s => no_byte nl s = true ∧ HasPrefix s "|" = false
  | TRow cs => cs ≠ [] ∧ Forall padded_cell cs
  end.
(** What its cells say, without the padding. *)
Definition row_texts (l : table_line) : option (list string) :=
  match l with TText _ => None | TRow cs => Some (TrimSpace <$> cs) end.
(** [out] is a table with these rows. *)
Definition prints_table (rows : list (list string)) (out : string) : Prop :=
  ∃ lines, Forall line_ok lines ∧ out = Join (print_line <$> lines) (sep_of nl) ∧ omap row_texts lines = rows.

Lemma row_ends cs :
  cs ≠ [] → Forall padded_cell cs →
  (∃ a s, Join cs bar = String a s ∧ is_byte "|" a = false) ∧
  ∃ s w, Join cs bar = s +:+ w ∧ w ≠ "" ∧ no_byte "|" w = true.
Proof.
  intros Hne Hc. induction Hc as [|c cs (Hn & Hb & _) Hcs IH]; [done|].
  destruct c as [|a c]; [done|]. assert (is_byte "|" a = false) as Ha.
  { cbn in Hb. by apply andb_true_iff in Hb as [?%negb_true_iff _]. }
  destruct cs as [|c' cs]; [split; [by exists a, c|by exists "", (String a c)]|]. rewrite Join_cons. split.
  - rewrite Str.app_cons. by eexists _, _.
  - destruct IH as [_ (s & w & -> & Hw)]; [done|]. exists (String a c +:+ bar +:+ s), w. split; [|done].
    by rewrite !Str.app_assoc.
Qed.
Lemma row_split cs :
  cs ≠ [] → Forall padded_cell cs → Split (TrimByte (print_line (TRow cs)) "|") "|" = cs.
Proof.
  intros Hne Hc. destruct (row_ends cs Hne Hc) as [(a & s & He & Ha) (s' & w & He' & Hw & Hb)].
  assert (TrimByte (print_line (TRow cs)) "|" = Join cs bar) as ->.
  { unfold TrimByte. cbn [print_line]. rewrite He. eapply (trim_core _ _ _ _ _ s' w); try done.
    by rewrite <-He, He'. }
  apply Split_Join; [done|]. by apply (Forall_impl _ _ _ Hc); intros c (_ & ? & _).
Qed.
Lemma line_no_nl l : line_ok l → no_byte nl (print_line l) = true.
Proof.
  destruct l as [s|cs]; [by intros []|]. intros [_ Hc]. cbn. unfold no_byte. rewrite !Str.all_app, andb_true_r.
  apply Join_all; [done|]. by apply (Forall_impl _ _ _ Hc); intros c (_ & _ & ?).
Qed.
Lemma tableRows_prints rows out : prints_table rows out → tableRows out = rows.
Proof.
  intros (lines & Hok & -> & <-). unfold tableRows. destruct lines as [|l0 lines]; [done|].
  rewrite Split_Join; [|done|by apply Forall_fmap, (Forall_impl _ _ _ Hok), line_no_nl].
  induction Hok as [|l ls Hl Hok IH]; [done|]. cbn [fmap list_fmap List.filter omap list_omap].
  destruct l as [s|cs]; cbn [row_texts].
  - cbn [print_line]. destruct Hl as [_ ->]. exact IH.
  - assert (HasPrefix (print_line (TRow cs)) "|" = true) as -> by (apply HasPrefix_spec; by eexists).
    rewrite fmap_cons, IH. f_equal. f_equal. by apply row_split; apply Hl.
Qed.

(** ** Users *)
(** A row per user, of any number of columns, and continuation rows that begin with nothing. *)
Definition row_head (texts : list string) : string := default "" (hd_error texts).
Definition prints_users (users : gset string) (out : string) : Prop :=
  ∃ heads rows, prints_table (("username" :: heads) :: rows) out ∧
    users = list_to_set (filter (λ t, t ≠ "") (row_head <$> rows)) ∧ "username" ∉ users.
Lemma foldl_users rows users :
  (∀ r, r ∈ rows → row_head r ≠ "username") →
  foldl user_cells users rows = list_to_set (filter (λ t, t ≠ "") (row_head <$> rows)) ∪ users.
Proof.
  revert users. induction rows as [|r rows IH]; intros users Hu; cbn [foldl].
  { change (filter _ _) with (@nil string). by rewrite list_to_set_nil, union_empty_l_L. }
  rewrite IH by (intros r' Hr; apply Hu; by right). rewrite fmap_cons, filter_cons.
  specialize (Hu r ltac:(by left)). destruct r as [|c0 r]; cbn in Hu |- *; [done|].
  destruct (String.eqb_spec c0 "") as [->|Hne]; cbn [negb andb]; [done|].
  rewrite (proj2 (String.eqb_neq c0 "username")) by done. cbn [negb]. rewrite decide_True by done.
  cbn [list_to_set]. set_solver.
Qed.
Lemma parseUsers_prints users out : prints_users users out → parseUsers out = users.
Proof.
  intros (heads & rows & Ht & -> & Hu). unfold parseUsers. rewrite (tableRows_prints _ _ Ht). cbn [foldl].
  change (user_cells ∅ ("username" :: heads)) with (∅ : gset string).
  rewrite foldl_users; [by rewrite union_empty_r_L|]. intros r Hr He. apply Hu.
  apply elem_of_list_to_set, list_elem_of_filter. split; [done|]. rewrite <-He. by apply list_elem_of_fmap_2.
Qed.

(** ** Sources *)
(** The users of a row, a comma when the list goes on below. *)
Definition users_cell (c : list string * bool) : string := if decide (c.1 = []) then "" else print_tokens c.1 c.2.
(** The users of one source: its row, and rows on which it goes on, with anything in the
    columns of the address and the options. *)
Record source_print := mkSourcePrint {
  spr_users : list string * bool; spr_cidr : string; spr_source : string; spr_options : string;
  spr_rest : list (list string * bool * string * string) }.
Definition source_rows (e : source_print) : list (list string) :=
  [users_cell (spr_users e); spr_cidr e; spr_source e; spr_options e] ::
  ((λ r, [users_cell r.1.1; r.1.2; ""; r.2]) <$> spr_rest e).
Definition source_users (e : source_print) : list string :=
  (spr_users e).1 ++ (spr_rest e ≫= λ r, r.1.1.1).
Definition user_word (u : string) : Prop := token_ok u = true ∧ u ≠ "users".
Definition source_ok (e : source_print) : Prop := spr_source e ≠ "" ∧ Forall user_word (source_users e).
Definition prints_sources (sources : gset (string * string)) (out : string) : Prop :=
  ∃ es, Forall source_ok es ∧ prints_table (["users"; "cidr"; "source"; "options"] :: (es ≫= source_rows)) out ∧
    sources = list_to_set (es ≫= λ e, (λ u, (u, spr_source e)) <$> source_users e).

Lemma users_cell_words c : Forall user_word c.1 → cell_words (users_cell c) = c.1.
Proof.
  intros Hu. unfold users_cell. destruct (decide (c.1 = [])) as [->|Hne]; [done|]. apply cell_words_tokens; [done|].
  by apply (Forall_impl _ _ _ Hu); intros u [? _].
Qed.
Lemma users_cell_no_heading c : Forall user_word c.1 → String.eqb (users_cell c) "users" = false.
Proof.
  intros Hu. apply String.eqb_neq. intros He. pose proof (users_cell_words c Hu) as Hw. rewrite He in Hw.
  change (cell_words "users") with ["users"] in Hw. rewrite <-Hw in Hu. by apply Forall_singleton in Hu as [_ ?].
Qed.
(** The users a row adds to those with a certificate, [source] being in force. *)
Definition certified (source : string) (us : list string) : gset string :=
  if String.eqb source "certificate" then list_to_set us else ∅.
Lemma certified_app source us us' : certified source (us ++ us') = certified source us ∪ certified source us'.
Proof. unfold certified. destruct (String.eqb _ _); [apply list_to_set_app_L|set_solver]. Qed.
Lemma source_row_adds st c c1 c2 c3 :
  Forall user_word c.1 →
  source_cells st [users_cell c; c1; c2; c3] =
    let source := if String.eqb c2 "" then st.2 else c2 in (certified source c.1 ∪ st.1, source).
Proof.
  intros Hu. unfold source_cells, certified. rewrite users_cell_no_heading, users_cell_words by done.
  destruct (String.eqb c2 ""); cbn [negb]; destruct (String.eqb _ "certificate"); cbn [negb]; try done;
    by rewrite union_empty_l_L.
Qed.
Lemma rest_rows_add rest users source :
  Forall user_word (rest ≫= λ r : list string * bool * string * string, r.1.1.1) →
  foldl source_cells (users, source) ((λ r, [users_cell r.1.1; r.1.2; ""; r.2]) <$> rest) =
    (certified source (rest ≫= λ r, r.1.1.1) ∪ users, source).
Proof.
  revert users. induction rest as [|r rest IH]; intros users; cbn [fmap list_fmap foldl].
  { intros _. f_equal. unfold certified. destruct (String.eqb _ _); set_solver. }
  rewrite bind_cons. intros [Hr Hrest]%Forall_app. rewrite source_row_adds by done. cbn [String.eqb snd fst].
  rewrite IH, certified_app by done. f_equal. set_solver.
Qed.
Lemma entry_adds e users source :
  source_ok e →
  foldl source_cells (users, source) (source_rows e) =
    (certified (spr_source e) (source_users e) ∪ users, spr_source e).
Proof.
  intros [Hs [Hu1 Hu2]%Forall_app]. unfold source_rows. cbn [foldl]. rewrite source_row_adds by done.
  rewrite (proj2 (String.eqb_neq (spr_source e) "")) by done. cbn [fst snd].
  rewrite rest_rows_add by done. f_equal. unfold source_users. rewrite certified_app. set_solver.
Qed.
Lemma certified_pairs source us :
  list_to_set (filter (λ p : string * string, p.2 = "certificate") ((λ u, (u, source)) <$> us)).*1 =
    certified source us.
Proof.
  unfold certified. destruct (String.eqb_spec source "certificate") as [->|Hne];
    (induction us as [|u us IH]; [done|]); rewrite fmap_cons, filter_cons; cbn [snd].
  - rewrite decide_True by done. rewrite fmap_cons, !list_to_set_cons. by rewrite IH.
  - by rewrite decide_False by done.
Qed.
Lemma sources_add es users source :
  Forall source_ok es →
  ∃ source', foldl source_cells (users, source) (es ≫= source_rows) =
    (list_to_set (filter (λ p, p.2 = "certificate") (es ≫= λ e, (λ u, (u, spr_source e)) <$> source_users e)).*1 ∪ users,
     source').
Proof.
  intros Hok. revert users source. induction Hok as [|e es He Hes IH]; intros users source.
  { exists source. cbn. f_equal. set_solver. }
  rewrite !bind_cons, foldl_app, filter_app, fmap_app, list_to_set_app_L, certified_pairs, entry_adds by done.
  destruct (IH (certified (spr_source e) (source_users e) ∪ users) (spr_source e)) as (source' & ->).
  exists source'. f_equal. set_solver.
Qed.
Lemma parseCertSources_prints sources out name :
  prints_sources sources out → name ∈ parseCertSources out ↔ (name, "certificate") ∈ sources.
Proof.
  intros (es & Hok & Ht & ->). unfold parseCertSources. rewrite (tableRows_prints _ _ Ht). cbn [foldl].
  change (source_cells (∅, "") ["users"; "cidr"; "source"; "options"]) with ((∅, "") : gset string * string).
  destruct (sources_add es ∅ "" Hok) as (source' & ->). cbn [fst].
  rewrite union_empty_r_L, !elem_of_list_to_set, list_elem_of_fmap. setoid_rewrite list_elem_of_filter.
  split; [by intros ([n s] & -> & Hs & ?); cbn in Hs; subst s|]. intros Hin. by exists (name, "certificate").
Qed.

(** ** Bucket types *)
(** A line per type, with what is said of it in words: [(active)], or anything else. *)
Definition print_type (r : string * list string) : string := Join (r.1 :: r.2) " ".
Definition type_ok (r : string * list string) : Prop := is_word r.1 = true ∧ Forall (λ w, is_word w = true) r.2.
Definition said_active (ws : list string) : bool := bool_decide (ws = ["(active)"]).
Definition prints_types (types : gmap string bool) (out : string) : Prop :=
  ∃ rows blank, Forall type_ok rows ∧ NoDup rows.*1 ∧
    Forall (λ l, Str.all is_space l = true ∧ no_byte nl l = true) blank ∧
    out = Join ((print_type <$> rows) ++ blank) (sep_of nl) ∧
    types = list_to_map ((λ r, (r.1, said_active r.2)) <$> rows).
Lemma active_rows rows blank :
  Forall type_ok rows → Forall (λ l, Str.all is_space l = true) blank →
  ∀ t, t ∈ omap (λ line, match Fields line with
                      | [f; s] => if String.eqb s "(active)" then Some f else None
                      | _ => None
                      end) ((print_type <$> rows) ++ blank) ↔ (t, ["(active)"]) ∈ rows.
Proof.
  intros Hr Hb t. rewrite omap_app, elem_of_app. trans (t ∈ omap (λ r : string * list string,
    match r.2 with [s] => if String.eqb s "(active)" then Some r.1 else None | _ => None end) rows ∨ False).
  - f_equiv.
    + induction Hr as [|[n ws] rows [Hn Hw] Hr IH]; [done|]. csimpl. unfold print_type at 1.
      rewrite Fields_Join by (by constructor). cbn [fst snd] in *.
      destruct ws as [|s [|s' ws]]; [exact IH| |exact IH]. destruct (String.eqb s "(active)"); [|exact IH].
      by rewrite !elem_of_cons, IH.
    + split; [|done]. intros (l & Hl & He)%list_elem_of_omap. eapply Forall_forall in Hb; [|exact Hl].
      apply Fields_blank in Hb. by rewrite Hb in He.
  - rewrite list_elem_of_omap. split; [|intros Hin; left; by exists (t, ["(active)"])].
    intros [([n ws] & Hin & He)|[]]. cbn in He. destruct ws as [|s [|s' ws]]; try done.
    destruct (String.eqb_spec s "(active)") as [->|]; [|done]. by injection He as ->.
Qed.
Lemma activeBucketTypes_prints types out t :
  prints_types types out → t ∈ activeBucketTypes out ↔ types !! t = Some true.
Proof.
  intros (rows & blank & Hr & Hnd & Hb & -> & ->). unfold activeBucketTypes.
  rewrite elem_of_list_to_set.
  assert (t ∈ omap (λ line, match Fields line with
                      | [f; s] => if String.eqb s "(active)" then Some f else None
                      | _ => None
                      end) ((print_type <$> rows) ++ blank) ↔
    list_to_map (M:=gmap string bool) ((λ r, (r.1, said_active r.2)) <$> rows) !! t = Some true) as Hiff.
  { rewrite active_rows; [|done|by apply (Forall_impl _ _ _ Hb); intros l [? _]].
    rewrite <-elem_of_list_to_map; [|by rewrite <-list_fmap_compose].
    rewrite list_elem_of_fmap. split.
    - intros Hin. exists (t, ["(active)"]). split; [|done]. cbn. by vm_compute.
    - intros ([n ws] & [= -> Ha] & Hin). symmetry in Ha. apply bool_decide_eq_true in Ha. cbn in Ha. by subst. }
  destruct rows as [|r rows]; [destruct blank as [|l blank]|]; [done|..];
    (rewrite Split_Join; [exact Hiff|done|]); apply Forall_app; (split; [|by apply (Forall_impl _ _ _ Hb);
      intros ? [_ ?]]);
    apply Forall_fmap, (Forall_impl _ _ _ Hr); intros r' [H1 H2]; (apply Join_all; [done|]);
    constructor; [by apply is_word_no_nl|by apply (Forall_impl _ _ _ H2), is_word_no_nl|by apply is_word_no_nl|by apply (Forall_impl _ _ _ H2), is_word_no_nl].
Qed.

(** ** The properties of a type *)
(** A line per property, of one word and what it is, between others without a colon. *)
Inductive prop_line := PText (l : string) | PProp (k v : string).
Definition print_prop (l : prop_line) : string :=
  match l with PText s => s | PProp k v => k +:+ ": " +:+ v end.
Definition prop_ok (l : prop_line) : Prop :=
  match l with
  | PText s => no_byte nl s = true ∧ Contains s ": " = false
  | PProp k v => is_word k = true ∧ no_byte nl v = true ∧ TrimSpace v = v
  end.
Definition prop_of (l : prop_line) : option (string * string) :=
  match l with PText _ => None | PProp k v => Some (k, v) end.
Definition prints_props (props : gmap string string) (out : string) : Prop :=
  ∃ lines, lines ≠ [] ∧ Forall prop_ok lines ∧ NoDup (omap prop_of lines).*1 ∧
    out = Join (print_prop <$> lines) (sep_of nl) ∧ props = list_to_map (omap prop_of lines).

Lemma no_colon_index s sub : Contains s sub = false → before_index s sub = None.
Proof.
  induction s as [|a s IH]; cbn [Contains before_index]; intros [-> Hc]%orb_false_iff; [done|]. by rewrite IH.
Qed.
Lemma cut_word k v :
  Str.all (λ a, negb (is_space a)) k = true →
  before_index (k +:+ ": " +:+ v) ": " = Some k ∧ from_index (k +:+ ": " +:+ v) ": " = Some (": " +:+ v).
Proof.
  induction k as [|a k IH]; cbn [Str.all]; [by rewrite before_index_here, from_index_here by
    (apply HasPrefix_spec; by eexists)|]. intros [Ha Hk]%andb_true_iff. destruct (IH Hk) as [Hb Hf].
  rewrite Str.app_cons. cbn [before_index from_index].
  assert (HasPrefix (String a (k +:+ ": " +:+ v)) ": " = false) as ->; [|by rewrite Hb, Hf].
  apply not_true_iff_false. intros [t Ht]%HasPrefix_spec. destruct k as [|b k]; [done|].
  rewrite Str.app_cons in Ht. injection Ht as _ -> _. cbn in Hk. done.
Qed.
Lemma drop_colon v : drop_bytes 2 (": " +:+ v) = v.
Proof.
  change (": " +:+ v) with (String ":" (String " " v)). unfold drop_bytes. cbn. rewrite ?Nat.sub_0_r.
  induction v as [|c v IH]; [done|]. cbn. by rewrite IH.
Qed.
Lemma status_line_reads props l :
  prop_ok l →
  status_line props (print_prop l) = match prop_of l with Some (k, v) => <[k := v]> props | None => props end.
Proof.
  destruct l as [s|k v]; cbn [prop_ok print_prop prop_of]; unfold status_line.
  - intros [_ Hc]. by rewrite no_colon_index.
  - intros ([_ Hk]%is_word_spec & _ & Hv). destruct (cut_word k v Hk) as [-> ->].
    rewrite drop_colon, Hv.
    assert (∀ c, is_space c = true → Contains k (sep_of c) = false) as Hc;
      [|by rewrite (Hc " "%char eq_refl : Contains k " " = false), (Hc "009"%char eq_refl)].
    intros c Hc. apply not_true_iff_false. intros (l & r & ->)%Contains_spec. rewrite !Str.all_app in Hk. cbn in Hk.
    rewrite Hc in Hk. cbn in Hk. by rewrite andb_false_r in Hk.
Qed.
Lemma parseBucketTypeStatus_prints props out : prints_props props out → parseBucketTypeStatus out = props.
Proof.
  intros (lines & Hne & Hok & Hnd & -> & ->). unfold parseBucketTypeStatus. rewrite Split_Join; [|by destruct lines|].
  - rewrite <-(right_id_L ∅ (∪) (list_to_map _)). clear Hne. revert Hnd. generalize (∅ : gmap string string).
    induction Hok as [|l lines Hl Hok IH]; intros m; [intros _; symmetry; exact (left_id_L ∅ (∪) m)|].
    cbn [fmap list_fmap foldl omap list_omap].
    rewrite status_line_reads by done. destruct (prop_of l) as [[k v]|]; [|apply IH].
    csimpl. intros [Hk Hnd]%NoDup_cons. rewrite IH by done. rewrite <-insert_union_l, <-insert_union_r; [done|].
    by apply not_elem_of_list_to_map_1.
  - apply Forall_fmap, (Forall_impl _ _ _ Hok). intros [s|k v]; [by intros []|].
    intros (Hk%is_word_no_nl & Hv & _). unfold no_byte in *.
    cbn [compose print_prop]. unfold no_byte. rewrite !Str.all_app, Hk, Hv. done.
Qed.

(** ** The members and their shares *)
Record ring_node := mkRingNode { rn_Node : string; rn_Status : string; rn_Partitions : Z }.
(** The row of a node: its share of the [R] partitions with one decimal. *)
Definition prints_node (R : Z) (row : member_row) (n : ring_node) : Prop :=
  mr_member row = mkClusterMember (rn_Status n) (rn_Node n) ∧ (0 ≤ rn_Partitions n ≤ R)%Z ∧
  ∃ t, rounds R (rn_Partitions n) t ∧ mr_ring row = tenths t +:+ "%".
Definition prints_ring (R : Z) (ring : list ring_node) (out : string) : Prop :=
  ∃ rows, Forall (λ r, row_ok r = true) rows ∧ Forall2 (prints_node R) rows ring ∧ out = print_members rows.
(** How many nodes are in a state. *)
Definition in_state (state : string) (ring : list ring_node) : Z :=
  Z.of_nat (length (filter (λ n, rn_Status n = state) ring)).

Lemma shows_printed R ring out :
  prints_ring R ring out → shows_ring R ((λ n, (rn_Node n, rn_Partitions n)) <$> ring) out.
Proof.
  intros (rows & Hok & Hrows & ->). unfold shows_ring. rewrite print_members_lines, !omap_app by done.
  change (omap ring_line member_header) with (@nil (string * string)).
  assert (omap ring_line (member_footer rows) = []) as ->.
  { unfold member_footer. cbn [omap list_omap]. assert (ring_line (Join (summary_words rows) " ") = None) as ->; [|done].
    unfold ring_line. by rewrite Fields_Join by apply summary_words_ok. }
  rewrite app_nil_r. cbn [app]. induction Hrows as [|row n rows ring (Hm & Hk & t & Ht & Hr) Hrows IH];
    [by constructor|].
  inversion Hok as [|? ? Hrow Hok']; subst. csimpl.
  assert (ring_line (print_row row) = Some (mr_ring row, cmb_Node (mr_member row))) as ->.
  { unfold ring_line. rewrite print_row_fields by done. unfold row_ok in Hrow. rewrite !andb_true_iff in Hrow.
    by destruct Hrow as (((((_ & ->) & _) & _) & _) & _). }
  constructor; [|by apply IH]. rewrite Hm. cbn. split; [done|]. split; [done|]. by exists t.
Qed.

(** The text of the counts is found in the last line, and only if it is what it counts. *)
Lemma Contains_line c x y w : no_byte c w = true → Contains (x +:+ String c y) w = Contains x w || Contains y w.
Proof.
  intros Hw. induction x as [|a x IH].
  - rewrite Str.app_nil_l. cbn [Contains]. rewrite <-(Str.app_nil_l (String c y)) at 1.
    by rewrite HasPrefix_line, orb_false_r.
  - rewrite Str.app_cons. cbn [Contains]. rewrite <-Str.app_cons, HasPrefix_line, IH by done. by rewrite orb_assoc.
Qed.
Lemma Contains_Join c l w :
  no_byte c w = true → w ≠ "" → Contains (Join l (sep_of c)) w = existsb (λ x, Contains x w) l.
Proof.
  intros Hw Hne. induction l as [|x [|y l] IH]; [by destruct w|cbn; by rewrite orb_false_r|].
  rewrite Join_cons. change (sep_of c +:+ Join (y :: l) (sep_of c)) with (String c (Join (y :: l) (sep_of c))).
  rewrite Contains_line by done. cbn [existsb]. by rewrite IH.
Qed.
Lemma no_fields line n : length (Fields line) < 7 → Contains line (wanted_ring n) = false.
Proof.
  intros Hl. apply not_true_iff_false. intros (a & b & ->)%Contains_spec.
  replace (a +:+ wanted_ring n +:+ b) with
    ((a +:+ "Valid:" +:+ Itoa n) +:+ String " " ("/" +:+ String " " ("Leaving:0" +:+ String " " ("/" +:+
     String " " ("Exiting:0" +:+ String " " ("/" +:+ String " " ("Joining:0" +:+ String " " ("/" +:+
     String " " ("Down:0" +:+ b))))))))) in Hl by (unfold wanted_ring; by rewrite !Str.app_assoc).
  rewrite !Fields_sep, !length_app in Hl by done. cbn [length Fields] in Hl.
  change (length (Fields "/")) with 1 in Hl. change (length (Fields "Leaving:0")) with 1 in Hl.
  change (length (Fields "Exiting:0")) with 1 in Hl. change (length (Fields "Joining:0")) with 1 in Hl. lia.
Qed.
Lemma wanted_lines rows n :
  Forall (λ r, row_ok r = true) rows → (0 ≤ n)%Z →
  Contains (print_members rows) (wanted_ring n) = Contains (Join (summary_words rows) " ") (wanted_ring n).
Proof.
  intros Hok Hn. unfold print_members. rewrite Contains_Join; [|unfold wanted_ring, no_byte|done].
  - rewrite !existsb_app. unfold member_header, member_footer. cbn [existsb]. rewrite !no_fields by (vm_compute; lia).
    cbn [orb].
    assert (existsb (λ x, Contains x (wanted_ring n)) (print_row <$> rows) = false) as ->; [|by rewrite orb_false_r].
    apply not_true_iff_false. intros (l & Hin & Hc)%existsb_exists.
    apply list_elem_of_In, list_elem_of_fmap in Hin as (r & -> & Hr). eapply Forall_forall in Hok; [|exact Hr].
    rewrite no_fields in Hc; [done|]. rewrite print_row_fields by done. cbn. lia.
  - rewrite !Str.all_app. cbn. rewrite andb_true_r. apply (Str.all_impl is_digit), Itoa_digits, Hn.
    by intros [[] [] [] [] [] [] [] []].
Qed.

(** No number is printed with a zero in front. *)
Lemma pretty_no_zero x s : (0 < x)%N → ∃ c t, pretty_N_go x s = String c t ∧ c ≠ "0"%char.
Proof.
  revert s. induction (N.lt_wf_0 x) as [x _ IH]; intros s Hx. rewrite pretty_N_go_step by done.
  destruct (decide (x < 10)%N) as [Hs|Hl].
  - rewrite N.div_small, pretty_N_go_0, N.mod_small by done. eexists _, _. split; [done|].
    assert (x = 1 ∨ x = 2 ∨ x = 3 ∨ x = 4 ∨ x = 5 ∨ x = 6 ∨ x = 7 ∨ x = 8 ∨ x = 9)%N by lia. naive_solver.
  - apply IH; [by apply N.div_lt|]. apply N.div_str_pos. lia.
Qed.
Lemma Itoa_zero z b : Itoa z = "0" +:+ b → z = 0%Z.
Proof.
  unfold Itoa. destruct z as [|x|x]; [done| |done]. change (pretty (Z.pos x)) with (pretty (N.pos x)).
  unfold pretty, pretty_N. rewrite decide_False by done.
  destruct (pretty_no_zero (N.pos x) "") as (c & t & -> & Hc); [lia|]. rewrite Str.app_cons. intros [= -> _]. done.
Qed.
Lemma Itoa_then z z' c t :
  (0 ≤ z)%Z → (0 ≤ z')%Z → is_space c = true → Itoa z +:+ String c t = Itoa z' +:+ String c t → z = z'.
Proof.
  intros Hz Hz' Hc He%(f_equal Fields). rewrite !Fields_sep in He by done. apply app_inv_tail in He.
  assert (∀ x, (0 ≤ x)%Z → is_word (Itoa x) = true) as Hw.
  { intros x Hx. apply is_word_spec. split; [apply Itoa_not_nil|by apply digits_no_space, Itoa_digits]. }
  rewrite !Fields_word in He by auto. injection He as He. by apply (inj pretty).
Qed.

(** The pieces of the counts between their colons. *)
Definition count_pieces (v l e j d : Z) (b : string) : list string :=
  ["Valid"; Itoa v +:+ " / Leaving"; Itoa l +:+ " / Exiting"; Itoa e +:+ " / Joining"; Itoa j +:+ " / Down";
    Itoa d +:+ b].
Lemma no_colon x w : (0 ≤ x)%Z → no_byte ":" w = true → no_byte ":" (Itoa x +:+ w) = true.
Proof.
  intros Hx Hw. unfold no_byte in *. rewrite Str.all_app, Hw, andb_true_r.
  apply (Str.all_impl is_digit), Itoa_digits, Hx. by intros [[] [] [] [] [] [] [] []].
Qed.
Lemma counts_split v l e j d :
  (0 ≤ v)%Z → (0 ≤ l)%Z → (0 ≤ e)%Z → (0 ≤ j)%Z → (0 ≤ d)%Z →
  Split (Join (count_pieces v l e j d "") ":") ":" = count_pieces v l e j d "".
Proof.
  intros. apply Split_Join; [done|].
  by repeat constructor; apply no_colon.
Qed.
Lemma counts_found rows n :
  (0 ≤ n)%Z →
  let count state := Z.of_nat (length (filter (λ r, cmb_Status (mr_member r) = state) rows)) in
  Contains (Join (summary_words rows) " ") (wanted_ring n) = true ↔
  count memberStatusValid = n ∧ count "leaving" = 0%Z ∧ count "exiting" = 0%Z ∧ count "joining" = 0%Z ∧
  count "down" = 0%Z.
Proof.
  intros Hn count.
  assert (Join (summary_words rows) " " = Join (count_pieces (count memberStatusValid) (count "leaving")
    (count "exiting") (count "joining") (count "down") "") ":") as ->.
  { unfold summary_words, counted, count_pieces. cbn [Join]. by rewrite !Str.app_assoc, Str.app_nil_r. }
  assert (∀ s, 0 ≤ count s)%Z as Hc by (intros; unfold count; lia). generalize dependent count. intros count Hc.
  split.
  - intros (a & b & He)%Contains_spec. apply (f_equal (λ s, Split s ":")) in He. rewrite counts_split in He by done.
    replace (a +:+ wanted_ring n +:+ b) with
      ((a +:+ "Valid") +:+ String ":" ((Itoa n +:+ " / Leaving") +:+ String ":" ("0 / Exiting" +:+ String ":"
       ("0 / Joining" +:+ String ":" ("0 / Down" +:+ String ":" ("0" +:+ b)))))) in He
      by (unfold wanted_ring; by rewrite !Str.app_assoc).
    unfold Split in He. rewrite (split_by_sep _ (a +:+ "Valid")), (split_by_sep _ (Itoa n +:+ " / Leaving")),
      (split_by_sep _ "0 / Exiting"), (split_by_sep _ "0 / Joining"), (split_by_sep _ "0 / Down") in He by done.
    rewrite (split_by_nosep _ (Itoa n +:+ " / Leaving")) in He by by apply no_colon.
    pose proof (split_by_not_nil (is_byte ":") (a +:+ "Valid")) as Ha.
    pose proof (split_by_not_nil (is_byte ":") ("0" +:+ b)) as Hb.
    remember (split_by _ ("0" +:+ b)) as bs eqn:Ebs.
    destruct (split_by _ (a +:+ "Valid")) as [|a' [|a'' ?]], bs as [|b' bs]; try done.
    2: { apply (f_equal length) in He. rewrite !length_app in He. cbn in He. lia. }
    injection He as _ Ev El Ee Ej Ed <-. pose proof (Join_Split ("0" +:+ b) ":") as Hj. unfold Split in Hj.
    rewrite <-Ebs in Hj. cbn [Join] in Hj. rewrite Str.app_nil_r in Ed. rewrite <-Ed in Hj.
    split_and!;
      [exact (Itoa_then _ _ " " "/ Leaving" (Hc _) Hn eq_refl Ev)
      |exact (Itoa_then _ 0 " " "/ Exiting" (Hc _) (Z.le_refl 0) eq_refl El)
      |exact (Itoa_then _ 0 " " "/ Joining" (Hc _) (Z.le_refl 0) eq_refl Ee)
      |exact (Itoa_then _ 0 " " "/ Down" (Hc _) (Z.le_refl 0) eq_refl Ej)
      |exact (Itoa_zero _ b Hj)].
  - intros (-> & -> & -> & -> & ->). apply Contains_spec. exists "", "". unfold wanted_ring. cbn [Join count_pieces].
    by rewrite !Str.app_nil_l, !Str.app_nil_r, !Str.app_assoc.
Qed.
Lemma wanted_exact R ring out n :
  (0 ≤ n)%Z → prints_ring R ring out →
  Contains out (wanted_ring n) = true ↔
  in_state memberStatusValid ring = n ∧ Forall (λ s, in_state s ring = 0%Z) ["leaving"; "exiting"; "joining"; "down"].
Proof.
  intros Hn (rows & Hok & Hrows & ->). rewrite wanted_lines, counts_found by done. rewrite !Forall_cons, Forall_nil.
  assert (∀ s, Z.of_nat (length (filter (λ r, cmb_Status (mr_member r) = s) rows)) = in_state s ring) as Hc.
  { intros s. unfold in_state. f_equal. clear Hok. induction Hrows as [|r m rows ring (Hm & _) _ IH]; [done|].
    rewrite !filter_cons, Hm. cbn. case_decide; cbn; by rewrite IH. }
  rewrite !Hc. tauto.
Qed.
(** What [verify_ring] accepts: the nodes are as many as wanted, all valid, and have the
    partitions that an even spread gives them. *)
Definition ring_as_wanted (R nodes : Z) (ring : list ring_node) : Prop :=
  Z.of_nat (length ring) = nodes ∧
  Forall (λ n, rn_Status n = memberStatusValid ∧ fewest R nodes ≤ rn_Partitions n ≤ most R nodes)%Z ring.
Lemma ring_exact `{HF : GoFloatLaws} R nodes ring out :
  R ∈ told_sizes → (1 ≤ nodes ≤ R)%Z → prints_ring R ring out →
  Contains out (wanted_ring nodes) = true ∧ ringImbalance out nodes R = "" ↔ ring_as_wanted R nodes ring.
Proof.
  intros HR Hn Hp. rewrite (wanted_exact R ring out nodes) by (done || lia).
  rewrite (ringImbalance_exact R nodes _ out HR Hn (shows_printed R ring out Hp)). rewrite length_fmap, Forall_fmap.
  unfold ring_as_wanted. rewrite Forall_and. split.
  - intros [[Hv _] [Hl Hb]]. split_and!; [done| |done]. apply Forall_forall. intros m Hm.
    destruct (decide (rn_Status m = memberStatusValid)) as [|Hs]; [done|].
    pose proof (length_filter_lt (λ n, rn_Status n = memberStatusValid) ring m Hm Hs). unfold in_state in Hv. lia.
  - intros (Hl & Hv & Hb). split; [|done].
    assert (∀ s, s ≠ memberStatusValid → in_state s ring = 0%Z) as H0.
    { intros s Hs. unfold in_state. clear -Hv Hs. induction Hv as [|m ring Hm _ IH]; [done|].
      rewrite filter_cons, decide_False by congruence. done. }
    split; [|by repeat constructor; apply H0]. rewrite <-Hl. unfold in_state. f_equal. clear -Hv.
    induction Hv as [|m ring Hm _ IH]; [done|]. rewrite filter_cons, decide_True by done. cbn. by rewrite IH.
Qed.
