(* ===== verification/VerifyAll.v ===== *)
(** * What an empty report of the harness means

    [verifyAll] asks every node of every cluster and compares with the specs, one goroutine
    per question. *)
From S2P Require Import Prelude GoLib Effects Types Samples KubeTypes Kube Executor ExecutorFacts Manager RiakEnv Grants BucketController Soak Verify VerifyFacts VerifyRing VerifyPrint.

(** ** The order of the goroutines *)
Lemma interleaved_Permutation tasks l : interleaved tasks l → l ≡ₚ mjoin tasks.
Proof.
  induction 1 as [tasks Hall|before t x t' after l Ht _ IH].
  - assert (mjoin tasks = []) as ->; [|done]. induction Hall as [|t tasks -> _ IH]; [done|]. exact IH.
  - rewrite IH, !join_app. cbn. rewrite Ht. cbn. apply Permutation_middle.
Qed.
(** One after the other is one of the orders. *)
Lemma interleaved_in_turn tasks : interleaved tasks (mjoin tasks).
Proof.
  assert (∀ done_ todo, Forall (λ t, t = []) done_ → interleaved (done_ ++ todo) (mjoin todo)) as H;
    [|by apply (H [])].
  intros done_ todo. revert done_. induction todo as [|t todo IH]; intros done_ Hd.
  - rewrite app_nil_r. by constructor.
  - cbn. induction t as [|x t IHt]; cbn.
    + specialize (IH (done_ ++ [[]])). rewrite <-(assoc_L (++)) in IH. apply IH. apply Forall_app.
      by split; [|constructor].
    + by apply (il_step done_ (x :: t) x t todo).
Qed.
Lemma SortStrings_Permutation l l' : l ≡ₚ l' → SortStrings l = SortStrings l'.
Proof.
  intros Hp. apply (StronglySorted_unique (key_le id)); [apply SortBy_StronglySorted..|].
  unfold SortStrings. by rewrite !SortBy_Permutation.
Qed.
Lemma SortStrings_nil l : SortStrings l = [] ↔ l = [].
Proof.
  split; [|by intros ->]. intros He. pose proof (SortBy_Permutation id l) as Hp. unfold SortStrings in He.
  rewrite He in Hp. by apply Permutation_nil in Hp.
Qed.

(** ** The questions *)
Lemma mbind_nil {A B} (f : A → list B) l : l ≫= f = [] ↔ ∀ x, x ∈ l → f x = [].
Proof.
  induction l as [|x l IH]; cbn; [split; [by intros _ x ?%elem_of_nil|done]|].
  rewrite app_nil, IH. setoid_rewrite elem_of_cons. naive_solver.
Qed.
Lemma mjoin_fmap_nil {A B} (f : A → list B) l : mjoin (f <$> l) = [] ↔ ∀ x, x ∈ l → f x = [].
Proof.
  induction l as [|x l IH]; cbn; [split; [by intros _ x ?%elem_of_nil|done]|].
  rewrite app_nil, IH. setoid_rewrite elem_of_cons. naive_solver.
Qed.
Lemma if_nil (b : bool) {A} (x : A) : (if b then [] else [x]) = [] ↔ b = true.
Proof. by destruct b. Qed.

Section verify.
Context `{HF : GoFloatLaws} `{L : KubeLib}.
Context (admin : string → list string → string * option error).
(** The command succeeded and printed [out]. *)
Definition replied (pod : string) (args : list string) (out : string) : Prop := admin pod args = (out, None).
Lemma on_reply_nil pod args k : on_reply admin pod args k = [] ↔ ∃ out, replied pod args out ∧ k out = [].
Proof.
  unfold on_reply, replied. destruct (admin pod args) as [out [e|]]; [naive_solver|].
  split; [intros Hk; by exists out|]. by intros (out' & [= ->] & ?).
Qed.

(** ** What a node holds, and what it prints of it *)
Record node_view := mkNodeView {
  nv_ring : list ring_node;
  nv_types : gmap string bool;               (* the bucket types, and which are active *)
  nv_props : string → gmap string string;    (* the properties of a type *)
  nv_users : gset string;
  nv_sources : gset (string * string);       (* users and how they authenticate *)
  nv_grants : string → grants_state          (* the permissions of a user *)
}.
Context (node : string → node_view).
(** Its replies, where it gives one, print what it holds. *)
Record node_prints (R : Z) (pod : string) : Prop := {
  np_ring out : replied pod ["member-status"] out → prints_ring R (nv_ring (node pod)) out;
  np_types out : replied pod ["bucket-type"; "list"] out → prints_types (nv_types (node pod)) out;
  np_users out : replied pod ["security"; "print-users"] out → prints_users (nv_users (node pod)) out;
  np_sources out : replied pod ["security"; "print-sources"] out → prints_sources (nv_sources (node pod)) out;
  np_props t out : replied pod ["bucket-type"; "status"; t] out → prints_props (nv_props (node pod) t) out
}.
Definition prints_grants (pod : string) (u : RiakUser) : Prop :=
  let name := us_Username (us_Spec u) in
  ∀ out, replied pod ["security"; "print-grants"; name] out →
    state_ok (nv_grants (node pod) name) ∧ shown name (nv_grants (node pod) name) out.
(** The rings whose shares, with one decimal, tell the partitions. *)
Definition ring_told (cl : RiakCluster) : Prop :=
  ringSizeOf cl ∈ told_sizes ∧ (1 ≤ cl_Size cl ≤ ringSizeOf cl)%Z.

(** ** What it should hold *)
Definition questions (cbs : list RiakBucket) (cus : list RiakUser) : list (list string) :=
  [["member-status"]; ["bucket-type"; "list"]; ["security"; "print-users"]; ["security"; "print-sources"]] ++
  ((λ b, ["bucket-type"; "status"; bs_BucketType (bk_Spec b)]) <$> cbs) ++
  ((λ u, ["security"; "print-grants"; us_Username (us_Spec u)]) <$> cus).
Record node_agrees (cl : RiakCluster) (cbs : list RiakBucket) (cus : list RiakUser) (pod : string) : Prop := {
  na_answers args : args ∈ questions cbs cus → ∃ out, replied pod args out;
  na_ring : ring_as_wanted (ringSizeOf cl) (cl_Size cl) (nv_ring (node pod));
  na_types b : b ∈ cbs → nv_types (node pod) !! bs_BucketType (bk_Spec b) = Some true;
  na_props b k v : b ∈ cbs → (effectiveBucketProperties (bk_Spec b)).1 !! k = Some v →
    map_get (nv_props (node pod) (bs_BucketType (bk_Spec b))) k = v;
  na_users : nv_users (node pod) = list_to_set (usernames cus);
  na_sources name : name ∈ usernames cus → (name, "certificate") ∈ nv_sources (node pod);
  na_grants u : u ∈ cus → nv_grants (node pod) (us_Username (us_Spec u)) = spec_grants (us_Grants (us_Spec u))
}.
(** A question is answered, and the reply leaves nothing to report. *)
Lemma on_reply_shows pod args k (P : Prop) :
  (∀ out, replied pod args out → k out = [] ↔ P) →
  on_reply admin pod args k = [] ↔ (∃ out, replied pod args out) ∧ P.
Proof. intros H. rewrite on_reply_nil. split; [intros (out & Ho & Hk)|intros [[out Ho] HP]]; naive_solver. Qed.
Lemma verify_ring_nil cl pod :
  ring_told cl → node_prints (ringSizeOf cl) pod →
  verify_ring admin cl pod = [] ↔
  (∃ out, replied pod ["member-status"] out) ∧ ring_as_wanted (ringSizeOf cl) (cl_Size cl) (nv_ring (node pod)).
Proof.
  intros [HR Hn] Hp. apply on_reply_shows. intros out Hout. cbn zeta. rewrite app_nil, !if_nil, String.eqb_eq.
  apply ring_exact; [done..|]. by apply (np_ring _ _ Hp).
Qed.
Lemma verify_types_nil R pod cbs :
  node_prints R pod →
  verify_types admin pod ((λ b, bs_BucketType (bk_Spec b)) <$> cbs) = [] ↔
  (∃ out, replied pod ["bucket-type"; "list"] out) ∧
  ∀ b, b ∈ cbs → nv_types (node pod) !! bs_BucketType (bk_Spec b) = Some true.
Proof.
  intros Hp. apply on_reply_shows. intros out Hout. cbn zeta. rewrite mbind_nil. setoid_rewrite if_nil.
  setoid_rewrite bool_decide_eq_true. setoid_rewrite list_elem_of_fmap.
  setoid_rewrite (activeBucketTypes_prints _ _ _ (np_types _ _ Hp out Hout)). naive_solver.
Qed.
Lemma verify_users_nil R pod cus :
  node_prints R pod →
  verify_users admin pod cus = [] ↔
  ((∃ out, replied pod ["security"; "print-users"] out) ∧ ∃ out, replied pod ["security"; "print-sources"] out) ∧
  nv_users (node pod) = list_to_set (usernames cus) ∧
  ∀ name, name ∈ usernames cus → (name, "certificate") ∈ nv_sources (node pod).
Proof.
  intros Hp. unfold verify_users. rewrite (on_reply_shows _ _ _ ((∃ out, replied pod ["security";
    "print-sources"] out) ∧
    nv_users (node pod) = list_to_set (usernames cus) ∧
    ∀ name, name ∈ usernames cus → (name, "certificate") ∈ nv_sources (node pod))); [tauto|].
  intros uout Hu. apply on_reply_shows. intros sout Hs. cbn zeta.
  rewrite (parseUsers_prints _ _ (np_users _ _ Hp _ Hu)).
  rewrite app_nil, !mbind_nil. setoid_rewrite app_nil. setoid_rewrite if_nil.
  setoid_rewrite bool_decide_eq_true. setoid_rewrite elem_of_elements.
  setoid_rewrite (parseCertSources_prints _ _ _ (np_sources _ _ Hp _ Hs)).
  rewrite set_eq. setoid_rewrite elem_of_list_to_set. naive_solver.
Qed.
Lemma verify_props_nil R pod b :
  node_prints R pod →
  verify_props admin pod b = [] ↔
  (∃ out, replied pod ["bucket-type"; "status"; bs_BucketType (bk_Spec b)] out) ∧
  ∀ k v, (effectiveBucketProperties (bk_Spec b)).1 !! k = Some v →
    map_get (nv_props (node pod) (bs_BucketType (bk_Spec b))) k = v.
Proof.
  intros Hp. apply on_reply_shows. intros out Hout. cbn zeta.
  rewrite (parseBucketTypeStatus_prints _ _ (np_props _ _ Hp _ _ Hout)), <-expectedBucketProps_sent, mbind_nil. split.
  - intros H k v Hkv. apply elem_of_map_to_list in Hkv. specialize (H (k, v) Hkv). cbn in H.
    by apply if_nil, String.eqb_eq in H.
  - intros H [k v] Hkv%elem_of_map_to_list. apply if_nil, String.eqb_eq. by apply H.
Qed.
Lemma verify_grants_some pod u :
  Forall grant_standard (us_Grants (us_Spec u)) → prints_grants pod u →
  ∃ d, verify_grants admin pod u = Some d ∧
    (d = [] ↔ (∃ out, replied pod ["security"; "print-grants"; us_Username (us_Spec u)] out) ∧
              nv_grants (node pod) (us_Username (us_Spec u)) = spec_grants (us_Grants (us_Spec u))).
Proof.
  intros Hg Hp. unfold verify_grants. destruct (admin pod _) as [out [e|]] eqn:Ha.
  { eexists. split; [done|]. unfold replied. rewrite Ha. naive_solver. }
  destruct (Hp out Ha) as [Hs Hout].
  destruct (agrees_iff _ _ _ out Hg Hs Hout) as (want & -> & Hiff).
  cbn [mbind option_bind]. eexists. split; [done|]. rewrite <-Hiff.
  destruct (diffGrants want (parseGrants out)); split; try done; [by split; [exists out|]|by intros [_ ?]].
Qed.
Lemma mapM_some {A B} (f : A → option B) (P : A → B → Prop) l :
  (∀ x, x ∈ l → ∃ y, f x = Some y ∧ P x y) → ∃ ys, mapM f l = Some ys ∧ Forall2 P l ys.
Proof.
  induction l as [|x l IH]; intros H; [by exists []|]. destruct (H x) as (y & Hy & HP); [by left|].
  destruct IH as (ys & Hys & HPs); [intros z Hz; apply H; by right|]. exists (y :: ys). cbn. rewrite Hy. cbn.
  rewrite Hys.
  split; [done|]. by constructor.
Qed.
Lemma Forall2_nil {A B} (P : A → Prop) (l : list A) (ys : list (list B)) :
  Forall2 (λ x y, y = [] ↔ P x) l ys → mjoin ys = [] ↔ ∀ x, x ∈ l → P x.
Proof.
  induction 1 as [|x y l ys Hxy _ IH]; cbn; [split; [by intros _ x ?%elem_of_nil|done]|].
  rewrite app_nil, IH, Hxy. setoid_rewrite elem_of_cons. naive_solver.
Qed.
Lemma Forall2_join_nil {A B} (P : A → Prop) (l : list A) (ys : list (list (list B))) :
  Forall2 (λ x y, mjoin y = [] ↔ P x) l ys → mjoin (mjoin ys) = [] ↔ ∀ x, x ∈ l → P x.
Proof.
  induction 1 as [|x y l ys Hxy _ IH]; cbn; [split; [by intros _ x ?%elem_of_nil|done]|].
  rewrite join_app, app_nil, IH, Hxy. setoid_rewrite elem_of_cons. naive_solver.
Qed.
Lemma verify_pod_some cl cbs cus pod :
  ring_told cl → node_prints (ringSizeOf cl) pod →
  (∀ u, u ∈ cus → Forall grant_standard (us_Grants (us_Spec u)) ∧ prints_grants pod u) →
  ∃ tasks, verify_pod admin cl cbs cus pod = Some tasks ∧ (mjoin tasks = [] ↔ node_agrees cl cbs cus pod).
Proof.
  intros Hring Hp Hu. unfold verify_pod.
  destruct (mapM_some (verify_grants admin pod) (λ u d, d = [] ↔
    (∃ out, replied pod ["security"; "print-grants"; us_Username (us_Spec u)] out) ∧
    nv_grants (node pod) (us_Username (us_Spec u)) = spec_grants (us_Grants (us_Spec u))) cus) as (ds & -> & Hds).
  { intros u Hin. destruct (Hu u Hin). by apply verify_grants_some. }
  cbn [mbind option_bind]. eexists. split; [done|]. rewrite !join_app, !app_nil, (Forall2_nil _ _ _ Hds).
  cbn. rewrite app_nil_r, !app_nil, (verify_ring_nil cl pod Hring Hp), (verify_types_nil _ _ _ Hp),
    (verify_users_nil _ _ _ Hp), mjoin_fmap_nil. split.
  - intros (([Hr1 Hr2] & [Ht1 Ht2] & [Ha1 Ha2] & Hus & Hso) & Hb' & Hg).
    split; [|exact Hr2|exact Ht2|intros b k v Hin; by apply (verify_props_nil _ _ b Hp), Hb'|exact Hus|exact Hso
      |intros u Hin; by apply Hg].
    intros args. unfold questions. rewrite !elem_of_app, !list_elem_of_fmap, !elem_of_cons.
    intros [[->|[->|[->|[->|[]%elem_of_nil]]]]|[(b & -> & Hin)|(u & -> & Hin)]]; try done; [|by apply Hg].
    by apply (verify_props_nil _ _ b Hp), Hb'.
  - intros [Ha Hr Ht Hb Hus Hso Hg]. unfold questions in Ha.
    assert (∀ b, b ∈ cbs → verify_props admin pod b = []) as Hb'.
    { intros b Hin. apply (verify_props_nil _ _ b Hp). split; [|intros k v; by apply Hb]. apply Ha.
      apply elem_of_app. right. apply elem_of_app. left. apply list_elem_of_fmap. by eexists. }
    split_and!; try done; try (apply Ha; set_solver).
    intros u Hin. split; [|by apply Hg]. apply Ha. apply elem_of_app. right. apply elem_of_app. right.
    apply list_elem_of_fmap. by eexists.
Qed.

(** The resources of a cluster. *)
Definition buckets_of (cl : RiakCluster) (buckets : list RiakBucket) : list RiakBucket :=
  List.filter (λ b, of_cluster cl (bs_ClusterName (bk_Spec b))) buckets.
Definition users_of (cl : RiakCluster) (users : list RiakUser) : list RiakUser :=
  List.filter (λ u, of_cluster cl (us_ClusterName (us_Spec u))) users.
Lemma verify_tasks_some clusters buckets users :
  (∀ cl, cl ∈ clusters → ring_told cl ∧ ∀ pod, pod ∈ cluster_pods cl → node_prints (ringSizeOf cl) pod) →
  (∀ pod u, u ∈ users → Forall grant_standard (us_Grants (us_Spec u)) ∧ prints_grants pod u) →
  ∃ tasks, mjoin <$> mapM (verify_cluster admin buckets users) clusters = Some tasks ∧
    (mjoin tasks = [] ↔ ∀ cl pod, cl ∈ clusters → pod ∈ cluster_pods cl →
       node_agrees cl (buckets_of cl buckets) (users_of cl users) pod).
Proof.
  intros Hring Hu.
  destruct (mapM_some (verify_cluster admin buckets users)
    (λ cl tasks, mjoin tasks = [] ↔ ∀ pod, pod ∈ cluster_pods cl →
    node_agrees cl (buckets_of cl buckets) (users_of cl users) pod) clusters) as (ts & -> & Hts).
  - intros cl Hcl. unfold verify_cluster. fold (buckets_of cl buckets) (users_of cl users).
    destruct (mapM_some (verify_pod admin cl (buckets_of cl buckets) (users_of cl users))
      (λ pod tasks, mjoin tasks = [] ↔
      node_agrees cl (buckets_of cl buckets) (users_of cl users) pod) (cluster_pods cl)) as (ts & -> & Hts).
    { intros pod Hpod. destruct (Hring cl Hcl) as [Ht Hp]. apply verify_pod_some; [done|by apply Hp|].
      intros u Hin. apply Hu.
      apply list_elem_of_In, List.filter_In in Hin as [Hin _].
      by apply list_elem_of_In. }
    eexists. split; [done|]. by apply Forall2_join_nil.
  - eexists. split; [done|]. rewrite (Forall2_join_nil _ _ _ Hts). naive_solver.
Qed.
End verify.

(** *** A report to run *)
#[local] Instance grant_printable_dec g : Decision (grant_printable g).
Proof. unfold grant_printable, chunk_ok. apply _. Defined.
Definition demo_user : RiakUser :=
  mkRiakUser (us_Meta sample_user)
    (mkRiakUserSpec "c" "alice" sample_grants (us_CertificateRef (us_Spec sample_user))) (us_Status sample_user).
(** Of three nodes, one has one partition less. *)
Definition demo_rows : list member_row :=
  [mkMemberRow (mkClusterMember "valid" "riak@a") "33.6%" "--" "  ";
   mkMemberRow (mkClusterMember "valid" "riak@b") "33.6%" "--" "  ";
   mkMemberRow (mkClusterMember "valid" "riak@c") "32.8%" "--" "  "].
Definition demo_types : list (string * list string) := [("t", ["(active)"]); ("maps", ["(not"; "active)"])].
Definition demo_users : list table_line := [TRow [" username "; " options "]; TText "+----+"; TRow [" alice ";
  " [] "]].
Definition demo_source : source_print := mkSourcePrint (["alice"], false) "0.0.0.0/0" "certificate" "[]" [].
Definition demo_sources : list table_line :=
  [TRow ["users"; "cidr"; "source"; "options"]; TText "+----+"; TRow ["alice"; "0.0.0.0/0"; "certificate"; "[]"]].
Definition demo_props : list prop_line :=
  [PText "t is active"; PText ""; PProp "active" "true"; PProp "allow_mult" "true"; PProp "backend" "bitcask";
    PProp "n_val" "3"].
Definition demo_node (pod : string) : node_view := {|
  nv_ring := [mkRingNode "riak@a" "valid" 43; mkRingNode "riak@b" "valid" 43; mkRingNode "riak@c" "valid" 42];
  nv_types := {["t" := true; "maps" := false]};
  nv_props _ := list_to_map (omap prop_of demo_props);
  nv_users := {["alice"]};
  nv_sources := {[("alice", "certificate")]};
  nv_grants _ := spec_grants sample_grants
|}.
Definition demo_admin (pod : string) (args : list string) : string * option error :=
  (match args with
   | ["member-status"] => print_members demo_rows
   | ["bucket-type"; "list"] => Join (print_type <$> demo_types) (sep_of nl)
   | ["bucket-type"; "status"; _] => Join (print_prop <$> demo_props) (sep_of nl)
   | ["security"; "print-users"] => Join (print_line <$> demo_users) (sep_of nl)
   | ["security"; "print-sources"] => Join (print_line <$> demo_sources) (sep_of nl)
   | ["security"; "print-grants"; _] => sim_table "alice" (spec_grants sample_grants)
   | _ => ""
   end, None).
#[local] Instance padded_cell_dec c : Decision (padded_cell c).
Proof. unfold padded_cell. apply _. Defined.
#[local] Instance line_ok_dec l : Decision (line_ok l).
Proof. destruct l; apply _. Defined.
#[local] Instance user_word_dec u : Decision (user_word u).
Proof. unfold user_word. apply _. Defined.
#[local] Instance source_ok_dec e : Decision (source_ok e).
Proof. unfold source_ok. apply _. Defined.
#[local] Instance type_ok_dec r : Decision (type_ok r).
Proof. unfold type_ok. apply _. Defined.
#[local] Instance prop_ok_dec l : Decision (prop_ok l).
Proof. destruct l; apply _. Defined.
Ltac decided := apply (bool_decide_unpack _); by vm_compute.
Lemma demo_prints pod u : u ∈ [demo_user] →
  Forall grant_standard (us_Grants (us_Spec u)) ∧ prints_grants demo_admin demo_node pod u.
Proof.
  intros ->%list_elem_of_singleton. split; [decided|]. intros out Hout.
  assert (out = sim_table "alice" (spec_grants sample_grants)) as -> by by injection Hout.
  split; [decided|].
  exists ["Inherited permissions (user/alice)"], "----", sim_pads, (sim_grant <$> elements (spec_grants sample_grants)), [].
  split; [done|]. split; [by repeat constructor|]. split; [done|]. split_and!; decided.
Qed.
Lemma demo_replies pod : node_prints demo_admin demo_node 128 pod.
Proof.
  split; [intros out Ho..|intros t out Ho]; injection Ho as <-.
  - exists demo_rows. split; [decided|]. split; [|done].
    repeat (apply Forall2_cons; split; [split; [done|]; split; [done|]|]);
      [exists 336%Z|exists 336%Z|exists 328%Z|done]; by split.
  - exists demo_types, []. split_and!; [decided|decided|done|done|decided].
  - exists ["options"], [["alice"; "[]"]]. split; [|split; [decided|decided]]. exists demo_users.
    split_and!; [decided|done|done].
  - exists [demo_source]. split; [decided|]. split; [|decided]. exists demo_sources. split_and!; [decided|done|done].
  - exists demo_props. split_and!; [done|decided|decided|done|done].
Qed.
Lemma demo_clusters cl : cl ∈ [sample_cluster] →
  ring_told cl ∧ ∀ pod, pod ∈ cluster_pods cl → node_prints demo_admin demo_node (ringSizeOf cl) pod.
Proof.
  intros ->%list_elem_of_singleton. replace (ringSizeOf sample_cluster) with 128%Z by by vm_compute.
  split; [split; [decided|by vm_compute]|intros pod _; apply demo_replies].
Qed.

(** ** Properties *)

