(* ===== verification/Harness.v ===== *)
(** * The stages of the scale test that change the cluster ([test/scale/verify.go])

    Between two verifications the harness edits the specs, deletes users and waits. A stage is
    a program over [hcall]: the API, the clock, [time.Sleep] and the random numbers. A waiting
    loop has fuel, and [None] is its running out. *)
From S2P Require Import Prelude GoLib Effects Types Samples KubeTypes Kube Executor Manager BucketController Verify.

Inductive hcall :=
| HApi (a : api)
| HSleep (d : Z)
| HIntn (n : Z).
Definition hreply (a : hcall) : Type :=
  match a with
  | HApi a => reply a
  | HSleep _ => unit
  | HIntn _ => Z
  end.
Abbreviation H := (prog hreply).
Definition hList (k : kind) (ns : string) : H (res (list (obj k))) := call (HApi (AList k ns ∅)).
Definition hUpdate (k : kind) (o : obj k) : H (res (obj k)) := call (HApi (AUpdate k o)).
Definition hDelete (k : kind) (key : ObjectKey) : H (option error) := call (HApi (ADelete k key)).
Definition hGet (k : kind) (key : ObjectKey) : H (res (obj k)) := call (HApi (AGet Uncached k key)).
Definition hNow : H time := call (HApi ANow).
Definition Sleep (d : Z) : H unit := call (HSleep d).
Definition Intn (n : Z) : H Z := call (HIntn n).

(** The options that the stages use. *)
Record opts := mkOpts { o_namespace : string; o_buckets : Z; o_poll : Z }.

(** ** [time.Duration.String] *)
Fixpoint trim_zeros (s : string) : string :=
  match s with
  | "" => ""
  | String a s' =>
      let t := trim_zeros s' in
      if String.eqb t "" && Ascii.eqb a "0" then "" else String a t
  end.
(** The decimals of [v / 10 ^ prec], without trailing zeros. *)
Definition fmt_frac (v : Z) (prec : nat) : string :=
  let s := Itoa v in
  let t := trim_zeros ((String.substring 0 (prec - String.length s) "000000000") +:+ s) in
  if String.eqb t "" then "" else "." +:+ t.
Definition Duration_String (d : Z) : string :=
  let u := Z.abs d in
  let s :=
    if (u =? 0)%Z then "0s"
    else if (u <? 10 ^ 3)%Z then Itoa u +:+ "ns"
    else if (u <? 10 ^ 6)%Z then Itoa (u `div` 10 ^ 3) +:+ fmt_frac (u `mod` 10 ^ 3) 3 +:+ "µs"
    else if (u <? 10 ^ 9)%Z then Itoa (u `div` 10 ^ 6) +:+ fmt_frac (u `mod` 10 ^ 6) 6 +:+ "ms"
    else
      let secs := (u `div` 10 ^ 9)%Z in
      (if (3600 <=? secs)%Z then Itoa (secs `div` 3600) +:+ "h" else "") +:+
      (if (60 <=? secs)%Z then Itoa ((secs `div` 60) `mod` 60) +:+ "m" else "") +:+
      Itoa (secs `mod` 60) +:+ fmt_frac (u `mod` 10 ^ 9) 9 +:+ "s" in
  if (d <? 0)%Z then "-" +:+ s else s.
Example Duration_String_5m : Duration_String (5 * minute) = "5m0s".
Proof. reflexivity. Qed.
Example Duration_String_frac : Duration_String (3600 * second + 1050000000) = "1h0m1.05s".
Proof. reflexivity. Qed.

(** ** What the stress test owns is left alone ([stress.go]) *)
Definition isStressObject (name : string) : bool := HasSuffix name "-stress".
Definition withoutStressUsers (items : list RiakUser) : list RiakUser :=
  List.filter (λ u, negb (isStressObject (om_Name (us_Meta u)))) items.
Definition withoutStressBuckets (items : list RiakBucket) : list RiakBucket :=
  List.filter (λ b, negb (isStressObject (om_Name (bk_Meta b)))) items.

(** ** Random specs ([main.go]) *)
Definition bucket_numbers (spec : RiakBucketSpec) (n r : Z) (multi : bool)
  (props : gmap string string) : RiakBucketSpec :=
  mkRiakBucketSpec (bs_ClusterName spec) (bs_BucketName spec) (bs_BucketType spec) r multi n props.
Definition randomizeBucketProps (spec : RiakBucketSpec) : H RiakBucketSpec :=
  x ← Intn 3;
  let n := (1 + x)%Z in
  typed ← Intn 2;
  let nval := if (typed =? 0)%Z then n else 0%Z in
  let repl := if (typed =? 0)%Z then 0%Z else n in
  multi ← Intn 3;
  mret (if (multi =? 0)%Z then bucket_numbers spec nval repl true ∅
        else if (multi =? 1)%Z then bucket_numbers spec nval repl false {["allow_mult" := "false"]}
        else bucket_numbers spec nval repl false {["allow_mult" := "true"]}).

(** [fmt] with verb [%03d], for a number that is not negative. *)
Definition fmt_03d (z : Z) : string :=
  let s := Itoa z in (String.substring 0 (3 - String.length s) "000") +:+ s.
Definition random_bucket (cluster : string) (b : Z) : string := cluster +:+ "-t" +:+ fmt_03d b.
Definition perms : list string := ["read"; "write"; "delete"; "list"; "admin"].
(** What is remembered of a grant; [None]: [grantKey] indexes out of range. *)
Definition seen_key (g : Grant) : option string := k ← harness_key g; Some (k +:+ "/" +:+ g_Permission g).
Definition random_grant (cluster : string) (buckets : Z) : H Grant :=
  p ← Intn (Z.of_nat (length perms));
  b ← Intn buckets;
  r ← Intn 10;
  let permission := default "" (perms !! Z.to_nat p) in
  mret (if (r =? 0)%Z then mkGrant "any" "" permission
        else if (r <? 3)%Z
        then mkGrant "bucket" (random_bucket cluster b +:+ " bucket-" +:+ fmt_03d b) permission
        else mkGrant "bucket" (random_bucket cluster b) permission).
(** The loop draws until there are [n] grants, none twice. *)
Fixpoint grants_loop (fuel : nat) (cluster : string) (buckets : Z) (n : Z) (seen : gset string) (grants : list Grant)
    : H (option (list Grant)) :=
  if (n <=? Z.of_nat (length grants))%Z then mret (Some grants)
  else match fuel with
       | 0 => mret None
       | S fuel =>
           g ← random_grant cluster buckets;
           match seen_key g with
           | None => mret None
           | Some k =>
               if bool_decide (k ∈ seen) then grants_loop fuel cluster buckets n seen grants
               else grants_loop fuel cluster buckets n ({[k]} ∪ seen) (grants ++ [g])
           end
       end.
Definition randomGrants (fuel : nat) (cluster : string) (buckets : Z) : H (option (list Grant)) :=
  if (buckets =? 0)%Z then mret (Some [mkGrant "any" "" "read"])
  else x ← Intn 4; grants_loop fuel cluster buckets (1 + x) ∅ [].

(** ** Editing the specs ([mutateGrants], [mutateBuckets]) *)
Definition every_nth {A} (every : nat) (items : list A) : list (nat * A) :=
  List.filter (λ p, p.1 mod every =? 0) (imap pair items).
Definition us_set_Grants (u : RiakUser) (grants : list Grant) : RiakUser :=
  mkRiakUser (us_Meta u)
    (mkRiakUserSpec (us_ClusterName (us_Spec u)) (us_Username (us_Spec u)) grants (us_CertificateRef (us_Spec u)))
    (us_Status u).
Definition bk_set_Spec (b : RiakBucket) (spec : RiakBucketSpec) : RiakBucket :=
  mkRiakBucket (bk_Meta b) spec (bk_Status b).
(** A stage returns the number of objects it has dealt with and the error that ended it. *)
Abbreviation counted := (option (Z * option error)).
Definition ended {A} (n : A) (o : counted + A) (k : A → Z) : counted :=
  match o with inl r => r | inr a => Some (k a, None) end.
Definition new_grants (fuel : nat) (o : opts) (i : nat) (u : RiakUser) : H (option (list Grant)) :=
  if i mod 9 =? 0 then mret (Some []) else randomGrants fuel (us_ClusterName (us_Spec u)) (o_buckets o).
Definition mutate_user (fuel : nat) (o : opts) (iu : nat * RiakUser) (n : Z) : H (counted + Z) :=
  gs ← new_grants fuel o iu.1 iu.2;
  match (gs : option (list Grant)) with
  | None => mret (inl None)
  | Some gs =>
      r ← hUpdate KUser (us_set_Grants iu.2 gs);
      match (r : res RiakUser) with
      | Err e => mret (inl (Some (n, Some e)))
      | Ok _ => mret (inr (n + 1)%Z)
      end
  end.
Definition mutateGrants (fuel : nat) (o : opts) : H counted :=
  l ← hList KUser (o_namespace o);
  match (l : res (list RiakUser)) with
  | Err e => mret (Some (0%Z, Some e))
  | Ok items =>
      let users := SortBy (λ u, om_Name (us_Meta u)) (withoutStressUsers items) in
      r ← for_each (every_nth 3 users) 0%Z (mutate_user fuel o);
      mret (ended 0%Z r id)
  end.
Definition n_val (spec : RiakBucketSpec) : string := map_get (expectedBucketProps spec) "n_val".
(** The loop redraws until [n_val] has moved. *)
Fixpoint props_loop (fuel : nat) (old : string) (spec : RiakBucketSpec) : H (option RiakBucketSpec) :=
  if negb (String.eqb (n_val spec) old) then mret (Some spec)
  else match fuel with
       | 0 => mret None
       | S fuel => spec' ← randomizeBucketProps spec; props_loop fuel old spec'
       end.
Definition mutate_bucket (fuel : nat) (ib : nat * RiakBucket) (n : Z) : H (counted + Z) :=
  spec ← props_loop fuel (n_val (bk_Spec ib.2)) (bk_Spec ib.2);
  match (spec : option RiakBucketSpec) with
  | None => mret (inl None)
  | Some spec =>
      r ← hUpdate KBucket (bk_set_Spec ib.2 spec);
      match (r : res RiakBucket) with
      | Err e => mret (inl (Some (n, Some e)))
      | Ok _ => mret (inr (n + 1)%Z)
      end
  end.
Definition mutateBuckets (fuel : nat) (o : opts) : H counted :=
  l ← hList KBucket (o_namespace o);
  match (l : res (list RiakBucket)) with
  | Err e => mret (Some (0%Z, Some e))
  | Ok items =>
      let buckets := SortBy (λ b, om_Name (bk_Meta b)) (withoutStressBuckets items) in
      r ← for_each (every_nth 3 buckets) 0%Z (mutate_bucket fuel);
      mret (ended 0%Z r id)
  end.

(** ** Waiting ([waitObserved], [deleteUsers]) *)
Definition user_pending (u : RiakUser) : bool := negb (readyFor (ust_Conditions (us_Status u))
  (om_Generation (us_Meta u))).
Definition bucket_pending (b : RiakBucket) : bool := negb (readyFor (bst_Conditions (bk_Status b))
  (om_Generation (bk_Meta b))).
Definition pending (users : list RiakUser) (buckets : list RiakBucket) : Z :=
  Z.of_nat (length (List.filter user_pending users) + length (List.filter bucket_pending buckets)).
(** A wait ends with an error or none; [None] is the fuel running out. *)
Fixpoint observed_loop (fuel : nat) (o : opts) (timeout deadline : Z) : H (option (option error)) :=
  match fuel with
  | 0 => mret None
  | S fuel =>
      us ← hList KUser (o_namespace o);
      match (us : res (list RiakUser)) with
      | Err e => mret (Some (Some e))
      | Ok users =>
          bs ← hList KBucket (o_namespace o);
          match (bs : res (list RiakBucket)) with
          | Err e => mret (Some (Some e))
          | Ok buckets =>
              if (pending users buckets =? 0)%Z then mret (Some None)
              else
                now ← hNow;
                if (deadline <? now)%Z
                then mret (Some (Some (Errorf (Itoa (pending users buckets) +:+
                       " RiakUsers/RiakBuckets have not observed their latest spec within " +:+ Duration_String timeout))))
                else _ ← Sleep (o_poll o); observed_loop fuel o timeout deadline
          end
      end
  end.
Definition waitObserved (fuel : nat) (o : opts) (timeout : Z) : H (option (option error)) :=
  now ← hNow; observed_loop fuel o timeout (now + timeout).

(** Until a read of the user fails. *)
Fixpoint gone_loop (fuel : nat) (o : opts) (timeout deadline : Z) (name : string) : H (option (option error)) :=
  match fuel with
  | 0 => mret None
  | S fuel =>
      u ← hGet KUser (mkKey (o_namespace o) name);
      if is_ok (u : res RiakUser) then
        now ← hNow;
        if (deadline <? now)%Z
        then mret (Some (Some (Errorf ("RiakUser " +:+ name +:+ " still exists after " +:+ Duration_String timeout))))
        else _ ← Sleep (o_poll o); gone_loop fuel o timeout deadline name
      else mret (Some None)
  end.
Definition wait_gone (fuel : nat) (o : opts) (timeout deadline n : Z) (name : string)
  (u : unit) : H (counted + unit) :=
  r ← gone_loop fuel o timeout deadline name;
  match (r : option (option error)) with
  | None => mret (inl None)
  | Some (Some e) => mret (inl (Some (n, Some e)))
  | Some None => mret (inr u)
  end.
Definition delete_user (iu : nat * RiakUser) (gone : list string) : H (counted + list string) :=
  let m := us_Meta iu.2 in
  e ← hDelete KUser (mkKey (om_Namespace m) (om_Name m));
  match (e : option error) with
  | Some e => mret (inl (Some (Z.of_nat (length gone), Some e)))
  | None => mret (inr (gone ++ [om_Name m]))
  end.
(** [main] only calls it with a positive [every]. *)
Definition deleteUsers (fuel : nat) (o : opts) (every : nat) (timeout : Z) : H counted :=
  l ← hList KUser (o_namespace o);
  match (l : res (list RiakUser)) with
  | Err e => mret (Some (0%Z, Some e))
  | Ok items =>
      let users := SortBy (λ u, om_Name (us_Meta u)) (withoutStressUsers items) in
      d ← for_each (every_nth every users) [] delete_user;
      match (d : counted + list string) with
      | inl r => mret r
      | inr gone =>
          now ← hNow;
          let n := Z.of_nat (length gone) in
          w ← for_each gone tt (wait_gone fuel o timeout (now + timeout) n);
          mret (ended tt w (λ _, n))
      end
  end.
