(* ===== verification/HarnessFacts.v ===== *)
(** * The stages of the scale test: they end, and what they leave

    [stage]: the clock, the position in the stream of random numbers, and what the API has
    shown so far. The API answers anything. *)
From S2P Require Import Prelude GoLib Effects Types Samples KubeTypes Kube Executor Manager ExecutorFacts Grants BucketController Verify VerifyFacts Harness.

Record stage := mkStage {
  sg_now : time;
  sg_draws : nat;
  (** the lists last shown, the users deleted and those that could not be read *)
  sg_users : list RiakUser;
  sg_buckets : list RiakBucket;
  sg_deleted : list string;
  sg_unread : list string }.
Definition sg_at (s : stage) (t : time) : stage :=
  mkStage t (sg_draws s) (sg_users s) (sg_buckets s) (sg_deleted s) (sg_unread s).
(** What a call shows. *)
Definition shown_users (s : stage) (us : list RiakUser) : stage :=
  mkStage (sg_now s) (sg_draws s) us (sg_buckets s) (sg_deleted s) (sg_unread s).
Definition shown_buckets (s : stage) (bs : list RiakBucket) : stage :=
  mkStage (sg_now s) (sg_draws s) (sg_users s) bs (sg_deleted s) (sg_unread s).
Definition shown_api (s : stage) (a : api) : reply a → stage :=
  match a as a' return reply a' → stage with
  | AList k _ _ =>
      match k as k' return res (list (obj k')) → stage with
      | KUser => λ r, match r with Ok us => shown_users s us | Err _ => s end
      | KBucket => λ r, match r with Ok bs => shown_buckets s bs | Err _ => s end
      | _ => λ _, s
      end
  | ADelete k key => λ r,
      match r with
      | None => mkStage (sg_now s) (sg_draws s) (sg_users s) (sg_buckets s) (sg_deleted s ++ [key_Name key])
        (sg_unread s)
      | Some _ => s
      end
  | AGet _ k key => λ r,
      if is_ok r then s
      else mkStage (sg_now s) (sg_draws s) (sg_users s) (sg_buckets s) (sg_deleted s) (key_Name key :: sg_unread s)
  | _ => λ _, s
  end.

(** ** What a stage may do *)
Definition same_bucket (spec spec' : RiakBucketSpec) : Prop :=
  bs_ClusterName spec' = bs_ClusterName spec ∧ bs_BucketName spec' = bs_BucketName spec ∧
  bs_BucketType spec' = bs_BucketType spec.
(** A grant that the operator sends to riak-admin ([grantTarget]), that riak-admin accepts, and
    that the harness expects back for the same bucket type and bucket ([target_key]). *)
Definition agreed (g : Grant) : Prop :=
  is_ok (grantTarget (g_Resource g) (g_BucketName g)) = true ∧ grant_unreserved g ∧
  ∃ t b, target_key (grant_target g) = Some (t, b) ∧ harness_key g = Some (t +:+ " " +:+ b).
(** A grant the harness can read; if the cluster's name is a word, the operator agrees on it. *)
Definition grant_usable (cluster : string) (g : Grant) : Prop :=
  is_Some (harness_key g) ∧ g_Permission g ∈ perms ∧ (g_Resource g = "any" ∨ g_Resource g = "bucket") ∧
  (is_word cluster = true → agreed g).
(** Usable grants, none twice. *)
Definition grants_drawn (cluster : string) (grants : list Grant) : Prop :=
  Forall (grant_usable cluster) grants ∧ NoDup (seen_key <$> grants).
Definition user_name (u : RiakUser) : string := om_Name (us_Meta u).
(** It reads; it edits the grants of users and the properties of buckets it has been shown,
    the stress test's left out, to grants that can be read and to another [n_val]; and it
    deletes such users. A random number below zero or less panics. *)
Definition stage_ok (s : stage) (a : hcall) : Prop :=
  match a with
  | HApi a =>
      match a with
      | AGet _ _ _ | AList _ _ _ | ANow => True
      | AUpdate k o =>
          match k as k' return obj k' → Prop with
          | KUser => λ o, ∃ u gs, u ∈ sg_users s ∧ isStressObject (user_name u) = false ∧
              o = us_set_Grants u gs ∧ grants_drawn (us_ClusterName (us_Spec u)) gs
          | KBucket => λ o, ∃ b spec, b ∈ sg_buckets s ∧ isStressObject (om_Name (bk_Meta b)) = false ∧
              o = bk_set_Spec b spec ∧ same_bucket (bk_Spec b) spec ∧ n_val spec ≠ n_val (bk_Spec b)
          | _ => λ _, False
          end o
      | ADelete k key => k = KUser ∧ ∃ u, u ∈ sg_users s ∧ isStressObject (user_name u) = false ∧
          key = mkKey (om_Namespace (us_Meta u)) (user_name u)
      | _ => False
      end
  | HSleep _ => True
  | HIntn n => (0 < n)%Z
  end.

Section stages.
(** The [i]-th random number, below [n]. *)
Context (rng : nat → Z → Z) (Hrng : ∀ i n, (0 < n)%Z → (0 ≤ rng i n < n)%Z).
(** A call is answered within [lag]; a sleep lasts at least as long as it was asked to, and at
    most [lag] longer. *)
Context (lag : Z) (Hlag : (0 ≤ lag)%Z).
Definition stage_answer (s : stage) (a : hcall) : hreply a → stage → Prop :=
  match a as a' return hreply a' → stage → Prop with
  | HApi a => λ r s', ∃ t, (sg_now s ≤ t ≤ sg_now s + lag)%Z ∧ s' = sg_at (shown_api s a r) t ∧
      match a as a' return reply a' → Prop with ANow => λ now, now = t | _ => λ _, True end r
  | HSleep d => λ _ s', ∃ t, (sg_now s + d ≤ t ≤ sg_now s + d + lag)%Z ∧ s' = sg_at s t
  | HIntn n => λ x s', x = rng (sg_draws s) n ∧
      s' = mkStage (sg_now s) (S (sg_draws s)) (sg_users s) (sg_buckets s) (sg_deleted s) (sg_unread s)
  end.
Definition stage_env : Env hreply stage := {| allowed := stage_ok; step := stage_answer |}.
Abbreviation wph := (wp stage_env).

(** ** The loops end *)
(** Every user and bucket shown was Ready for its generation. *)
Definition all_observed (s : stage) : Prop :=
  Forall (λ u, readyFor (ust_Conditions (us_Status u)) (om_Generation (us_Meta u)) = true) (sg_users s) ∧
  Forall (λ b, readyFor (bst_Conditions (bk_Status b)) (om_Generation (bk_Meta b)) = true) (sg_buckets s).
Lemma none_left {A} (f : A → bool) l : length (List.filter (λ x, negb (f x)) l) = 0 ↔ Forall (λ x, f x = true) l.
Proof.
  induction l as [|x l IH]; [by split|]. cbn. rewrite Forall_cons, <-IH. destruct (f x); cbn; [tauto|].
  split; [done|by intros [? _]].
Qed.
Lemma pending_zero users buckets :
  pending users buckets = 0%Z ↔
  Forall (λ u, readyFor (ust_Conditions (us_Status u)) (om_Generation (us_Meta u)) = true) users ∧
  Forall (λ b, readyFor (bst_Conditions (bk_Status b)) (om_Generation (bk_Meta b)) = true) buckets.
Proof. rewrite <-!none_left. unfold pending, user_pending, bucket_pending. lia. Qed.
(** When a poll that follows a sleep begins at the latest. *)
Definition last_poll (o : opts) (deadline : Z) (s : stage) : Z :=
  Z.max (sg_now s) (deadline + o_poll o + lag).
Lemma observed_loop_ends fuel o timeout deadline s :
  (1 ≤ o_poll o)%Z → 0 < fuel → (deadline < sg_now s + Z.of_nat (fuel - 1) * o_poll o)%Z →
  wph (observed_loop fuel o timeout deadline)
    (λ r s', ∃ e, r = Some e ∧ (e = None → all_observed s') ∧
      (sg_now s' ≤ last_poll o deadline s + 3 * lag)%Z) s.
Proof.
  intros Hp. unfold last_poll. revert s. induction fuel as [|fuel IH]; intros s Hf Hd; [lia|].
  cbn [observed_loop]. unfold hList.
  apply wp_call; [done|]. intros us s1 (t1 & Ht1 & -> & _).
  destruct us as [users|e]; [|apply wp_ret; exists (Some e); split_and!; [done|done|cbn; lia]].
  apply wp_call; [done|]. intros bs s2 (t2 & Ht2 & -> & _). cbn in *.
  destruct bs as [buckets|e]; [|apply wp_ret; exists (Some e); split_and!; [done|done|cbn; lia]].
  destruct (Z.eqb_spec (pending users buckets) 0) as [Hz|_].
  { apply wp_ret. exists None. split_and!; [done| |cbn; lia]. intros _. by apply pending_zero in Hz. }
  apply wp_call; [done|]. intros now s3 (t3 & Ht3 & -> & ->). cbn in *. destruct (Z.ltb_spec deadline t3) as [|Hlt].
  { apply wp_ret. eexists. split_and!; [done|done|cbn; lia]. }
  apply wp_call; [done|]. intros [] s4 (t4 & Ht4 & ->). cbn in *.
  eapply wp_mono; [apply IH; cbn; destruct fuel; lia|]. cbn. intros r s' (e & -> & He & Ht).
  exists e. split_and!; [done|done|lia].
Qed.
Lemma gone_loop_ends fuel o timeout deadline name s :
  (1 ≤ o_poll o)%Z → 0 < fuel → (deadline < sg_now s + Z.of_nat (fuel - 1) * o_poll o)%Z →
  wph (gone_loop fuel o timeout deadline name)
    (λ r s', (∃ e, r = Some e ∧ (e = None → name ∈ sg_unread s') ∧
        (sg_now s' ≤ last_poll o deadline s + match e with Some _ => 2 | None => 1 end * lag)%Z) ∧
      (sg_now s ≤ sg_now s')%Z ∧ sg_deleted s' = sg_deleted s ∧ sg_users s' = sg_users s ∧
        sg_unread s ⊆ sg_unread s') s.
Proof.
  intros Hp. unfold last_poll. revert s. induction fuel as [|fuel IH]; intros s Hf Hd; [lia|].
  cbn [gone_loop]. unfold hGet.
  apply wp_call; [done|]. intros u s1 (t1 & Ht1 & -> & _). destruct u as [u|e]; cbn [is_ok].
  2: { apply wp_ret. split.
       { eexists. split_and!; [done|intros _; by left|]. cbn. lia. }
       cbn. split_and!; try done; [lia|set_solver]. }
  apply wp_call; [done|]. intros now s2 (t2 & Ht2 & -> & ->). cbn in *. destruct (Z.ltb_spec deadline t2) as [|Hlt].
  { apply wp_ret. split; [eexists; split_and!; [done|done|]; cbn; lia|]. cbn. split_and!; try done. lia. }
  apply wp_call; [done|]. intros [] s3 (t3 & Ht3 & ->). cbn in *.
  eapply wp_mono; [apply IH; cbn; destruct fuel; lia|]. cbn. intros r s' ((e & -> & He & Ht) & H1 & H2 & H3 & H4).
  split_and!; try done; [|lia]. exists e. split_and!; [done|done|]. destruct e; lia.
Qed.

(** *** Deleting users *)
(** The names of every [every]th user shown, the stress test's left out. *)
Definition chosen (every : nat) (users : list RiakUser) : list string :=
  (λ iu : nat * RiakUser, user_name iu.2) <$> every_nth every (SortBy user_name (withoutStressUsers users)).
Lemma every_nth_in {A} every (l : list A) ix : ix ∈ every_nth every l → ix.2 ∈ l.
Proof.
  unfold every_nth. rewrite list_elem_of_In. intros [Hin _]%filter_In. apply list_elem_of_In in Hin.
  apply elem_of_lookup_imap in Hin as (i & x & -> & Hx). by eapply list_elem_of_lookup_2.
Qed.
Lemma filter_shown {A} (key : A → string) (f : A → bool) (l : list A) every ix :
  ix ∈ every_nth every (SortBy key (List.filter f l)) → ix.2 ∈ l ∧ f ix.2 = true.
Proof.
  intros Hin%every_nth_in. unfold SortBy in Hin. rewrite merge_sort_Permutation in Hin.
  by apply list_elem_of_In, filter_In in Hin as [H%list_elem_of_In ?].
Qed.
Lemma chosen_shown every users iu :
  iu ∈ every_nth every (SortBy user_name (withoutStressUsers users)) →
  iu.2 ∈ users ∧ isStressObject (user_name iu.2) = false.
Proof. intros [Hin Hs]%filter_shown. split; [done|]. by apply negb_true_iff in Hs. Qed.
(** The time that [n] calls take at most. *)
Abbreviation calls n := (Z.of_nat n * lag)%Z.
Lemma calls_mono n m : n ≤ m → (calls n ≤ calls m)%Z.
Proof. intros Hn. apply Z.mul_le_mono_nonneg_r; lia. Qed.
Lemma calls_S n : calls (n + 1) = (calls n + lag)%Z.
Proof. lia. Qed.
Lemma delete_all users s :
  (∀ iu, iu ∈ users → iu.2 ∈ sg_users s ∧ isStressObject (user_name iu.2) = false) →
  wph (for_each users [] delete_user)
    (λ d s', (match d with
             | inl r => ∃ n e, r = Some (n, Some e)
             | inr gone => gone = (λ iu : nat * RiakUser, user_name iu.2) <$> users ∧
                 sg_deleted s' = sg_deleted s ++ gone
             end) ∧ sg_users s' = sg_users s ∧ (sg_now s ≤ sg_now s' ≤ sg_now s + calls (length users))%Z) s.
Proof.
  intros Hin.
  set (Inv := λ (l : list (nat * RiakUser)) s', sg_users s' = sg_users s ∧
    (sg_now s ≤ sg_now s' ≤ sg_now s + calls (length l))%Z).
  eapply wp_mono; [apply (wp_for_each stage_env users [] delete_user
    (λ seen gone s', (gone = (λ iu : nat * RiakUser, user_name iu.2) <$> seen ∧
       sg_deleted s' = sg_deleted s ++ gone) ∧ Inv seen s')
    (λ r s', (∃ n e, r = Some (n, Some e)) ∧ Inv users s'))|by intros [] ?].
  { rewrite app_nil_r. split; [done|]. split; [done|]. cbn. lia. }
  intros seen iu rest gone s1 Hl ((-> & Hd) & Hu & Hn). unfold delete_user, hDelete. apply wp_call.
  { split; [done|]. exists iu.2. rewrite Hu. destruct (Hin iu) as [H1 H2]; [rewrite Hl; set_solver|done]. }
  intros e s2 (t & Ht & -> & _).
  assert (length seen + 1 ≤ length users) as Hlen by (rewrite Hl, length_app; cbn; lia).
  pose proof (calls_mono _ _ Hlen) as Hcalls. rewrite calls_S in Hcalls.
  destruct e as [e|]; apply wp_ret; cbn.
  - split; [by eexists _, _|]. split; [done|]. cbn. lia.
  - split; [rewrite fmap_app, Hd, app_assoc; done|]. split; [done|]. rewrite length_app, calls_S. cbn. lia.
Qed.
Lemma wait_all fuel o timeout deadline n names s :
  (1 ≤ o_poll o)%Z → 0 < fuel → (deadline < sg_now s + Z.of_nat (fuel - 1) * o_poll o)%Z →
  wph (for_each names tt (wait_gone fuel o timeout deadline n))
    (λ w s', (match w with
             | inl r => ∃ n e, r = Some (n, Some e)
             | inr _ => (∀ name, name ∈ names → name ∈ sg_unread s') ∧ sg_deleted s' = sg_deleted s
             end) ∧ sg_users s' = sg_users s ∧
             (sg_now s' ≤ last_poll o deadline s + calls (length names + 1))%Z) s.
Proof.
  intros Hp Hf Hd. eapply wp_mono; [apply (wp_for_each stage_env names tt (wait_gone fuel o timeout deadline n)
    (λ seen _ s', ((∀ name, name ∈ seen → name ∈ sg_unread s') ∧ sg_deleted s' = sg_deleted s) ∧
       sg_users s' = sg_users s ∧ (sg_now s ≤ sg_now s' ≤ last_poll o deadline s + calls (length seen))%Z)
    (λ r s', (∃ n e, r = Some (n, Some e)) ∧ sg_users s' = sg_users s ∧
       (sg_now s' ≤ last_poll o deadline s + calls (length names + 1))%Z))|].
  3: { intros [r|[]] s'; [done|]. intros (H1 & H2 & H3). split_and!; [apply H1..|done|lia]. }
  { split_and!; try done; [by intros name ?%elem_of_nil|unfold last_poll; cbn; lia]. }
  intros seen name rest [] s1 Hl ((Hseen & Hdel) & Hu & Hn & Hn'). unfold wait_gone.
  assert (length seen + 1 ≤ length names) as Hlen by (rewrite Hl, length_app; cbn; lia).
  pose proof (calls_mono _ _ Hlen) as Hcalls. rewrite calls_S in Hcalls. unfold last_poll in *.
  eapply wp_bind_2; [apply gone_loop_ends; [done|done|lia]|]. unfold last_poll.
  intros r s2 ((e & -> & He & Ht) & H1 & H2 & H3 & H4). destruct e as [e|]; apply wp_ret; cbn in Ht.
  - split; [by eexists _, _|]. split; [congruence|]. lia.
  - split_and!; [|congruence|congruence|lia|rewrite length_app, calls_S; lia].
    intros q [Hq|Hq%list_elem_of_singleton]%elem_of_app; subst; auto.
Qed.
Lemma deleteUsers_ends fuel o every timeout s :
  (1 ≤ o_poll o)%Z → 0 < fuel → (0 ≤ timeout < Z.of_nat (fuel - 1) * o_poll o)%Z →
  wph (deleteUsers fuel o every timeout)
    (λ r s', let names := chosen every (sg_users s') in
      ∃ n e, r = Some (n, e) ∧ (e = None →
       n = Z.of_nat (length names) ∧ sg_deleted s' = sg_deleted s ++ names ∧
       ∀ name, name ∈ names → name ∈ sg_unread s') ∧
      (sg_now s' ≤ sg_now s + timeout + o_poll o + calls (2 * length names + 4))%Z) s.
Proof.
  intros Hp Hf Ht. unfold deleteUsers, hList. apply wp_call; [done|]. intros l s1 (t1 & Ht1 & -> & _).
  destruct l as [items|e].
  2: { apply wp_ret. eexists _, _. split_and!; [done|done|]. cbn. lia. }
  eapply wp_bind_2; [apply delete_all; apply chosen_shown|]. intros d s2 (Hd & Hu & Hn).
  assert (length (every_nth every (SortBy (λ u, om_Name (us_Meta u)) (withoutStressUsers items))) =
    length (chosen every (sg_users s2))) as Hlen.
  { rewrite Hu. unfold chosen. by rewrite length_fmap. }
  cbn in Hn. rewrite Hlen in Hn. destruct d as [r|gone].
  { apply wp_ret. destruct Hd as (n & e & ->). eexists _, _. split_and!; [done|done|]. lia. }
  destruct Hd as (Hgone & Hdel). apply wp_call; [done|]. intros now s3 (t3 & Ht3 & -> & ->).
  eapply wp_bind_2; [apply wait_all; [done|done|cbn; lia]|]. intros w s4 (Hw & Hu' & Hn4). apply wp_ret.
  assert (gone = chosen every (sg_users s4)) as Hc by (cbn in Hu'; rewrite Hu', Hu; by symmetry).
  cbn in Hu'. unfold last_poll in Hn4. cbn in Hn4. rewrite <-Hu', <-Hc in Hn. rewrite <-Hc.
  destruct w as [r|u].
  { destruct Hw as (n & e & ->). eexists _, _. split_and!; [done|done|lia]. }
  destruct Hw as (Hw & Hdel'). eexists _, _. split_and!; [done| |lia]. intros _. cbn in *.
  split_and!; [done|congruence|exact Hw].
Qed.
Lemma waitObserved_ends fuel o timeout s :
  (1 ≤ o_poll o)%Z → 0 < fuel → (0 ≤ timeout < Z.of_nat (fuel - 1) * o_poll o)%Z →
  wph (waitObserved fuel o timeout) (λ r s', ∃ e, r = Some e ∧ (e = None → all_observed s') ∧
    (sg_now s' ≤ sg_now s + timeout + o_poll o + 5 * lag)%Z) s.
Proof.
  intros Hp Hf Ht. unfold waitObserved. apply wp_call; [done|]. intros now s1 (t1 & Ht1 & -> & ->).
  eapply wp_mono; [apply observed_loop_ends; [done|done|cbn; lia]|]. unfold last_poll. cbn.
  intros r s' (e & -> & He & Hn). exists e. split_and!; [done|done|lia].
Qed.

(** ** The random specs *)
Definition same_shown (s s' : stage) : Prop := sg_users s' = sg_users s ∧ sg_buckets s' = sg_buckets s.
Lemma n_val_numbers spec n r multi props :
  (n = 0 ∧ 0 < r ∨ r = 0 ∧ 0 < n)%Z → (props !! "n_val" = None) →
  n_val (bucket_numbers spec n r multi props) = Itoa (n + r).
Proof.
  intros Hn Hprops. unfold n_val, expectedBucketProps, bucket_numbers, map_get.
  cbn [bs_NVal bs_ReplicationFactor bs_Properties bs_AllowMulti].
  destruct Hn as [[-> Hr]|[-> Hn]].
  - cbn [Z.eqb]. rewrite (proj2 (Z.ltb_lt 0 r)) by done.
    destruct multi; [rewrite lookup_insert_ne by done|]; by rewrite lookup_insert_eq.
  - rewrite (proj2 (Z.eqb_neq n 0)) by lia. rewrite (proj2 (Z.ltb_lt 0 n)), Z.add_0_r by done.
    destruct multi; [rewrite lookup_insert_ne by done|]; by rewrite lookup_insert_eq.
Qed.
Lemma randomizeBucketProps_drawn spec s :
  wph (randomizeBucketProps spec)
    (λ spec' s', n_val spec' = Itoa (1 + rng (sg_draws s) 3) ∧ same_bucket spec spec' ∧
      sg_draws s' = 3 + sg_draws s ∧ same_shown s s') s.
Proof.
  unfold randomizeBucketProps. apply wp_call; [done|]. intros x s1 [-> ->]. apply wp_call; [done|].
  intros typed s2 [-> ->].
  apply wp_call; [done|]. intros multi s3 [-> ->]. apply wp_ret. cbn. pose proof (Hrng (sg_draws s) 3 eq_refl) as Hx.
  split_and!; [|repeat case_match; done|done|done].
  repeat case_match; (rewrite n_val_numbers; [f_equal; lia|lia|done]).
Qed.
(** The loop returns unless every draw is the old value. *)
Lemma props_loop_moves fuel old spec s :
  wph (props_loop fuel old spec)
    (λ r s', match r with
             | Some spec' => n_val spec' ≠ old ∧ same_bucket spec spec' ∧ same_shown s s'
             | None => n_val spec = old ∧ ∀ k, k < fuel → Itoa (1 + rng (sg_draws s + 3 * k) 3) = old
             end) s.
Proof.
  revert spec s. induction fuel as [|fuel IH]; intros spec s; cbn [props_loop];
    destruct (String.eqb_spec (n_val spec) old) as [He|He]; cbn [negb]; try (by apply wp_ret).
  - apply wp_ret. split; [done|]. intros k Hk. lia.
  - eapply wp_bind_2; [apply randomizeBucketProps_drawn|]. intros spec1 s1 (Hn & Hsame & Hd & Hsh).
    eapply wp_mono; [apply IH|]. intros [spec2|] s2.
    + intros (H1 & H2 & H3). split; [done|]. unfold same_bucket, same_shown in *. intuition congruence.
    + intros [H1 Hall]. split; [done|]. intros [|k] Hk; [by rewrite Nat.add_0_r, <-Hn|].
      specialize (Hall k). rewrite Hd in Hall. replace (sg_draws s + 3 * S k) with (3 + sg_draws s + 3 * k) by lia.
      apply Hall. lia.
Qed.

(** *** Grants *)
(** The grant made from the draws at [i]. *)
Definition drawn_grant (cluster : string) (buckets : Z) (i : nat) : Grant :=
  let permission := default "" (perms !! Z.to_nat (rng i 5)) in
  let b := rng (S i) buckets in
  let r := rng (S (S i)) 10 in
  if (r =? 0)%Z then mkGrant "any" "" permission
  else if (r <? 3)%Z then mkGrant "bucket" (random_bucket cluster b +:+ " bucket-" +:+ fmt_03d b) permission
  else mkGrant "bucket" (random_bucket cluster b) permission.
Lemma random_grant_drawn cluster buckets s :
  (0 < buckets)%Z →
  wph (random_grant cluster buckets)
    (λ g s', g = drawn_grant cluster buckets (sg_draws s) ∧ sg_draws s' = 3 + sg_draws s ∧ same_shown s s') s.
Proof. intros Hb. unfold random_grant. do 3 (apply wp_call; [done|]; intros ? ? [-> ->]). by apply wp_ret. Qed.
Lemma bucket_key bucket : Str.all is_space bucket = false → is_Some (harness_key (mkGrant "bucket" bucket "")).
Proof.
  intros Hb. unfold harness_key. cbn [g_Resource g_BucketName String.eqb Ascii.eqb Bool.eqb].
  destruct (Fields bucket) as [|f [|f' l]] eqn:Hf; [|by eexists|by eexists].
  apply Fields_blank in Hf. congruence.
Qed.
(** The names a draw makes: words with a dash in them, so none that is reserved. *)
Lemma substring_zeros n : Str.all is_digit (String.substring 0 n "000") = true.
Proof. do 4 (destruct n as [|n]; [done|]). done. Qed.
Lemma fmt_03d_digits z : (0 ≤ z)%Z → Str.all is_digit (fmt_03d z) = true.
Proof. intros Hz. unfold fmt_03d. by rewrite Str.all_app, substring_zeros, Itoa_digits. Qed.
Definition drawn_word (w : string) : Prop := is_word w = true ∧ no_byte "-" w = false.
Lemma dash_word p t : is_word (p +:+ "-") = true → Str.all is_digit t = true → drawn_word ((p +:+ "-") +:+ t).
Proof.
  intros [Hne Hp]%is_word_spec Ht. split.
  - apply is_word_spec. split; [by destruct p|]. by rewrite Str.all_app, Hp, (digits_no_space t).
  - unfold no_byte. rewrite !Str.all_app. cbn. by rewrite andb_false_r.
Qed.
Lemma random_bucket_word cluster b : is_word cluster = true → (0 ≤ b)%Z → drawn_word (random_bucket cluster b).
Proof.
  intros [Hne Hc]%is_word_spec Hb%fmt_03d_digits. unfold random_bucket. revert Hb. generalize (fmt_03d b).
  intros f Hb. split.
  - apply is_word_spec. split; [by destruct cluster|]. by rewrite !Str.all_app, Hc, (digits_no_space f).
  - unfold no_byte. rewrite !Str.all_app. cbn. by rewrite andb_false_r.
Qed.
Lemma drawn_not_reserved w : drawn_word w → ¬ reserved w.
Proof. intros [_ Hd]. unfold reserved. rewrite !elem_of_cons, elem_of_nil. by intros [->|[->|[->|[]]]]. Qed.
(** One or two such words are a target that operator and harness agree on. *)
Lemma words_agreed bucket ws p :
  Fields bucket = ws → Forall drawn_word ws → 0 < length ws ≤ 2 → agreed (mkGrant "bucket" bucket p).
Proof.
  intros Hf Hw Hl. unfold agreed, grantTarget, grant_unreserved, target_key, grant_target, harness_key, resourceAny.
  cbn [g_Resource g_BucketName fst snd String.eqb Ascii.eqb Bool.eqb]. rewrite Hf.
  assert (∀ w, drawn_word w → String.eqb w "any" = false) as Hany.
  { intros w Hd%drawn_not_reserved. apply String.eqb_neq. intros ->. by apply Hd; right; left. }
  destruct ws as [|w1 [|w2 [|w3 ws]]]; cbn in Hl; [lia| | |lia]; (split; [done|]);
    (split; [by apply (Forall_impl _ _ _ Hw), drawn_not_reserved|]); inversion Hw; subst; cbn;
      rewrite Hany by done; by eexists _, _.
Qed.
Lemma drawn_agreed cluster buckets i :
  (0 < buckets)%Z → is_word cluster = true → agreed (drawn_grant cluster buckets i).
Proof.
  intros Hb Hc. unfold drawn_grant. pose proof (Hrng (S i) buckets Hb) as [Hpos _].
  pose proof (random_bucket_word cluster _ Hc Hpos) as Hw. pose proof (fmt_03d_digits _ Hpos) as Hd.
  case_match; [by split; [|split; [constructor|by eexists _, _]]|].
  assert (∀ w, drawn_word w → Fields w = [w]) as Hfw by (intros w [? _]; by apply Fields_word).
  case_match.
  - pose proof (dash_word "bucket" _ eq_refl Hd) as Hw2.
    eapply words_agreed; [|by constructor; [exact Hw|constructor; [exact Hw2|]]|cbn; lia].
    change (" bucket-" +:+ ?t) with (" " +:+ (("bucket" +:+ "-") +:+ t)).
    by rewrite Fields_pad_r, !Hfw.
  - eapply words_agreed; [by apply Hfw|by constructor|cbn; lia].
Qed.
Lemma drawn_usable cluster buckets i : (0 < buckets)%Z → grant_usable cluster (drawn_grant cluster buckets i).
Proof.
  intros Hb.
  assert (∀ s t, Str.all is_space (cluster +:+ "-t" +:+ s +:+ t) = false) as Hsp.
  { intros s t. rewrite Str.all_app. change ("-t" +:+ s +:+ t) with (String "-" ("t" +:+ s +:+ t)). cbn.
    by rewrite andb_false_r. }
  assert (default "" (perms !! Z.to_nat (rng i 5)) ∈ perms) as Hp.
  { pose proof (Hrng i 5 ltac:(lia)). destruct (lookup_lt_is_Some_2 perms (Z.to_nat (rng i 5))) as [p Hp];
    [cbn; lia|].
    rewrite Hp. by eapply list_elem_of_lookup_2. }
  enough (is_Some (harness_key (drawn_grant cluster buckets i)) ∧
    g_Permission (drawn_grant cluster buckets i) ∈ perms ∧
    (g_Resource (drawn_grant cluster buckets i) = "any" ∨
      g_Resource (drawn_grant cluster buckets i) = "bucket")) as (? & ? & ?).
  { split_and!; try done. by apply drawn_agreed. }
  unfold drawn_grant. case_match; [|case_match]; (split; [|split; [exact Hp|auto]]).
  - by eexists.
  - apply (bucket_key (random_bucket cluster _ +:+ _)). unfold random_bucket. rewrite !Str.app_assoc. apply Hsp.
  - apply (bucket_key (random_bucket cluster _)). unfold random_bucket.
    specialize (Hsp (fmt_03d (rng (S i) buckets)) ""). by rewrite Str.app_nil_r in Hsp.
Qed.
Lemma set_size_le (l : list string) : size (list_to_set l : gset string) ≤ length l.
Proof.
  induction l as [|x l IH]; [done|]. cbn [list_to_set length]. rewrite size_union_alt, size_singleton.
  pose proof (subseteq_size (list_to_set l ∖ {[x]} : gset string) (list_to_set l) ltac:(set_solver)). lia.
Qed.
(** What is remembered of the draws, [k] of them from [i] on. *)
Definition drawn_key (cluster : string) (buckets : Z) (i : nat) : string :=
  default "" (seen_key (drawn_grant cluster buckets i)).
Definition drawn_keys (cluster : string) (buckets : Z) (i k : nat) : gset string :=
  list_to_set ((λ j, drawn_key cluster buckets (i + 3 * j)) <$> seq 0 k).
Lemma drawn_keys_S cluster buckets i k :
  drawn_keys cluster buckets i (S k) = {[drawn_key cluster buckets i]} ∪ drawn_keys cluster buckets (3 + i) k.
Proof.
  unfold drawn_keys. cbn [seq fmap list_fmap list_to_set]. rewrite Nat.mul_0_r, Nat.add_0_r. f_equal. f_equal.
  rewrite <-fmap_S_seq, <-list_fmap_compose. apply list_fmap_ext. intros _ j _. unfold compose. f_equal. lia.
Qed.
Definition keys_of (grants : list Grant) : gset string := list_to_set (default "" ∘ seen_key <$> grants).
Lemma usable_key cluster g : grant_usable cluster g → ∃ k, seen_key g = Some k.
Proof. intros [[k Hk] _]. unfold seen_key. rewrite Hk. by eexists. Qed.
Lemma keys_of_in g k grants : seen_key g = Some k → seen_key g ∈ seen_key <$> grants → k ∈ keys_of grants.
Proof.
  intros Hk (g' & He & Hin)%list_elem_of_fmap. apply elem_of_list_to_set, list_elem_of_fmap. exists g'.
  split; [|done].
  cbn. by rewrite <-He, Hk.
Qed.
(** The loop returns unless the draws name too few different grants. *)
Lemma grants_loop_drawn fuel cluster buckets n grants s :
  (0 < buckets)%Z → grants_drawn cluster grants → (Z.of_nat (length grants) ≤ n)%Z →
  wph (grants_loop fuel cluster buckets n (keys_of grants) grants)
    (λ r s', match r with
            | Some gs => grants_drawn cluster gs ∧ Z.of_nat (length gs) = n ∧ same_shown s s'
            | None => (Z.of_nat (size (keys_of grants ∪ drawn_keys cluster buckets (sg_draws s) fuel)) < n)%Z
            end) s.
Proof.
  intros Hb. revert grants s. induction fuel as [|fuel IH]; intros grants s Hg Hl; cbn [grants_loop];
    (destruct (Z.leb_spec n (Z.of_nat (length grants))) as [Hle|Hgt]; [apply wp_ret; split; [done|split;
      [lia|done]]|]).
  - apply wp_ret. change (drawn_keys cluster buckets (sg_draws s) 0) with (∅ : gset string). rewrite union_empty_r_L.
    enough (size (keys_of grants) ≤ length grants) by lia. unfold keys_of.
    rewrite <-(length_fmap (default "" ∘ seen_key) grants). apply set_size_le.
  - eapply wp_bind_2; [by apply random_grant_drawn|]. intros g s1 (Hgd & Hd & Hsh).
    assert (∀ s2, same_shown s1 s2 → same_shown s s2) as Htr by (unfold same_shown in *; intuition congruence).
    assert (grant_usable cluster g) as Hu by (rewrite Hgd; by apply drawn_usable).
    destruct (usable_key cluster g Hu) as [k Hk].
    assert (drawn_key cluster buckets (sg_draws s) = k) as Hkey by (unfold drawn_key; by rewrite <-Hgd, Hk).
    rewrite Hk, drawn_keys_S, Hkey, <-Hd. case_bool_decide as Hseen.
    + eapply wp_mono; [by apply IH|]. intros [gs|] s2; [naive_solver|].
      by rewrite (assoc_L (∪)), (comm_L (∪) _ {[k]}), (subseteq_union_1_L {[k]}) by set_solver.
    + assert ({[k]} ∪ keys_of grants = keys_of (grants ++ [g])) as ->.
      { unfold keys_of. rewrite fmap_app, list_to_set_app_L. cbn. rewrite Hk. cbn. set_solver. }
      eapply wp_mono; [apply IH|].
      * destruct Hg as [H1 H2]. split; [apply Forall_app; by split; [|constructor]|]. rewrite fmap_app.
        apply NoDup_app.
        split; [done|]. split; [|apply NoDup_singleton]. intros q Hq ->%list_elem_of_singleton.
        by apply Hseen, (keys_of_in g).
      * rewrite length_app. cbn. lia.
      * intros [gs|] s2; [naive_solver|]. intros Hs. eapply Z.le_lt_trans; [|exact Hs].
        apply Nat2Z.inj_le, subseteq_size.
        unfold keys_of. rewrite fmap_app, list_to_set_app_L. cbn. rewrite Hk. cbn. set_solver.
Qed.

(** *** The editing stages *)
(** The random numbers are not stuck: whatever the position, the next draws name enough
    different grants, and do not all give the same [n_val]. *)
Record lively (fuel : nat) (buckets : Z) : Prop := {
  li_grants i cluster : (0 < buckets)%Z → 4 ≤ size (drawn_keys cluster buckets i fuel);
  li_props i old : ∃ k, k < fuel ∧ Itoa (1 + rng (i + 3 * k) 3) ≠ old
}.
Lemma randomGrants_drawn fuel cluster buckets s :
  (0 ≤ buckets)%Z → lively fuel buckets →
  wph (randomGrants fuel cluster buckets) (λ r s', ∃ gs, r = Some gs ∧ grants_drawn cluster gs ∧ same_shown s s') s.
Proof.
  intros Hb [Hl _]. unfold randomGrants. destruct (Z.eqb_spec buckets 0) as [->|Hne].
  { apply wp_ret. eexists. split; [done|]. split; [|done]. split; [|apply NoDup_singleton].
    constructor; [|done]. split; [by eexists|]. split; [by apply (bool_decide_unpack _); vm_compute|].
    split; [by left|]. intros _. split; [done|]. split; [constructor|by eexists _, _]. }
  apply wp_call; [done|]. intros x s1 [-> ->]. pose proof (Hrng (sg_draws s) 4 ltac:(lia)) as Hx. cbn.
  eapply wp_mono; [apply (grants_loop_drawn fuel cluster buckets _ []); [lia|split; constructor|cbn; lia]|].
  intros [gs|] s2; [intros (H1 & _ & H2); by exists gs|]. intros Hs. cbn in Hs.
  specialize (Hl (S (sg_draws s)) cluster ltac:(lia)).
  change (keys_of []) with (∅ : gset string) in Hs. rewrite union_empty_l_L in Hs. lia.
Qed.
Lemma mutateGrants_ends fuel o s :
  (0 ≤ o_buckets o)%Z → lively fuel (o_buckets o) → wph (mutateGrants fuel o) (λ r _, is_Some r) s.
Proof.
  intros Hb Hl. unfold mutateGrants, hList. apply wp_call; [done|]. intros l s1 (t1 & Ht1 & -> & _).
  destruct l as [items|e]; [|by apply wp_ret]. eapply wp_bind_2.
  - apply (wp_for_each stage_env _ 0%Z (mutate_user fuel o) (λ _ _ s', sg_users s' = items)
    (λ r _, is_Some r)); [done|].
    intros seen iu rest n s2 Hiu Hs. assert (iu ∈ every_nth 3 (SortBy user_name (withoutStressUsers items))) as Hin.
    { unfold user_name. rewrite Hiu. set_solver. }
    destruct (chosen_shown _ _ _ Hin) as [Hu Hstress]. unfold mutate_user.
    eapply (wp_bind_2 _ _ _ (λ r s', ∃ gs, r = Some gs ∧ grants_drawn (us_ClusterName (us_Spec iu.2)) gs ∧
      same_shown s2 s')).
    { unfold new_grants. destruct (_ =? 0); [|by apply randomGrants_drawn].
      apply wp_ret. exists []. split; [done|]. split; [|done]. split; constructor. }
    intros r s3 (gs & -> & Hgs & [Hs3 _]). apply wp_call.
    { exists iu.2, gs. by rewrite Hs3, Hs. }
    intros r s4 (t & _ & -> & _). destruct r as [u|e]; apply wp_ret; [|by eexists]. cbn. congruence.
  - intros r s2 Hr. apply wp_ret. destruct r; [done|by eexists].
Qed.
Lemma mutateBuckets_ends fuel o s : lively fuel (o_buckets o) → wph (mutateBuckets fuel o) (λ r _, is_Some r) s.
Proof.
  intros Hl. unfold mutateBuckets, hList. apply wp_call; [done|]. intros l s1 (t1 & Ht1 & -> & _).
  destruct l as [items|e]; [|by apply wp_ret]. eapply wp_bind_2.
  - apply (wp_for_each stage_env _ 0%Z (mutate_bucket fuel) (λ _ _ s', sg_buckets s' = items)
    (λ r _, is_Some r)); [done|].
    intros seen ib rest n s2 Hib Hs.
    assert (ib ∈ every_nth 3 (SortBy (λ b, om_Name (bk_Meta b))
      (withoutStressBuckets items))) as Hin by (rewrite Hib; set_solver).
    apply filter_shown in Hin as [Hin Hstress%negb_true_iff]. unfold mutate_bucket.
    eapply wp_bind_2; [apply props_loop_moves|]. intros r s3 Hr. destruct r as [spec|].
    2: { destruct Hr as [_ Hold]. destruct (li_props _ _ Hl (sg_draws s2)
      (n_val (bk_Spec ib.2))) as (k & Hk & Hne). by destruct Hne; apply Hold. }
    destruct Hr as (Hmoved & Hsame & _ & Hs3). apply wp_call.
    { exists ib.2, spec. by rewrite Hs3, Hs. }
    intros r s4 (t & _ & -> & _). destruct r as [b|e]; apply wp_ret; [|by eexists]. cbn. congruence.
  - intros r s2 Hr. apply wp_ret. destruct r; [done|by eexists].
Qed.
End stages.

(** ** Random numbers to run with *)
Definition demo_rng (i : nat) (n : Z) : Z := if (n =? 10)%Z then 0%Z else (Z.of_nat (i / 3) `mod` n)%Z.
Lemma demo_rng_range i n : (0 < n)%Z → (0 ≤ demo_rng i n < n)%Z.
Proof. intros Hn. unfold demo_rng. destruct (_ =? _)%Z; [lia|by apply Z.mod_pos_bound]. Qed.
Lemma demo_rng_round i k n :
  demo_rng (i + 3 * k) n = if (n =? 10)%Z then 0%Z else ((Z.of_nat (i / 3) + Z.of_nat k) `mod` n)%Z.
Proof. unfold demo_rng. rewrite (Nat.mul_comm 3), Nat.div_add by done. by rewrite Nat2Z.inj_add. Qed.
Lemma demo_drawn i cluster buckets p :
  p ∈ perms → "* */" +:+ p ∈ drawn_keys demo_rng cluster buckets i 5.
Proof.
  intros Hp. assert (∃ j : nat, (j < 5)%nat ∧ perms !! j = Some p) as (j & Hj & Hpj).
  { apply list_elem_of_lookup_1 in Hp as [j Hj]. exists j. split; [by apply lookup_lt_Some in Hj|done]. }
  set (q := Z.of_nat (i / 3)). set (k := Z.to_nat ((Z.of_nat j - q) `mod` 5)).
  pose proof (Z.mod_pos_bound (Z.of_nat j - q) 5 ltac:(lia)) as Hk.
  apply elem_of_list_to_set, list_elem_of_fmap. exists k. split; [|apply elem_of_seq; lia].
  assert (demo_rng (i + 3 * k) 5 = Z.of_nat j) as Hd.
  { rewrite demo_rng_round. change (5 =? 10)%Z with false. cbn iota. unfold k. rewrite Z2Nat.id by lia. fold q.
    rewrite Zplus_mod_idemp_r. replace (q + (Z.of_nat j - q))%Z with (Z.of_nat j) by lia. apply Z.mod_small. lia. }
  unfold drawn_key, drawn_grant. rewrite Hd, Nat2Z.id, Hpj. done.
Qed.
Lemma drawn_keys_mono cluster buckets i k k' :
  k ≤ k' → drawn_keys demo_rng cluster buckets i k ⊆ drawn_keys demo_rng cluster buckets i k'.
Proof.
  intros Hk key (j & -> & Hj%elem_of_seq)%elem_of_list_to_set%list_elem_of_fmap.
  apply elem_of_list_to_set, list_elem_of_fmap.
  exists j. split; [done|]. apply elem_of_seq. lia.
Qed.
Lemma demo_lively fuel buckets : 5 ≤ fuel → lively demo_rng fuel buckets.
Proof.
  intros Hfuel. split.
  - intros i cluster _. etrans; [|eapply subseteq_size, drawn_keys_mono, Hfuel].
    assert (((λ p, "* */" +:+ p) <$> perms : list string) ⊆ elements (drawn_keys demo_rng cluster buckets i 5)) as Hsub.
    { intros k (p & -> & Hp)%list_elem_of_fmap. by apply elem_of_elements, demo_drawn. }
    apply NoDup_submseteq, submseteq_length in Hsub; [exact (Nat.le_trans 4 5 _ ltac:(lia) Hsub)|].
    apply (bool_decide_unpack _). by vm_compute.
  - intros i old. destruct (decide (Itoa (1 + demo_rng (i + 3 * 0) 3) = old)) as [<-|]; [|exists 0; split;
    [lia|done]].
    exists 1. split; [lia|]. rewrite !demo_rng_round. intros He%(inj pretty).
    change (Z.eqb 3 10) with false in He. cbn iota in He.
    pose proof (Z.mod_pos_bound (Z.of_nat (i / 3)) 3). revert He. generalize (Z.of_nat (i / 3)). intros q He.
    pose proof (Z.div_mod (q + 1) 3). pose proof (Z.div_mod (q + 0) 3). lia.
Qed.

(** ** Properties *)
Section properties.
Context (rng : nat → Z → Z) (Hrng : ∀ i n, (0 < n)%Z → (0 ≤ rng i n < n)%Z).

(** C34: The stages that change the cluster end, whatever the API answers, and change nothing
    else. With random numbers that are not stuck, both editing stages return; every edit they
    send is of a user or bucket they have been shown and that is not the stress test's, to an
    [n_val] that has moved, or to grants, none twice, that the harness can read and that, the
    cluster's name being a word, the operator accepts and reads as the same bucket type and
    bucket. Both waiting stages return: without an error only if every user and bucket last
    shown was Ready for its own generation, and only if every user chosen was deleted and a
    later read of it failed. They give up at the first poll after their deadline: when no call
    takes longer than [lag], nor a sleep that much longer than it should, they return within
    the timeout, one poll interval and the time of the calls that are still made. *)
Theorem stages_end (fuel every : nat) (o : opts) (timeout lag : Z) (s : stage) :
  (1 ≤ o_poll o)%Z → (0 ≤ o_buckets o)%Z → lively rng fuel (o_buckets o) → (0 ≤ lag)%Z →
  0 < fuel → (0 ≤ timeout < Z.of_nat (fuel - 1) * o_poll o)%Z →
  wp (stage_env rng lag) (mutateGrants fuel o) (λ r _, is_Some r) s ∧
  wp (stage_env rng lag) (mutateBuckets fuel o) (λ r _, is_Some r) s ∧
  wp (stage_env rng lag) (waitObserved fuel o timeout)
    (λ r s', ∃ e, r = Some e ∧ (e = None → all_observed s') ∧
       (sg_now s' ≤ sg_now s + timeout + o_poll o + 5 * lag)%Z) s ∧
  wp (stage_env rng lag) (deleteUsers fuel o every timeout)
    (λ r s', let names := chosen every (sg_users s') in
       ∃ n e, r = Some (n, e) ∧ (e = None →
         n = Z.of_nat (length names) ∧ sg_deleted s' = sg_deleted s ++ names ∧
         ∀ name, name ∈ names → name ∈ sg_unread s') ∧
       (sg_now s' ≤ sg_now s + timeout + o_poll o + Z.of_nat (2 * length names + 4) * lag)%Z) s.
Proof.
  intros Hp Hb Hl Hlag Hf Ht. split; [by apply mutateGrants_ends|]. split; [by apply mutateBuckets_ends|].
  split; [by apply waitObserved_ends|by apply deleteUsers_ends].
Qed.
End properties.
Lemma stages_end_witness :
  wp (stage_env demo_rng second) (waitObserved 32 (mkOpts "db" 4 (10 * second)) (5 * minute))
    (λ r s', ∃ e, r = Some e ∧ (e = None → all_observed s') ∧ (sg_now s' ≤ 315 * second)%Z) (mkStage 0 0 [] [] [] []).
Proof.
  destruct (stages_end demo_rng demo_rng_range 32 3 (mkOpts "db" 4 (10 * second)) (5 * minute) second
    (mkStage 0 0 [] [] [] []))
    as (_ & _ & H & _); [by vm_compute|by vm_compute|apply demo_lively; lia|by vm_compute|lia|by vm_compute|exact H].
Defined.
